(** * SU2 incompressible Navier-Stokes solver: residual assembly, local time
      step and wall boundary conditions

    Shallow embedding of

    - [Common/src/geometry/primal_grid/CQuadrilateral.cpp]
    - [SU2_CFD/include/solvers/CNSSolver.hpp] (conjugate-heat accessors)
    - [SU2_CFD/src/solvers/CIncNSSolver.cpp]

    Conventions of the embedding.

    - [su2double] is interpreted over the real numbers: [+ - * /], [sqrt],
      [fabs], [min] and [max] are the exact operations of [R].  Rounding,
      infinities and NaN are not part of the model; a division by zero is the
      total division of [R].
    - A C array is a list.  Reading outside the array is undefined behaviour
      in C++; here it yields the default element, and a write outside the
      array leaves it unchanged.  The theorems state the index conditions
      they need.
    - [unsigned short] / [unsigned long] indices are natural numbers; no index
      arithmetic of the modelled code can wrap on a mesh that fits in memory.
    - The build is the serial one: the blocks under [#ifdef HAVE_MPI] are not
      compiled.
    - [SU2_MPI::Error] aborts the run; a routine that can reach it returns a
      [result]. *)

From Stdlib Require Import Reals Lra Lia String NArith.
From stdpp Require Import base decidable option list.

Local Open Scope R_scope.

(** ** Scalars and arrays *)

Abbreviation su2double := R.

#[global] Instance su2double_inhabited : Inhabited su2double := populate 0.
#[global] Instance su2double_eq_dec : EqDecision su2double := Req_dec_T.

(** [for (i = 0; i < n; i++) a[i] = v;] *)
Definition array_fill {A} (n : nat) (v : A) (a : list A) : list A :=
  foldl (fun acc i => <[i := v]> acc) a (seq 0 n).

(** [s = 0; for (iDim = 0; iDim < nDim; iDim++) s += a[iDim]*b[iDim];] *)
Definition dot_loop (nDim : nat) (a b : list su2double) : su2double :=
  foldl (fun acc iDim => acc + (a !!! iDim) * (b !!! iDim)) 0 (seq 0 nDim).

(** [for (i = 0; i < n; i++) body(i)] over a state. *)
Definition for_loop {S} (n : nat) (body : nat -> S -> S) (s : S) : S :=
  foldl (fun acc i => body i acc) s (seq 0 n).

(** [std::swap(a[i], a[j])] *)
Definition array_swap {A} (i j : nat) (a : list A) : list A :=
  match a !! i, a !! j with
  | Some x, Some y => <[j := x]> (<[i := y]> a)
  | _, _ => a
  end.

(** ** Fatal errors *)

Inductive result (A : Type) : Type :=
| Ok (a : A)
| Fatal (msg : string) (func : string).
Arguments Ok {A} a.
Arguments Fatal {A} msg func.

#[global] Instance result_ret : MRet result := fun A a => Ok a.
#[global] Instance result_bind : MBind result := fun A B k m =>
  match m with
  | Ok a => k a
  | Fatal msg func => Fatal msg func
  end.

(** [SU2_MPI::Error(msg, CURRENT_FUNCTION)] *)
Definition SU2_MPI_Error {A} (msg func : string) : result A := Fatal msg func.

(** Sequential loop whose body may abort the run. *)
Fixpoint for_each {S} (body : nat -> S -> result S) (idx : list nat) (s : S)
  : result S :=
  match idx with
  | [] => Ok s
  | i :: rest => s' ← body i s; for_each body rest s'
  end.

(** ** CQuadrilateral.cpp *)

Module Quad.

Record CQuadrilateral : Type := mkCQuadrilateral {
  Nodes : list N;
  nDim : nat;
  Coord_FaceElems_CG : list (list su2double)
}.

(** [CQuadrilateral::CQuadrilateral(val_point_0, ..., val_point_3, val_nDim)] *)
Definition new_CQuadrilateral (val_point_0 val_point_1 val_point_2
                               val_point_3 : N) (val_nDim : nat)
  : CQuadrilateral :=
  let nFaces := 4%nat in
  {| Nodes := [val_point_0; val_point_1; val_point_2; val_point_3];
     nDim := val_nDim;
     Coord_FaceElems_CG := replicate nFaces (replicate val_nDim 0) |}.

(** [void CQuadrilateral::Change_Orientation() { std::swap(Nodes[1], Nodes[3]); }] *)
Definition Change_Orientation (q : CQuadrilateral) : CQuadrilateral :=
  {| Nodes := array_swap 1 3 (Nodes q);
     nDim := nDim q;
     Coord_FaceElems_CG := Coord_FaceElems_CG q |}.

End Quad.

(** ** CNSSolver.hpp: conjugate-heat variables

    [su2double ***HeatConjugateVar], indexed by marker, vertex and variable
    position.  [CIncNSSolver] keeps a table of the same shape, filled by its
    constructor and read through the same accessor. *)

Abbreviation HeatConjugateVar_t := (list (list (list su2double))).

(** [return HeatConjugateVar[val_marker][val_vertex][pos_var];] *)
Definition GetConjugateHeatVariable (HeatConjugateVar : HeatConjugateVar_t)
    (val_marker val_vertex pos_var : nat) : su2double :=
  ((HeatConjugateVar !!! val_marker) !!! val_vertex) !!! pos_var.

(** [HeatConjugateVar[val_marker][val_vertex][pos_var] =
       relaxation_factor*val_var
       + (1.0-relaxation_factor)*HeatConjugateVar[val_marker][val_vertex][pos_var];] *)
Definition SetConjugateHeatVariable (HeatConjugateVar : HeatConjugateVar_t)
    (val_marker val_vertex pos_var : nat)
    (relaxation_factor val_var : su2double) : HeatConjugateVar_t :=
  alter (alter (alter
    (fun old => relaxation_factor * val_var + (1 - relaxation_factor) * old)
    pos_var) val_vertex) val_marker HeatConjugateVar.

(** The triple addresses an allocated entry. *)
Definition HeatConjugateVar_allocated (HeatConjugateVar : HeatConjugateVar_t)
    (val_marker val_vertex pos_var : nat) : Prop :=
  exists row arr, HeatConjugateVar !! val_marker = Some row /\
                  row !! val_vertex = Some arr /\
                  (pos_var < length arr)%nat.

(** ** Configuration ([CConfig])

    The option enumerations live in [option_structure.hpp] and the class in
    [CConfig.hpp], neither of which is among the sources.  Each enumeration is
    given by the enumerators the modelled routines name, and one more
    constructor for every other value the option can hold. *)

Inductive ENUM_TIME_INT : Type :=
| RUNGE_KUTTA_EXPLICIT
| EULER_EXPLICIT
| EULER_IMPLICIT
| CLASSICAL_RK4_EXPLICIT.

Inductive TIME_MARCHING : Type :=
| STEADY
| TIME_STEPPING
| DT_STEPPING_1ST
| DT_STEPPING_2ND
| OTHER_TIME_MARCHING (code : nat).

Inductive ENUM_WALL_FUNCTIONS : Type :=
| NO_WALL_FUNCTION
| OTHER_WALL_FUNCTION (code : nat).

Inductive ENUM_CHT_COUPLING : Type :=
| DIRECT_TEMPERATURE_NEUMANN_HEATFLUX
| AVERAGED_TEMPERATURE_NEUMANN_HEATFLUX
| DIRECT_TEMPERATURE_ROBIN_HEATFLUX
| AVERAGED_TEMPERATURE_ROBIN_HEATFLUX
| OTHER_CHT_COUPLING (code : nat).

Inductive BC_TYPE : Type :=
| INTERNAL_BOUNDARY
| PERIODIC_BOUNDARY
| HEAT_FLUX
| ISOTHERMAL
| CHT_WALL_INTERFACE
| OTHER_BC (code : nat).

Inductive ENUM_TURB_MODEL : Type :=
| NONE
| SST
| SST_SUST
| OTHER_TURB_MODEL (code : nat).

#[global] Instance ENUM_TIME_INT_eq_dec : EqDecision ENUM_TIME_INT.
Proof. solve_decision. Defined.
#[global] Instance TIME_MARCHING_eq_dec : EqDecision TIME_MARCHING.
Proof. solve_decision. Defined.
#[global] Instance ENUM_WALL_FUNCTIONS_eq_dec : EqDecision ENUM_WALL_FUNCTIONS.
Proof. solve_decision. Defined.
#[global] Instance ENUM_CHT_COUPLING_eq_dec : EqDecision ENUM_CHT_COUPLING.
Proof. solve_decision. Defined.
#[global] Instance BC_TYPE_eq_dec : EqDecision BC_TYPE.
Proof. solve_decision. Defined.
#[global] Instance ENUM_TURB_MODEL_eq_dec : EqDecision ENUM_TURB_MODEL.
Proof. solve_decision. Defined.

#[global] Instance BC_TYPE_inhabited : Inhabited BC_TYPE := populate (OTHER_BC 0).
#[global] Instance string_inhabited : Inhabited string := populate EmptyString.

(** Modelled from the spec: the class [CConfig] is missing; the record holds
    the options the modelled routines query through [config->GetX()]
    (scheme selection, per-marker physical parameters, CFL values, reference
    values, energy-equation flag), one field per getter. *)
Record CConfig : Type := mkCConfig {
  Kind_TimeIntScheme : ENUM_TIME_INT;
  Kind_TimeIntScheme_Flow : ENUM_TIME_INT;
  Time_Marching : TIME_MARCHING;
  Energy_Equation : bool;
  Dynamic_Grid : bool;
  Kind_Turb_Model : ENUM_TURB_MODEL;
  Kind_CHT_Coupling : ENUM_CHT_COUPLING;
  Marker_All_KindBC : list BC_TYPE;
  Marker_All_TagBound : list string;
  Wall_HeatFlux : string -> su2double;
  Isothermal_Temperature : string -> su2double;
  WallFunction_Treatment : string -> ENUM_WALL_FUNCTIONS;
  Heat_Flux_Ref : su2double;
  Temperature_Ref : su2double;
  Viscosity_Ref : su2double;
  Temperature_FreeStreamND : su2double;
  CFL : list su2double;
  Max_DeltaTime : su2double;
  Unst_CFL : su2double;
  Delta_UnstTime : su2double;
  Delta_UnstTimeND : su2double
}.

(** Modelled from the spec: the indexed getters of [CConfig], which are
    missing; each one reads the entry of the marker or of the grid level. *)
Definition GetMarker_All_KindBC (config : CConfig) (iMarker : nat) : BC_TYPE :=
  Marker_All_KindBC config !!! iMarker.
Definition GetMarker_All_TagBound (config : CConfig) (val_marker : nat) : string :=
  Marker_All_TagBound config !!! val_marker.
Definition GetnMarker_All (config : CConfig) : nat :=
  length (Marker_All_KindBC config).
Definition GetCFL (config : CConfig) (iMesh : nat) : su2double :=
  CFL config !!! iMesh.

(** Modelled from the spec: [CConfig::SetDelta_UnstTimeND] is missing; it
    stores the non-dimensional physical time step. *)
Definition SetDelta_UnstTimeND (val : su2double) (config : CConfig) : CConfig :=
  {| Kind_TimeIntScheme := Kind_TimeIntScheme config;
     Kind_TimeIntScheme_Flow := Kind_TimeIntScheme_Flow config;
     Time_Marching := Time_Marching config;
     Energy_Equation := Energy_Equation config;
     Dynamic_Grid := Dynamic_Grid config;
     Kind_Turb_Model := Kind_Turb_Model config;
     Kind_CHT_Coupling := Kind_CHT_Coupling config;
     Marker_All_KindBC := Marker_All_KindBC config;
     Marker_All_TagBound := Marker_All_TagBound config;
     Wall_HeatFlux := Wall_HeatFlux config;
     Isothermal_Temperature := Isothermal_Temperature config;
     WallFunction_Treatment := WallFunction_Treatment config;
     Heat_Flux_Ref := Heat_Flux_Ref config;
     Temperature_Ref := Temperature_Ref config;
     Viscosity_Ref := Viscosity_Ref config;
     Temperature_FreeStreamND := Temperature_FreeStreamND config;
     CFL := CFL config;
     Max_DeltaTime := Max_DeltaTime config;
     Unst_CFL := Unst_CFL config;
     Delta_UnstTime := Delta_UnstTime config;
     Delta_UnstTimeND := val |}.

(** [bool implicit = (config->GetKind_TimeIntScheme() == EULER_IMPLICIT);] *)
Definition implicit_scheme (config : CConfig) : bool :=
  bool_decide (Kind_TimeIntScheme config = EULER_IMPLICIT).

(** [bool dual_time = ((config->GetTime_Marching() == DT_STEPPING_1ST) ||
                       (config->GetTime_Marching() == DT_STEPPING_2ND));] *)
Definition dual_time_marching (config : CConfig) : bool :=
  bool_decide (Time_Marching config = DT_STEPPING_1ST) ||
  bool_decide (Time_Marching config = DT_STEPPING_2ND).

(** ** Dual mesh ([CGeometry]) *)

(** Modelled from the spec: the class [CEdge] is missing; an edge is the pair
    of its end points and its area-weighted normal. *)
Record CEdge : Type := mkCEdge {
  edge_Node_0 : nat;
  edge_Node_1 : nat;
  edge_Normal : list su2double
}.

(** Modelled from the spec: the class [CVertex] is missing; a boundary vertex
    is a point index, its outward normal and its cached nearest interior
    neighbour. *)
Record CVertex : Type := mkCVertex {
  vertex_Node : nat;
  vertex_Normal : list su2double;
  vertex_Normal_Neighbor : nat
}.

(** Modelled from the spec: the class [CPoint] is missing; the control-volume
    geometry of one point: coordinates, volume, ownership flag and grid
    velocity. *)
Record CPoint : Type := mkCPoint {
  Coord : list su2double;
  Volume : su2double;
  Domain : bool;
  GridVel : list su2double
}.

#[global] Instance CEdge_inhabited : Inhabited CEdge := populate (mkCEdge 0 0 []).
#[global] Instance CVertex_inhabited : Inhabited CVertex := populate (mkCVertex 0 [] 0).
#[global] Instance CPoint_inhabited : Inhabited CPoint := populate (mkCPoint [] 0 false []).

(** Modelled from the spec: the class [CGeometry] is missing; it supplies the
    counts of points, the edges, the vertex list of every marker and the
    points. *)
Record CGeometry : Type := mkCGeometry {
  geo_nDim : nat;
  geo_nPoint : nat;
  geo_nPointDomain : nat;
  edges : list CEdge;
  vertex : list (list CVertex);
  geo_nodes : list CPoint
}.

(** Modelled from the spec: the accessors of [CGeometry], which are missing;
    each one reads the table of the same name. *)
Definition GetnEdge (geometry : CGeometry) : nat := length (edges geometry).
Definition GetnMarker (geometry : CGeometry) : nat := length (vertex geometry).
Definition GetnVertex (geometry : CGeometry) (iMarker : nat) : nat :=
  length (vertex geometry !!! iMarker).
Definition GetVertex (geometry : CGeometry) (iMarker iVertex : nat) : CVertex :=
  (vertex geometry !!! iMarker) !!! iVertex.
Definition GetEdge (geometry : CGeometry) (iEdge : nat) : CEdge :=
  edges geometry !!! iEdge.
Definition GetPoint (geometry : CGeometry) (iPoint : nat) : CPoint :=
  geo_nodes geometry !!! iPoint.
Definition GetVolume (geometry : CGeometry) (iPoint : nat) : su2double :=
  Volume (GetPoint geometry iPoint).
Definition GetDomain (geometry : CGeometry) (iPoint : nat) : bool :=
  Domain (GetPoint geometry iPoint).
Definition GetCoord (geometry : CGeometry) (iPoint : nat) : list su2double :=
  Coord (GetPoint geometry iPoint).
Definition GetGridVel (geometry : CGeometry) (iPoint : nat) : list su2double :=
  GridVel (GetPoint geometry iPoint).

(** ** Per-point state ([CIncNSVariable]) *)

(** Modelled from the spec: the class [CIncNSVariable] and its bases are
    missing.  One record per mesh point: the primitive variables (the
    constructor of the solver lists them as P, vx, vy, vz, T, rho, beta,
    lamMu, EddyMu, Kt_eff, Cp, Cv), their gradient, the old solution, the
    truncation error, the accumulated inviscid and viscous spectral radii, the
    local CFL number and the local time step. *)

Record CIncNSVariable : Type := mkCIncNSVariable {
  Pressure : su2double;
  Velocity : list su2double;
  Temperature : su2double;
  Density : su2double;
  BetaInc2 : su2double;
  LaminarViscosity : su2double;
  EddyViscosity : su2double;
  ThermalConductivity : su2double;
  SpecificHeatCp : su2double;
  SpecificHeatCv : su2double;
  Gradient_Primitive : list (list su2double);
  Solution_Old : list su2double;
  Res_TruncError : list su2double;
  Max_Lambda_Inv : su2double;
  Max_Lambda_Visc : su2double;
  LocalCFL : su2double;
  Delta_Time : su2double
}.

#[global] Instance CIncNSVariable_inhabited : Inhabited CIncNSVariable :=
  populate (mkCIncNSVariable 0 [] 0 0 0 0 0 0 0 0 [] [] [] 0 0 0 0).

Definition set_Solution_Old (v : list su2double) (p : CIncNSVariable) :=
  mkCIncNSVariable (Pressure p) (Velocity p) (Temperature p) (Density p)
    (BetaInc2 p) (LaminarViscosity p) (EddyViscosity p) (ThermalConductivity p)
    (SpecificHeatCp p) (SpecificHeatCv p) (Gradient_Primitive p)
    v (Res_TruncError p)
    (Max_Lambda_Inv p) (Max_Lambda_Visc p) (LocalCFL p) (Delta_Time p).

Definition set_Res_TruncError (v : list su2double) (p : CIncNSVariable) :=
  mkCIncNSVariable (Pressure p) (Velocity p) (Temperature p) (Density p)
    (BetaInc2 p) (LaminarViscosity p) (EddyViscosity p) (ThermalConductivity p)
    (SpecificHeatCp p) (SpecificHeatCv p) (Gradient_Primitive p)
    (Solution_Old p) v
    (Max_Lambda_Inv p) (Max_Lambda_Visc p) (LocalCFL p) (Delta_Time p).

Definition set_Max_Lambda_Inv (v : su2double) (p : CIncNSVariable) :=
  mkCIncNSVariable (Pressure p) (Velocity p) (Temperature p) (Density p)
    (BetaInc2 p) (LaminarViscosity p) (EddyViscosity p) (ThermalConductivity p)
    (SpecificHeatCp p) (SpecificHeatCv p) (Gradient_Primitive p)
    (Solution_Old p) (Res_TruncError p)
    v (Max_Lambda_Visc p) (LocalCFL p) (Delta_Time p).

Definition set_Max_Lambda_Visc (v : su2double) (p : CIncNSVariable) :=
  mkCIncNSVariable (Pressure p) (Velocity p) (Temperature p) (Density p)
    (BetaInc2 p) (LaminarViscosity p) (EddyViscosity p) (ThermalConductivity p)
    (SpecificHeatCp p) (SpecificHeatCv p) (Gradient_Primitive p)
    (Solution_Old p) (Res_TruncError p)
    (Max_Lambda_Inv p) v (LocalCFL p) (Delta_Time p).

Definition set_LocalCFL (v : su2double) (p : CIncNSVariable) :=
  mkCIncNSVariable (Pressure p) (Velocity p) (Temperature p) (Density p)
    (BetaInc2 p) (LaminarViscosity p) (EddyViscosity p) (ThermalConductivity p)
    (SpecificHeatCp p) (SpecificHeatCv p) (Gradient_Primitive p)
    (Solution_Old p) (Res_TruncError p)
    (Max_Lambda_Inv p) (Max_Lambda_Visc p) v (Delta_Time p).

Definition set_Delta_Time (v : su2double) (p : CIncNSVariable) :=
  mkCIncNSVariable (Pressure p) (Velocity p) (Temperature p) (Density p)
    (BetaInc2 p) (LaminarViscosity p) (EddyViscosity p) (ThermalConductivity p)
    (SpecificHeatCp p) (SpecificHeatCv p) (Gradient_Primitive p)
    (Solution_Old p) (Res_TruncError p)
    (Max_Lambda_Inv p) (Max_Lambda_Visc p) (LocalCFL p) v.

(** The container [nodes]: one record per point. *)
Abbreviation CVariable := (list CIncNSVariable).

(** Modelled from the spec: the accessors [nodes->GetX(iPoint)] are missing;
    each one reads the entry of the point.  [GetPrimitive] returns the
    primitive vector in the order given above. *)
Definition GetPrimitive (nodes : CVariable) (iPoint : nat) : list su2double :=
  let p := nodes !!! iPoint in
  Pressure p :: Velocity p ++
  [Temperature p; Density p; BetaInc2 p; LaminarViscosity p; EddyViscosity p;
   ThermalConductivity p; SpecificHeatCp p; SpecificHeatCv p].
Definition GetGradient_Primitive (nodes : CVariable) (iPoint : nat) :=
  Gradient_Primitive (nodes !!! iPoint).
Definition GetTemperature (nodes : CVariable) (iPoint : nat) : su2double :=
  Temperature (nodes !!! iPoint).
Definition GetDensity (nodes : CVariable) (iPoint : nat) : su2double :=
  Density (nodes !!! iPoint).
Definition GetBetaInc2 (nodes : CVariable) (iPoint : nat) : su2double :=
  BetaInc2 (nodes !!! iPoint).
Definition GetLaminarViscosity (nodes : CVariable) (iPoint : nat) : su2double :=
  LaminarViscosity (nodes !!! iPoint).
Definition GetEddyViscosity (nodes : CVariable) (iPoint : nat) : su2double :=
  EddyViscosity (nodes !!! iPoint).
Definition GetThermalConductivity (nodes : CVariable) (iPoint : nat) : su2double :=
  ThermalConductivity (nodes !!! iPoint).
Definition GetSpecificHeatCv (nodes : CVariable) (iPoint : nat) : su2double :=
  SpecificHeatCv (nodes !!! iPoint).
Definition GetMax_Lambda_Inv (nodes : CVariable) (iPoint : nat) : su2double :=
  Max_Lambda_Inv (nodes !!! iPoint).
Definition GetMax_Lambda_Visc (nodes : CVariable) (iPoint : nat) : su2double :=
  Max_Lambda_Visc (nodes !!! iPoint).
Definition GetLocalCFL (nodes : CVariable) (iPoint : nat) : su2double :=
  LocalCFL (nodes !!! iPoint).
Definition GetDelta_Time (nodes : CVariable) (iPoint : nat) : su2double :=
  Delta_Time (nodes !!! iPoint).

(** Modelled from the spec: [CVariable::GetProjVel] is missing; the projected
    velocity of the wave-speed estimate is the sum over the dimensions of
    [Velocity[iDim]*val_vector[iDim]]. *)
Definition GetProjVel (nDim : nat) (nodes : CVariable) (iPoint : nat)
    (val_vector : list su2double) : su2double :=
  dot_loop nDim (Velocity (nodes !!! iPoint)) val_vector.

(** Modelled from the spec: the accessors [nodes->SetX(iPoint, val)] and
    [nodes->AddX(iPoint, val)] are missing; they overwrite the entry of the
    point, or add to it. *)
Definition SetMax_Lambda_Inv (iPoint : nat) (val : su2double) (nodes : CVariable) :=
  alter (set_Max_Lambda_Inv val) iPoint nodes.
Definition SetMax_Lambda_Visc (iPoint : nat) (val : su2double) (nodes : CVariable) :=
  alter (set_Max_Lambda_Visc val) iPoint nodes.
Definition AddMax_Lambda_Inv (iPoint : nat) (val : su2double) (nodes : CVariable) :=
  alter (fun p => set_Max_Lambda_Inv (Max_Lambda_Inv p + val) p) iPoint nodes.
Definition AddMax_Lambda_Visc (iPoint : nat) (val : su2double) (nodes : CVariable) :=
  alter (fun p => set_Max_Lambda_Visc (Max_Lambda_Visc p + val) p) iPoint nodes.
Definition SetLocalCFL (iPoint : nat) (val : su2double) (nodes : CVariable) :=
  alter (set_LocalCFL val) iPoint nodes.
Definition SetDelta_Time (iPoint : nat) (val : su2double) (nodes : CVariable) :=
  alter (set_Delta_Time val) iPoint nodes.

(** Modelled from the spec: [CVariable::SetSolution_Old(iPoint, iVar, val)]
    is missing; it writes [Solution_Old(iPoint, iVar) = val]. *)
Definition SetSolution_Old (iPoint iVar : nat) (val : su2double) (nodes : CVariable) :=
  alter (fun p => set_Solution_Old (<[iVar := val]> (Solution_Old p)) p) iPoint nodes.

(** Modelled from the spec: [SetVelocity_Old] is missing; it imposes the
    wall velocity on the old solution,
    [for iDim: Solution_Old(iPoint, iDim+1) = val_vel[iDim]]. *)
Definition SetVelocity_Old (nDim iPoint : nat) (val_vel : list su2double)
    (nodes : CVariable) : CVariable :=
  for_loop nDim (fun iDim => SetSolution_Old iPoint (iDim + 1) (val_vel !!! iDim)) nodes.

(** Modelled from the spec: [SetVel_ResTruncError_Zero] is missing; it zeroes
    the velocity entries of the truncation error,
    [for iDim: Res_TruncError(iPoint, iDim+1) = 0.0]. *)
Definition SetVel_ResTruncError_Zero (nDim iPoint : nat) (nodes : CVariable) :=
  alter (fun p => set_Res_TruncError
           (for_loop nDim (fun iDim a => <[(iDim + 1)%nat := 0]> a) (Res_TruncError p)) p)
        iPoint nodes.

(** Modelled from the spec: [SetEnergy_ResTruncError_Zero] is missing; it
    zeroes the energy entry, [Res_TruncError(iPoint, nDim+1) = 0.0]. *)
Definition SetEnergy_ResTruncError_Zero (nDim iPoint : nat) (nodes : CVariable) :=
  alter (fun p => set_Res_TruncError (<[(nDim + 1)%nat := 0]> (Res_TruncError p)) p)
        iPoint nodes.

(** ** Residual vector ([CSysVector]) *)

(** The residual vector has one block of [nVar] entries per point. *)
Abbreviation CSysVector := (list (list su2double)).

(** Modelled from the spec: the block update of
    [CSysVector::SubtractBlock], which is missing:
    [block[iVar] -= val_residual[iVar]] for every [iVar] of the block. *)
Definition Block_minus (val_residual block : list su2double) : list su2double :=
  imap (fun iVar x => x - val_residual !!! iVar) block.

(** Modelled from the spec: the block update of [CSysVector::AddBlock],
    which is missing: [block[iVar] += val_residual[iVar]] for every [iVar] of
    the block. *)
Definition Block_plus (val_residual block : list su2double) : list su2double :=
  imap (fun iVar x => x + val_residual !!! iVar) block.

(** Modelled from the spec: [CSysVector::SubtractBlock] is missing; the flux
    is subtracted from the block of the point,
    [vec[iPoint*nVar+iVar] -= val_residual[iVar]] for every [iVar]. *)
Definition SubtractBlock (iPoint : nat) (val_residual : list su2double)
    (v : CSysVector) : CSysVector :=
  alter (Block_minus val_residual) iPoint v.

(** Modelled from the spec: [CSysVector::AddBlock] is missing; the flux is
    added to the block of the point,
    [vec[iPoint*nVar+iVar] += val_residual[iVar]] for every [iVar]. *)
Definition AddBlock (iPoint : nat) (val_residual : list su2double)
    (v : CSysVector) : CSysVector :=
  alter (Block_plus val_residual) iPoint v.

(** Component [iVar] of the residual, summed over all points. *)
Definition Residual_total (v : CSysVector) (iVar : nat) : su2double :=
  foldr Rplus 0 ((fun block => block !!! iVar) <$> v).

(** Modelled from the spec: [CSysVector::SetBlock_Zero(iPoint, iVar)] is
    missing; it zeroes one residual entry, [vec[iPoint*nVar+iVar] = 0.0]. *)
Definition SetBlock_Zero_var (iPoint iVar : nat) (v : CSysVector) : CSysVector :=
  alter (<[iVar := 0]>) iPoint v.

(** Modelled from the spec: [CSysVector::SetBlock_Zero(iPoint)] is missing;
    it zeroes the block of the point. *)
Definition SetBlock_Zero (iPoint : nat) (v : CSysVector) : CSysVector :=
  alter (fmap (fun _ => 0)) iPoint v.

(** Modelled from the spec: [CSysVector::Initialize(nPoint, nPointDomain,
    nVar, val)] is missing; one block of [nVar] entries [val] per point. *)
Definition CSysVector_Initialize (nPoint nVar : nat) (val : su2double) : CSysVector :=
  replicate nPoint (replicate nVar val).

(** Entry [k] of a flux as it acts on a block of [n] entries. *)
Definition flux_entry (n : nat) (f : list su2double) (k : nat) : su2double :=
  if decide (k < n)%nat then f !!! k else 0.

(** ** External collaborators

    The flux functor ([CNumerics]) and the sparse block matrix ([CSysMatrix])
    are interfaces to this solver: it calls them and never looks inside.
    Their classes are not among the sources; they are parameters of the
    development. *)

Record ResidualType : Type := mkResidualType {
  residual : list su2double;
  jacobian_i : list (list su2double);
  jacobian_j : list (list su2double)
}.

Class CNumerics_interface (CNumerics : Type) : Type := {
  SetCoord : list su2double -> list su2double -> CNumerics -> CNumerics;
  SetNormal : list su2double -> CNumerics -> CNumerics;
  SetPrimitive : list su2double -> list su2double -> CNumerics -> CNumerics;
  SetPrimVarGradient :
    list (list su2double) -> list (list su2double) -> CNumerics -> CNumerics;
  SetTurbKineticEnergy : su2double -> su2double -> CNumerics -> CNumerics;
  ComputeResidual : CConfig -> CNumerics -> ResidualType * CNumerics
}.

Class CSysMatrix_interface (CSysMatrix : Type) : Type := {
  CSysMatrix_empty : CSysMatrix;
  CSysMatrix_Initialize : nat -> nat -> nat -> CGeometry -> CConfig -> CSysMatrix;
  DeleteValsRowi : nat -> CSysMatrix -> CSysMatrix;
  SubtractBlock2Diag : nat -> list (list su2double) -> CSysMatrix -> CSysMatrix;
  UpdateBlocksSub :
    nat -> nat -> nat -> list (list su2double) -> list (list su2double) ->
    CSysMatrix -> CSysMatrix
}.

(** ** The solver object ([CIncNSSolver])

    The members the modelled routines read or write. *)

Record CIncNSSolver (CSysMatrix : Type) : Type := mkCIncNSSolver {
  nDim : nat;
  nVar : nat;
  nMarker : nat;
  nPoint : nat;
  nPointDomain : nat;
  nVertex : list nat;
  dynamic_grid : bool;
  nodes : CVariable;
  LinSysRes : CSysVector;
  Jacobian : CSysMatrix;
  Jacobian_i : list (list su2double);
  Res_Conv : list su2double;
  Res_Visc : list su2double;
  Vector : list su2double;
  HeatConjugateVar : HeatConjugateVar_t;
  Min_Delta_Time : su2double;
  Max_Delta_Time : su2double
}.
Arguments nDim {CSysMatrix} _.
Arguments nVar {CSysMatrix} _.
Arguments nMarker {CSysMatrix} _.
Arguments nPoint {CSysMatrix} _.
Arguments nPointDomain {CSysMatrix} _.
Arguments nVertex {CSysMatrix} _.
Arguments dynamic_grid {CSysMatrix} _.
Arguments nodes {CSysMatrix} _.
Arguments LinSysRes {CSysMatrix} _.
Arguments Jacobian {CSysMatrix} _.
Arguments Jacobian_i {CSysMatrix} _.
Arguments Res_Conv {CSysMatrix} _.
Arguments Res_Visc {CSysMatrix} _.
Arguments Vector {CSysMatrix} _.
Arguments HeatConjugateVar {CSysMatrix} _.
Arguments Min_Delta_Time {CSysMatrix} _.
Arguments Max_Delta_Time {CSysMatrix} _.
Arguments mkCIncNSSolver {CSysMatrix}.

Definition set_nodes {CSysMatrix} (v : CVariable) (s : CIncNSSolver CSysMatrix)
  : CIncNSSolver CSysMatrix :=
  mkCIncNSSolver
    (nDim s) (nVar s) (nMarker s) (nPoint s) (nPointDomain s) (nVertex s)
    (dynamic_grid s) v (LinSysRes s) (Jacobian s) (Jacobian_i s) (Res_Conv s)
    (Res_Visc s) (Vector s) (HeatConjugateVar s) (Min_Delta_Time s)
    (Max_Delta_Time s).

Definition set_LinSysRes {CSysMatrix} (v : CSysVector) (s : CIncNSSolver CSysMatrix)
  : CIncNSSolver CSysMatrix :=
  mkCIncNSSolver
    (nDim s) (nVar s) (nMarker s) (nPoint s) (nPointDomain s) (nVertex s)
    (dynamic_grid s) (nodes s) v (Jacobian s) (Jacobian_i s) (Res_Conv s)
    (Res_Visc s) (Vector s) (HeatConjugateVar s) (Min_Delta_Time s)
    (Max_Delta_Time s).

Definition set_Jacobian {CSysMatrix} (v : CSysMatrix) (s : CIncNSSolver CSysMatrix)
  : CIncNSSolver CSysMatrix :=
  mkCIncNSSolver
    (nDim s) (nVar s) (nMarker s) (nPoint s) (nPointDomain s) (nVertex s)
    (dynamic_grid s) (nodes s) (LinSysRes s) v (Jacobian_i s) (Res_Conv s)
    (Res_Visc s) (Vector s) (HeatConjugateVar s) (Min_Delta_Time s)
    (Max_Delta_Time s).

Definition set_Jacobian_i {CSysMatrix} (v : list (list su2double)) (s : CIncNSSolver CSysMatrix)
  : CIncNSSolver CSysMatrix :=
  mkCIncNSSolver
    (nDim s) (nVar s) (nMarker s) (nPoint s) (nPointDomain s) (nVertex s)
    (dynamic_grid s) (nodes s) (LinSysRes s) (Jacobian s) v (Res_Conv s)
    (Res_Visc s) (Vector s) (HeatConjugateVar s) (Min_Delta_Time s)
    (Max_Delta_Time s).

Definition set_Res_Conv {CSysMatrix} (v : list su2double) (s : CIncNSSolver CSysMatrix)
  : CIncNSSolver CSysMatrix :=
  mkCIncNSSolver
    (nDim s) (nVar s) (nMarker s) (nPoint s) (nPointDomain s) (nVertex s)
    (dynamic_grid s) (nodes s) (LinSysRes s) (Jacobian s) (Jacobian_i s) v
    (Res_Visc s) (Vector s) (HeatConjugateVar s) (Min_Delta_Time s)
    (Max_Delta_Time s).

Definition set_Res_Visc {CSysMatrix} (v : list su2double) (s : CIncNSSolver CSysMatrix)
  : CIncNSSolver CSysMatrix :=
  mkCIncNSSolver
    (nDim s) (nVar s) (nMarker s) (nPoint s) (nPointDomain s) (nVertex s)
    (dynamic_grid s) (nodes s) (LinSysRes s) (Jacobian s) (Jacobian_i s)
    (Res_Conv s) v (Vector s) (HeatConjugateVar s) (Min_Delta_Time s)
    (Max_Delta_Time s).

Definition set_Vector {CSysMatrix} (v : list su2double) (s : CIncNSSolver CSysMatrix)
  : CIncNSSolver CSysMatrix :=
  mkCIncNSSolver
    (nDim s) (nVar s) (nMarker s) (nPoint s) (nPointDomain s) (nVertex s)
    (dynamic_grid s) (nodes s) (LinSysRes s) (Jacobian s) (Jacobian_i s)
    (Res_Conv s) (Res_Visc s) v (HeatConjugateVar s) (Min_Delta_Time s)
    (Max_Delta_Time s).

Definition set_HeatConjugateVar {CSysMatrix} (v : HeatConjugateVar_t) (s : CIncNSSolver CSysMatrix)
  : CIncNSSolver CSysMatrix :=
  mkCIncNSSolver
    (nDim s) (nVar s) (nMarker s) (nPoint s) (nPointDomain s) (nVertex s)
    (dynamic_grid s) (nodes s) (LinSysRes s) (Jacobian s) (Jacobian_i s)
    (Res_Conv s) (Res_Visc s) (Vector s) v (Min_Delta_Time s)
    (Max_Delta_Time s).

Definition set_Min_Delta_Time {CSysMatrix} (v : su2double) (s : CIncNSSolver CSysMatrix)
  : CIncNSSolver CSysMatrix :=
  mkCIncNSSolver
    (nDim s) (nVar s) (nMarker s) (nPoint s) (nPointDomain s) (nVertex s)
    (dynamic_grid s) (nodes s) (LinSysRes s) (Jacobian s) (Jacobian_i s)
    (Res_Conv s) (Res_Visc s) (Vector s) (HeatConjugateVar s) v
    (Max_Delta_Time s).

Definition set_Max_Delta_Time {CSysMatrix} (v : su2double) (s : CIncNSSolver CSysMatrix)
  : CIncNSSolver CSysMatrix :=
  mkCIncNSSolver
    (nDim s) (nVar s) (nMarker s) (nPoint s) (nPointDomain s) (nVertex s)
    (dynamic_grid s) (nodes s) (LinSysRes s) (Jacobian s) (Jacobian_i s)
    (Res_Conv s) (Res_Visc s) (Vector s) (HeatConjugateVar s)
    (Min_Delta_Time s) v.


(** ** CIncNSSolver.cpp: constructor *)

(** [new su2double[n]]: [n] cells of indeterminate content. *)
Definition new_array (garbage : nat -> su2double) (n : nat) : list su2double :=
  garbage <$> seq 0 n.

(** The conjugate-heat record of one vertex, lines 229-240:
    [[
      HeatConjugateVar[iMarker][iVertex] = new su2double [nHeatConjugateVar];
      for (iVar = 1; iVar < nHeatConjugateVar ; iVar++)
        HeatConjugateVar[iMarker][iVertex][iVar] = 0.0;
      HeatConjugateVar[iMarker][iVertex][0] = config->GetTemperature_FreeStreamND();
    ]] *)
Definition new_HeatConjugateVar_vertex (garbage : nat -> su2double)
    (config : CConfig) : list su2double :=
  let nHeatConjugateVar := 4%nat in
  let a := new_array garbage nHeatConjugateVar in
  let a := foldl (fun a iVar => <[iVar := 0]> a) a (seq 1 (nHeatConjugateVar - 1)) in
  <[0%nat := Temperature_FreeStreamND config]> a.

Definition new_HeatConjugateVar (garbage : nat -> su2double)
    (geometry : CGeometry) (config : CConfig) (nMarker : nat)
  : HeatConjugateVar_t :=
  (fun iMarker =>
     (fun iVertex => new_HeatConjugateVar_vertex garbage config)
       <$> seq 0 (GetnVertex geometry iMarker))
    <$> seq 0 nMarker.

Section Constructor.
Context {CSysMatrix : Type} `{!CSysMatrix_interface CSysMatrix}.

(** [CIncNSSolver::CIncNSSolver(geometry, config, iMesh)], restricted to the
    members of the record.  [new_nodes] is the container returned by
    [new CIncNSVariable(...)]; [garbage] is the content of memory this
    constructor does not write: freshly allocated arrays, and the two time-step
    bounds, which [SetTime_Step] sets before it reads them. *)
Definition new_CIncNSSolver (garbage : nat -> su2double) (new_nodes : CVariable)
    (geometry : CGeometry) (config : CConfig) (iMesh : nat)
  : CIncNSSolver CSysMatrix :=
  let MGLevel := iMesh in
  let nDim := geo_nDim geometry in
  let nVar := (nDim + 2)%nat in
  let nMarker := GetnMarker_All config in
  let nPoint := geo_nPoint geometry in
  let nPointDomain := geo_nPointDomain geometry in
  let nVertex := (fun iMarker => GetnVertex geometry iMarker) <$> seq 0 nMarker in
  let euler_implicit :=
    bool_decide (Kind_TimeIntScheme_Flow config = EULER_IMPLICIT) in
  let CFL := GetCFL config MGLevel in
  {| nDim := nDim;
     nVar := nVar;
     nMarker := nMarker;
     nPoint := nPoint;
     nPointDomain := nPointDomain;
     nVertex := nVertex;
     dynamic_grid := Dynamic_Grid config;
     nodes := for_loop nPoint (fun iPoint => SetLocalCFL iPoint CFL) new_nodes;
     LinSysRes := CSysVector_Initialize nPoint nVar 0;
     Jacobian :=
       if euler_implicit
       then CSysMatrix_Initialize nPoint nPointDomain nVar geometry config
       else CSysMatrix_empty;
     Jacobian_i :=
       if euler_implicit
       then (fun _ => new_array garbage nVar) <$> seq 0 nVar
       else [];
     Res_Conv := replicate nVar 0;
     Res_Visc := replicate nVar 0;
     Vector := replicate nDim 0;
     HeatConjugateVar := new_HeatConjugateVar garbage geometry config nMarker;
     Min_Delta_Time := garbage 0%nat;
     Max_Delta_Time := garbage 0%nat |}.

End Constructor.

(** ** CIncNSSolver.cpp: SetTime_Step *)

(** A division by an accumulated spectral radius, as it is evaluated. *)
Inductive Division : Type :=
| Div_Max_Lambda_Inv (iPoint : nat) (dividend divisor : su2double)
| Div_Max_Lambda_Visc (iPoint : nat) (dividend divisor : su2double).

Definition Division_point (d : Division) : nat :=
  match d with
  | Div_Max_Lambda_Inv iPoint _ _ => iPoint
  | Div_Max_Lambda_Visc iPoint _ _ => iPoint
  end.

(** State threaded through [SetTime_Step]: the solver, the configuration (its
    unsteady time step is written), the local [Global_Delta_Time], and the
    divisions by spectral radii evaluated so far. *)
Record TimeStep_state (CSysMatrix : Type) : Type := mkTimeStep_state {
  ts_solver : CIncNSSolver CSysMatrix;
  ts_config : CConfig;
  Global_Delta_Time : su2double;
  divisions : list Division
}.
Arguments ts_solver {CSysMatrix} _.
Arguments ts_config {CSysMatrix} _.
Arguments Global_Delta_Time {CSysMatrix} _.
Arguments divisions {CSysMatrix} _.
Arguments mkTimeStep_state {CSysMatrix}.

(** [Area = 0; for iDim: Area += Normal[iDim]*Normal[iDim]; Area = sqrt(Area);] *)
Definition Normal_Area (nDim : nat) (Normal : list su2double) : su2double :=
  sqrt (dot_loop nDim Normal Normal).

Definition K_v : su2double := 0.25.
Definition MESH_0 : nat := 0.

Section SetTime_Step.
Context {CSysMatrix : Type}.
Variables (geometry : CGeometry) (config : CConfig).

(** Lines 661-664: reset of the accumulated spectral radii. *)
Definition SetTime_Step_reset (nPointDomain : nat) (nd : CVariable) : CVariable :=
  for_loop nPointDomain
    (fun iPoint nd => SetMax_Lambda_Visc iPoint 0 (SetMax_Lambda_Inv iPoint 0 nd))
    nd.

(** Lines 668-720: one interior edge. *)
Definition SetTime_Step_edge (nDim : nat) (dynamic_grid : bool) (iEdge : nat)
    (nd : CVariable) : CVariable :=
  let energy := Energy_Equation config in
  let iPoint := edge_Node_0 (GetEdge geometry iEdge) in
  let jPoint := edge_Node_1 (GetEdge geometry iEdge) in
  let Normal := edge_Normal (GetEdge geometry iEdge) in
  let Area := Normal_Area nDim Normal in
  let Mean_ProjVel :=
    0.5 * (GetProjVel nDim nd iPoint Normal + GetProjVel nDim nd jPoint Normal) in
  let Mean_BetaInc2 := 0.5 * (GetBetaInc2 nd iPoint + GetBetaInc2 nd jPoint) in
  let Mean_SoundSpeed := sqrt (Mean_BetaInc2 * Area * Area) in
  let Mean_ProjVel :=
    if dynamic_grid then
      let GridVel_i := GetGridVel geometry iPoint in
      let GridVel_j := GetGridVel geometry jPoint in
      let ProjVel_i := dot_loop nDim GridVel_i Normal in
      let ProjVel_j := dot_loop nDim GridVel_j Normal in
      Mean_ProjVel - 0.5 * (ProjVel_i + ProjVel_j)
    else Mean_ProjVel in
  let Lambda := Rabs Mean_ProjVel + Mean_SoundSpeed in
  let nd := if GetDomain geometry iPoint then AddMax_Lambda_Inv iPoint Lambda nd else nd in
  let nd := if GetDomain geometry jPoint then AddMax_Lambda_Inv jPoint Lambda nd else nd in
  let Mean_LaminarVisc :=
    0.5 * (GetLaminarViscosity nd iPoint + GetLaminarViscosity nd jPoint) in
  let Mean_EddyVisc := 0.5 * (GetEddyViscosity nd iPoint + GetEddyViscosity nd jPoint) in
  let Mean_Density := 0.5 * (GetDensity nd iPoint + GetDensity nd jPoint) in
  let Mean_Thermal_Conductivity :=
    0.5 * (GetThermalConductivity nd iPoint + GetThermalConductivity nd jPoint) in
  let Mean_Cv := 0.5 * (GetSpecificHeatCv nd iPoint + GetSpecificHeatCv nd jPoint) in
  let Lambda_1 := (4 / 3) * (Mean_LaminarVisc + Mean_EddyVisc) in
  let Lambda_2 := if energy then (1 / Mean_Cv) * Mean_Thermal_Conductivity else 0 in
  let Lambda := (Lambda_1 + Lambda_2) * Area * Area / Mean_Density in
  let nd := if GetDomain geometry iPoint then AddMax_Lambda_Visc iPoint Lambda nd else nd in
  let nd := if GetDomain geometry jPoint then AddMax_Lambda_Visc jPoint Lambda nd else nd in
  nd.

(** Lines 727-774: one boundary vertex. *)
Definition SetTime_Step_vertex (nDim : nat) (dynamic_grid : bool)
    (iMarker iVertex : nat) (nd : CVariable) : CVariable :=
  let energy := Energy_Equation config in
  let iPoint := vertex_Node (GetVertex geometry iMarker iVertex) in
  let Normal := vertex_Normal (GetVertex geometry iMarker iVertex) in
  let Area := Normal_Area nDim Normal in
  let Mean_ProjVel := GetProjVel nDim nd iPoint Normal in
  let Mean_BetaInc2 := GetBetaInc2 nd iPoint in
  let Mean_SoundSpeed := sqrt (Mean_BetaInc2 * Area * Area) in
  let Mean_ProjVel :=
    if dynamic_grid then
      let GridVel := GetGridVel geometry iPoint in
      let ProjVel := dot_loop nDim GridVel Normal in
      Mean_ProjVel - ProjVel
    else Mean_ProjVel in
  let Lambda := Rabs Mean_ProjVel + Mean_SoundSpeed in
  let nd := if GetDomain geometry iPoint then AddMax_Lambda_Inv iPoint Lambda nd else nd in
  let Mean_LaminarVisc := GetLaminarViscosity nd iPoint in
  let Mean_EddyVisc := GetEddyViscosity nd iPoint in
  let Mean_Density := GetDensity nd iPoint in
  let Mean_Thermal_Conductivity := GetThermalConductivity nd iPoint in
  let Mean_Cv := GetSpecificHeatCv nd iPoint in
  let Lambda_1 := (4 / 3) * (Mean_LaminarVisc + Mean_EddyVisc) in
  let Lambda_2 := if energy then (1 / Mean_Cv) * Mean_Thermal_Conductivity else 0 in
  let Lambda := (Lambda_1 + Lambda_2) * Area * Area / Mean_Density in
  let nd := if GetDomain geometry iPoint then AddMax_Lambda_Visc iPoint Lambda nd else nd in
  nd.

(** Lines 661-776: the spectral radii of every owned point. *)
Definition SetTime_Step_spectral_radii (s : CIncNSSolver CSysMatrix) : CVariable :=
  let nd := SetTime_Step_reset (nPointDomain s) (nodes s) in
  let nd := for_loop (GetnEdge geometry)
              (SetTime_Step_edge (nDim s) (dynamic_grid s)) nd in
  for_loop (GetnMarker geometry)
    (fun iMarker nd =>
       if bool_decide (GetMarker_All_KindBC config iMarker <> INTERNAL_BOUNDARY) &&
          bool_decide (GetMarker_All_KindBC config iMarker <> PERIODIC_BOUNDARY)
       then for_loop (GetnVertex geometry iMarker)
              (SetTime_Step_vertex (nDim s) (dynamic_grid s) iMarker) nd
       else nd)
    nd.

(** A division whose divisor is an accumulated spectral radius; the event is
    appended to the record of evaluated divisions. *)
Definition divide_by_radius (site : su2double -> su2double -> Division)
    (dividend divisor : su2double) (log : list Division)
  : su2double * list Division :=
  (dividend / divisor, log ++ [site dividend divisor]).

(** Lines 780-799: the local time step of one owned point. *)
Definition SetTime_Step_point (iPoint : nat) (st : TimeStep_state CSysMatrix)
  : TimeStep_state CSysMatrix :=
  let s := ts_solver st in
  let Vol := GetVolume geometry iPoint in
  if decide (Vol <> 0) then
    let '(Local_Delta_Time, log) :=
      divide_by_radius (Div_Max_Lambda_Inv iPoint)
        (GetLocalCFL (nodes s) iPoint * Vol)
        (GetMax_Lambda_Inv (nodes s) iPoint) (divisions st) in
    let '(Local_Delta_Time_Visc, log) :=
      divide_by_radius (Div_Max_Lambda_Visc iPoint)
        (GetLocalCFL (nodes s) iPoint * K_v * Vol * Vol)
        (GetMax_Lambda_Visc (nodes s) iPoint) log in
    let Local_Delta_Time := Rmin Local_Delta_Time Local_Delta_Time_Visc in
    let Global_Delta_Time := Rmin (Global_Delta_Time st) Local_Delta_Time in
    let Min_Delta_Time := Rmin (Min_Delta_Time s) Local_Delta_Time in
    let Max_Delta_Time := Rmax (Max_Delta_Time s) Local_Delta_Time in
    let Local_Delta_Time :=
      if Rgt_dec Local_Delta_Time (Max_DeltaTime config)
      then Max_DeltaTime config else Local_Delta_Time in
    mkTimeStep_state
      (set_nodes (SetDelta_Time iPoint Local_Delta_Time (nodes s))
         (set_Max_Delta_Time Max_Delta_Time (set_Min_Delta_Time Min_Delta_Time s)))
      (ts_config st) Global_Delta_Time log
  else
    mkTimeStep_state
      (set_nodes (SetDelta_Time iPoint 0 (nodes s)) s)
      (ts_config st) (Global_Delta_Time st) (divisions st).

(** Lines 780-799: the loop over the owned points. *)
Definition SetTime_Step_local (st : TimeStep_state CSysMatrix)
  : TimeStep_state CSysMatrix :=
  for_loop (nPointDomain (ts_solver st)) SetTime_Step_point st.

(** Lines 818-844: time-accurate stepping uses one global step. *)
Definition SetTime_Step_time_stepping (st : TimeStep_state CSysMatrix)
  : TimeStep_state CSysMatrix :=
  if bool_decide (Time_Marching (ts_config st) = TIME_STEPPING) then
    let Global_Delta_Time :=
      if decide (Unst_CFL (ts_config st) = 0)
      then Delta_UnstTime (ts_config st) else Global_Delta_Time st in
    let cfg := SetDelta_UnstTimeND Global_Delta_Time (ts_config st) in
    let s :=
      for_loop (nPointDomain (ts_solver st))
        (fun iPoint s =>
           let nd := SetLocalCFL iPoint (Unst_CFL cfg) (nodes s) in
           let nd := SetDelta_Time iPoint Global_Delta_Time nd in
           set_Max_Delta_Time Global_Delta_Time
             (set_Min_Delta_Time Global_Delta_Time (set_nodes nd s)))
        (ts_solver st) in
    mkTimeStep_state s cfg Global_Delta_Time (divisions st)
  else st.

(** Lines 848-863: the physical step of the dual-time strategy, recomputed
    from the unsteady CFL. *)
Definition SetTime_Step_unsteady_step (iMesh Iteration : nat)
    (st : TimeStep_state CSysMatrix) : TimeStep_state CSysMatrix :=
  let cfg := ts_config st in
  if dual_time_marching cfg && bool_decide (Iteration = 0%nat) &&
     bool_decide (Unst_CFL cfg <> 0) && bool_decide (iMesh = MESH_0) then
    let Global_Delta_UnstTimeND :=
      for_loop (nPointDomain (ts_solver st))
        (fun iPoint Global_Delta_UnstTimeND =>
           Rmin Global_Delta_UnstTimeND
                (Unst_CFL cfg * Global_Delta_Time st
                 / GetLocalCFL (nodes (ts_solver st)) iPoint))
        1e30 in
    mkTimeStep_state (ts_solver st)
      (SetDelta_UnstTimeND Global_Delta_UnstTimeND cfg)
      (Global_Delta_Time st) (divisions st)
  else st.

(** Lines 866-872: the pseudo time step of an explicit scheme stays below the
    physical one. *)
Definition SetTime_Step_dual_time_clip (st : TimeStep_state CSysMatrix)
  : TimeStep_state CSysMatrix :=
  let cfg := ts_config st in
  let implicit := implicit_scheme cfg in
  if dual_time_marching cfg then
    let nd :=
      for_loop (nPointDomain (ts_solver st))
        (fun iPoint nd =>
           if negb implicit then
             let Local_Delta_Time :=
               Rmin ((2 / 3) * Delta_UnstTimeND cfg) (GetDelta_Time nd iPoint) in
             SetDelta_Time iPoint Local_Delta_Time nd
           else nd)
        (nodes (ts_solver st)) in
    mkTimeStep_state (set_nodes nd (ts_solver st)) cfg
      (Global_Delta_Time st) (divisions st)
  else st.

End SetTime_Step.

(** Lines 645-776: the locals are initialised and the spectral radii are
    accumulated; the state in which the loop over the points starts. *)
Definition SetTime_Step_accumulate {CSysMatrix} (geometry : CGeometry)
    (s : CIncNSSolver CSysMatrix) (config : CConfig)
  : TimeStep_state CSysMatrix :=
  let Global_Delta_Time := 1e6 in
  let s := set_Max_Delta_Time 0 (set_Min_Delta_Time 1e30 s) in
  let s := set_nodes (SetTime_Step_spectral_radii geometry config s) s in
  mkTimeStep_state s config Global_Delta_Time [].

(** [CIncNSSolver::SetTime_Step(geometry, solver_container, config, iMesh, Iteration)] *)
Definition SetTime_Step {CSysMatrix} (geometry : CGeometry)
    (s : CIncNSSolver CSysMatrix) (config : CConfig) (iMesh Iteration : nat)
  : TimeStep_state CSysMatrix :=
  let st := SetTime_Step_accumulate geometry s config in
  let st := SetTime_Step_local geometry config st in
  let st := SetTime_Step_time_stepping st in
  let st := SetTime_Step_unsteady_step iMesh Iteration st in
  SetTime_Step_dual_time_clip st.

(** The value that lines 785-792 give the local time step of a point of
    non-zero volume, from the state [p] of the point. *)
Definition Local_Delta_Time_value (config : CConfig) (Vol : su2double)
    (p : CIncNSVariable) : su2double :=
  let Local_Delta_Time :=
    Rmin (LocalCFL p * Vol / Max_Lambda_Inv p)
         (LocalCFL p * K_v * Vol * Vol / Max_Lambda_Visc p) in
  if Rgt_dec Local_Delta_Time (Max_DeltaTime config)
  then Max_DeltaTime config else Local_Delta_Time.

(** What one iteration of the loop of lines 780-799 does to the state of its
    point. *)
Definition SetTime_Step_point_update (geometry : CGeometry) (config : CConfig)
    (iPoint : nat) (p : CIncNSVariable) : CIncNSVariable :=
  set_Delta_Time
    (if decide (GetVolume geometry iPoint <> 0)
     then Local_Delta_Time_value config (GetVolume geometry iPoint) p
     else 0) p.

(** ** CIncNSSolver.cpp: Viscous_Residual *)

Section Viscous_Residual.
Context {CSysMatrix : Type} `{!CSysMatrix_interface CSysMatrix}.
Context {CNumerics : Type} `{!CNumerics_interface CNumerics}.
Variables (geometry : CGeometry) (config : CConfig).
(** [solver_container[TURB_SOL]->GetNodes()->GetSolution(iPoint, iVar)] *)
Variable TURB_SOL_Solution : list (list su2double).

(** Lines 887-922: one interior edge. *)
Definition Viscous_Residual_edge (iEdge : nat)
    (st : CIncNSSolver CSysMatrix * CNumerics)
  : CIncNSSolver CSysMatrix * CNumerics :=
  let '(s, numerics) := st in
  let implicit := implicit_scheme config in
  let iPoint := edge_Node_0 (GetEdge geometry iEdge) in
  let jPoint := edge_Node_1 (GetEdge geometry iEdge) in
  let numerics :=
    SetCoord (GetCoord geometry iPoint) (GetCoord geometry jPoint) numerics in
  let numerics := SetNormal (edge_Normal (GetEdge geometry iEdge)) numerics in
  let numerics :=
    SetPrimitive (GetPrimitive (nodes s) iPoint) (GetPrimitive (nodes s) jPoint)
      numerics in
  let numerics :=
    SetPrimVarGradient (GetGradient_Primitive (nodes s) iPoint)
      (GetGradient_Primitive (nodes s) jPoint) numerics in
  let numerics :=
    if bool_decide (Kind_Turb_Model config = SST) ||
       bool_decide (Kind_Turb_Model config = SST_SUST)
    then SetTurbKineticEnergy ((TURB_SOL_Solution !!! iPoint) !!! 0%nat)
           ((TURB_SOL_Solution !!! jPoint) !!! 0%nat) numerics
    else numerics in
  let '(res, numerics) := ComputeResidual config numerics in
  let s := set_LinSysRes (SubtractBlock iPoint (residual res) (LinSysRes s)) s in
  let s := set_LinSysRes (AddBlock jPoint (residual res) (LinSysRes s)) s in
  let s :=
    if implicit
    then set_Jacobian
           (UpdateBlocksSub iEdge iPoint jPoint (jacobian_i res) (jacobian_j res)
              (Jacobian s)) s
    else s in
  (s, numerics).

(** Lines 889-907: the flux functor as the edge sets it up before the flux
    is computed (coordinates, normal, primitive states, gradients and, for
    the SST models, the turbulent kinetic energy of the two end points). *)
Definition Viscous_Residual_edge_numerics (iEdge : nat)
    (s : CIncNSSolver CSysMatrix) (numerics : CNumerics) : CNumerics :=
  let iPoint := edge_Node_0 (GetEdge geometry iEdge) in
  let jPoint := edge_Node_1 (GetEdge geometry iEdge) in
  let numerics :=
    SetCoord (GetCoord geometry iPoint) (GetCoord geometry jPoint) numerics in
  let numerics := SetNormal (edge_Normal (GetEdge geometry iEdge)) numerics in
  let numerics :=
    SetPrimitive (GetPrimitive (nodes s) iPoint) (GetPrimitive (nodes s) jPoint)
      numerics in
  let numerics :=
    SetPrimVarGradient (GetGradient_Primitive (nodes s) iPoint)
      (GetGradient_Primitive (nodes s) jPoint) numerics in
  if bool_decide (Kind_Turb_Model config = SST) ||
     bool_decide (Kind_Turb_Model config = SST_SUST)
  then SetTurbKineticEnergy ((TURB_SOL_Solution !!! iPoint) !!! 0%nat)
         ((TURB_SOL_Solution !!! jPoint) !!! 0%nat) numerics
  else numerics.

(** Line 911: [auto residual = numerics->ComputeResidual(config);], the flux
    vector of the edge. *)
Definition Viscous_Residual_edge_flux (iEdge : nat)
    (s : CIncNSSolver CSysMatrix) (numerics : CNumerics) : list su2double :=
  residual (fst (ComputeResidual config
                   (Viscous_Residual_edge_numerics iEdge s numerics))).

(** [CIncNSSolver::Viscous_Residual(geometry, solver_container,
      numerics_container, config, iMesh, iRKStep)], with
    [numerics = numerics_container[VISC_TERM]]. *)
Definition Viscous_Residual (s : CIncNSSolver CSysMatrix) (numerics : CNumerics)
  : CIncNSSolver CSysMatrix * CNumerics :=
  for_loop (GetnEdge geometry) Viscous_Residual_edge (s, numerics).

End Viscous_Residual.

(** Well-formedness of the mesh and of the residual vector: the end points
    of every edge are points of the mesh, and the vector holds one block of
    [nVar] entries per point. *)
Definition edges_in_mesh (geometry : CGeometry) (nPoint : nat) : Prop :=
  Forall (fun e => (edge_Node_0 e < nPoint)%nat /\ (edge_Node_1 e < nPoint)%nat)
         (edges geometry).

Definition LinSysRes_allocated {CSysMatrix} (s : CIncNSSolver CSysMatrix) : Prop :=
  length (LinSysRes s) = nPoint s /\
  Forall (fun block => length block = nVar s) (LinSysRes s).

(** ** CIncNSSolver.cpp: wall boundary conditions *)

(** [dist_ij = 0; for iDim: dist_ij += (Coord_j[iDim]-Coord_i[iDim])*
      (Coord_j[iDim]-Coord_i[iDim]); dist_ij = sqrt(dist_ij);] *)
Definition Coord_distance (nDim : nat) (Coord_i Coord_j : list su2double)
  : su2double :=
  sqrt (foldl (fun acc iDim =>
                 acc + (Coord_j !!! iDim - Coord_i !!! iDim)
                       * (Coord_j !!! iDim - Coord_i !!! iDim))
              0 (seq 0 nDim)).

(** Line 1126: [dTdn = -(nodes->GetTemperature(Point_Normal) - Twall)/dist_ij;] *)
Definition Isothermal_dTdn (nd : CVariable) (Point_Normal : nat)
    (Twall dist_ij : su2double) : su2double :=
  - (GetTemperature nd Point_Normal - Twall) / dist_ij.

(** Line 1267: the wall temperature of the flux-weighted coupling. *)
Definition CHT_averaged_Twall (There Tconjugate HF_FactorHere HF_FactorConjugate
                               : su2double) : su2double :=
  (There * HF_FactorHere + Tconjugate * HF_FactorConjugate)
  / (HF_FactorHere + HF_FactorConjugate).

Section Wall_BC.
Context {CSysMatrix : Type} `{!CSysMatrix_interface CSysMatrix}.
Variables (geometry : CGeometry) (config : CConfig).

Local Abbreviation solver := (CIncNSSolver CSysMatrix).

(** The three wall routines open the treatment of a vertex with the same
    statements (lines 974-981, 1071-1078, 1211-1218): the scratch residuals
    and, for an implicit scheme, the scratch Jacobian block are zeroed. *)
Definition BC_wall_zero_scratch (s : solver) : solver :=
  let implicit := implicit_scheme config in
  for_loop (nVar s)
    (fun iVar s =>
       let s := set_Res_Conv (<[iVar := 0]> (Res_Conv s)) s in
       let s := set_Res_Visc (<[iVar := 0]> (Res_Visc s)) s in
       if implicit
       then set_Jacobian_i
              (alter (array_fill (nVar s) 0) iVar (Jacobian_i s)) s
       else s)
    s.

(** Lines 986-1001, 1083-1098, 1223-1238: the wall velocity (zero, or the
    grid velocity of a moving wall) is imposed strongly. *)
Definition BC_wall_velocity (iPoint : nat) (s : solver) : solver :=
  let s :=
    if dynamic_grid s then
      let GridVel := GetGridVel geometry iPoint in
      set_Vector
        (for_loop (nDim s) (fun iDim v => <[iDim := GridVel !!! iDim]> v) (Vector s))
        s
    else set_Vector (array_fill (nDim s) 0 (Vector s)) s in
  let s := set_nodes (SetVelocity_Old (nDim s) iPoint (Vector s) (nodes s)) s in
  let s :=
    for_loop (nDim s)
      (fun iDim s =>
         set_LinSysRes (SetBlock_Zero_var iPoint (iDim + 1) (LinSysRes s)) s)
      s in
  set_nodes (SetVel_ResTruncError_Zero (nDim s) iPoint (nodes s)) s.

(** Lines 1019-1024, 1164-1169, 1291-1295: the velocity rows of the Jacobian
    are deleted, [for (iVar = 1; iVar <= nDim; iVar++)]. *)
Definition BC_wall_delete_velocity_rows (iPoint : nat) (s : solver) : solver :=
  foldl (fun s iVar =>
           let total_index := (iPoint * nVar s + iVar)%nat in
           set_Jacobian (DeleteValsRowi total_index (Jacobian s)) s)
        s (seq 1 (nDim s)).

(** *** BC_HeatFlux_Wall *)

(** Lines 956-1027: one vertex of the marker. *)
Definition BC_HeatFlux_Wall_vertex (val_marker : nat) (Wall_HeatFlux : su2double)
    (iVertex : nat) (s : solver) : solver :=
  let implicit := implicit_scheme config in
  let energy := Energy_Equation config in
  let iPoint := vertex_Node (GetVertex geometry val_marker iVertex) in
  if GetDomain geometry iPoint then
    let Normal := vertex_Normal (GetVertex geometry val_marker iVertex) in
    let Area := Normal_Area (nDim s) Normal in
    let s := BC_wall_zero_scratch s in
    let s := BC_wall_velocity iPoint s in
    let s :=
      if energy then
        let s := set_Res_Visc
                   (<[(nDim s + 1)%nat := Wall_HeatFlux * Area]> (Res_Visc s)) s in
        set_LinSysRes (SubtractBlock iPoint (Res_Visc s) (LinSysRes s)) s
      else s in
    if implicit then BC_wall_delete_velocity_rows iPoint s else s
  else s.

(** [CIncNSSolver::BC_HeatFlux_Wall].  The query of the wall-function
    treatment (lines 947-952) is commented out in the source: the routine has
    no call of [SU2_MPI::Error]. *)
Definition BC_HeatFlux_Wall (val_marker : nat) (s : solver) : result solver :=
  let Marker_Tag := GetMarker_All_TagBound config val_marker in
  let Wall_HeatFlux := Wall_HeatFlux config Marker_Tag / Heat_Flux_Ref config in
  Ok (for_loop (GetnVertex geometry val_marker)
        (BC_HeatFlux_Wall_vertex val_marker Wall_HeatFlux) s).

(** *** BC_Isothermal_Wall *)

(** Lines 1100-1159: the energy equation at one vertex. *)
Definition BC_Isothermal_Wall_energy (val_marker iVertex iPoint : nat)
    (Twall : su2double) (s : solver) : solver :=
  let implicit := implicit_scheme config in
  let Normal := vertex_Normal (GetVertex geometry val_marker iVertex) in
  let Area := Normal_Area (nDim s) Normal in
  let Point_Normal := vertex_Normal_Neighbor (GetVertex geometry val_marker iVertex) in
  let Coord_i := GetCoord geometry iPoint in
  let Coord_j := GetCoord geometry Point_Normal in
  let dist_ij := Coord_distance (nDim s) Coord_i Coord_j in
  let dTdn := Isothermal_dTdn (nodes s) Point_Normal Twall dist_ij in
  let thermal_conductivity := GetThermalConductivity (nodes s) iPoint in
  let s := set_Res_Visc
             (<[(nDim s + 1)%nat := thermal_conductivity * dTdn * Area]> (Res_Visc s))
             s in
  let s :=
    if implicit then
      let Edge_Vector :=
        (fun iDim => Coord_j !!! iDim - Coord_i !!! iDim) <$> seq 0 (nDim s) in
      let dist_ij_2 := dot_loop (nDim s) Edge_Vector Edge_Vector in
      let proj_vector_ij := dot_loop (nDim s) Edge_Vector Normal in
      let proj_vector_ij :=
        if decide (dist_ij_2 = 0) then 0 else proj_vector_ij / dist_ij_2 in
      let s := set_Jacobian_i
                 (alter (<[(nDim s + 1)%nat := - thermal_conductivity * proj_vector_ij]>)
                        (nDim s + 1)%nat (Jacobian_i s)) s in
      set_Jacobian (SubtractBlock2Diag iPoint (Jacobian_i s) (Jacobian s)) s
    else s in
  set_LinSysRes (SubtractBlock iPoint (Res_Visc s) (LinSysRes s)) s.

(** Lines 1061-1172: one vertex of the marker. *)
Definition BC_Isothermal_Wall_vertex (val_marker : nat) (Twall : su2double)
    (iVertex : nat) (s : solver) : solver :=
  let implicit := implicit_scheme config in
  let energy := Energy_Equation config in
  let iPoint := vertex_Node (GetVertex geometry val_marker iVertex) in
  if GetDomain geometry iPoint then
    let s := BC_wall_zero_scratch s in
    let s := BC_wall_velocity iPoint s in
    let s :=
      if energy then BC_Isothermal_Wall_energy val_marker iVertex iPoint Twall s
      else s in
    if implicit then BC_wall_delete_velocity_rows iPoint s else s
  else s.

(** [CIncNSSolver::BC_Isothermal_Wall] *)
Definition BC_Isothermal_Wall (val_marker : nat) (s : solver) : result solver :=
  let Marker_Tag := GetMarker_All_TagBound config val_marker in
  let Twall := Isothermal_Temperature config Marker_Tag / Temperature_Ref config in
  let Wall_Function := WallFunction_Treatment config Marker_Tag in
  _ ← (if decide (Wall_Function <> NO_WALL_FUNCTION)
       then SU2_MPI_Error "Wall function treatment not implemented yet."
                          "CIncNSSolver::BC_Isothermal_Wall"
       else Ok tt);
  Ok (for_loop (GetnVertex geometry val_marker)
        (BC_Isothermal_Wall_vertex val_marker Twall) s).

(** *** BC_ConjugateHeat_Interface *)

(** Lines 1242-1279: the wall temperature of the coupling. *)
Definition CHT_wall_temperature (val_marker iVertex iPoint : nat) (s : solver)
  : result su2double :=
  let Temperature_Ref := Temperature_Ref config in
  let Tconjugate :=
    GetConjugateHeatVariable (HeatConjugateVar s) val_marker iVertex 0
    / Temperature_Ref in
  if bool_decide (Kind_CHT_Coupling config = AVERAGED_TEMPERATURE_NEUMANN_HEATFLUX) ||
     bool_decide (Kind_CHT_Coupling config = AVERAGED_TEMPERATURE_ROBIN_HEATFLUX)
  then
    let Point_Normal :=
      vertex_Normal_Neighbor (GetVertex geometry val_marker iVertex) in
    let Coord_i := GetCoord geometry iPoint in
    let Coord_j := GetCoord geometry Point_Normal in
    let dist_ij := Coord_distance (nDim s) Coord_i Coord_j in
    let thermal_conductivity := GetThermalConductivity (nodes s) iPoint in
    let There := GetTemperature (nodes s) Point_Normal in
    let HF_FactorHere := thermal_conductivity * Viscosity_Ref config / dist_ij in
    let HF_FactorConjugate :=
      GetConjugateHeatVariable (HeatConjugateVar s) val_marker iVertex 2 in
    Ok (CHT_averaged_Twall There Tconjugate HF_FactorHere HF_FactorConjugate)
  else if
     bool_decide (Kind_CHT_Coupling config = DIRECT_TEMPERATURE_NEUMANN_HEATFLUX) ||
     bool_decide (Kind_CHT_Coupling config = DIRECT_TEMPERATURE_ROBIN_HEATFLUX)
  then Ok Tconjugate
  else SU2_MPI_Error "Unknown CHT coupling method."
                     "CIncNSSolver::BC_ConjugateHeat_Interface".

(** Lines 1203-1301: one vertex of the marker. *)
Definition BC_ConjugateHeat_Interface_vertex (val_marker iVertex : nat)
    (s : solver) : result solver :=
  let implicit := implicit_scheme config in
  let energy := Energy_Equation config in
  let iPoint := vertex_Node (GetVertex geometry val_marker iVertex) in
  if GetDomain geometry iPoint then
    let s := BC_wall_zero_scratch s in
    let s := BC_wall_velocity iPoint s in
    s ← (if energy then
           Twall ← CHT_wall_temperature val_marker iVertex iPoint s;
           let s := set_LinSysRes
                      (SetBlock_Zero_var iPoint (nDim s + 1) (LinSysRes s)) s in
           let s := set_nodes
                      (SetSolution_Old iPoint (nDim s + 1) Twall (nodes s)) s in
           Ok (set_nodes (SetEnergy_ResTruncError_Zero (nDim s) iPoint (nodes s)) s)
         else Ok s);
    Ok (if implicit then
          let s := BC_wall_delete_velocity_rows iPoint s in
          if energy then
            let total_index := (iPoint * nVar s + nDim s + 1)%nat in
            set_Jacobian (DeleteValsRowi total_index (Jacobian s)) s
          else s
        else s)
  else Ok s.

(** [CIncNSSolver::BC_ConjugateHeat_Interface] *)
Definition BC_ConjugateHeat_Interface (val_marker : nat) (s : solver)
  : result solver :=
  let Marker_Tag := GetMarker_All_TagBound config val_marker in
  let Wall_Function := WallFunction_Treatment config Marker_Tag in
  _ ← (if decide (Wall_Function <> NO_WALL_FUNCTION)
       then SU2_MPI_Error "Wall function treament not implemented yet"
                          "CIncNSSolver::BC_ConjugateHeat_Interface"
       else Ok tt);
  for_each (BC_ConjugateHeat_Interface_vertex val_marker)
           (seq 0 (GetnVertex geometry val_marker)) s.

End Wall_BC.

(** ** Relations between solver states used in the statements *)

(** The two states have the same dimensions, grid motion flag and
    conjugate-heat table. *)
Definition same_mesh_state {CSysMatrix} (s s' : CIncNSSolver CSysMatrix) : Prop :=
  nDim s' = nDim s /\ nVar s' = nVar s /\ dynamic_grid s' = dynamic_grid s /\
  HeatConjugateVar s' = HeatConjugateVar s.

(** Every point has the same temperature and thermal conductivity in the two
    containers. *)
Definition same_thermal_state (nd nd' : CVariable) : Prop :=
  forall iPoint,
    Temperature (nd' !!! iPoint) = Temperature (nd !!! iPoint) /\
    ThermalConductivity (nd' !!! iPoint) = ThermalConductivity (nd !!! iPoint).

(** The coupling kind is none of the four kinds the interface knows. *)
Definition unrecognised_CHT_coupling (kind : ENUM_CHT_COUPLING) : Prop :=
  exists code, kind = OTHER_CHT_COUPLING code.

(** ** Concrete objects for the examples *)

(** The matrix of a run that assembles none. *)
Definition no_matrix : CSysMatrix_interface unit :=
  {| CSysMatrix_empty := tt;
     CSysMatrix_Initialize := fun _ _ _ _ _ => tt;
     DeleteValsRowi := fun _ m => m;
     SubtractBlock2Diag := fun _ _ m => m;
     UpdateBlocksSub := fun _ _ _ _ _ m => m |}.

(** One wall marker, tagged "wall". *)
Definition example_config (scheme : ENUM_TIME_INT) (marching : TIME_MARCHING)
    (energy : bool) (cht : ENUM_CHT_COUPLING) (wf : ENUM_WALL_FUNCTIONS)
    (Twall_dim Tref : su2double) : CConfig :=
  {| Kind_TimeIntScheme := scheme;
     Kind_TimeIntScheme_Flow := scheme;
     Time_Marching := marching;
     Energy_Equation := energy;
     Dynamic_Grid := false;
     Kind_Turb_Model := NONE;
     Kind_CHT_Coupling := cht;
     Marker_All_KindBC := [ISOTHERMAL];
     Marker_All_TagBound := ["wall"%string];
     Wall_HeatFlux := fun _ => 0;
     Isothermal_Temperature := fun _ => Twall_dim;
     WallFunction_Treatment := fun _ => wf;
     Heat_Flux_Ref := 1;
     Temperature_Ref := Tref;
     Viscosity_Ref := 1;
     Temperature_FreeStreamND := 1;
     CFL := [10];
     Max_DeltaTime := 1;
     Unst_CFL := 0;
     Delta_UnstTime := 3;
     Delta_UnstTimeND := 3 |}.

(** Two points 0.01 apart; point 0 lies on the wall, point 1 is its normal
    neighbour.  [Vol_0] is the dual volume of point 0. *)
Definition example_geometry (Vol_0 : su2double) : CGeometry :=
  {| geo_nDim := 2;
     geo_nPoint := 2;
     geo_nPointDomain := 2;
     edges := [mkCEdge 0 1 [1; 0]];
     vertex := [[mkCVertex 0 [0; -2] 1]];
     geo_nodes := [mkCPoint [0; 0] Vol_0 true [0; 0];
                   mkCPoint [0.01; 0] 1 true [0; 0]] |}.

(** Air-like state: the wall point conducts with 0.026, the neighbour is at
    temperature 350. *)
Definition example_nodes : CVariable :=
  [mkCIncNSVariable 1 [0; 0] 300 1 4 2 0 0.026 1 1 [] [0; 0; 0; 300] [0; 0; 0; 0]
     0 0 0 0;
   mkCIncNSVariable 1 [3; 0] 350 1 4 2 0 0.026 1 1 [] [0; 3; 0; 350] [0; 0; 0; 0]
     0 0 0 0].

Definition example_solver (Vol_0 : su2double) (config : CConfig)
  : CIncNSSolver unit :=
  @new_CIncNSSolver unit no_matrix (fun _ => 7) example_nodes
    (example_geometry Vol_0) config 0.

Definition example_steady_config : CConfig :=
  example_config EULER_IMPLICIT STEADY true
    DIRECT_TEMPERATURE_NEUMANN_HEATFLUX NO_WALL_FUNCTION 300 1.

Definition example_dual_time_config : CConfig :=
  example_config RUNGE_KUTTA_EXPLICIT DT_STEPPING_2ND true
    DIRECT_TEMPERATURE_NEUMANN_HEATFLUX NO_WALL_FUNCTION 300 1.

(** A flux functor for the examples: it keeps the two primitive states and
    returns their difference in the first four entries. *)
Definition example_numerics
  : CNumerics_interface (list su2double * list su2double) :=
  {| SetCoord := fun _ _ n => n;
     SetNormal := fun _ n => n;
     SetPrimitive := fun V_i V_j _ => (V_i, V_j);
     SetPrimVarGradient := fun _ _ n => n;
     SetTurbKineticEnergy := fun _ _ n => n;
     ComputeResidual := fun _ n =>
       (mkResidualType
          ((fun iVar => snd n !!! iVar - fst n !!! iVar) <$> seq 0 4) [] [],
        n) |}.

(** ** Further definitions used by the additional properties *)

(** [n] successive calls of [SetConjugateHeatVariable] on one entry with the
    same relaxation factor and the same supplied value, as a coupling loop
    issues them. *)
Definition SetConjugateHeatVariable_repeat (n : nat)
    (HeatConjugateVar : HeatConjugateVar_t) (val_marker val_vertex pos_var : nat)
    (relaxation_factor val_var : su2double) : HeatConjugateVar_t :=
  Nat.iter n
    (fun H => SetConjugateHeatVariable H val_marker val_vertex pos_var
                relaxation_factor val_var)
    HeatConjugateVar.

(** A second mesh for the examples: the two points of [example_geometry] and
    a third one that belongs to a neighbouring partition (a halo point, on no
    edge of this partition). *)
Definition example_halo_geometry : CGeometry :=
  {| geo_nDim := 2;
     geo_nPoint := 3;
     geo_nPointDomain := 2;
     edges := [mkCEdge 0 1 [1; 0]];
     vertex := [[mkCVertex 0 [0; -2] 1; mkCVertex 2 [0; -2] 1]];
     geo_nodes := [mkCPoint [0; 0] 1 true [0; 0];
                   mkCPoint [0.01; 0] 1 true [0; 0];
                   mkCPoint [-0.01; 0] 1 false [0; 0]] |}.

Definition example_halo_nodes : CVariable :=
  example_nodes ++
  [mkCIncNSVariable 1 [1; 0] 320 1 4 2 0 0.026 1 1 [] [0; 1; 0; 320] [0; 0; 0; 0]
     0 0 0 0].

Definition example_halo_solver (config : CConfig) : CIncNSSolver unit :=
  @new_CIncNSSolver unit no_matrix (fun _ => 7) example_halo_nodes
    example_halo_geometry config 0.

(** The entries of a point that [SetTime_Step] has no statement to write:
    all but the two spectral radii, the local CFL number and the local time
    step. *)
Definition same_flow_state (p q : CIncNSVariable) : Prop :=
  Pressure q = Pressure p /\ Velocity q = Velocity p /\
  Temperature q = Temperature p /\ Density q = Density p /\
  BetaInc2 q = BetaInc2 p /\ LaminarViscosity q = LaminarViscosity p /\
  EddyViscosity q = EddyViscosity p /\
  ThermalConductivity q = ThermalConductivity p /\
  SpecificHeatCp q = SpecificHeatCp p /\ SpecificHeatCv q = SpecificHeatCv p /\
  Gradient_Primitive q = Gradient_Primitive p /\
  Solution_Old q = Solution_Old p /\ Res_TruncError q = Res_TruncError p.

(** Lines 785-787: the local time step of a point before it is clipped to the
    configured maximum. *)
Definition Unclipped_Delta_Time (Vol : su2double) (p : CIncNSVariable)
  : su2double :=
  Rmin (LocalCFL p * Vol / Max_Lambda_Inv p)
       (LocalCFL p * K_v * Vol * Vol / Max_Lambda_Visc p).

(** The entries of a point that lines 780-872 of [SetTime_Step] have no
    statement to write: the flow state and the two accumulated spectral
    radii. *)
Definition same_spectral_radii (p q : CIncNSVariable) : Prop :=
  same_flow_state p q /\
  Max_Lambda_Inv q = Max_Lambda_Inv p /\ Max_Lambda_Visc q = Max_Lambda_Visc p.

(** The members of the solver that [SetTime_Step] has no statement to write:
    all but the points and the smallest and largest time step. *)
Definition same_solver_but_time_steps {CSysMatrix}
    (s s' : CIncNSSolver CSysMatrix) : Prop :=
  s' = set_Max_Delta_Time (Max_Delta_Time s')
         (set_Min_Delta_Time (Min_Delta_Time s') (set_nodes (nodes s') s)).

(** The example configuration in a time-accurate run: one global time step,
    here the configured one (the unsteady CFL number is 0). *)
Definition example_time_accurate_config : CConfig :=
  example_config RUNGE_KUTTA_EXPLICIT TIME_STEPPING true
    DIRECT_TEMPERATURE_NEUMANN_HEATFLUX NO_WALL_FUNCTION 300 1.

(** ** Relations used in the statements on the wall routines *)

(** The entries of a point that the wall routines have no statement to
    write: all but the old solution and the truncation error, which keep
    their sizes. *)
Definition same_primitive_state (p q : CIncNSVariable) : Prop :=
  Pressure q = Pressure p /\ Velocity q = Velocity p /\
  Temperature q = Temperature p /\ Density q = Density p /\
  BetaInc2 q = BetaInc2 p /\ LaminarViscosity q = LaminarViscosity p /\
  EddyViscosity q = EddyViscosity p /\
  ThermalConductivity q = ThermalConductivity p /\
  SpecificHeatCp q = SpecificHeatCp p /\ SpecificHeatCv q = SpecificHeatCv p /\
  Gradient_Primitive q = Gradient_Primitive p /\
  Max_Lambda_Inv q = Max_Lambda_Inv p /\ Max_Lambda_Visc q = Max_Lambda_Visc p /\
  LocalCFL q = LocalCFL p /\ Delta_Time q = Delta_Time p /\
  length (Solution_Old q) = length (Solution_Old p) /\
  length (Res_TruncError q) = length (Res_TruncError p).

(** The members of the solver that the wall routines have no statement to
    write: all but the points, the residual vector, the Jacobian matrix and
    the scratch arrays. *)
Definition same_solver_but_wall_data {CSysMatrix}
    (s s' : CIncNSSolver CSysMatrix) : Prop :=
  s' = set_nodes (nodes s')
         (set_LinSysRes (LinSysRes s')
            (set_Jacobian (Jacobian s')
               (set_Jacobian_i (Jacobian_i s')
                  (set_Res_Conv (Res_Conv s')
                     (set_Res_Visc (Res_Visc s')
                        (set_Vector (Vector s') s)))))).

(** Lines 986-991, 1083-1088, 1223-1228: the velocity imposed at a wall
    point, zero unless the grid moves. *)
Definition wall_velocity (geometry : CGeometry) (dynamic_grid : bool)
    (iPoint iDim : nat) : su2double :=
  if dynamic_grid then GetGridVel geometry iPoint !!! iDim else 0.

(** What a wall routine can change when the points it treats are those
    selected by [touched]: the sizes of the scratch arrays stay, an explicit
    scheme leaves the matrix alone, every point keeps its primitive state,
    every residual block its size and its first entry, and the points that
    are not treated keep everything. *)
Definition wall_frame {CSysMatrix} (config : CConfig) (touched : nat -> Prop)
    (s s' : CIncNSSolver CSysMatrix) : Prop :=
  same_solver_but_wall_data s s' /\
  length (Vector s') = length (Vector s) /\
  length (Res_Visc s') = length (Res_Visc s) /\
  (implicit_scheme config = false -> Jacobian s' = Jacobian s) /\
  Forall2 same_primitive_state (nodes s) (nodes s') /\
  Forall2 (fun b b' : list su2double =>
             length b' = length b /\ b' !!! 0%nat = b !!! 0%nat)
          (LinSysRes s) (LinSysRes s') /\
  forall k, ~ touched k ->
    nodes s' !! k = nodes s !! k /\ LinSysRes s' !! k = LinSysRes s !! k.

(** The no-slip condition at a wall point: the momentum entries of the
    residual and of the truncation error are zero and the momentum entries
    of the old solution hold the wall velocity. *)
Definition wall_no_slip {CSysMatrix} (nDim : nat) (vel : nat -> su2double)
    (iPoint : nat) (s : CIncNSSolver CSysMatrix) : Prop :=
  forall iDim, (iDim < nDim)%nat ->
    (LinSysRes s !!! iPoint) !!! (iDim + 1)%nat = 0 /\
    Res_TruncError (nodes s !!! iPoint) !!! (iDim + 1)%nat = 0 /\
    ((iDim + 1 < length (Solution_Old (nodes s !!! iPoint)))%nat ->
     Solution_Old (nodes s !!! iPoint) !!! (iDim + 1)%nat = vel iDim).

(** What the treatment of one vertex of a wall marker does: nothing for a
    halo point; for an owned point, a change confined to that point which
    leaves the no-slip condition satisfied there. *)
Definition wall_vertex_step {CSysMatrix} (geometry : CGeometry) (config : CConfig)
    (iPoint : nat) (s s' : CIncNSSolver CSysMatrix) : Prop :=
  if GetDomain geometry iPoint then
    wall_frame config (eq iPoint) s s' /\
    ((nDim s <= length (Vector s))%nat ->
     wall_no_slip (nDim s) (wall_velocity geometry (dynamic_grid s) iPoint) iPoint s')
  else s' = s.

(** The points treated by a wall routine on the vertices [idx] of a marker:
    the owned points among their nodes. *)
Definition wall_marker_points (geometry : CGeometry) (val_marker : nat)
    (idx : list nat) (k : nat) : Prop :=
  exists iVertex,
    iVertex ∈ idx /\
    GetDomain geometry (vertex_Node (GetVertex geometry val_marker iVertex)) = true /\
    vertex_Node (GetVertex geometry val_marker iVertex) = k.

(** The example configuration with the energy equation switched off. *)
Definition example_no_energy_config : CConfig :=
  example_config EULER_IMPLICIT STEADY false
    DIRECT_TEMPERATURE_NEUMANN_HEATFLUX NO_WALL_FUNCTION 300 1.

(** ** CIncNSSolver.cpp: SetPrimitive_Variables *)

(** Modelled from the spec: the turbulence solver of the container,
    [solver_container[TURB_SOL]], is missing; the routine reads the eddy
    viscosity, the first solution entry and the DES length scale of its
    points. *)
Record CTurbVariable : Type := mkCTurbVariable {
  muT : list su2double;
  turb_Solution : list (list su2double);
  turb_DES_LengthScale : list su2double
}.

(** Modelled from the spec: [CIncNSVariable::SetPrimVar] and
    [CVariable::SetDES_LengthScale] are missing.
    [SetPrimVar(iPoint, eddy_visc, turb_ke, FluidModel)] computes the
    primitive variables of a point through the fluid model and reports
    whether the state is physical; [SetDES_LengthScale(iPoint, val)] stores
    the length scale.  Both are parameters of the development, as is the
    class of the fluid model. *)
Class CIncNSVariable_interface (CFluidModel : Type) : Type := {
  SetPrimVar : nat -> su2double -> su2double -> CFluidModel -> CVariable ->
               bool * CVariable * CFluidModel;
  SetDES_LengthScale : nat -> su2double -> CVariable -> CVariable
}.

(** The solver, the fluid model and the locals of [SetPrimitive_Variables]
    that live across the iterations of its loop. *)
Record PrimVar_state (CSysMatrix CFluidModel : Type) : Type := mkPrimVar_state {
  pv_solver : CIncNSSolver CSysMatrix;
  pv_FluidModel : CFluidModel;
  nonPhysicalPoints : nat;
  eddy_visc : su2double;
  turb_ke : su2double;
  DES_LengthScale : su2double
}.
Arguments pv_solver {CSysMatrix CFluidModel} _.
Arguments pv_FluidModel {CSysMatrix CFluidModel} _.
Arguments nonPhysicalPoints {CSysMatrix CFluidModel} _.
Arguments eddy_visc {CSysMatrix CFluidModel} _.
Arguments turb_ke {CSysMatrix CFluidModel} _.
Arguments DES_LengthScale {CSysMatrix CFluidModel} _.
Arguments mkPrimVar_state {CSysMatrix CFluidModel}.

Section SetPrimitive_Variables.
Context {CSysMatrix CFluidModel : Type} `{!CIncNSVariable_interface CFluidModel}.
Variable config : CConfig.
(** [solver_container[TURB_SOL]], possibly a null pointer. *)
Variable TURB_SOL : option CTurbVariable.
(** Modelled from the spec: the option [Kind_HybridRANSLES] of [CConfig] is
    missing; the flag is [config->GetKind_HybridRANSLES() != NO_HYBRIDRANSLES]. *)
Variable hybrid_RANS_LES : bool.
(** The argument [Output] of the routine. *)
Variable Output : bool.

(** Lines 608-637: one point. *)
Definition SetPrimitive_Variables_point (iPoint : nat)
    (st : PrimVar_state CSysMatrix CFluidModel)
  : PrimVar_state CSysMatrix CFluidModel :=
  let turb_model := Kind_Turb_Model config in
  let tkeNeeded := bool_decide (turb_model = SST) || bool_decide (turb_model = SST_SUST) in
  let s := pv_solver st in
  let '(eddy_visc, turb_ke, DES_LengthScale) :=
    match TURB_SOL with
    | Some turb =>
        if bool_decide (turb_model <> NONE) then
          (muT turb !!! iPoint,
           if tkeNeeded then (turb_Solution turb !!! iPoint) !!! 0%nat
           else turb_ke st,
           if hybrid_RANS_LES then turb_DES_LengthScale turb !!! iPoint
           else DES_LengthScale st)
        else (eddy_visc st, turb_ke st, DES_LengthScale st)
    | None => (eddy_visc st, turb_ke st, DES_LengthScale st)
    end in
  let '(physical, nd, FluidModel) :=
    SetPrimVar iPoint eddy_visc turb_ke (pv_FluidModel st) (nodes s) in
  let nonPhysicalPoints :=
    if physical then nonPhysicalPoints st else S (nonPhysicalPoints st) in
  let nd := SetDES_LengthScale iPoint DES_LengthScale nd in
  let s := set_nodes nd s in
  let s := if Output then s
           else set_LinSysRes (SetBlock_Zero iPoint (LinSysRes s)) s in
  mkPrimVar_state s FluidModel nonPhysicalPoints eddy_visc turb_ke DES_LengthScale.

(** [CIncNSSolver::SetPrimitive_Variables(solver_container, config, Output)];
    the value returned is [nonPhysicalPoints] of the final state. *)
Definition SetPrimitive_Variables (s : CIncNSSolver CSysMatrix)
    (FluidModel : CFluidModel) : PrimVar_state CSysMatrix CFluidModel :=
  for_loop (nPoint s) SetPrimitive_Variables_point
    (mkPrimVar_state s FluidModel 0 0 0 0).

End SetPrimitive_Variables.

(** A fluid for the examples: the primitive variables are left as they are,
    and a point is physical when its index is even. *)
Definition example_variable_interface : CIncNSVariable_interface unit :=
  {| SetPrimVar := fun iPoint _ _ fm nd => (Nat.even iPoint, nd, fm);
     SetDES_LengthScale := fun _ _ nd => nd |}.

(** The example configuration in a dual-time run whose physical time step is
    computed from an unsteady CFL number of 5. *)
Definition example_unsteady_CFL_config : CConfig :=
  {| Kind_TimeIntScheme := RUNGE_KUTTA_EXPLICIT;
     Kind_TimeIntScheme_Flow := RUNGE_KUTTA_EXPLICIT;
     Time_Marching := DT_STEPPING_2ND;
     Energy_Equation := true;
     Dynamic_Grid := false;
     Kind_Turb_Model := NONE;
     Kind_CHT_Coupling := DIRECT_TEMPERATURE_NEUMANN_HEATFLUX;
     Marker_All_KindBC := [ISOTHERMAL];
     Marker_All_TagBound := ["wall"%string];
     Wall_HeatFlux := fun _ => 0;
     Isothermal_Temperature := fun _ => 300;
     WallFunction_Treatment := fun _ => NO_WALL_FUNCTION;
     Heat_Flux_Ref := 1;
     Temperature_Ref := 1;
     Viscosity_Ref := 1;
     Temperature_FreeStreamND := 1;
     CFL := [10];
     Max_DeltaTime := 1;
     Unst_CFL := 5;
     Delta_UnstTime := 3;
     Delta_UnstTimeND := 3 |}.

(** ** Relations used in the statement on stale time-step data *)

(** What [SetTime_Step] reads of an owned point on entry: the flow state and
    the local CFL number.  The spectral radii and the time step of the point
    may differ. *)
Definition same_time_step_input (p q : CIncNSVariable) : Prop :=
  same_flow_state p q /\ LocalCFL q = LocalCFL p.

(** The two points agree in every entry but the local time step. *)
Definition same_but_Delta_Time (p q : CIncNSVariable) : Prop :=
  set_Delta_Time 0 q = set_Delta_Time 0 p.

(** Two point containers that agree up to the local time step of the first
    [n] points. *)
Definition same_but_Delta_Times (n : nat) (nd nd2 : CVariable) : Prop :=
  Forall2 same_but_Delta_Time nd nd2 /\
  forall i, (n <= i)%nat -> nd2 !! i = nd !! i.

(** * Properties *)

(** ** Loops and arrays *)

Lemma for_loop_S {S} (n : nat) (body : nat -> S -> S) (s : S) :
  for_loop (Datatypes.S n) body s = body n (for_loop n body s).
Proof.
  unfold for_loop. rewrite seq_S, foldl_app. reflexivity.
Qed.

Lemma for_loop_0 {S} (body : nat -> S -> S) (s : S) : for_loop 0 body s = s.
Proof. reflexivity. Qed.

(** An invariant of the body is an invariant of the loop. *)
Lemma for_loop_invariant {S} (P : S -> Prop) (n : nat) (body : nat -> S -> S) (s : S) :
  P s -> (forall i s, (i < n)%nat -> P s -> P (body i s)) -> P (for_loop n body s).
Proof.
  intros Hs Hbody. induction n as [|n IH].
  - exact Hs.
  - rewrite for_loop_S. apply Hbody; [lia|]. apply IH.
    intros i s' Hi. apply Hbody. lia.
Qed.

Lemma length_array_fill {A} (n : nat) (v : A) (a : list A) :
  length (array_fill n v a) = length a.
Proof.
  unfold array_fill. change (length (for_loop n (fun i acc => <[i:=v]> acc) a) = length a).
  apply (for_loop_invariant (fun l => length l = length a)); [reflexivity|].
  intros i l _ Hl. rewrite length_insert. exact Hl.
Qed.

(** ** C8: orientation flip of a quadrilateral *)

(** C8.  For a quadrilateral whose node array is [n0; n1; n2; n3],
    [Change_Orientation] exchanges slots 1 and 3 and keeps slots 0 and 2, so
    the node array becomes [n0; n3; n2; n1]; the new array is a permutation of
    the old one (the node set is preserved), and a second application restores
    the element. *)
Theorem Change_Orientation_swaps_slots_1_3
    (q : Quad.CQuadrilateral) (n0 n1 n2 n3 : N) :
  Quad.Nodes q = [n0; n1; n2; n3] ->
  Quad.Nodes (Quad.Change_Orientation q) = [n0; n3; n2; n1] /\
  Quad.Nodes (Quad.Change_Orientation q) ≡ₚ Quad.Nodes q /\
  (forall n, n ∈ Quad.Nodes (Quad.Change_Orientation q) <-> n ∈ Quad.Nodes q) /\
  Quad.Change_Orientation (Quad.Change_Orientation q) = q.
Proof.
  intros Hq. destruct q as [nodes d cg]. simpl in Hq. subst nodes.
  assert (Hperm : [n0; n3; n2; n1] ≡ₚ [n0; n1; n2; n3]).
  { apply perm_skip. symmetry. apply (Permutation_rev [n1; n2; n3]). }
  split; [reflexivity|]. split; [exact Hperm|]. split; [|reflexivity].
  intros n. cbn. rewrite Hperm. reflexivity.
Qed.

(** The scenario of the specification: nodes [0,1,2,3] become [0,3,2,1]. *)
Lemma Change_Orientation_swaps_slots_1_3_witness :
  Quad.Nodes (Quad.Change_Orientation (Quad.new_CQuadrilateral 0 1 2 3 2))
  = [0%N; 3%N; 2%N; 1%N].
Proof.
  apply (Change_Orientation_swaps_slots_1_3
           (Quad.new_CQuadrilateral 0 1 2 3 2) 0%N 1%N 2%N 3%N).
  reflexivity.
Defined.

(** ** C9: relaxed update of the conjugate-heat variables *)

Lemma GetConjugateHeatVariable_allocated (H : HeatConjugateVar_t)
    (m v p : nat) (row : list (list su2double)) (arr : list su2double) :
  H !! m = Some row -> row !! v = Some arr ->
  GetConjugateHeatVariable H m v p = arr !!! p.
Proof.
  intros Hm Hv. unfold GetConjugateHeatVariable.
  rewrite (list_lookup_total_correct H m row Hm).
  rewrite (list_lookup_total_correct row v arr Hv). reflexivity.
Qed.

Lemma SetConjugateHeatVariable_lookup (H : HeatConjugateVar_t)
    (m v p : nat) (rf val : su2double) :
  HeatConjugateVar_allocated H m v p ->
  GetConjugateHeatVariable (SetConjugateHeatVariable H m v p rf val) m v p
  = rf * val + (1 - rf) * GetConjugateHeatVariable H m v p.
Proof.
  intros (row & arr & Hm & Hv & Hp).
  rewrite (GetConjugateHeatVariable_allocated H m v p row arr Hm Hv).
  unfold SetConjugateHeatVariable.
  erewrite GetConjugateHeatVariable_allocated.
  2:{ rewrite list_lookup_alter_eq, Hm. reflexivity. }
  2:{ rewrite list_lookup_alter_eq, Hv. reflexivity. }
  rewrite list_lookup_total_alter_eq by exact Hp. reflexivity.
Qed.

(** Every other entry of the table keeps its value. *)
Lemma SetConjugateHeatVariable_frame (H : HeatConjugateVar_t)
    (m v p m' v' p' : nat) (rf val : su2double) :
  (m', v', p') <> (m, v, p) ->
  GetConjugateHeatVariable (SetConjugateHeatVariable H m v p rf val) m' v' p'
  = GetConjugateHeatVariable H m' v' p'.
Proof.
  intros Hne. unfold GetConjugateHeatVariable, SetConjugateHeatVariable.
  destruct (decide (m = m')) as [<-|Hm].
  2:{ rewrite list_lookup_total_alter_ne by exact Hm. reflexivity. }
  rewrite list_lookup_total_alter.
  case_decide as Hc; [|reflexivity].
  destruct (decide (v = v')) as [<-|Hv].
  2:{ rewrite list_lookup_total_alter_ne by exact Hv. reflexivity. }
  rewrite list_lookup_total_alter.
  case_decide as Hc'; [|reflexivity].
  rewrite list_lookup_total_alter_ne; [reflexivity|].
  intros ->. apply Hne. reflexivity.
Qed.

(** C9.  On an allocated (marker, vertex, component) triple,
    [SetConjugateHeatVariable] replaces the stored value [old] by
    [relaxation_factor*val_var + (1 - relaxation_factor)*old], which is what a
    following [GetConjugateHeatVariable] on the triple returns; with
    relaxation factor 1 that is [val_var], with relaxation factor 0 it is the
    value stored before. *)
Theorem SetConjugateHeatVariable_relaxation (H : HeatConjugateVar_t)
    (val_marker val_vertex pos_var : nat) (relaxation_factor val_var : su2double) :
  HeatConjugateVar_allocated H val_marker val_vertex pos_var ->
  GetConjugateHeatVariable
    (SetConjugateHeatVariable H val_marker val_vertex pos_var
       relaxation_factor val_var)
    val_marker val_vertex pos_var
  = relaxation_factor * val_var
    + (1 - relaxation_factor)
      * GetConjugateHeatVariable H val_marker val_vertex pos_var /\
  GetConjugateHeatVariable
    (SetConjugateHeatVariable H val_marker val_vertex pos_var 1 val_var)
    val_marker val_vertex pos_var
  = val_var /\
  GetConjugateHeatVariable
    (SetConjugateHeatVariable H val_marker val_vertex pos_var 0 val_var)
    val_marker val_vertex pos_var
  = GetConjugateHeatVariable H val_marker val_vertex pos_var.
Proof.
  intros Halloc. rewrite !SetConjugateHeatVariable_lookup by exact Halloc.
  repeat split; lra.
Qed.

(** A table of one marker with one vertex holding (300, 0, 5, 0): relaxing
    component 0 towards 400 with factor 1/2. *)
Lemma SetConjugateHeatVariable_relaxation_witness :
  GetConjugateHeatVariable
    (SetConjugateHeatVariable [[[300; 0; 5; 0]]] 0 0 0 (1 / 2) 400) 0 0 0
  = (1 / 2) * 400 + (1 - 1 / 2) * GetConjugateHeatVariable [[[300; 0; 5; 0]]] 0 0 0.
Proof.
  apply (SetConjugateHeatVariable_relaxation [[[300; 0; 5; 0]]] 0 0 0 (1 / 2) 400).
  exists [[300; 0; 5; 0]], [300; 0; 5; 0]. simpl. repeat split; lia.
Defined.

(** ** C10: the conjugate-heat table after construction *)

Section Constructor_properties.
Context {CSysMatrix : Type} `{!CSysMatrix_interface CSysMatrix}.

Lemma new_HeatConjugateVar_vertex_value (garbage : nat -> su2double)
    (config : CConfig) :
  new_HeatConjugateVar_vertex garbage config
  = [Temperature_FreeStreamND config; 0; 0; 0].
Proof. reflexivity. Qed.

Lemma new_HeatConjugateVar_lookup (garbage : nat -> su2double)
    (geometry : CGeometry) (config : CConfig) (nMarker iMarker iVertex pos_var : nat) :
  (iMarker < nMarker)%nat -> (iVertex < GetnVertex geometry iMarker)%nat ->
  GetConjugateHeatVariable (new_HeatConjugateVar garbage geometry config nMarker)
    iMarker iVertex pos_var
  = [Temperature_FreeStreamND config; 0; 0; 0] !!! pos_var.
Proof.
  intros Hm Hv. unfold new_HeatConjugateVar.
  rewrite <- (new_HeatConjugateVar_vertex_value garbage config).
  eapply GetConjugateHeatVariable_allocated.
  - rewrite list_lookup_fmap, lookup_seq_lt by exact Hm. reflexivity.
  - rewrite list_lookup_fmap, lookup_seq_lt by exact Hv. reflexivity.
Qed.

Lemma new_CIncNSSolver_nVertex (garbage : nat -> su2double) (new_nodes : CVariable)
    (geometry : CGeometry) (config : CConfig) (iMesh iMarker : nat) :
  (iMarker < GetnMarker_All config)%nat ->
  nVertex (new_CIncNSSolver garbage new_nodes geometry config iMesh) !!! iMarker
  = GetnVertex geometry iMarker.
Proof.
  intros Hm. cbn [new_CIncNSSolver nVertex].
  apply list_lookup_total_correct.
  rewrite list_lookup_fmap, lookup_seq_lt by exact Hm. reflexivity.
Qed.

(** C10, as the code has it.  After the constructor, every vertex of every
    marker holds the non-dimensional free-stream temperature in component 0
    and zero in components 1 to 3.  The direct-temperature branch of the
    conjugate-heat interface divides component 0 by the reference temperature:
    before any coupling data arrives it imposes
    [Temperature_FreeStreamND / Temperature_Ref], which is the stored
    free-stream temperature when the reference temperature is 1. *)
Theorem new_CIncNSSolver_HeatConjugateVar (garbage : nat -> su2double)
    (new_nodes : CVariable) (geometry : CGeometry) (config : CConfig)
    (iMesh iMarker iVertex iPoint : nat) :
  let s := new_CIncNSSolver garbage new_nodes geometry config iMesh in
  (iMarker < nMarker s)%nat ->
  (iVertex < nVertex s !!! iMarker)%nat ->
  GetConjugateHeatVariable (HeatConjugateVar s) iMarker iVertex 0
  = Temperature_FreeStreamND config /\
  GetConjugateHeatVariable (HeatConjugateVar s) iMarker iVertex 1 = 0 /\
  GetConjugateHeatVariable (HeatConjugateVar s) iMarker iVertex 2 = 0 /\
  GetConjugateHeatVariable (HeatConjugateVar s) iMarker iVertex 3 = 0 /\
  (Kind_CHT_Coupling config = DIRECT_TEMPERATURE_NEUMANN_HEATFLUX \/
   Kind_CHT_Coupling config = DIRECT_TEMPERATURE_ROBIN_HEATFLUX ->
   CHT_wall_temperature geometry config iMarker iVertex iPoint s
   = Ok (Temperature_FreeStreamND config / Temperature_Ref config) /\
   (Temperature_Ref config = 1 ->
    CHT_wall_temperature geometry config iMarker iVertex iPoint s
    = Ok (Temperature_FreeStreamND config))).
Proof.
  intros s Hm Hv. subst s.
  rewrite new_CIncNSSolver_nVertex in Hv by exact Hm.
  cbn [new_CIncNSSolver nMarker] in Hm.
  cbn [new_CIncNSSolver HeatConjugateVar].
  assert (H0 : forall pos_var,
    GetConjugateHeatVariable
      (new_HeatConjugateVar garbage geometry config (GetnMarker_All config))
      iMarker iVertex pos_var
    = [Temperature_FreeStreamND config; 0; 0; 0] !!! pos_var).
  { intros pos_var. apply new_HeatConjugateVar_lookup; assumption. }
  split; [apply H0|]. split; [apply H0|]. split; [apply H0|]. split; [apply H0|].
  intros Hkind.
  assert (Hdirect :
    CHT_wall_temperature geometry config iMarker iVertex iPoint
      (new_CIncNSSolver garbage new_nodes geometry config iMesh)
    = Ok (Temperature_FreeStreamND config / Temperature_Ref config)).
  { unfold CHT_wall_temperature. cbn [new_CIncNSSolver HeatConjugateVar].
    rewrite H0. destruct Hkind as [Hk|Hk]; rewrite Hk; reflexivity. }
  split; [exact Hdirect|].
  intros Href. rewrite Hdirect, Href. f_equal. cbn. lra.
Qed.

End Constructor_properties.

(** The example solver, directly coupled, with reference temperature 1. *)
Lemma new_CIncNSSolver_HeatConjugateVar_witness :
  GetConjugateHeatVariable
    (HeatConjugateVar
       (example_solver 1
          (example_config EULER_IMPLICIT STEADY true
             DIRECT_TEMPERATURE_ROBIN_HEATFLUX NO_WALL_FUNCTION 300 1)))
    0 0 0
  = 1.
Proof.
  apply (@new_CIncNSSolver_HeatConjugateVar unit no_matrix (fun _ => 7)
           example_nodes (example_geometry 1)
           (example_config EULER_IMPLICIT STEADY true
              DIRECT_TEMPERATURE_ROBIN_HEATFLUX NO_WALL_FUNCTION 300 1)
           0 0 0 0); cbn; lia.
Defined.

(** C10 as stated fails.  With reference temperature 2 and a stored
    non-dimensional free-stream temperature 1 (a free stream at 2 in
    dimensional units), the direct branch imposes 1/2: neither the stored
    non-dimensional free-stream temperature nor the dimensional one. *)
Lemma new_CIncNSSolver_direct_CHT_counterexample :
  let config := example_config EULER_IMPLICIT STEADY true
                  DIRECT_TEMPERATURE_NEUMANN_HEATFLUX NO_WALL_FUNCTION 300 2 in
  let s := example_solver 1 config in
  GetConjugateHeatVariable (HeatConjugateVar s) 0 0 0
  = Temperature_FreeStreamND config /\
  CHT_wall_temperature (example_geometry 1) config 0 0 0 s = Ok (1 / 2) /\
  CHT_wall_temperature (example_geometry 1) config 0 0 0 s
  <> Ok (Temperature_FreeStreamND config) /\
  CHT_wall_temperature (example_geometry 1) config 0 0 0 s
  <> Ok (Temperature_FreeStreamND config * Temperature_Ref config).
Proof.
  cbv zeta.
  assert (Hw : CHT_wall_temperature (example_geometry 1)
                 (example_config EULER_IMPLICIT STEADY true
                    DIRECT_TEMPERATURE_NEUMANN_HEATFLUX NO_WALL_FUNCTION 300 2) 0 0 0
                 (example_solver 1
                    (example_config EULER_IMPLICIT STEADY true
                       DIRECT_TEMPERATURE_NEUMANN_HEATFLUX NO_WALL_FUNCTION 300 2))
               = Ok (1 / 2)).
  { reflexivity. }
  split; [reflexivity|]. split; [exact Hw|]. rewrite Hw. cbn.
  split; intros Heq; inversion Heq; lra.
Qed.

(** ** C3: the flux-weighted wall temperature of the conjugate-heat interface *)

Lemma limit1_in_const (c x0 : R) (D : R -> Prop) :
  limit1_in (fun _ => c) D c x0.
Proof. exact (limit_free (fun _ => c) D x0 x0). Qed.

Lemma CHT_averaged_Twall_equal_factors (There Tconjugate h : su2double) :
  h <> 0 -> CHT_averaged_Twall There Tconjugate h h = (There + Tconjugate) / 2.
Proof. intros Hh. unfold CHT_averaged_Twall. field. lra. Qed.

(** The conjugate factor tends to zero: the wall takes the near-wall
    temperature. *)
Lemma CHT_averaged_Twall_limit_conjugate (There Tconjugate h : su2double) :
  h <> 0 ->
  limit1_in (fun c => CHT_averaged_Twall There Tconjugate h c)
            (fun _ => True) There 0.
Proof.
  intros Hh. unfold CHT_averaged_Twall, Rdiv.
  assert (Hlim :
    limit1_in (fun c => (There * h + Tconjugate * c) * / (h + c))
              (fun _ => True) ((There * h + Tconjugate * 0) * / (h + 0)) 0).
  { apply limit_mul.
    - apply limit_plus; [apply limit1_in_const|].
      apply limit_mul; [apply limit1_in_const|apply lim_x].
    - apply limit_inv; [|lra].
      apply limit_plus; [apply limit1_in_const|apply lim_x]. }
  replace ((There * h + Tconjugate * 0) * / (h + 0)) with There in Hlim
    by (field; lra).
  exact Hlim.
Qed.

(** The local factor tends to zero: the wall takes the conjugate
    temperature. *)
Lemma CHT_averaged_Twall_limit_here (There Tconjugate c : su2double) :
  c <> 0 ->
  limit1_in (fun h => CHT_averaged_Twall There Tconjugate h c)
            (fun _ => True) Tconjugate 0.
Proof.
  intros Hc. unfold CHT_averaged_Twall, Rdiv.
  assert (Hlim :
    limit1_in (fun h => (There * h + Tconjugate * c) * / (h + c))
              (fun _ => True) ((There * 0 + Tconjugate * c) * / (0 + c)) 0).
  { apply limit_mul.
    - apply limit_plus; [|apply limit1_in_const].
      apply limit_mul; [apply limit1_in_const|apply lim_x].
    - apply limit_inv; [|lra].
      apply limit_plus; [apply lim_x|apply limit1_in_const]. }
  replace ((There * 0 + Tconjugate * c) * / (0 + c)) with Tconjugate in Hlim
    by (field; lra).
  exact Hlim.
Qed.

(** C3, as the code has it.  In the flux-weighted variants the wall
    temperature is
    [(There*HF_FactorHere + Tconjugate*HF_FactorConjugate)
      /(HF_FactorHere + HF_FactorConjugate)].
    When the two factors are equal and not zero it is the arithmetic mean of
    [There] and [Tconjugate].  When one factor tends to zero and the other one
    is a fixed non-zero value, it tends to the temperature weighted by the
    other factor. *)
Theorem CHT_flux_weighted_wall_temperature {CSysMatrix : Type}
    (geometry : CGeometry) (config : CConfig) (val_marker iVertex iPoint : nat)
    (s : CIncNSSolver CSysMatrix) :
  Kind_CHT_Coupling config = AVERAGED_TEMPERATURE_NEUMANN_HEATFLUX \/
  Kind_CHT_Coupling config = AVERAGED_TEMPERATURE_ROBIN_HEATFLUX ->
  let Point_Normal := vertex_Normal_Neighbor (GetVertex geometry val_marker iVertex) in
  let dist_ij :=
    Coord_distance (nDim s) (GetCoord geometry iPoint) (GetCoord geometry Point_Normal) in
  let There := GetTemperature (nodes s) Point_Normal in
  let Tconjugate :=
    GetConjugateHeatVariable (HeatConjugateVar s) val_marker iVertex 0
    / Temperature_Ref config in
  let HF_FactorHere :=
    GetThermalConductivity (nodes s) iPoint * Viscosity_Ref config / dist_ij in
  let HF_FactorConjugate :=
    GetConjugateHeatVariable (HeatConjugateVar s) val_marker iVertex 2 in
  CHT_wall_temperature geometry config val_marker iVertex iPoint s
  = Ok ((There * HF_FactorHere + Tconjugate * HF_FactorConjugate)
        / (HF_FactorHere + HF_FactorConjugate)) /\
  (HF_FactorHere = HF_FactorConjugate -> HF_FactorHere <> 0 ->
   CHT_wall_temperature geometry config val_marker iVertex iPoint s
   = Ok ((There + Tconjugate) / 2)) /\
  (forall T_here T_conjugate h : su2double, h <> 0 ->
   limit1_in (fun c => CHT_averaged_Twall T_here T_conjugate h c)
             (fun _ => True) T_here 0) /\
  (forall T_here T_conjugate c : su2double, c <> 0 ->
   limit1_in (fun h => CHT_averaged_Twall T_here T_conjugate h c)
             (fun _ => True) T_conjugate 0).
Proof.
  intros Hkind Point_Normal dist_ij There Tconjugate HF_FactorHere HF_FactorConjugate.
  assert (Hcode :
    CHT_wall_temperature geometry config val_marker iVertex iPoint s
    = Ok (CHT_averaged_Twall There Tconjugate HF_FactorHere HF_FactorConjugate)).
  { unfold CHT_wall_temperature. destruct Hkind as [Hk|Hk]; rewrite Hk; reflexivity. }
  split; [exact Hcode|]. split.
  - intros Heq Hne. rewrite Hcode, <- Heq.
    rewrite CHT_averaged_Twall_equal_factors by exact Hne. reflexivity.
  - split.
    + intros T_here T_conjugate h Hh. apply CHT_averaged_Twall_limit_conjugate, Hh.
    + intros T_here T_conjugate c Hc. apply CHT_averaged_Twall_limit_here, Hc.
Qed.

(** The example solver with the Neumann flavour of the averaged coupling. *)
Lemma CHT_flux_weighted_wall_temperature_witness :
  let config := example_config EULER_IMPLICIT STEADY true
                  AVERAGED_TEMPERATURE_NEUMANN_HEATFLUX NO_WALL_FUNCTION 300 1 in
  let s := example_solver 1 config in
  let dist_ij := Coord_distance 2 [0; 0] [0.01; 0] in
  CHT_wall_temperature (example_geometry 1) config 0 0 0 s
  = Ok ((350 * (0.026 * 1 / dist_ij) + 1 / 1 * 0) / (0.026 * 1 / dist_ij + 0)).
Proof.
  apply (CHT_flux_weighted_wall_temperature (example_geometry 1)
           (example_config EULER_IMPLICIT STEADY true
              AVERAGED_TEMPERATURE_NEUMANN_HEATFLUX NO_WALL_FUNCTION 300 1)
           0 0 0
           (example_solver 1
              (example_config EULER_IMPLICIT STEADY true
                 AVERAGED_TEMPERATURE_NEUMANN_HEATFLUX NO_WALL_FUNCTION 300 1))).
  left. reflexivity.
Defined.

(** C3 as stated fails when a factor is zero.  With both factors zero (they
    are equal) the quotient is 0/0, not the mean: the temperatures are 350 and
    1 and the wall temperature is not 351/2.  With a local factor zero the
    wall temperature is the conjugate temperature 1 for every non-zero
    conjugate factor, so it does not tend to the near-wall temperature 350 as
    the conjugate factor tends to zero. *)
Lemma CHT_equal_zero_factors_counterexample :
  CHT_averaged_Twall 350 1 0 0 = 0 /\
  CHT_averaged_Twall 350 1 0 0 <> (350 + 1) / 2 /\
  ~ limit1_in (fun c => CHT_averaged_Twall 350 1 0 c) (fun c => c <> 0) 350 0.
Proof.
  assert (H0 : CHT_averaged_Twall 350 1 0 0 = 0).
  { unfold CHT_averaged_Twall, Rdiv.
    replace (350 * 0 + 1 * 0) with 0 by lra. apply Rmult_0_l. }
  split; [exact H0|]. split; [rewrite H0; lra|].
  intros Hlim. destruct (Hlim 1 ltac:(lra)) as (alp & Halp & Hclose).
  specialize (Hclose (alp / 2)). cbn in Hclose. unfold R_dist in Hclose.
  assert (Hval : CHT_averaged_Twall 350 1 0 (alp / 2) = 1).
  { unfold CHT_averaged_Twall. field. lra. }
  rewrite Hval in Hclose.
  assert (Hnear : alp / 2 <> 0 /\ Rabs (alp / 2 - 0) < alp).
  { split; [lra|]. rewrite Rabs_right; lra. }
  apply Hclose in Hnear. rewrite Rabs_left in Hnear; lra.
Qed.

(** ** Loops that treat one point per iteration *)

Lemma for_loop_invariant_indexed {S} (P : nat -> S -> Prop) (n : nat)
    (body : nat -> S -> S) (s : S) :
  P 0%nat s ->
  (forall i s, (i < n)%nat -> P i s -> P (Datatypes.S i) (body i s)) ->
  P n (for_loop n body s).
Proof.
  intros Hs Hbody. induction n as [|n IH].
  - exact Hs.
  - rewrite for_loop_S. apply Hbody; [lia|]. apply IH.
    intros i s' Hi. apply Hbody. lia.
Qed.

(** A projection of the state that the body respects can be followed on its
    own. *)
Lemma for_loop_project {S T} (proj : S -> T) (n : nat)
    (body : nat -> S -> S) (body' : nat -> T -> T) (s : S) :
  (forall i s, proj (body i s) = body' i (proj s)) ->
  proj (for_loop n body s) = for_loop n body' (proj s).
Proof.
  intros Hbody. induction n as [|n IH]; [reflexivity|].
  rewrite !for_loop_S, Hbody, IH. reflexivity.
Qed.

Lemma for_loop_ext {S} (n : nat) (body body' : nat -> S -> S) (s : S) :
  (forall i s, (i < n)%nat -> body i s = body' i s) ->
  for_loop n body s = for_loop n body' s.
Proof.
  intros Hbody. induction n as [|n IH]; [reflexivity|].
  rewrite !for_loop_S, IH by (intros; apply Hbody; lia).
  apply Hbody. lia.
Qed.

(** Iteration [i] rewrites element [i] from its current content: after the
    loop every element below the bound has been rewritten once. *)
Lemma for_loop_pointwise {A} (F : nat -> A -> A) (n : nat) (l : list A) (j : nat) :
  for_loop n (fun i l => alter (F i) i l) l !! j
  = if decide (j < n)%nat then F j <$> l !! j else l !! j.
Proof.
  induction n as [|n IH].
  - rewrite for_loop_0. case_decide; [lia|reflexivity].
  - rewrite for_loop_S. destruct (decide (n = j)) as [->|Hne].
    + rewrite list_lookup_alter_eq, IH.
      case_decide; [lia|]. case_decide; [reflexivity|lia].
    + rewrite list_lookup_alter_ne by exact Hne. rewrite IH.
      repeat case_decide; try lia; reflexivity.
Qed.

Lemma for_loop_pointwise_total `{!Inhabited A} (F : nat -> A -> A) (n : nat)
    (l : list A) (j : nat) :
  (j < n)%nat -> (j < length l)%nat ->
  for_loop n (fun i l => alter (F i) i l) l !!! j = F j (l !!! j).
Proof.
  intros Hn Hl. apply list_lookup_total_correct.
  rewrite for_loop_pointwise. case_decide; [|lia].
  rewrite (list_lookup_lookup_total_lt l j Hl). reflexivity.
Qed.

Lemma length_for_loop_pointwise {A} (F : nat -> A -> A) (n : nat) (l : list A) :
  length (for_loop n (fun i l => alter (F i) i l) l) = length l.
Proof.
  apply (for_loop_invariant (fun l' => length l' = length l)); [reflexivity|].
  intros i l' _ Hl. rewrite length_alter. exact Hl.
Qed.

(** Writing an element from its own current content is an [alter]. *)
Lemma alter_from_current `{!Inhabited A} (h : A -> A -> A) (i : nat) (l : list A) :
  alter (h (l !!! i)) i l = alter (fun p => h p p) i l.
Proof.
  apply list_eq. intros j. destruct (decide (i = j)) as [<-|Hne].
  - rewrite !list_lookup_alter_eq. destruct (l !! i) as [x|] eqn:Hx; [|reflexivity].
    rewrite (list_lookup_total_correct l i x Hx). reflexivity.
  - rewrite !list_lookup_alter_ne by exact Hne. reflexivity.
Qed.

Lemma for_loop_skip {S} (n : nat) (s : S) : for_loop n (fun _ s => s) s = s.
Proof. induction n as [|n IH]; [reflexivity|]. rewrite for_loop_S. exact IH. Qed.

(** ** SetTime_Step: the loop over the points (lines 780-799) *)

Section SetTime_Step_properties.
Context {CSysMatrix : Type}.
Variables (geometry : CGeometry) (config : CConfig).

Lemma SetTime_Step_point_nodes (iPoint : nat) (st : TimeStep_state CSysMatrix) :
  nodes (ts_solver (SetTime_Step_point geometry config iPoint st))
  = alter (SetTime_Step_point_update geometry config iPoint) iPoint (nodes (ts_solver st)).
Proof.
  unfold SetTime_Step_point, SetTime_Step_point_update, GetLocalCFL,
    GetMax_Lambda_Inv, GetMax_Lambda_Visc, SetDelta_Time.
  destruct (decide (GetVolume geometry iPoint <> 0)) as [Hv|Hv]; cbn.
  - apply (alter_from_current
             (fun q p => set_Delta_Time
                (Local_Delta_Time_value config (GetVolume geometry iPoint) q) p)).
  - reflexivity.
Qed.

Lemma SetTime_Step_point_nPointDomain (iPoint : nat) (st : TimeStep_state CSysMatrix) :
  nPointDomain (ts_solver (SetTime_Step_point geometry config iPoint st))
  = nPointDomain (ts_solver st).
Proof.
  unfold SetTime_Step_point.
  destruct (decide (GetVolume geometry iPoint <> 0)); reflexivity.
Qed.

Lemma SetTime_Step_point_config (iPoint : nat) (st : TimeStep_state CSysMatrix) :
  ts_config (SetTime_Step_point geometry config iPoint st) = ts_config st.
Proof.
  unfold SetTime_Step_point.
  destruct (decide (GetVolume geometry iPoint <> 0)); reflexivity.
Qed.

Lemma SetTime_Step_local_nodes (st : TimeStep_state CSysMatrix) :
  nodes (ts_solver (SetTime_Step_local geometry config st))
  = for_loop (nPointDomain (ts_solver st))
      (fun iPoint nd => alter (SetTime_Step_point_update geometry config iPoint) iPoint nd)
      (nodes (ts_solver st)).
Proof.
  unfold SetTime_Step_local.
  apply (for_loop_project (fun st => nodes (ts_solver st))).
  intros i st'. apply SetTime_Step_point_nodes.
Qed.

Lemma SetTime_Step_local_nPointDomain (st : TimeStep_state CSysMatrix) :
  nPointDomain (ts_solver (SetTime_Step_local geometry config st))
  = nPointDomain (ts_solver st).
Proof.
  unfold SetTime_Step_local.
  rewrite (for_loop_project (fun st => nPointDomain (ts_solver st)) _ _ (fun _ n => n)).
  - apply for_loop_skip.
  - intros i st'. apply SetTime_Step_point_nPointDomain.
Qed.

Lemma SetTime_Step_local_config (st : TimeStep_state CSysMatrix) :
  ts_config (SetTime_Step_local geometry config st) = ts_config st.
Proof.
  unfold SetTime_Step_local.
  rewrite (for_loop_project ts_config _ _ (fun _ c => c)).
  - apply for_loop_skip.
  - intros i st'. apply SetTime_Step_point_config.
Qed.

Lemma SetTime_Step_local_length (st : TimeStep_state CSysMatrix) :
  length (nodes (ts_solver (SetTime_Step_local geometry config st)))
  = length (nodes (ts_solver st)).
Proof. rewrite SetTime_Step_local_nodes. apply length_for_loop_pointwise. Qed.

(** The local time step of an owned point after the loop. *)
Lemma SetTime_Step_local_Delta_Time (st : TimeStep_state CSysMatrix) (iPoint : nat) :
  (iPoint < nPointDomain (ts_solver st))%nat ->
  (iPoint < length (nodes (ts_solver st)))%nat ->
  GetDelta_Time (nodes (ts_solver (SetTime_Step_local geometry config st))) iPoint
  = if decide (GetVolume geometry iPoint <> 0)
    then Local_Delta_Time_value config (GetVolume geometry iPoint)
           (nodes (ts_solver st) !!! iPoint)
    else 0.
Proof.
  intros Hdom Hlen. unfold GetDelta_Time.
  rewrite SetTime_Step_local_nodes.
  rewrite for_loop_pointwise_total by assumption.
  reflexivity.
Qed.

(** Every division by a spectral radius is evaluated for a point of non-zero
    volume. *)
Lemma SetTime_Step_local_divisions (st : TimeStep_state CSysMatrix) :
  (forall d, d ∈ divisions st -> GetVolume geometry (Division_point d) <> 0) ->
  forall d, d ∈ divisions (SetTime_Step_local geometry config st) ->
            GetVolume geometry (Division_point d) <> 0.
Proof.
  intros Hst. unfold SetTime_Step_local.
  apply (for_loop_invariant
           (fun st => forall d, d ∈ divisions st ->
                                GetVolume geometry (Division_point d) <> 0));
    [exact Hst|].
  intros i st' _ IH d. unfold SetTime_Step_point, divide_by_radius.
  destruct (decide (GetVolume geometry i <> 0)) as [Hv|Hv]; cbn; [|apply IH].
  rewrite !elem_of_app, !list_elem_of_singleton.
  intros [[Hd| ->]| ->]; [apply IH, Hd|exact Hv|exact Hv].
Qed.

End SetTime_Step_properties.

(** ** SetTime_Step: the phases around the loop over the points *)

Section SetTime_Step_phases.
Context {CSysMatrix : Type}.
Variables (geometry : CGeometry) (config : CConfig).

Lemma length_SetTime_Step_edge (nDim : nat) (dynamic_grid : bool) (iEdge : nat)
    (nd : CVariable) :
  length (SetTime_Step_edge geometry config nDim dynamic_grid iEdge nd) = length nd.
Proof.
  unfold SetTime_Step_edge, AddMax_Lambda_Inv, AddMax_Lambda_Visc. cbv zeta.
  repeat match goal with
         | |- context [if ?b then _ else _] => destruct b
         end;
    rewrite ?length_alter; reflexivity.
Qed.

Lemma length_SetTime_Step_vertex (nDim : nat) (dynamic_grid : bool)
    (iMarker iVertex : nat) (nd : CVariable) :
  length (SetTime_Step_vertex geometry config nDim dynamic_grid iMarker iVertex nd)
  = length nd.
Proof.
  unfold SetTime_Step_vertex, AddMax_Lambda_Inv, AddMax_Lambda_Visc. cbv zeta.
  repeat match goal with
         | |- context [if ?b then _ else _] => destruct b
         end;
    rewrite ?length_alter; reflexivity.
Qed.

Lemma length_SetTime_Step_spectral_radii (s : CIncNSSolver CSysMatrix) :
  length (SetTime_Step_spectral_radii geometry config s) = length (nodes s).
Proof.
  unfold SetTime_Step_spectral_radii, SetTime_Step_reset.
  apply (for_loop_invariant (fun nd => length nd = length (nodes s))).
  - apply (for_loop_invariant (fun nd => length nd = length (nodes s))).
    + apply (for_loop_invariant (fun nd => length nd = length (nodes s)));
        [reflexivity|].
      intros i nd _ Hnd. unfold SetMax_Lambda_Visc, SetMax_Lambda_Inv.
      rewrite !length_alter. exact Hnd.
    + intros i nd _ Hnd. rewrite length_SetTime_Step_edge. exact Hnd.
  - intros iMarker nd _ Hnd.
    destruct (_ && _); [|exact Hnd].
    apply (for_loop_invariant (fun nd => length nd = length (nodes s)));
      [exact Hnd|].
    intros i nd' _ Hnd'. rewrite length_SetTime_Step_vertex. exact Hnd'.
Qed.

Lemma SetTime_Step_accumulate_length (s : CIncNSSolver CSysMatrix) :
  length (nodes (ts_solver (SetTime_Step_accumulate geometry s config)))
  = length (nodes s).
Proof.
  exact (length_SetTime_Step_spectral_radii
           (set_Max_Delta_Time 0 (set_Min_Delta_Time 1e30 s))).
Qed.

Lemma SetTime_Step_accumulate_nPointDomain (s : CIncNSSolver CSysMatrix) :
  nPointDomain (ts_solver (SetTime_Step_accumulate geometry s config))
  = nPointDomain s.
Proof. reflexivity. Qed.

(** Outside time-accurate stepping, lines 818-844 are skipped. *)
Lemma SetTime_Step_time_stepping_skip (st : TimeStep_state CSysMatrix) :
  Time_Marching (ts_config st) <> TIME_STEPPING ->
  SetTime_Step_time_stepping st = st.
Proof.
  intros Hm. unfold SetTime_Step_time_stepping.
  rewrite bool_decide_eq_false_2 by exact Hm. reflexivity.
Qed.

(** Lines 848-863 write the configuration only. *)
Lemma SetTime_Step_unsteady_step_solver (iMesh Iteration : nat)
    (st : TimeStep_state CSysMatrix) :
  ts_solver (SetTime_Step_unsteady_step iMesh Iteration st) = ts_solver st /\
  divisions (SetTime_Step_unsteady_step iMesh Iteration st) = divisions st /\
  dual_time_marching (ts_config (SetTime_Step_unsteady_step iMesh Iteration st))
  = dual_time_marching (ts_config st) /\
  implicit_scheme (ts_config (SetTime_Step_unsteady_step iMesh Iteration st))
  = implicit_scheme (ts_config st).
Proof.
  unfold SetTime_Step_unsteady_step.
  destruct (_ && _); repeat split; reflexivity.
Qed.

Lemma SetTime_Step_dual_time_clip_divisions (st : TimeStep_state CSysMatrix) :
  divisions (SetTime_Step_dual_time_clip st) = divisions st.
Proof.
  unfold SetTime_Step_dual_time_clip.
  destruct (dual_time_marching (ts_config st)); reflexivity.
Qed.

Lemma SetTime_Step_dual_time_clip_config (st : TimeStep_state CSysMatrix) :
  ts_config (SetTime_Step_dual_time_clip st) = ts_config st.
Proof.
  unfold SetTime_Step_dual_time_clip.
  destruct (dual_time_marching (ts_config st)); reflexivity.
Qed.

(** Steady marching, or an implicit scheme: lines 866-872 change no time
    step. *)
Lemma SetTime_Step_dual_time_clip_skip (st : TimeStep_state CSysMatrix) :
  (dual_time_marching (ts_config st) = true -> implicit_scheme (ts_config st) = true) ->
  nodes (ts_solver (SetTime_Step_dual_time_clip st)) = nodes (ts_solver st).
Proof.
  intros Himp. unfold SetTime_Step_dual_time_clip.
  destruct (dual_time_marching (ts_config st)); [|reflexivity].
  rewrite Himp by reflexivity. cbn. apply for_loop_skip.
Qed.

(** Dual time stepping with an explicit scheme: every owned point is clipped
    to two thirds of the physical time step. *)
Lemma SetTime_Step_dual_time_clip_explicit (st : TimeStep_state CSysMatrix)
    (iPoint : nat) :
  dual_time_marching (ts_config st) = true ->
  implicit_scheme (ts_config st) = false ->
  (iPoint < nPointDomain (ts_solver st))%nat ->
  (iPoint < length (nodes (ts_solver st)))%nat ->
  GetDelta_Time (nodes (ts_solver (SetTime_Step_dual_time_clip st))) iPoint
  = Rmin ((2 / 3) * Delta_UnstTimeND (ts_config st))
         (GetDelta_Time (nodes (ts_solver st)) iPoint).
Proof.
  intros Hdual Himp Hdom Hlen. unfold SetTime_Step_dual_time_clip.
  rewrite Hdual, Himp. cbn.
  rewrite (for_loop_ext _ _
             (fun i nd =>
                alter (fun p => set_Delta_Time
                         (Rmin (2 / 3 * Delta_UnstTimeND (ts_config st)) (Delta_Time p)) p)
                      i nd)).
  - unfold GetDelta_Time. rewrite for_loop_pointwise_total by assumption. reflexivity.
  - intros i nd _. unfold SetDelta_Time, GetDelta_Time.
    apply (alter_from_current
             (fun q p => set_Delta_Time
                (Rmin (2 / 3 * Delta_UnstTimeND (ts_config st)) (Delta_Time q)) p)).
Qed.

End SetTime_Step_phases.

(** ** C2, C5, C6: the local time step *)

Lemma Local_Delta_Time_value_min (config : CConfig) (Vol : su2double)
    (p : CIncNSVariable) :
  Local_Delta_Time_value config Vol p
  = Rmin (Rmin (LocalCFL p * Vol / Max_Lambda_Inv p)
               (LocalCFL p * K_v * Vol ^ 2 / Max_Lambda_Visc p))
         (Max_DeltaTime config).
Proof.
  unfold Local_Delta_Time_value.
  replace (LocalCFL p * K_v * Vol ^ 2) with (LocalCFL p * K_v * Vol * Vol) by ring.
  set (m := Rmin (LocalCFL p * Vol / Max_Lambda_Inv p)
                 (LocalCFL p * K_v * Vol * Vol / Max_Lambda_Visc p)).
  unfold Rmin.
  destruct (Rgt_dec m (Max_DeltaTime config)), (Rle_dec m (Max_DeltaTime config)); lra.
Qed.

Section SetTime_Step_claims.
Context {CSysMatrix : Type}.
Variables (geometry : CGeometry) (s : CIncNSSolver CSysMatrix) (config : CConfig).

Lemma SetTime_Step_local_accumulate_config :
  ts_config (SetTime_Step_local geometry config
               (SetTime_Step_accumulate geometry s config)) = config.
Proof. rewrite SetTime_Step_local_config. reflexivity. Qed.

(** The time steps at the end of [SetTime_Step] when neither the global step
    of time-accurate stepping nor the dual-time clipping applies. *)
Lemma SetTime_Step_nodes_local (iMesh Iteration : nat) :
  Time_Marching config <> TIME_STEPPING ->
  (dual_time_marching config = true -> implicit_scheme config = true) ->
  nodes (ts_solver (SetTime_Step geometry s config iMesh Iteration))
  = nodes (ts_solver (SetTime_Step_local geometry config
                        (SetTime_Step_accumulate geometry s config))).
Proof.
  intros Hmarch Himp. unfold SetTime_Step. cbv zeta.
  rewrite SetTime_Step_time_stepping_skip
    by (rewrite SetTime_Step_local_accumulate_config; exact Hmarch).
  set (st := SetTime_Step_local _ _ _).
  destruct (SetTime_Step_unsteady_step_solver iMesh Iteration st)
    as (Hs & _ & Hd & Hi).
  rewrite SetTime_Step_dual_time_clip_skip.
  - rewrite Hs. reflexivity.
  - rewrite Hd, Hi. subst st. rewrite SetTime_Step_local_accumulate_config.
    exact Himp.
Qed.

Lemma SetTime_Step_divisions (iMesh Iteration : nat) :
  divisions (SetTime_Step geometry s config iMesh Iteration)
  = divisions (SetTime_Step_local geometry config
                 (SetTime_Step_accumulate geometry s config)).
Proof.
  unfold SetTime_Step. cbv zeta.
  rewrite SetTime_Step_dual_time_clip_divisions.
  set (st := SetTime_Step_local _ _ _).
  destruct (SetTime_Step_unsteady_step_solver iMesh Iteration
              (SetTime_Step_time_stepping st)) as (_ & -> & _).
  unfold SetTime_Step_time_stepping. destruct (bool_decide _); reflexivity.
Qed.

(** C2.  For an owned point of non-zero volume, the loop of lines 780-799
    stores [min(min(CFL*Volume/lambda_inv, CFL*K_v*Volume^2/lambda_visc),
    Max_DeltaTime)], with [K_v = 0.25], the local CFL number of the point and
    the spectral radii accumulated over the edges and boundary vertices.  The
    value is the time step of the point at the end of [SetTime_Step] unless a
    later block rewrites it (time-accurate stepping, or dual time stepping
    with an explicit scheme). *)
Theorem SetTime_Step_stores_local_time_step (iPoint : nat) :
  (iPoint < nPointDomain s)%nat ->
  (iPoint < length (nodes s))%nat ->
  GetVolume geometry iPoint <> 0 ->
  let st := SetTime_Step_accumulate geometry s config in
  let nd := nodes (ts_solver st) in
  let CFL := GetLocalCFL nd iPoint in
  let Volume := GetVolume geometry iPoint in
  let lambda_inv := GetMax_Lambda_Inv nd iPoint in
  let lambda_visc := GetMax_Lambda_Visc nd iPoint in
  let dt := Rmin (Rmin (CFL * Volume / lambda_inv)
                       (CFL * K_v * Volume ^ 2 / lambda_visc))
                 (Max_DeltaTime config) in
  K_v = 0.25 /\
  GetDelta_Time (nodes (ts_solver (SetTime_Step_local geometry config st))) iPoint
  = dt /\
  (forall iMesh Iteration,
     Time_Marching config <> TIME_STEPPING ->
     (dual_time_marching config = true -> implicit_scheme config = true) ->
     GetDelta_Time (nodes (ts_solver (SetTime_Step geometry s config iMesh Iteration)))
       iPoint = dt).
Proof.
  intros Hdom Hlen Hvol st nd CFL Volume lambda_inv lambda_visc dt.
  assert (Hlocal :
    GetDelta_Time (nodes (ts_solver (SetTime_Step_local geometry config st))) iPoint
    = dt).
  { rewrite SetTime_Step_local_Delta_Time.
    - destruct (decide (GetVolume geometry iPoint <> 0)) as [_|Hc]; [|contradiction].
      apply Local_Delta_Time_value_min.
    - exact Hdom.
    - subst st. rewrite SetTime_Step_accumulate_length. exact Hlen. }
  split; [reflexivity|]. split; [exact Hlocal|].
  intros iMesh Iteration Hmarch Himp.
  rewrite SetTime_Step_nodes_local by assumption. exact Hlocal.
Qed.

(** C5.  For an owned point of zero volume, the loop of lines 780-799 stores
    the time step 0, and no division by the inviscid or the viscous spectral
    radius of that point is evaluated in [SetTime_Step].  The time step of the
    point is still 0 at the end of [SetTime_Step] unless a later block
    rewrites it (time-accurate stepping, or dual time stepping with an
    explicit scheme). *)
Theorem SetTime_Step_zero_volume (iPoint iMesh Iteration : nat) :
  (iPoint < nPointDomain s)%nat ->
  (iPoint < length (nodes s))%nat ->
  GetVolume geometry iPoint = 0 ->
  GetDelta_Time
    (nodes (ts_solver (SetTime_Step_local geometry config
                         (SetTime_Step_accumulate geometry s config)))) iPoint
  = 0 /\
  (forall d, d ∈ divisions (SetTime_Step geometry s config iMesh Iteration) ->
             Division_point d <> iPoint) /\
  (Time_Marching config <> TIME_STEPPING ->
   (dual_time_marching config = true -> implicit_scheme config = true) ->
   GetDelta_Time (nodes (ts_solver (SetTime_Step geometry s config iMesh Iteration)))
     iPoint = 0).
Proof.
  intros Hdom Hlen Hvol.
  assert (Hlocal :
    GetDelta_Time
      (nodes (ts_solver (SetTime_Step_local geometry config
                           (SetTime_Step_accumulate geometry s config)))) iPoint
    = 0).
  { rewrite SetTime_Step_local_Delta_Time.
    - destruct (decide (GetVolume geometry iPoint <> 0)) as [Hc|_];
        [contradiction|reflexivity].
    - exact Hdom.
    - rewrite SetTime_Step_accumulate_length. exact Hlen. }
  split; [exact Hlocal|]. split.
  - intros d Hd Heq. rewrite SetTime_Step_divisions in Hd.
    apply (SetTime_Step_local_divisions geometry config
             (SetTime_Step_accumulate geometry s config)) in Hd.
    + apply Hd. rewrite Heq. exact Hvol.
    + cbn. intros d' Hd'. apply elem_of_nil in Hd'. contradiction.
  - intros Hmarch Himp. rewrite SetTime_Step_nodes_local by assumption.
    exact Hlocal.
Qed.

(** C6.  In dual time stepping with an explicit scheme, the time step of
    every owned point at the end of [SetTime_Step] is the minimum of two
    thirds of the physical time step and the local step computed by the loop
    of lines 780-799; it does not exceed two thirds of the physical step.
    With an implicit scheme the time steps are those of the loop. *)
Theorem SetTime_Step_dual_time_clipping (iMesh Iteration : nat) :
  dual_time_marching config = true ->
  let local := SetTime_Step_local geometry config
                 (SetTime_Step_accumulate geometry s config) in
  let final := SetTime_Step geometry s config iMesh Iteration in
  let physical := Delta_UnstTimeND (ts_config final) in
  (implicit_scheme config = false ->
   forall iPoint, (iPoint < nPointDomain s)%nat -> (iPoint < length (nodes s))%nat ->
     GetDelta_Time (nodes (ts_solver final)) iPoint
     = Rmin ((2 / 3) * physical) (GetDelta_Time (nodes (ts_solver local)) iPoint) /\
     GetDelta_Time (nodes (ts_solver final)) iPoint <= (2 / 3) * physical) /\
  (implicit_scheme config = true ->
   nodes (ts_solver final) = nodes (ts_solver local)).
Proof.
  intros Hdual local final physical.
  assert (Hmarch : Time_Marching config <> TIME_STEPPING).
  { unfold dual_time_marching in Hdual. intros Hts. rewrite Hts in Hdual.
    discriminate Hdual. }
  split.
  - intros Himp iPoint Hdom Hlen.
    assert (Heq :
      GetDelta_Time (nodes (ts_solver final)) iPoint
      = Rmin ((2 / 3) * physical) (GetDelta_Time (nodes (ts_solver local)) iPoint)).
    { subst physical final. unfold SetTime_Step. cbv zeta. fold local.
      rewrite SetTime_Step_dual_time_clip_config.
      rewrite (SetTime_Step_time_stepping_skip local)
        by (subst local; rewrite SetTime_Step_local_accumulate_config; exact Hmarch).
      destruct (SetTime_Step_unsteady_step_solver iMesh Iteration local)
        as (Hs & _ & Hd & Hi).
      rewrite SetTime_Step_dual_time_clip_explicit.
      - rewrite Hs. reflexivity.
      - rewrite Hd. subst local. rewrite SetTime_Step_local_accumulate_config.
        exact Hdual.
      - rewrite Hi. subst local. rewrite SetTime_Step_local_accumulate_config.
        exact Himp.
      - rewrite Hs. subst local. rewrite SetTime_Step_local_nPointDomain.
        exact Hdom.
      - rewrite Hs. subst local.
        rewrite SetTime_Step_local_length, SetTime_Step_accumulate_length.
        exact Hlen. }
    split; [exact Heq|]. rewrite Heq. apply Rmin_l.
  - intros Himp. subst final local. apply SetTime_Step_nodes_local; [exact Hmarch|].
    intros _. exact Himp.
Qed.

End SetTime_Step_claims.

(** The wall point of the example mesh, volume 1, steady implicit run. *)
Lemma SetTime_Step_stores_local_time_step_witness :
  let s := example_solver 1 example_steady_config in
  let nd := nodes (ts_solver (SetTime_Step_accumulate (example_geometry 1) s
                                example_steady_config)) in
  GetDelta_Time
    (nodes (ts_solver (SetTime_Step (example_geometry 1) s example_steady_config 0 0)))
    0
  = Rmin (Rmin (GetLocalCFL nd 0 * 1 / GetMax_Lambda_Inv nd 0)
               (GetLocalCFL nd 0 * K_v * 1 ^ 2 / GetMax_Lambda_Visc nd 0))
         1.
Proof.
  intros s nd.
  assert (Hdom : (0 < nPointDomain s)%nat) by (cbn; lia).
  assert (Hlen : (0 < length (nodes s))%nat) by (cbn; lia).
  assert (Hvol : GetVolume (example_geometry 1) 0 <> 0) by (cbn; lra).
  destruct (SetTime_Step_stores_local_time_step (example_geometry 1) s
              example_steady_config 0 Hdom Hlen Hvol) as (_ & _ & Hend).
  apply Hend; [discriminate|discriminate].
Defined.

(** The wall point of the example mesh with a degenerate dual cell. *)
Lemma SetTime_Step_zero_volume_witness :
  let s := example_solver 0 example_steady_config in
  GetDelta_Time
    (nodes (ts_solver (SetTime_Step_local (example_geometry 0) example_steady_config
                         (SetTime_Step_accumulate (example_geometry 0) s
                            example_steady_config)))) 0
  = 0.
Proof.
  intros s.
  assert (Hdom : (0 < nPointDomain s)%nat) by (cbn; lia).
  assert (Hlen : (0 < length (nodes s))%nat) by (cbn; lia).
  assert (Hvol : GetVolume (example_geometry 0) 0 = 0) by reflexivity.
  exact (proj1 (SetTime_Step_zero_volume (example_geometry 0) s
                  example_steady_config 0 0 0 Hdom Hlen Hvol)).
Defined.

(** The example mesh in a second-order dual-time run with an explicit
    Runge-Kutta scheme. *)
Lemma SetTime_Step_dual_time_clipping_witness :
  let s := example_solver 1 example_dual_time_config in
  let final := SetTime_Step (example_geometry 1) s example_dual_time_config 0 0 in
  GetDelta_Time (nodes (ts_solver final)) 0
  <= (2 / 3) * Delta_UnstTimeND (ts_config final).
Proof.
  intros s final.
  assert (Hdual : dual_time_marching example_dual_time_config = true) by reflexivity.
  assert (Hexp : implicit_scheme example_dual_time_config = false) by reflexivity.
  assert (Hdom : (0 < nPointDomain s)%nat) by (cbn; lia).
  assert (Hlen : (0 < length (nodes s))%nat) by (cbn; lia).
  exact (proj2 (proj1 (SetTime_Step_dual_time_clipping (example_geometry 1) s
                         example_dual_time_config 0 0 Hdual) Hexp 0%nat Hdom Hlen)).
Defined.

(** ** C1: conservation of the viscous residual *)

Lemma length_Block_minus (f b : list su2double) : length (Block_minus f b) = length b.
Proof. apply length_imap. Qed.

Lemma length_Block_plus (f b : list su2double) : length (Block_plus f b) = length b.
Proof. apply length_imap. Qed.

Lemma Block_minus_lookup (f b : list su2double) (k : nat) :
  Block_minus f b !!! k = b !!! k - flux_entry (length b) f k.
Proof.
  unfold Block_minus, flux_entry. destruct (b !! k) as [x|] eqn:Hb.
  - pose proof (lookup_lt_Some b k x Hb) as Hk.
    rewrite (list_lookup_total_correct b k x Hb).
    rewrite decide_True by exact Hk.
    apply list_lookup_total_correct. rewrite list_lookup_imap, Hb. reflexivity.
  - pose proof (proj1 (lookup_ge_None b k) Hb) as Hk.
    rewrite decide_False by lia.
    rewrite !list_lookup_total_alt, list_lookup_imap, Hb. cbn. lra.
Qed.

Lemma Block_plus_lookup (f b : list su2double) (k : nat) :
  Block_plus f b !!! k = b !!! k + flux_entry (length b) f k.
Proof.
  unfold Block_plus, flux_entry. destruct (b !! k) as [x|] eqn:Hb.
  - pose proof (lookup_lt_Some b k x Hb) as Hk.
    rewrite (list_lookup_total_correct b k x Hb).
    rewrite decide_True by exact Hk.
    apply list_lookup_total_correct. rewrite list_lookup_imap, Hb. reflexivity.
  - pose proof (proj1 (lookup_ge_None b k) Hb) as Hk.
    rewrite decide_False by lia.
    rewrite !list_lookup_total_alt, list_lookup_imap, Hb. cbn. lra.
Qed.

Lemma Residual_total_alter (g : list su2double -> list su2double)
    (i : nat) (v : CSysVector) (k : nat) :
  (i < length v)%nat ->
  Residual_total (alter g i v) k
  = Residual_total v k + (g (v !!! i) !!! k - (v !!! i) !!! k).
Proof.
  unfold Residual_total. revert i. induction v as [|b v IH]; intros i Hi.
  - cbn in Hi. lia.
  - destruct i as [|i].
    + cbn. lra.
    + cbn in Hi. cbn. rewrite IH by lia. rewrite <- Rplus_assoc. reflexivity.
Qed.

(** Subtracting a flux at one point and adding it at another leaves every
    component of the summed residual unchanged. *)
Lemma Residual_total_Subtract_Add (v : CSysVector) (i j : nat)
    (f : list su2double) (n k : nat) :
  (i < length v)%nat -> (j < length v)%nat ->
  Forall (fun block => length block = n) v ->
  Residual_total (AddBlock j f (SubtractBlock i f v)) k = Residual_total v k.
Proof.
  intros Hi Hj Hn. unfold AddBlock, SubtractBlock.
  pose proof (Forall_lookup_total_1 _ v i Hn Hi) as Hli. cbn beta in Hli.
  pose proof (Forall_lookup_total_1 _ v j Hn Hj) as Hlj. cbn beta in Hlj.
  rewrite Residual_total_alter by (rewrite length_alter; exact Hj).
  rewrite Residual_total_alter by exact Hi.
  rewrite Block_plus_lookup, Block_minus_lookup.
  destruct (decide (i = j)) as [<-|Hne].
  - rewrite list_lookup_total_alter_eq by exact Hi.
    rewrite Block_minus_lookup, length_Block_minus. ring.
  - rewrite list_lookup_total_alter_ne by exact Hne.
    rewrite Hli, Hlj. ring.
Qed.

Section Viscous_Residual_properties.
Context {CSysMatrix : Type} `{!CSysMatrix_interface CSysMatrix}.
Context {CNumerics : Type} `{!CNumerics_interface CNumerics}.
Variables (geometry : CGeometry) (config : CConfig).
Variable TURB_SOL_Solution : list (list su2double).

(** The residual after one edge: one flux vector, subtracted at the first end
    point and added at the second one. *)
Lemma Viscous_Residual_edge_LinSysRes (iEdge : nat)
    (s : CIncNSSolver CSysMatrix) (numerics : CNumerics) :
  exists flux : list su2double,
    let s' := fst (Viscous_Residual_edge geometry config TURB_SOL_Solution iEdge
                     (s, numerics)) in
    LinSysRes s'
    = AddBlock (edge_Node_1 (GetEdge geometry iEdge)) flux
        (SubtractBlock (edge_Node_0 (GetEdge geometry iEdge)) flux (LinSysRes s)) /\
    nPoint s' = nPoint s /\ nVar s' = nVar s.
Proof.
  unfold Viscous_Residual_edge. cbv zeta.
  destruct (ComputeResidual config _) as [res numerics'].
  exists (residual res). destruct (implicit_scheme config); repeat split.
Qed.

(** The flux vector of the step is the one the functor returns for the edge
    (line 911); the functor handed on is the one that computed it. *)
Lemma Viscous_Residual_edge_flux_LinSysRes (iEdge : nat)
    (s : CIncNSSolver CSysMatrix) (numerics : CNumerics) :
  let st' := Viscous_Residual_edge geometry config TURB_SOL_Solution iEdge
               (s, numerics) in
  let flux := Viscous_Residual_edge_flux geometry config TURB_SOL_Solution iEdge
                s numerics in
  LinSysRes (fst st')
  = AddBlock (edge_Node_1 (GetEdge geometry iEdge)) flux
      (SubtractBlock (edge_Node_0 (GetEdge geometry iEdge)) flux (LinSysRes s)) /\
  snd st'
  = snd (ComputeResidual config
           (Viscous_Residual_edge_numerics geometry config TURB_SOL_Solution iEdge
              s numerics)).
Proof.
  cbv zeta. unfold Viscous_Residual_edge, Viscous_Residual_edge_flux,
    Viscous_Residual_edge_numerics. cbv zeta.
  destruct (ComputeResidual config _) as [res numerics'].
  destruct (implicit_scheme config); split; reflexivity.
Qed.

Lemma AddBlock_SubtractBlock_allocated (v : CSysVector) (i j : nat)
    (f : list su2double) (n : nat) :
  Forall (fun block => length block = n) v ->
  Forall (fun block => length block = n) (AddBlock j f (SubtractBlock i f v)).
Proof.
  intros Hn. unfold AddBlock, SubtractBlock.
  apply Forall_alter.
  - apply Forall_alter; [exact Hn|].
    intros b _ Hb. rewrite length_Block_minus. exact Hb.
  - intros b _ Hb. rewrite length_Block_plus. exact Hb.
Qed.

Lemma Viscous_Residual_edge_allocated (iEdge : nat)
    (s : CIncNSSolver CSysMatrix) (numerics : CNumerics) :
  LinSysRes_allocated s ->
  LinSysRes_allocated
    (fst (Viscous_Residual_edge geometry config TURB_SOL_Solution iEdge (s, numerics))).
Proof.
  intros [Hlen Hblocks].
  destruct (Viscous_Residual_edge_LinSysRes iEdge s numerics)
    as (flux & Hres & HnP & HnV). cbv zeta in Hres, HnP, HnV.
  unfold LinSysRes_allocated. rewrite Hres, HnP, HnV. split.
  - unfold AddBlock, SubtractBlock. rewrite !length_alter. exact Hlen.
  - apply AddBlock_SubtractBlock_allocated. exact Hblocks.
Qed.

Lemma edges_in_mesh_edge (nPoint iEdge : nat) :
  edges_in_mesh geometry nPoint -> (iEdge < GetnEdge geometry)%nat ->
  (edge_Node_0 (GetEdge geometry iEdge) < nPoint)%nat /\
  (edge_Node_1 (GetEdge geometry iEdge) < nPoint)%nat.
Proof.
  intros Hmesh Hi.
  exact (Forall_lookup_total_1 _ (edges geometry) iEdge Hmesh Hi).
Qed.

(** C1.  On a mesh whose edges join points of the mesh, for every interior
    edge the routine takes the flux vector that the flux functor returns for
    the edge (line 911), subtracts it from the residual block of [iPoint] and
    adds the same vector to the block of [jPoint]; the blocks of the other
    points are untouched, the sum of the two end-point blocks is unchanged,
    and so is every component of the residual summed over all points, for one
    edge and for the whole loop over the edges, for every flux functor and
    so for arbitrary primitive states and normals. *)
Theorem Viscous_Residual_conservation (s : CIncNSSolver CSysMatrix)
    (numerics : CNumerics) :
  edges_in_mesh geometry (nPoint s) ->
  LinSysRes_allocated s ->
  (forall iEdge, (iEdge < GetnEdge geometry)%nat ->
     let iPoint := edge_Node_0 (GetEdge geometry iEdge) in
     let jPoint := edge_Node_1 (GetEdge geometry iEdge) in
     let flux := Viscous_Residual_edge_flux geometry config TURB_SOL_Solution iEdge
                   s numerics in
     let s' := fst (Viscous_Residual_edge geometry config TURB_SOL_Solution iEdge
                      (s, numerics)) in
     (LinSysRes s'
      = AddBlock jPoint flux (SubtractBlock iPoint flux (LinSysRes s)) /\
      (iPoint <> jPoint ->
       LinSysRes s' !!! iPoint = Block_minus flux (LinSysRes s !!! iPoint) /\
       LinSysRes s' !!! jPoint = Block_plus flux (LinSysRes s !!! jPoint) /\
       (forall iVar, (iVar < nVar s)%nat ->
          (LinSysRes s' !!! iPoint) !!! iVar
          = (LinSysRes s !!! iPoint) !!! iVar - flux !!! iVar /\
          (LinSysRes s' !!! jPoint) !!! iVar
          = (LinSysRes s !!! jPoint) !!! iVar + flux !!! iVar) /\
       forall iVar,
         (LinSysRes s' !!! iPoint) !!! iVar + (LinSysRes s' !!! jPoint) !!! iVar
         = (LinSysRes s !!! iPoint) !!! iVar + (LinSysRes s !!! jPoint) !!! iVar) /\
      (forall kPoint, kPoint <> iPoint -> kPoint <> jPoint ->
         LinSysRes s' !!! kPoint = LinSysRes s !!! kPoint)) /\
     (forall iVar,
        Residual_total (LinSysRes s') iVar = Residual_total (LinSysRes s) iVar)) /\
  (forall iVar,
     Residual_total
       (LinSysRes (fst (Viscous_Residual geometry config TURB_SOL_Solution s numerics)))
       iVar
     = Residual_total (LinSysRes s) iVar).
Proof.
  intros Hmesh Halloc. split.
  - intros iEdge HiEdge iPoint jPoint flux s'.
    destruct (edges_in_mesh_edge _ _ Hmesh HiEdge) as [Hi Hj].
    fold iPoint in Hi. fold jPoint in Hj.
    destruct Halloc as [Hlen Hblocks]. rewrite <- Hlen in Hi, Hj.
    pose proof (proj1 (Viscous_Residual_edge_flux_LinSysRes iEdge s numerics)) as Hres.
    cbv zeta in Hres. fold s' iPoint jPoint flux in Hres.
    split.
    + split; [exact Hres|]. split.
      * intros Hne. rewrite Hres. unfold AddBlock, SubtractBlock.
        assert (Hbi : alter (Block_plus flux) jPoint
                        (alter (Block_minus flux) iPoint (LinSysRes s)) !!! iPoint
                      = Block_minus flux (LinSysRes s !!! iPoint)).
        { rewrite list_lookup_total_alter_ne by (intros Heq; apply Hne; congruence).
          rewrite list_lookup_total_alter_eq by exact Hi. reflexivity. }
        assert (Hbj : alter (Block_plus flux) jPoint
                        (alter (Block_minus flux) iPoint (LinSysRes s)) !!! jPoint
                      = Block_plus flux (LinSysRes s !!! jPoint)).
        { rewrite list_lookup_total_alter_eq by (rewrite length_alter; exact Hj).
          rewrite list_lookup_total_alter_ne by exact Hne. reflexivity. }
        split; [exact Hbi|]. split; [exact Hbj|].
        split.
        -- intros iVar HiVar.
           rewrite Hbi, Hbj, Block_minus_lookup, Block_plus_lookup.
           rewrite (Forall_lookup_total_1 _ _ iPoint Hblocks Hi).
           rewrite (Forall_lookup_total_1 _ _ jPoint Hblocks Hj).
           unfold flux_entry. rewrite decide_True by exact HiVar.
           split; reflexivity.
        -- intros iVar. rewrite Hbi, Hbj, Block_minus_lookup, Block_plus_lookup.
           rewrite (Forall_lookup_total_1 _ _ iPoint Hblocks Hi).
           rewrite (Forall_lookup_total_1 _ _ jPoint Hblocks Hj). ring.
      * intros kPoint Hki Hkj. rewrite Hres. unfold AddBlock, SubtractBlock.
        rewrite !list_lookup_total_alter_ne by congruence. reflexivity.
    + intros iVar. rewrite Hres.
      apply (Residual_total_Subtract_Add _ _ _ _ (nVar s)); assumption.
  - intros iVar. unfold Viscous_Residual.
    assert (Hinv :
      LinSysRes_allocated
        (fst (for_loop (GetnEdge geometry)
                (Viscous_Residual_edge geometry config TURB_SOL_Solution)
                (s, numerics))) /\
      nPoint (fst (for_loop (GetnEdge geometry)
                     (Viscous_Residual_edge geometry config TURB_SOL_Solution)
                     (s, numerics))) = nPoint s /\
      Residual_total
        (LinSysRes (fst (for_loop (GetnEdge geometry)
                           (Viscous_Residual_edge geometry config TURB_SOL_Solution)
                           (s, numerics)))) iVar
      = Residual_total (LinSysRes s) iVar).
    { apply (for_loop_invariant
               (fun st => LinSysRes_allocated (fst st) /\
                          nPoint (fst st) = nPoint s /\
                          Residual_total (LinSysRes (fst st)) iVar
                          = Residual_total (LinSysRes s) iVar)).
      - repeat split; try reflexivity; apply Halloc.
      - intros iEdge [s1 numerics1] HiEdge (Halloc1 & HnP1 & Htot1). cbn [fst] in *.
        destruct (edges_in_mesh_edge _ _ Hmesh HiEdge) as [Hi Hj].
        destruct (Viscous_Residual_edge_LinSysRes iEdge s1 numerics1)
          as (flux & Hres & HnP & HnV). cbv zeta in Hres, HnP, HnV.
        split; [apply Viscous_Residual_edge_allocated; exact Halloc1|].
        split; [rewrite HnP; exact HnP1|].
        rewrite Hres, <- Htot1. destruct Halloc1 as [Hlen1 Hblocks1].
        apply (Residual_total_Subtract_Add _ _ _ _ (nVar s1));
          [rewrite Hlen1, HnP1; exact Hi|rewrite Hlen1, HnP1; exact Hj|exact Hblocks1]. }
    apply Hinv.
Qed.

End Viscous_Residual_properties.

(** The example mesh (one edge between its two points) with the example flux
    functor, whose flux is the difference of the two primitive states: the
    flux of the edge has the velocity difference [3 - 0] in its first
    momentum entry, it is subtracted at point 0 and added at point 1, and the
    momentum component of the summed residual is unchanged by the routine. *)
Lemma Viscous_Residual_conservation_witness :
  let s := example_solver 1 example_steady_config in
  let flux := @Viscous_Residual_edge_flux unit _ example_numerics (example_geometry 1)
                example_steady_config [] 0 s ([], []) in
  let s' := fst (@Viscous_Residual_edge unit no_matrix _ example_numerics
                   (example_geometry 1) example_steady_config [] 0 (s, ([], []))) in
  flux !!! 1%nat = 3 - 0 /\
  LinSysRes s'
  = AddBlock (edge_Node_1 (GetEdge (example_geometry 1) 0)) flux
      (SubtractBlock (edge_Node_0 (GetEdge (example_geometry 1) 0)) flux
         (LinSysRes s)) /\
  (LinSysRes s' !!! 0%nat) !!! 1%nat = (LinSysRes s !!! 0%nat) !!! 1%nat - flux !!! 1%nat /\
  (LinSysRes s' !!! 1%nat) !!! 1%nat = (LinSysRes s !!! 1%nat) !!! 1%nat + flux !!! 1%nat /\
  Residual_total
    (LinSysRes
       (fst (@Viscous_Residual unit no_matrix _ example_numerics
               (example_geometry 1) example_steady_config [] s ([], []))))
    1
  = Residual_total (LinSysRes s) 1.
Proof.
  intros s flux s'.
  assert (Hmesh : edges_in_mesh (example_geometry 1) (nPoint s)).
  { unfold edges_in_mesh. cbn. repeat constructor; lia. }
  assert (Halloc : LinSysRes_allocated s).
  { split; cbn; [reflexivity|repeat constructor]. }
  destruct (@Viscous_Residual_conservation unit no_matrix _ example_numerics
              (example_geometry 1) example_steady_config [] s ([], [])
              Hmesh Halloc) as [Hedge Hloop].
  assert (HiEdge : (0 < GetnEdge (example_geometry 1))%nat) by (cbn; lia).
  destruct (Hedge 0%nat HiEdge) as ((Hres & Hends & _) & _).
  assert (Hne : edge_Node_0 (GetEdge (example_geometry 1) 0)
                <> edge_Node_1 (GetEdge (example_geometry 1) 0)) by (cbn; lia).
  destruct (Hends Hne) as (_ & _ & Hentries & _).
  assert (HiVar : (1 < nVar s)%nat) by (cbn; lia).
  destruct (Hentries 1%nat HiVar) as (Hi & Hj).
  split; [reflexivity|]. split; [exact Hres|]. split; [exact Hi|].
  split; [exact Hj|]. exact (Hloop 1%nat).
Defined.

(** ** Wall boundary conditions: the common statements *)

Lemma array_fill_lookup {A} (n : nat) (v : A) (a : list A) (i : nat) :
  array_fill n v a !! i
  = if decide (i < n)%nat then (fun _ => v) <$> a !! i else a !! i.
Proof.
  unfold array_fill.
  change (foldl (fun acc i => <[i:=v]> acc) a (seq 0 n))
    with (for_loop n (fun i acc => <[i:=v]> acc) a).
  rewrite (for_loop_ext n _ (fun i l => alter (fun _ => v) i l)).
  - apply (for_loop_pointwise (fun _ _ => v)).
  - intros j l _. apply list_insert_alter.
Qed.

Section Wall_BC_common.
Context {CSysMatrix : Type} `{!CSysMatrix_interface CSysMatrix}.
Variables (geometry : CGeometry) (config : CConfig).

Lemma BC_wall_zero_scratch_frame (s : CIncNSSolver CSysMatrix) :
  same_mesh_state s (BC_wall_zero_scratch config s) /\
  nodes (BC_wall_zero_scratch config s) = nodes s /\
  LinSysRes (BC_wall_zero_scratch config s) = LinSysRes s /\
  Vector (BC_wall_zero_scratch config s) = Vector s.
Proof.
  unfold BC_wall_zero_scratch.
  apply (for_loop_invariant
           (fun s' => same_mesh_state s s' /\ nodes s' = nodes s /\
                      LinSysRes s' = LinSysRes s /\ Vector s' = Vector s)).
  - repeat split.
  - intros i s' _ (Hm & Hn & Hr & Hv). destruct (implicit_scheme config); exact (conj Hm (conj Hn (conj Hr Hv))).
Qed.

Lemma BC_wall_zero_scratch_Res_Visc (s : CIncNSSolver CSysMatrix) :
  Res_Visc (BC_wall_zero_scratch config s) = array_fill (nVar s) 0 (Res_Visc s).
Proof.
  unfold BC_wall_zero_scratch, array_fill.
  change (foldl (fun acc i => <[i:=0]> acc) (Res_Visc s) (seq 0 (nVar s)))
    with (for_loop (nVar s) (fun i acc => <[i:=0]> acc) (Res_Visc s)).
  apply (for_loop_project Res_Visc).
  intros i s'. destruct (implicit_scheme config); reflexivity.
Qed.

End Wall_BC_common.

Lemma same_thermal_state_refl (nd : CVariable) : same_thermal_state nd nd.
Proof. intros j. split; reflexivity. Qed.

Lemma same_thermal_state_trans (nd1 nd2 nd3 : CVariable) :
  same_thermal_state nd1 nd2 -> same_thermal_state nd2 nd3 ->
  same_thermal_state nd1 nd3.
Proof.
  intros H12 H23 j. destruct (H12 j) as [Ht Hk], (H23 j) as [Ht' Hk'].
  split; congruence.
Qed.

Lemma alter_same_thermal_state (f : CIncNSVariable -> CIncNSVariable)
    (i : nat) (nd : CVariable) :
  (forall p, Temperature (f p) = Temperature p /\
             ThermalConductivity (f p) = ThermalConductivity p) ->
  same_thermal_state nd (alter f i nd).
Proof.
  intros Hf j. rewrite list_lookup_total_alter.
  case_decide as Hc; [|split; reflexivity].
  destruct Hc as [<- _]. apply Hf.
Qed.

Lemma SetVelocity_Old_same_thermal_state (nDim iPoint : nat)
    (val_vel : list su2double) (nd : CVariable) :
  same_thermal_state nd (SetVelocity_Old nDim iPoint val_vel nd).
Proof.
  unfold SetVelocity_Old.
  apply (for_loop_invariant (same_thermal_state nd)).
  - apply same_thermal_state_refl.
  - intros i nd' _ Hnd'. apply (same_thermal_state_trans _ nd'); [exact Hnd'|].
    unfold SetSolution_Old. apply alter_same_thermal_state.
    intros p. split; reflexivity.
Qed.

Lemma SetVel_ResTruncError_Zero_same_thermal_state (nDim iPoint : nat)
    (nd : CVariable) :
  same_thermal_state nd (SetVel_ResTruncError_Zero nDim iPoint nd).
Proof.
  unfold SetVel_ResTruncError_Zero. apply alter_same_thermal_state.
  intros p. split; reflexivity.
Qed.

(** Zeroing the velocity entries of the block of a point keeps its energy
    entry and the shape of the vector. *)
Lemma SetBlock_Zero_velocity (nDim iPoint : nat) (v : CSysVector) :
  let v' := for_loop nDim
              (fun iDim v => SetBlock_Zero_var iPoint (iDim + 1) v) v in
  length v' = length v /\
  length (v' !!! iPoint) = length (v !!! iPoint) /\
  (v' !!! iPoint) !!! (nDim + 1)%nat = (v !!! iPoint) !!! (nDim + 1)%nat.
Proof.
  cbv zeta.
  apply (for_loop_invariant
           (fun v' => length v' = length v /\
                      length (v' !!! iPoint) = length (v !!! iPoint) /\
                      (v' !!! iPoint) !!! (nDim + 1)%nat
                      = (v !!! iPoint) !!! (nDim + 1)%nat)).
  - repeat split.
  - intros i v' Hi (Hlen & Hblock & Hentry). unfold SetBlock_Zero_var.
    rewrite length_alter. split; [exact Hlen|].
    rewrite list_lookup_total_alter.
    case_decide as Hc; [|split; assumption].
    rewrite length_insert. split; [exact Hblock|].
    rewrite list_lookup_total_insert_ne by lia. exact Hentry.
Qed.

Section Wall_BC_velocity.
Context {CSysMatrix : Type} `{!CSysMatrix_interface CSysMatrix}.
Variables (geometry : CGeometry) (config : CConfig).

Lemma BC_wall_velocity_frame (iPoint : nat) (s : CIncNSSolver CSysMatrix) :
  let s' := BC_wall_velocity geometry iPoint s in
  same_mesh_state s s' /\
  Res_Visc s' = Res_Visc s /\
  same_thermal_state (nodes s) (nodes s') /\
  LinSysRes s'
  = for_loop (nDim s)
      (fun iDim v => SetBlock_Zero_var iPoint (iDim + 1) v) (LinSysRes s).
Proof.
  cbv zeta. unfold BC_wall_velocity.
  set (s1 := if dynamic_grid s then _ else _).
  assert (H1 : same_mesh_state s s1 /\ Res_Visc s1 = Res_Visc s /\
               nodes s1 = nodes s /\ LinSysRes s1 = LinSysRes s).
  { subst s1. destruct (dynamic_grid s); repeat split. }
  clearbody s1. destruct H1 as ((Hd & Hv & Hg & Hh) & Hr & Hn & Hl).
  cbv zeta.
  set (s2 := set_nodes (SetVelocity_Old (nDim s1) iPoint (Vector s1) (nodes s1)) s1).
  set (s3 := for_loop (nDim s2) _ s2).
  assert (H3 : same_mesh_state s2 s3 /\ Res_Visc s3 = Res_Visc s2 /\
               nodes s3 = nodes s2 /\
               LinSysRes s3
               = for_loop (nDim s2)
                   (fun iDim v => SetBlock_Zero_var iPoint (iDim + 1) v)
                   (LinSysRes s2)).
  { subst s3. split; [|split; [|split]].
    - apply (for_loop_invariant (same_mesh_state s2)); [repeat split|].
      intros i s' _ Hs'. exact Hs'.
    - apply (for_loop_invariant (fun s' => Res_Visc s' = Res_Visc s2));
        [reflexivity|]. intros i s' _ Hs'. exact Hs'.
    - apply (for_loop_invariant (fun s' => nodes s' = nodes s2));
        [reflexivity|]. intros i s' _ Hs'. exact Hs'.
    - apply (for_loop_project LinSysRes). intros i s'. reflexivity. }
  clearbody s3. destruct H3 as ((Hd3 & Hv3 & Hg3 & Hh3) & Hr3 & Hn3 & Hl3).
  subst s2. unfold same_mesh_state.
  cbn [set_nodes nDim nVar dynamic_grid HeatConjugateVar Res_Visc nodes LinSysRes]
    in *.
  split; [repeat split; congruence|]. split; [congruence|]. split.
  - rewrite Hn3.
    apply (same_thermal_state_trans _
             (SetVelocity_Old (nDim s1) iPoint (Vector s1) (nodes s1))).
    + rewrite <- Hn. apply SetVelocity_Old_same_thermal_state.
    + apply SetVel_ResTruncError_Zero_same_thermal_state.
  - rewrite Hl3, Hd, Hl. reflexivity.
Qed.

Lemma BC_wall_delete_velocity_rows_frame (iPoint : nat) (s : CIncNSSolver CSysMatrix) :
  let s' := BC_wall_delete_velocity_rows iPoint s in
  same_mesh_state s s' /\ Res_Visc s' = Res_Visc s /\ nodes s' = nodes s /\
  LinSysRes s' = LinSysRes s.
Proof.
  cbv zeta. unfold BC_wall_delete_velocity_rows.
  generalize (seq 1 (nDim s)). intros l.
  assert (Hgen : forall s0 : CIncNSSolver CSysMatrix,
    let s' := foldl (fun s iVar =>
                       set_Jacobian
                         (DeleteValsRowi (iPoint * nVar s + iVar) (Jacobian s)) s)
                    s0 l in
    same_mesh_state s0 s' /\ Res_Visc s' = Res_Visc s0 /\ nodes s' = nodes s0 /\
    LinSysRes s' = LinSysRes s0).
  { induction l as [|iVar l IH]; intros s0; cbn.
    - repeat split.
    - destruct (IH (set_Jacobian
                      (DeleteValsRowi (iPoint * nVar s0 + iVar) (Jacobian s0)) s0))
        as (Hm & Hr & Hn & Hl).
      repeat split; first [apply Hm|exact Hr|exact Hn|exact Hl]. }
  apply Hgen.
Qed.

End Wall_BC_velocity.

(** ** C4: the isothermal wall *)

Section Isothermal_Wall_properties.
Context {CSysMatrix : Type} `{!CSysMatrix_interface CSysMatrix}.
Variables (geometry : CGeometry) (config : CConfig).

(** Lines 1100-1159: what the energy part leaves in the scratch residual and
    in the residual vector. *)
Lemma BC_Isothermal_Wall_energy_residual (val_marker iVertex iPoint : nat)
    (Twall : su2double) (s : CIncNSSolver CSysMatrix) :
  let v := GetVertex geometry val_marker iVertex in
  let Point_Normal := vertex_Normal_Neighbor v in
  let dist_ij :=
    Coord_distance (nDim s) (GetCoord geometry iPoint) (GetCoord geometry Point_Normal) in
  let dTdn := Isothermal_dTdn (nodes s) Point_Normal Twall dist_ij in
  let flux := GetThermalConductivity (nodes s) iPoint * dTdn
              * Normal_Area (nDim s) (vertex_Normal v) in
  let s' := BC_Isothermal_Wall_energy geometry config val_marker iVertex iPoint Twall s in
  Res_Visc s' = <[(nDim s + 1)%nat := flux]> (Res_Visc s) /\
  LinSysRes s' = SubtractBlock iPoint (Res_Visc s') (LinSysRes s).
Proof.
  cbv zeta. unfold BC_Isothermal_Wall_energy.
  destruct (implicit_scheme config); split; reflexivity.
Qed.

(** C4.  At an owned vertex of an isothermal wall with the energy equation
    active, wall temperature 300, temperature 350 at the normal neighbour,
    distance 0.01 to that neighbour and thermal conductivity 0.026, the
    routine computes [dTdn = (300 - 350)/0.01 = -5000]; the energy entry of
    the viscous residual is [0.026 * (-5000) * Area] for the area of the
    vertex normal (the other entries are zero), and that amount is subtracted
    from the energy residual of the point.  On a marker with this single
    vertex and no wall function, that is the result of [BC_Isothermal_Wall]. *)
Theorem BC_Isothermal_Wall_scenario (val_marker iVertex : nat)
    (s : CIncNSSolver CSysMatrix) :
  let Marker_Tag := GetMarker_All_TagBound config val_marker in
  let Twall := Isothermal_Temperature config Marker_Tag / Temperature_Ref config in
  let v := GetVertex geometry val_marker iVertex in
  let iPoint := vertex_Node v in
  let Point_Normal := vertex_Normal_Neighbor v in
  let Area := Normal_Area (nDim s) (vertex_Normal v) in
  let dist_ij :=
    Coord_distance (nDim s) (GetCoord geometry iPoint) (GetCoord geometry Point_Normal) in
  let s' := BC_Isothermal_Wall_vertex geometry config val_marker Twall iVertex s in
  GetDomain geometry iPoint = true ->
  Energy_Equation config = true ->
  nVar s = (nDim s + 2)%nat ->
  length (Res_Visc s) = nVar s ->
  (iPoint < length (LinSysRes s))%nat ->
  length (LinSysRes s !!! iPoint) = nVar s ->
  Twall = 300 ->
  GetTemperature (nodes s) Point_Normal = 350 ->
  dist_ij = 0.01 ->
  GetThermalConductivity (nodes s) iPoint = 0.026 ->
  Isothermal_dTdn (nodes s) Point_Normal Twall dist_ij = (300 - 350) / 0.01 /\
  Isothermal_dTdn (nodes s) Point_Normal Twall dist_ij = -5000 /\
  Res_Visc s' !!! (nDim s + 1)%nat = 0.026 * (-5000) * Area /\
  (forall iVar, (iVar < nDim s + 1)%nat -> Res_Visc s' !!! iVar = 0) /\
  (LinSysRes s' !!! iPoint) !!! (nDim s + 1)%nat
  = (LinSysRes s !!! iPoint) !!! (nDim s + 1)%nat - 0.026 * (-5000) * Area /\
  (WallFunction_Treatment config Marker_Tag = NO_WALL_FUNCTION ->
   GetnVertex geometry val_marker = 1%nat -> iVertex = 0%nat ->
   BC_Isothermal_Wall geometry config val_marker s = Ok s').
Proof.
  intros Marker_Tag Twall v iPoint Point_Normal Area dist_ij s'
    Hdomain Henergy HnVar HRes Hi Hblock HTwall HThere Hdist Hk.
  assert (HdTdn : Isothermal_dTdn (nodes s) Point_Normal Twall dist_ij = -5000).
  { unfold Isothermal_dTdn. rewrite HThere, HTwall, Hdist. lra. }
  (* the state reached before the energy equation is treated *)
  pose (s1 := BC_wall_zero_scratch config s).
  pose (s2 := BC_wall_velocity geometry iPoint s1).
  pose (s3 := BC_Isothermal_Wall_energy geometry config val_marker iVertex iPoint Twall s2).
  destruct (BC_wall_zero_scratch_frame config s)
    as ((Hd1 & Hv1 & _ & _) & Hn1 & Hl1 & _). fold s1 in Hd1, Hv1, Hn1, Hl1.
  pose proof (BC_wall_zero_scratch_Res_Visc config s) as Hr1. fold s1 in Hr1.
  destruct (BC_wall_velocity_frame geometry iPoint s1)
    as ((Hd2 & Hv2 & _ & _) & Hr2 & Hn2 & Hl2). fold s2 in Hd2, Hv2, Hr2, Hn2, Hl2.
  pose (flux2 :=
    GetThermalConductivity (nodes s2) iPoint
    * Isothermal_dTdn (nodes s2) Point_Normal Twall
        (Coord_distance (nDim s2) (GetCoord geometry iPoint)
           (GetCoord geometry Point_Normal))
    * Normal_Area (nDim s2) (vertex_Normal v)).
  assert (Hr3 : Res_Visc s3 = <[(nDim s2 + 1)%nat := flux2]> (Res_Visc s2))
    by apply (BC_Isothermal_Wall_energy_residual val_marker iVertex iPoint Twall s2).
  assert (Hl3 : LinSysRes s3 = SubtractBlock iPoint (Res_Visc s3) (LinSysRes s2))
    by apply (BC_Isothermal_Wall_energy_residual val_marker iVertex iPoint Twall s2).
  assert (Hnd : nDim s2 = nDim s) by congruence.
  assert (Hs' : Res_Visc s' = Res_Visc s3 /\ LinSysRes s' = LinSysRes s3).
  { subst s'. unfold BC_Isothermal_Wall_vertex.
    change (vertex_Node (GetVertex geometry val_marker iVertex)) with iPoint.
    rewrite Hdomain, Henergy. fold s1 s2 s3.
    destruct (implicit_scheme config); [|split; reflexivity].
    destruct (BC_wall_delete_velocity_rows_frame iPoint s3) as (_ & Hr & _ & Hl).
    split; assumption. }
  destruct Hs' as [HrS HlS].
  (* the flux of the vertex *)
  assert (Hflux : flux2 = 0.026 * (-5000) * Area).
  { subst flux2. rewrite Hnd. fold dist_ij Area. unfold GetThermalConductivity, Isothermal_dTdn,
      GetTemperature.
    destruct (Hn2 iPoint) as [_ ->]. destruct (Hn2 Point_Normal) as [-> _].
    rewrite Hn1. fold (GetThermalConductivity (nodes s) iPoint).
    fold (GetTemperature (nodes s) Point_Normal).
    rewrite Hk, HThere, HTwall, Hdist. lra. }
  assert (Hlen2 : length (Res_Visc s2) = nVar s).
  { rewrite Hr2, Hr1, length_array_fill. exact HRes. }
  assert (Hentry : Res_Visc s3 !!! (nDim s + 1)%nat = 0.026 * (-5000) * Area).
  { rewrite Hr3, Hflux, Hnd.
    apply list_lookup_total_insert_eq. lia. }
  split; [rewrite HdTdn; lra|]. split; [exact HdTdn|].
  split; [rewrite HrS; exact Hentry|]. split; [|split].
  - intros iVar HiVar. rewrite HrS, Hr3, Hnd.
    rewrite list_lookup_total_insert_ne by lia. rewrite Hr2, Hr1.
    apply list_lookup_total_correct. rewrite array_fill_lookup.
    rewrite decide_True by lia.
    destruct (lookup_lt_is_Some_2 (Res_Visc s) iVar) as [x ->]; [lia|reflexivity].
  - rewrite HlS, Hl3. unfold SubtractBlock.
    destruct (SetBlock_Zero_velocity (nDim s1) iPoint (LinSysRes s1))
      as (Hlen & Hblk & Hent). rewrite <- Hl2 in Hlen, Hblk, Hent.
    rewrite Hl1 in Hlen, Hblk, Hent. rewrite Hd1 in Hent.
    rewrite list_lookup_total_alter_eq by (rewrite Hlen; exact Hi).
    rewrite Block_minus_lookup, Hent, Hblk, Hblock. unfold flux_entry.
    rewrite decide_True by lia. rewrite Hentry. reflexivity.
  - intros Hwf Hn Hiv. unfold BC_Isothermal_Wall. fold Marker_Tag Twall.
    rewrite Hwf, Hn. subst iVertex. reflexivity.
Qed.

End Isothermal_Wall_properties.

Lemma example_Coord_distance : Coord_distance 2 [0; 0] [0.01; 0] = 0.01.
Proof.
  unfold Coord_distance.
  replace (foldl _ 0 (seq 0 2)) with (0.01 * 0.01).
  - apply sqrt_square. lra.
  - cbn [seq foldl]. change ([0.01; 0] !!! 0%nat) with 0.01.
    change ([0.01; 0] !!! 1%nat) with 0. change ([0; 0] !!! 0%nat) with 0.
    change ([0; 0] !!! 1%nat) with 0. lra.
Qed.

(** The wall vertex of the example mesh: wall at 300, neighbour at 350 at
    distance 0.01, conductivity 0.026. *)
Lemma BC_Isothermal_Wall_scenario_witness :
  let s := example_solver 1 example_steady_config in
  let s' := @BC_Isothermal_Wall_vertex unit no_matrix (example_geometry 1)
              example_steady_config 0 (300 / 1) 0 s in
  Isothermal_dTdn (nodes s) 1 (300 / 1) (Coord_distance 2 [0; 0] [0.01; 0]) = -5000 /\
  Res_Visc s' !!! 3%nat = 0.026 * (-5000) * Normal_Area 2 [0; -2] /\
  @BC_Isothermal_Wall unit no_matrix (example_geometry 1) example_steady_config 0 s
  = Ok s'.
Proof.
  intros s s'.
  assert (Hdomain : GetDomain (example_geometry 1) 0 = true) by reflexivity.
  assert (Henergy : Energy_Equation example_steady_config = true) by reflexivity.
  assert (HnVar : nVar s = (nDim s + 2)%nat) by reflexivity.
  assert (HRes : length (Res_Visc s) = nVar s) by reflexivity.
  assert (Hi : (0 < length (LinSysRes s))%nat) by (cbn; lia).
  assert (Hblock : length (LinSysRes s !!! 0%nat) = nVar s) by reflexivity.
  assert (HTwall : 300 / 1 = 300) by lra.
  assert (HThere : GetTemperature (nodes s) 1 = 350) by reflexivity.
  assert (Hk : GetThermalConductivity (nodes s) 0 = 0.026) by reflexivity.
  destruct (@BC_Isothermal_Wall_scenario unit no_matrix (example_geometry 1)
              example_steady_config 0 0 s Hdomain Henergy HnVar HRes Hi Hblock
              HTwall HThere example_Coord_distance Hk)
    as (_ & HdTdn & HRes_Visc & _ & _ & Hroutine).
  split; [exact HdTdn|]. split; [exact HRes_Visc|].
  apply Hroutine; reflexivity.
Defined.

(** ** C7: fatal configuration errors of the wall routines *)

(** A loop whose body aborts exactly at the indices selected by [stop] and
    otherwise leaves the state alone aborts as soon as one index is
    selected. *)
Lemma for_each_fatal {S} (body : nat -> S -> result S) (stop : nat -> bool)
    (msg func : string) (idx : list nat) (s : S) :
  (forall i s, body i s = if stop i then Fatal msg func else Ok s) ->
  (exists i, i ∈ idx /\ stop i = true) ->
  for_each body idx s = Fatal msg func.
Proof.
  intros Hbody (i & Hi & Hstop). induction idx as [|j idx IH].
  - apply elem_of_nil in Hi. contradiction.
  - cbn. rewrite Hbody. destruct (stop j) eqn:Hj; [reflexivity|].
    cbn. apply IH. apply elem_of_cons in Hi. destruct Hi as [->|Hi]; [congruence|exact Hi].
Qed.

Lemma for_each_ok {S} (body : nat -> S -> result S) (idx : list nat) (s : S) :
  (forall i s, exists s', body i s = Ok s') ->
  exists s', for_each body idx s = Ok s'.
Proof.
  intros Hbody. revert s. induction idx as [|j idx IH]; intros s.
  - exists s. reflexivity.
  - cbn. destruct (Hbody j s) as [s1 ->]. cbn. apply IH.
Qed.

Section Wall_BC_errors.
Context {CSysMatrix : Type} `{!CSysMatrix_interface CSysMatrix}.
Variables (geometry : CGeometry) (config : CConfig).

Lemma BC_ConjugateHeat_Interface_vertex_unrecognised (val_marker iVertex : nat)
    (s : CIncNSSolver CSysMatrix) :
  Energy_Equation config = true ->
  unrecognised_CHT_coupling (Kind_CHT_Coupling config) ->
  BC_ConjugateHeat_Interface_vertex geometry config val_marker iVertex s
  = if GetDomain geometry (vertex_Node (GetVertex geometry val_marker iVertex))
    then Fatal "Unknown CHT coupling method."
               "CIncNSSolver::BC_ConjugateHeat_Interface"
    else Ok s.
Proof.
  intros Henergy [code Hkind]. unfold BC_ConjugateHeat_Interface_vertex.
  destruct (GetDomain geometry _); [|reflexivity].
  rewrite Henergy. unfold CHT_wall_temperature. rewrite Hkind. reflexivity.
Qed.

Lemma BC_ConjugateHeat_Interface_vertex_no_energy (val_marker iVertex : nat)
    (s : CIncNSSolver CSysMatrix) :
  Energy_Equation config = false ->
  exists s', BC_ConjugateHeat_Interface_vertex geometry config val_marker iVertex s
             = Ok s'.
Proof.
  intros Henergy. unfold BC_ConjugateHeat_Interface_vertex.
  destruct (GetDomain geometry _); [|eexists; reflexivity].
  rewrite Henergy. eexists. reflexivity.
Qed.

Lemma BC_ConjugateHeat_Interface_no_energy (val_marker : nat)
    (s : CIncNSSolver CSysMatrix) :
  WallFunction_Treatment config (GetMarker_All_TagBound config val_marker)
  = NO_WALL_FUNCTION ->
  Energy_Equation config = false ->
  exists s', BC_ConjugateHeat_Interface geometry config val_marker s = Ok s'.
Proof.
  intros Hwf Henergy. unfold BC_ConjugateHeat_Interface.
  rewrite Hwf. cbn. apply for_each_ok. intros i s0.
  apply BC_ConjugateHeat_Interface_vertex_no_energy. exact Henergy.
Qed.

(** C7, as the code has it.  [BC_Isothermal_Wall] and
    [BC_ConjugateHeat_Interface] abort with a fatal error when the marker has a
    wall-function treatment other than none, whatever the mesh and the state,
    so before any vertex is treated.  [BC_HeatFlux_Wall] has no such check and
    never aborts.  With no wall function, [BC_ConjugateHeat_Interface] aborts
    on an unrecognised coupling kind when the energy equation is active and
    the marker has an owned vertex; when the energy equation is off the kind
    is not inspected and the routine completes. *)
Theorem wall_BC_fatal_errors (val_marker : nat) (s : CIncNSSolver CSysMatrix) :
  let Marker_Tag := GetMarker_All_TagBound config val_marker in
  (WallFunction_Treatment config Marker_Tag <> NO_WALL_FUNCTION ->
   BC_Isothermal_Wall geometry config val_marker s
   = Fatal "Wall function treatment not implemented yet."
           "CIncNSSolver::BC_Isothermal_Wall" /\
   BC_ConjugateHeat_Interface geometry config val_marker s
   = Fatal "Wall function treament not implemented yet"
           "CIncNSSolver::BC_ConjugateHeat_Interface") /\
  (exists s', BC_HeatFlux_Wall geometry config val_marker s = Ok s') /\
  (WallFunction_Treatment config Marker_Tag = NO_WALL_FUNCTION ->
   unrecognised_CHT_coupling (Kind_CHT_Coupling config) ->
   Energy_Equation config = true ->
   (exists iVertex, (iVertex < GetnVertex geometry val_marker)%nat /\
      GetDomain geometry (vertex_Node (GetVertex geometry val_marker iVertex)) = true) ->
   BC_ConjugateHeat_Interface geometry config val_marker s
   = Fatal "Unknown CHT coupling method."
           "CIncNSSolver::BC_ConjugateHeat_Interface") /\
  (WallFunction_Treatment config Marker_Tag = NO_WALL_FUNCTION ->
   Energy_Equation config = false ->
   exists s', BC_ConjugateHeat_Interface geometry config val_marker s = Ok s').
Proof.
  intros Marker_Tag. split; [|split; [|split]].
  - intros Hwf. unfold BC_Isothermal_Wall, BC_ConjugateHeat_Interface.
    fold Marker_Tag. rewrite !decide_True by exact Hwf. split; reflexivity.
  - eexists. reflexivity.
  - intros Hwf Hkind Henergy (iVertex & Hi & Hdomain).
    unfold BC_ConjugateHeat_Interface. fold Marker_Tag. rewrite Hwf. cbn.
    apply (for_each_fatal _
             (fun iVertex =>
                GetDomain geometry (vertex_Node (GetVertex geometry val_marker iVertex)))).
    + intros i s0.
      apply BC_ConjugateHeat_Interface_vertex_unrecognised; assumption.
    + exists iVertex. split; [|exact Hdomain].
      apply elem_of_seq. lia.
  - intros Hwf Henergy. apply BC_ConjugateHeat_Interface_no_energy; assumption.
Qed.

End Wall_BC_errors.

(** The example marker with a wall function configured: the isothermal wall
    routine aborts. *)
Lemma wall_BC_fatal_errors_witness :
  let config := example_config EULER_IMPLICIT STEADY true
                  DIRECT_TEMPERATURE_NEUMANN_HEATFLUX (OTHER_WALL_FUNCTION 1) 300 1 in
  @BC_Isothermal_Wall unit no_matrix (example_geometry 1) config 0
    (example_solver 1 config)
  = Fatal "Wall function treatment not implemented yet."
          "CIncNSSolver::BC_Isothermal_Wall".
Proof.
  intros config.
  assert (Hwf : WallFunction_Treatment config (GetMarker_All_TagBound config 0)
                <> NO_WALL_FUNCTION) by discriminate.
  exact (proj1 (proj1 (@wall_BC_fatal_errors unit no_matrix (example_geometry 1)
                         config 0 (example_solver 1 config)) Hwf)).
Defined.

(** C7 as stated fails twice.  With a wall function configured,
    [BC_HeatFlux_Wall] completes; with an unrecognised coupling kind and the
    energy equation off, [BC_ConjugateHeat_Interface] completes. *)
Lemma wall_BC_no_error_counterexample :
  (let config := example_config EULER_IMPLICIT STEADY true
                   DIRECT_TEMPERATURE_NEUMANN_HEATFLUX (OTHER_WALL_FUNCTION 1) 300 1 in
   WallFunction_Treatment config (GetMarker_All_TagBound config 0) <> NO_WALL_FUNCTION /\
   exists s', @BC_HeatFlux_Wall unit no_matrix (example_geometry 1) config 0
                (example_solver 1 config) = Ok s') /\
  (let config := example_config EULER_IMPLICIT STEADY false
                   (OTHER_CHT_COUPLING 7) NO_WALL_FUNCTION 300 1 in
   unrecognised_CHT_coupling (Kind_CHT_Coupling config) /\
   exists s', @BC_ConjugateHeat_Interface unit no_matrix (example_geometry 1) config 0
                (example_solver 1 config) = Ok s').
Proof.
  split; cbv zeta.
  - split; [discriminate|]. unfold BC_HeatFlux_Wall. eexists. reflexivity.
  - split; [exists 7%nat; reflexivity|].
    apply (@BC_ConjugateHeat_Interface_no_energy unit no_matrix); reflexivity.
Qed.

(** * Additional properties *)

(** ** Conjugate-heat accessors ([CNSSolver.hpp]) *)

Lemma SetConjugateHeatVariable_allocated (H : HeatConjugateVar_t)
    (m v p m' v' p' : nat) (rf val : su2double) :
  HeatConjugateVar_allocated H m' v' p' ->
  HeatConjugateVar_allocated (SetConjugateHeatVariable H m v p rf val) m' v' p'.
Proof.
  intros (row & arr & Hm & Hv & Hp). unfold SetConjugateHeatVariable.
  destruct (decide (m = m')) as [<-|Hne].
  - destruct (decide (v = v')) as [<-|Hnv].
    + eexists _, _. split; [rewrite list_lookup_alter_eq, Hm; reflexivity|].
      split; [rewrite list_lookup_alter_eq, Hv; reflexivity|].
      rewrite length_alter. exact Hp.
    + eexists _, arr. split; [rewrite list_lookup_alter_eq, Hm; reflexivity|].
      split; [rewrite list_lookup_alter_ne by exact Hnv; exact Hv|exact Hp].
  - exists row, arr. split; [rewrite list_lookup_alter_ne by exact Hne; exact Hm|].
    split; assumption.
Qed.

(** X1.  [SetConjugateHeatVariable] writes one entry: every other (marker,
    vertex, position) keeps its value, and the table keeps its shape (number
    of markers, vertices per marker and variables per vertex). *)
Theorem SetConjugateHeatVariable_writes_one_entry (H : HeatConjugateVar_t)
    (val_marker val_vertex pos_var : nat) (relaxation_factor val_var : su2double) :
  let H' := SetConjugateHeatVariable H val_marker val_vertex pos_var
              relaxation_factor val_var in
  length H' = length H /\
  (forall m, length (H' !!! m) = length (H !!! m)) /\
  (forall m v, length ((H' !!! m) !!! v) = length ((H !!! m) !!! v)) /\
  (forall m v p, (m, v, p) <> (val_marker, val_vertex, pos_var) ->
     GetConjugateHeatVariable H' m v p = GetConjugateHeatVariable H m v p).
Proof.
  cbv zeta. unfold SetConjugateHeatVariable.
  split; [apply length_alter|]. split; [|split].
  - intros m. rewrite list_lookup_total_alter.
    case_decide as Hm; [destruct Hm as [<- _]|reflexivity]. apply length_alter.
  - intros m v. rewrite list_lookup_total_alter.
    case_decide as Hm; [destruct Hm as [<- _]|reflexivity].
    rewrite list_lookup_total_alter.
    case_decide as Hv; [destruct Hv as [<- _]|reflexivity]. apply length_alter.
  - intros m v p Hne. apply SetConjugateHeatVariable_frame. exact Hne.
Qed.

Lemma SetConjugateHeatVariable_writes_one_entry_witness :
  GetConjugateHeatVariable
    (SetConjugateHeatVariable [[[300; 0; 5; 0]]] 0 0 0 (1 / 2) 400) 0 0 2
  = GetConjugateHeatVariable [[[300; 0; 5; 0]]] 0 0 2.
Proof.
  apply (SetConjugateHeatVariable_writes_one_entry
           [[[300; 0; 5; 0]]] 0 0 0 (1 / 2) 400).
  intros Heq. inversion Heq.
Defined.

Lemma SetConjugateHeatVariable_repeat_S (n : nat) (H : HeatConjugateVar_t)
    (m v p : nat) (rf val : su2double) :
  SetConjugateHeatVariable_repeat (S n) H m v p rf val
  = SetConjugateHeatVariable (SetConjugateHeatVariable_repeat n H m v p rf val)
      m v p rf val.
Proof. reflexivity. Qed.

Lemma SetConjugateHeatVariable_repeat_allocated (n : nat) (H : HeatConjugateVar_t)
    (m v p : nat) (rf val : su2double) :
  HeatConjugateVar_allocated H m v p ->
  HeatConjugateVar_allocated (SetConjugateHeatVariable_repeat n H m v p rf val) m v p.
Proof.
  intros Halloc. induction n as [|n IH]; [exact Halloc|].
  rewrite SetConjugateHeatVariable_repeat_S.
  apply SetConjugateHeatVariable_allocated. exact IH.
Qed.

(** X2.  Exponential smoothing: after [n] writes of the value [val_var] with
    relaxation factor [rf] the stored value is
    [val_var + (1 - rf)^n * (old - val_var)]; for a factor between 0 and 1 the
    distance to the supplied value never grows. *)
Theorem SetConjugateHeatVariable_repeat_value (n : nat) (H : HeatConjugateVar_t)
    (val_marker val_vertex pos_var : nat) (relaxation_factor val_var : su2double) :
  HeatConjugateVar_allocated H val_marker val_vertex pos_var ->
  let old := GetConjugateHeatVariable H val_marker val_vertex pos_var in
  let new :=
    GetConjugateHeatVariable
      (SetConjugateHeatVariable_repeat n H val_marker val_vertex pos_var
         relaxation_factor val_var)
      val_marker val_vertex pos_var in
  new = val_var + (1 - relaxation_factor) ^ n * (old - val_var) /\
  (0 <= relaxation_factor <= 1 -> Rabs (new - val_var) <= Rabs (old - val_var)).
Proof.
  intros Halloc old new.
  assert (Hval : new = val_var + (1 - relaxation_factor) ^ n * (old - val_var)).
  { subst new old. induction n as [|n IH]; [cbn; lra|].
    rewrite SetConjugateHeatVariable_repeat_S.
    rewrite SetConjugateHeatVariable_lookup
      by (apply SetConjugateHeatVariable_repeat_allocated; exact Halloc).
    rewrite IH. cbn [pow]. ring. }
  split; [exact Hval|]. intros [Hlo Hhi]. rewrite Hval.
  replace (val_var + (1 - relaxation_factor) ^ n * (old - val_var) - val_var)
    with ((1 - relaxation_factor) ^ n * (old - val_var)) by ring.
  rewrite Rabs_mult.
  rewrite (Rabs_right ((1 - relaxation_factor) ^ n))
    by (apply Rle_ge, pow_le; lra).
  assert (Hpow : (1 - relaxation_factor) ^ n <= 1).
  { apply Rle_trans with (1 ^ n); [apply pow_incr; lra|rewrite pow1; lra]. }
  pose proof (Rabs_pos (old - val_var)) as Hpos.
  rewrite <- (Rmult_1_l (Rabs (old - val_var))) at 2.
  apply Rmult_le_compat_r; assumption.
Qed.

(** Three writes of 400 with factor 1/2 on an entry holding 300. *)
Lemma SetConjugateHeatVariable_repeat_value_witness :
  GetConjugateHeatVariable
    (SetConjugateHeatVariable_repeat 3 [[[300; 0; 5; 0]]] 0 0 0 (1 / 2) 400) 0 0 0
  = 400 + (1 - 1 / 2) ^ 3 * (GetConjugateHeatVariable [[[300; 0; 5; 0]]] 0 0 0 - 400).
Proof.
  apply (SetConjugateHeatVariable_repeat_value 3 [[[300; 0; 5; 0]]] 0 0 0 (1 / 2) 400).
  exists [[300; 0; 5; 0]], [300; 0; 5; 0]. simpl. repeat split; lia.
Defined.

(** ** Constructor of [CIncNSSolver] *)

Section Constructor_more.
Context {CSysMatrix : Type} `{!CSysMatrix_interface CSysMatrix}.
Variables (garbage : nat -> su2double) (new_nodes : CVariable).
Variables (geometry : CGeometry) (config : CConfig) (iMesh : nat).

(** X3.  The conjugate-heat table built by the constructor has one row per
    marker, the row of a marker has as many vertices as the stored
    [nVertex[iMarker]], and every vertex has four variables: the loops of the
    destructor, which run over [nMarker] and [nVertex[iMarker]], visit exactly
    the allocated arrays. *)
Theorem new_CIncNSSolver_HeatConjugateVar_shape :
  let s := new_CIncNSSolver garbage new_nodes geometry config iMesh in
  length (HeatConjugateVar s) = nMarker s /\
  length (nVertex s) = nMarker s /\
  (forall iMarker, (iMarker < nMarker s)%nat ->
     length (HeatConjugateVar s !!! iMarker) = nVertex s !!! iMarker /\
     forall iVertex, (iVertex < nVertex s !!! iMarker)%nat ->
       length ((HeatConjugateVar s !!! iMarker) !!! iVertex) = 4%nat).
Proof.
  cbv zeta. cbn [new_CIncNSSolver HeatConjugateVar nMarker nVertex].
  unfold new_HeatConjugateVar.
  split; [rewrite length_fmap, length_seq; reflexivity|].
  split; [rewrite length_fmap, length_seq; reflexivity|].
  intros iMarker Hm.
  rewrite (list_lookup_total_correct
             ((fun iMarker => GetnVertex geometry iMarker)
                <$> seq 0 (GetnMarker_All config))
             iMarker (GetnVertex geometry iMarker))
    by (rewrite list_lookup_fmap, lookup_seq_lt by exact Hm; reflexivity).
  erewrite (list_lookup_total_correct _ iMarker)
    by (rewrite list_lookup_fmap, lookup_seq_lt by exact Hm; reflexivity).
  cbn [Nat.add].
  split; [rewrite length_fmap, length_seq; reflexivity|].
  intros iVertex Hv.
  erewrite (list_lookup_total_correct _ iVertex)
    by (rewrite list_lookup_fmap, lookup_seq_lt by exact Hv; reflexivity).
  reflexivity.
Qed.

(** X4.  After the constructor every point of the mesh carries the CFL number
    configured for the grid level of the solver; the other entries of the
    point are those of the container it was given. *)
Theorem new_CIncNSSolver_LocalCFL (iPoint : nat) :
  (iPoint < geo_nPoint geometry)%nat ->
  (iPoint < length new_nodes)%nat ->
  let s := new_CIncNSSolver garbage new_nodes geometry config iMesh in
  GetLocalCFL (nodes s) iPoint = GetCFL config iMesh /\
  nodes s !!! iPoint = set_LocalCFL (GetCFL config iMesh) (new_nodes !!! iPoint) /\
  length (nodes s) = length new_nodes.
Proof.
  intros HnP Hlen. cbv zeta. cbn [new_CIncNSSolver nodes].
  unfold GetLocalCFL, SetLocalCFL.
  rewrite (for_loop_pointwise_total (fun _ => set_LocalCFL (GetCFL config iMesh)))
    by assumption.
  split; [reflexivity|]. split; [reflexivity|].
  apply (length_for_loop_pointwise (fun _ => set_LocalCFL (GetCFL config iMesh))).
Qed.

(** The residual vector of a new solver: one zero block of [nVar] entries per
    point. *)
Lemma new_CIncNSSolver_LinSysRes_allocated :
  LinSysRes_allocated (new_CIncNSSolver garbage new_nodes geometry config iMesh).
Proof.
  split; cbn [new_CIncNSSolver LinSysRes nPoint nVar]; unfold CSysVector_Initialize.
  - apply length_replicate.
  - apply Forall_replicate. apply length_replicate.
Qed.

Lemma Residual_total_zero (nPoint nVar iVar : nat) :
  Residual_total (CSysVector_Initialize nPoint nVar 0) iVar = 0.
Proof.
  unfold Residual_total, CSysVector_Initialize.
  induction nPoint as [|n IH]; [reflexivity|].
  cbn [replicate fmap list_fmap foldr]. cbn in IH. rewrite IH.
  destruct (decide (iVar < nVar)%nat) as [Hlt|Hge].
  - rewrite lookup_total_replicate_2 by exact Hlt. lra.
  - rewrite list_lookup_total_alt.
    rewrite (proj1 (lookup_replicate_None nVar 0 iVar)) by lia. cbn. lra.
Qed.

End Constructor_more.

(** The example solver: its table has one marker of one vertex. *)
Lemma new_CIncNSSolver_LocalCFL_witness :
  GetLocalCFL (nodes (example_solver 1 example_steady_config)) 1 = 10.
Proof.
  apply (@new_CIncNSSolver_LocalCFL unit no_matrix (fun _ => 7) example_nodes
           (example_geometry 1) example_steady_config 0 1); cbn; lia.
Defined.

Lemma new_CIncNSSolver_HeatConjugateVar_shape_witness :
  length ((HeatConjugateVar (example_solver 1 example_steady_config) !!! 0%nat)
            !!! 0%nat) = 4%nat.
Proof.
  assert (Hm : (0 < nMarker (example_solver 1 example_steady_config))%nat)
    by (cbn; lia).
  assert (Hv : (0 < nVertex (example_solver 1 example_steady_config) !!! 0%nat)%nat)
    by (cbn; lia).
  exact (proj2 (proj2 (proj2 (@new_CIncNSSolver_HeatConjugateVar_shape unit no_matrix
                                (fun _ => 7) example_nodes (example_geometry 1)
                                example_steady_config 0)) 0%nat Hm) 0%nat Hv).
Defined.

(** ** Viscous_Residual *)

Lemma set_Jacobian_set_LinSysRes_eta {CSysMatrix} (s : CIncNSSolver CSysMatrix) :
  s = set_Jacobian (Jacobian s) (set_LinSysRes (LinSysRes s) s).
Proof. destruct s. reflexivity. Qed.

Section Viscous_Residual_more.
Context {CSysMatrix : Type} `{!CSysMatrix_interface CSysMatrix}.
Context {CNumerics : Type} `{!CNumerics_interface CNumerics}.
Variables (geometry : CGeometry) (config : CConfig).
Variable TURB_SOL_Solution : list (list su2double).

(** One edge writes the residual vector and, for an implicit scheme, the
    matrix; nothing else. *)
Lemma Viscous_Residual_edge_frame (iEdge : nat)
    (s : CIncNSSolver CSysMatrix) (numerics : CNumerics) :
  let s' := fst (Viscous_Residual_edge geometry config TURB_SOL_Solution iEdge
                   (s, numerics)) in
  s' = set_Jacobian (Jacobian s') (set_LinSysRes (LinSysRes s') s) /\
  (implicit_scheme config = false -> Jacobian s' = Jacobian s).
Proof.
  cbv zeta. unfold Viscous_Residual_edge. cbv zeta.
  destruct (ComputeResidual config _) as [res numerics'].
  destruct s. destruct (implicit_scheme config); split; try reflexivity.
  intros Hc. discriminate Hc.
Qed.

(** X5.  [Viscous_Residual] writes the residual vector and, when the scheme
    is implicit, the Jacobian matrix; every other member of the solver (point
    states, conjugate-heat table, scratch arrays, sizes) is as before, and
    with an explicit scheme the matrix is as before too. *)
Theorem Viscous_Residual_frame (s : CIncNSSolver CSysMatrix) (numerics : CNumerics) :
  let s' := fst (Viscous_Residual geometry config TURB_SOL_Solution s numerics) in
  s' = set_Jacobian (Jacobian s') (set_LinSysRes (LinSysRes s') s) /\
  (implicit_scheme config = false -> s' = set_LinSysRes (LinSysRes s') s).
Proof.
  cbv zeta. unfold Viscous_Residual.
  apply (for_loop_invariant
           (fun st : CIncNSSolver CSysMatrix * CNumerics =>
              fst st = set_Jacobian (Jacobian (fst st))
                         (set_LinSysRes (LinSysRes (fst st)) s) /\
              (implicit_scheme config = false ->
               fst st = set_LinSysRes (LinSysRes (fst st)) s))).
  - cbn [fst]. split; [apply set_Jacobian_set_LinSysRes_eta|].
    intros _. destruct s. reflexivity.
  - intros iEdge [s1 numerics1] _ [Hframe Hexplicit]. cbn [fst] in Hframe, Hexplicit.
    destruct (Viscous_Residual_edge_frame iEdge s1 numerics1) as [Hedge Hjac].
    cbv zeta in Hedge, Hjac.
    set (s2 := fst (Viscous_Residual_edge geometry config TURB_SOL_Solution iEdge
                      (s1, numerics1))) in *.
    split.
    + rewrite Hedge at 1. rewrite Hframe at 1. destruct s. reflexivity.
    + intros Hc. rewrite Hedge at 1. rewrite (Hjac Hc).
      rewrite (Hexplicit Hc) at 1 2. destruct s. reflexivity.
Qed.

(** X6.  A point that is an end point of no edge keeps its residual block
    through [Viscous_Residual]. *)
Theorem Viscous_Residual_untouched_point (s : CIncNSSolver CSysMatrix)
    (numerics : CNumerics) (kPoint : nat) :
  (forall iEdge, (iEdge < GetnEdge geometry)%nat ->
     edge_Node_0 (GetEdge geometry iEdge) <> kPoint /\
     edge_Node_1 (GetEdge geometry iEdge) <> kPoint) ->
  LinSysRes (fst (Viscous_Residual geometry config TURB_SOL_Solution s numerics))
    !!! kPoint
  = LinSysRes s !!! kPoint.
Proof.
  intros Hedges. unfold Viscous_Residual.
  apply (for_loop_invariant
           (fun st : CIncNSSolver CSysMatrix * CNumerics =>
              LinSysRes (fst st) !!! kPoint = LinSysRes s !!! kPoint));
    [reflexivity|].
  intros iEdge [s1 numerics1] HiEdge Hs1. cbn [fst] in Hs1.
  destruct (Viscous_Residual_edge_LinSysRes geometry config TURB_SOL_Solution
              iEdge s1 numerics1) as (flux & Hres & _). cbv zeta in Hres.
  destruct (Hedges iEdge HiEdge) as [Hi Hj].
  rewrite Hres. unfold AddBlock, SubtractBlock.
  rewrite !list_lookup_total_alter_ne by assumption. exact Hs1.
Qed.

(** The loop over the edges keeps every component of the summed residual. *)
Lemma Viscous_Residual_Residual_total (s : CIncNSSolver CSysMatrix)
    (numerics : CNumerics) (iVar : nat) :
  edges_in_mesh geometry (nPoint s) ->
  LinSysRes_allocated s ->
  LinSysRes_allocated
    (fst (Viscous_Residual geometry config TURB_SOL_Solution s numerics)) /\
  Residual_total
    (LinSysRes (fst (Viscous_Residual geometry config TURB_SOL_Solution s numerics)))
    iVar
  = Residual_total (LinSysRes s) iVar.
Proof.
  intros Hmesh Halloc. unfold Viscous_Residual.
  assert (Hinv :
    (fun st : CIncNSSolver CSysMatrix * CNumerics =>
       LinSysRes_allocated (fst st) /\ nPoint (fst st) = nPoint s /\
       Residual_total (LinSysRes (fst st)) iVar = Residual_total (LinSysRes s) iVar)
      (for_loop (GetnEdge geometry)
         (Viscous_Residual_edge geometry config TURB_SOL_Solution) (s, numerics))).
  { apply for_loop_invariant.
    - repeat split; try reflexivity; apply Halloc.
    - intros iEdge [s1 numerics1] HiEdge (Halloc1 & HnP1 & Htot1). cbn [fst] in *.
      destruct (edges_in_mesh_edge geometry _ _ Hmesh HiEdge) as [Hi Hj].
      destruct (Viscous_Residual_edge_LinSysRes geometry config TURB_SOL_Solution
                  iEdge s1 numerics1) as (flux & Hres & HnP & HnV).
      cbv zeta in Hres, HnP, HnV.
      split; [apply Viscous_Residual_edge_allocated; exact Halloc1|].
      split; [rewrite HnP; exact HnP1|].
      rewrite Hres, <- Htot1. destruct Halloc1 as [Hlen1 Hblocks1].
      apply (Residual_total_Subtract_Add _ _ _ _ (nVar s1));
        [rewrite Hlen1, HnP1; exact Hi|rewrite Hlen1, HnP1; exact Hj|exact Hblocks1]. }
  cbv beta in Hinv. destruct Hinv as (H1 & _ & H3). split; assumption.
Qed.

(** X7.  Construction followed by a sweep of [Viscous_Residual]: on a mesh
    whose edges join points of the mesh, every component of the residual sums
    to zero over the points, and the vector still has one block of [nVar]
    entries per point. *)
Theorem new_CIncNSSolver_Viscous_Residual_total
    (garbage : nat -> su2double) (new_nodes : CVariable) (iMesh : nat)
    (numerics : CNumerics) (iVar : nat) :
  edges_in_mesh geometry (geo_nPoint geometry) ->
  let s := new_CIncNSSolver garbage new_nodes geometry config iMesh in
  let s' := fst (Viscous_Residual geometry config TURB_SOL_Solution s numerics) in
  LinSysRes_allocated s' /\ Residual_total (LinSysRes s') iVar = 0.
Proof.
  intros Hmesh s s'.
  destruct (Viscous_Residual_Residual_total s numerics iVar Hmesh
              (new_CIncNSSolver_LinSysRes_allocated garbage new_nodes geometry config
                 iMesh)) as [Halloc Htot].
  split; [exact Halloc|]. subst s'. rewrite Htot. apply Residual_total_zero.
Qed.

End Viscous_Residual_more.

(** The example mesh and flux functor, explicit scheme. *)
Lemma Viscous_Residual_frame_witness :
  let config := example_dual_time_config in
  let s := example_solver 1 config in
  let s' := fst (@Viscous_Residual unit no_matrix _ example_numerics
                   (example_geometry 1) config [] s ([], [])) in
  s' = set_LinSysRes (LinSysRes s') s.
Proof.
  intros config s s'.
  exact (proj2 (@Viscous_Residual_frame unit no_matrix _ example_numerics
                  (example_geometry 1) config [] s ([], [])) eq_refl).
Defined.

(** The halo point of the second example mesh lies on no edge. *)
Lemma Viscous_Residual_untouched_point_witness :
  let s := example_halo_solver example_steady_config in
  LinSysRes (fst (@Viscous_Residual unit no_matrix _ example_numerics
                    example_halo_geometry example_steady_config [] s ([], [])))
    !!! 2%nat
  = LinSysRes s !!! 2%nat.
Proof.
  intros s.
  apply (@Viscous_Residual_untouched_point unit no_matrix _ example_numerics
           example_halo_geometry example_steady_config [] s ([], []) 2).
  intros iEdge HiEdge. assert (iEdge = 0%nat) as -> by (cbn in HiEdge; lia).
  cbn. split; lia.
Defined.

Lemma new_CIncNSSolver_Viscous_Residual_total_witness :
  Residual_total
    (LinSysRes
       (fst (@Viscous_Residual unit no_matrix _ example_numerics
               (example_geometry 1) example_steady_config []
               (example_solver 1 example_steady_config) ([], []))))
    1
  = 0.
Proof.
  assert (Hmesh : edges_in_mesh (example_geometry 1) (geo_nPoint (example_geometry 1))).
  { unfold edges_in_mesh. cbn. repeat constructor; lia. }
  exact (proj2 (@new_CIncNSSolver_Viscous_Residual_total unit no_matrix _
                  example_numerics (example_geometry 1) example_steady_config []
                  (fun _ => 7) example_nodes 0 ([], []) 1 Hmesh)).
Defined.

(** ** SetTime_Step: what the accumulation of the spectral radii keeps *)

Lemma same_flow_state_refl (p : CIncNSVariable) : same_flow_state p p.
Proof. repeat split. Qed.

Lemma same_flow_state_trans (p q r : CIncNSVariable) :
  same_flow_state p q -> same_flow_state q r -> same_flow_state p r.
Proof.
  unfold same_flow_state.
  intros (?&?&?&?&?&?&?&?&?&?&?&?&?) (?&?&?&?&?&?&?&?&?&?&?&?&?).
  repeat split; congruence.
Qed.

(** Rewriting the time-step entries of one point keeps the flow state of
    every point. *)
Lemma alter_same_flow_state (f : CIncNSVariable -> CIncNSVariable) (i : nat)
    (nd0 nd : CVariable) :
  (forall p, same_flow_state p (f p)) ->
  Forall2 same_flow_state nd0 nd ->
  Forall2 same_flow_state nd0 (alter f i nd).
Proof.
  intros Hf Hnd. apply Forall2_alter_r; [exact Hnd|].
  intros x y _ _ Hxy. apply (same_flow_state_trans x y); [exact Hxy|apply Hf].
Qed.

Lemma Forall2_same_flow_state_refl (nd : CVariable) :
  Forall2 same_flow_state nd nd.
Proof.
  apply Forall_Forall2_diag, Forall_forall. intros p _. apply same_flow_state_refl.
Qed.

Section SetTime_Step_accumulation.
Variables (geometry : CGeometry) (config : CConfig).

(** Induction principle for one interior edge: a property of the point
    container kept by the additions to the radii of owned points passes
    through the edge.  The inviscid addition is known to be non-negative. *)
Lemma SetTime_Step_edge_ind (Q : CVariable -> Prop) (nDim : nat)
    (dynamic_grid : bool) (iEdge : nat) (nd : CVariable) :
  (forall i v nd, GetDomain geometry i = true -> 0 <= v -> Q nd ->
                  Q (AddMax_Lambda_Inv i v nd)) ->
  (forall i v nd, GetDomain geometry i = true -> Q nd ->
                  Q (AddMax_Lambda_Visc i v nd)) ->
  Q nd -> Q (SetTime_Step_edge geometry config nDim dynamic_grid iEdge nd).
Proof.
  intros Hinv Hvisc Hnd. unfold SetTime_Step_edge. cbv zeta.
  set (Lambda := Rabs _ + sqrt _).
  assert (HLambda : 0 <= Lambda).
  { subst Lambda. apply Rplus_le_le_0_compat; [apply Rabs_pos|apply sqrt_pos]. }
  clearbody Lambda.
  destruct (GetDomain geometry (edge_Node_0 (GetEdge geometry iEdge))) eqn:Hi,
           (GetDomain geometry (edge_Node_1 (GetEdge geometry iEdge))) eqn:Hj;
    repeat first [apply Hvisc; [assumption|] | apply Hinv; [assumption|assumption|]];
    exact Hnd.
Qed.

Lemma SetTime_Step_vertex_ind (Q : CVariable -> Prop) (nDim : nat)
    (dynamic_grid : bool) (iMarker iVertex : nat) (nd : CVariable) :
  (forall i v nd, GetDomain geometry i = true -> 0 <= v -> Q nd ->
                  Q (AddMax_Lambda_Inv i v nd)) ->
  (forall i v nd, GetDomain geometry i = true -> Q nd ->
                  Q (AddMax_Lambda_Visc i v nd)) ->
  Q nd ->
  Q (SetTime_Step_vertex geometry config nDim dynamic_grid iMarker iVertex nd).
Proof.
  intros Hinv Hvisc Hnd. unfold SetTime_Step_vertex. cbv zeta.
  set (Lambda := Rabs _ + sqrt _).
  assert (HLambda : 0 <= Lambda).
  { subst Lambda. apply Rplus_le_le_0_compat; [apply Rabs_pos|apply sqrt_pos]. }
  clearbody Lambda.
  destruct (GetDomain geometry (vertex_Node (GetVertex geometry iMarker iVertex)))
    eqn:Hi;
    repeat first [apply Hvisc; [assumption|] | apply Hinv; [assumption|assumption|]];
    exact Hnd.
Qed.

(** The same principle for lines 661-776 as a whole. *)
Lemma SetTime_Step_spectral_radii_ind {CSysMatrix} (Q : CVariable -> Prop)
    (s : CIncNSSolver CSysMatrix) :
  Q (SetTime_Step_reset (nPointDomain s) (nodes s)) ->
  (forall i v nd, GetDomain geometry i = true -> 0 <= v -> Q nd ->
                  Q (AddMax_Lambda_Inv i v nd)) ->
  (forall i v nd, GetDomain geometry i = true -> Q nd ->
                  Q (AddMax_Lambda_Visc i v nd)) ->
  Q (SetTime_Step_spectral_radii geometry config s).
Proof.
  intros Hreset Hinv Hvisc. unfold SetTime_Step_spectral_radii. cbv zeta.
  apply for_loop_invariant.
  - apply for_loop_invariant; [exact Hreset|].
    intros iEdge nd _ Hnd. apply SetTime_Step_edge_ind; assumption.
  - intros iMarker nd _ Hnd. destruct (_ && _); [|exact Hnd].
    apply for_loop_invariant; [exact Hnd|].
    intros iVertex nd' _ Hnd'. apply SetTime_Step_vertex_ind; assumption.
Qed.

Lemma SetTime_Step_reset_pointwise (n : nat) (nd : CVariable) :
  SetTime_Step_reset n nd
  = for_loop n
      (fun iPoint nd =>
         alter (fun p => set_Max_Lambda_Visc 0 (set_Max_Lambda_Inv 0 p)) iPoint nd)
      nd.
Proof.
  unfold SetTime_Step_reset. apply for_loop_ext. intros i nd' _.
  unfold SetMax_Lambda_Visc, SetMax_Lambda_Inv. apply list_alter_alter_eq.
Qed.

End SetTime_Step_accumulation.

(** ** SetTime_Step: what the whole function keeps *)

Lemma same_spectral_radii_flow (p q : CIncNSVariable) :
  same_spectral_radii p q -> same_flow_state p q.
Proof. intros [H _]. exact H. Qed.

(** A projection of the point state that a writer keeps can be read through
    the write, whether or not the index is in range. *)
Lemma alter_lookup_total_proj {B} (g : CIncNSVariable -> B)
    (f : CIncNSVariable -> CIncNSVariable) (i k : nat) (nd : CVariable) :
  (forall p, g (f p) = g p) -> g (alter f i nd !!! k) = g (nd !!! k).
Proof.
  intros Hf. rewrite !list_lookup_total_alt.
  destruct (decide (i = k)) as [->|Hne].
  - rewrite list_lookup_alter_eq. destruct (nd !! k); [apply Hf|reflexivity].
  - rewrite list_lookup_alter_ne by exact Hne. reflexivity.
Qed.

Section SetTime_Step_frame.
Context {CSysMatrix : Type}.
Variables (geometry : CGeometry) (s : CIncNSSolver CSysMatrix) (config : CConfig).

Lemma same_solver_but_time_steps_refl : same_solver_but_time_steps s s.
Proof. unfold same_solver_but_time_steps. destruct s. reflexivity. Qed.

Lemma same_solver_but_time_steps_set_nodes (nd : CVariable)
    (s' : CIncNSSolver CSysMatrix) :
  same_solver_but_time_steps s s' -> same_solver_but_time_steps s (set_nodes nd s').
Proof.
  unfold same_solver_but_time_steps. intros H. rewrite H at 1.
  destruct s, s'. reflexivity.
Qed.

Lemma same_solver_but_time_steps_set_Min (v : su2double)
    (s' : CIncNSSolver CSysMatrix) :
  same_solver_but_time_steps s s' ->
  same_solver_but_time_steps s (set_Min_Delta_Time v s').
Proof.
  unfold same_solver_but_time_steps. intros H. rewrite H at 1.
  destruct s, s'. reflexivity.
Qed.

Lemma same_solver_but_time_steps_set_Max (v : su2double)
    (s' : CIncNSSolver CSysMatrix) :
  same_solver_but_time_steps s s' ->
  same_solver_but_time_steps s (set_Max_Delta_Time v s').
Proof.
  unfold same_solver_but_time_steps. intros H. rewrite H at 1.
  destruct s, s'. reflexivity.
Qed.

(** The solver members through lines 780-872. *)
Lemma SetTime_Step_local_solver_frame (st : TimeStep_state CSysMatrix) :
  same_solver_but_time_steps s (ts_solver st) ->
  same_solver_but_time_steps s (ts_solver (SetTime_Step_local geometry config st)).
Proof.
  intros Hst. unfold SetTime_Step_local.
  apply (for_loop_invariant
           (fun st => same_solver_but_time_steps s (ts_solver st)));
    [exact Hst|].
  intros i st' _ IH. unfold SetTime_Step_point.
  destruct (decide (GetVolume geometry i <> 0)); cbn.
  - apply same_solver_but_time_steps_set_nodes, same_solver_but_time_steps_set_Max,
      same_solver_but_time_steps_set_Min, IH.
  - apply same_solver_but_time_steps_set_nodes, IH.
Qed.

Lemma SetTime_Step_time_stepping_solver_frame (st : TimeStep_state CSysMatrix) :
  same_solver_but_time_steps s (ts_solver st) ->
  same_solver_but_time_steps s (ts_solver (SetTime_Step_time_stepping st)).
Proof.
  intros Hst. unfold SetTime_Step_time_stepping.
  destruct (bool_decide _); [|exact Hst]. cbn.
  apply (for_loop_invariant (same_solver_but_time_steps s)); [exact Hst|].
  intros i s' _ IH.
  apply same_solver_but_time_steps_set_Max, same_solver_but_time_steps_set_Min,
    same_solver_but_time_steps_set_nodes, IH.
Qed.

Lemma SetTime_Step_dual_time_clip_solver_frame (st : TimeStep_state CSysMatrix) :
  same_solver_but_time_steps s (ts_solver st) ->
  same_solver_but_time_steps s (ts_solver (SetTime_Step_dual_time_clip st)).
Proof.
  intros Hst. unfold SetTime_Step_dual_time_clip.
  destruct (dual_time_marching _); [|exact Hst]. cbn.
  apply same_solver_but_time_steps_set_nodes, Hst.
Qed.

Lemma SetTime_Step_solver_frame (iMesh Iteration : nat) :
  same_solver_but_time_steps s
    (ts_solver (SetTime_Step geometry s config iMesh Iteration)).
Proof.
  unfold SetTime_Step. cbv zeta.
  apply SetTime_Step_dual_time_clip_solver_frame.
  rewrite (proj1 (SetTime_Step_unsteady_step_solver iMesh Iteration _)).
  apply SetTime_Step_time_stepping_solver_frame, SetTime_Step_local_solver_frame.
  unfold SetTime_Step_accumulate. cbn.
  apply same_solver_but_time_steps_set_nodes, same_solver_but_time_steps_set_Max,
    same_solver_but_time_steps_set_Min, same_solver_but_time_steps_refl.
Qed.

(** The number of owned points through lines 780-872. *)
Lemma SetTime_Step_time_stepping_nPointDomain (st : TimeStep_state CSysMatrix) :
  nPointDomain (ts_solver (SetTime_Step_time_stepping st))
  = nPointDomain (ts_solver st).
Proof.
  unfold SetTime_Step_time_stepping. destruct (bool_decide _); [|reflexivity]. cbn.
  apply (for_loop_invariant
           (fun s' => nPointDomain s' = nPointDomain (ts_solver st)));
    [reflexivity|].
  intros i s' _ IH. exact IH.
Qed.

(** Induction principle for lines 780-872: a property of the point container
    kept by every write to an owned point that leaves the flow state and the
    spectral radii alone holds at the end. *)
Lemma SetTime_Step_steps_ind (Q : CVariable -> Prop) (iMesh Iteration : nat)
    (st : TimeStep_state CSysMatrix) :
  Q (nodes (ts_solver st)) ->
  (forall i f nd, (i < nPointDomain (ts_solver st))%nat ->
                  (forall p, same_spectral_radii p (f p)) ->
                  Q nd -> Q (alter f i nd)) ->
  Q (nodes (ts_solver
              (SetTime_Step_dual_time_clip
                 (SetTime_Step_unsteady_step iMesh Iteration
                    (SetTime_Step_time_stepping
                       (SetTime_Step_local geometry config st)))))).
Proof.
  intros Hst Halter.
  assert (Hwriter : forall v p, same_spectral_radii p (set_Delta_Time v p)).
  { intros v p. repeat split. }
  assert (Hwriter' : forall v w p,
             same_spectral_radii p (set_Delta_Time v (set_LocalCFL w p))).
  { intros v w p. repeat split. }
  set (st1 := SetTime_Step_local geometry config st).
  assert (H1 : Q (nodes (ts_solver st1))).
  { subst st1. rewrite SetTime_Step_local_nodes.
    apply for_loop_invariant; [exact Hst|].
    intros i nd Hi Hnd. apply Halter; [exact Hi| |exact Hnd].
    intros p. unfold SetTime_Step_point_update. apply Hwriter. }
  assert (Hn1 : nPointDomain (ts_solver st1) = nPointDomain (ts_solver st))
    by apply SetTime_Step_local_nPointDomain.
  set (st2 := SetTime_Step_time_stepping st1).
  assert (H2 : Q (nodes (ts_solver st2))).
  { subst st2. unfold SetTime_Step_time_stepping.
    destruct (bool_decide _); [|exact H1]. cbn.
    rewrite (for_loop_project nodes _ _
               (fun iPoint nd =>
                  alter (fun p => set_Delta_Time
                           (if decide (Unst_CFL (ts_config st1) = 0)
                            then Delta_UnstTime (ts_config st1)
                            else Global_Delta_Time st1)
                           (set_LocalCFL (Unst_CFL (ts_config st1)) p)) iPoint nd)).
    - apply for_loop_invariant; [exact H1|].
      intros i nd Hi Hnd. apply Halter; [lia| |exact Hnd].
      intros p. apply Hwriter'.
    - intros i s'. cbn. unfold SetDelta_Time, SetLocalCFL.
      apply list_alter_alter_eq. }
  assert (Hn2 : nPointDomain (ts_solver st2) = nPointDomain (ts_solver st)).
  { subst st2. rewrite SetTime_Step_time_stepping_nPointDomain. exact Hn1. }
  set (st3 := SetTime_Step_unsteady_step iMesh Iteration st2).
  assert (Hs3 : ts_solver st3 = ts_solver st2)
    by apply (SetTime_Step_unsteady_step_solver iMesh Iteration st2).
  unfold SetTime_Step_dual_time_clip.
  destruct (dual_time_marching _); [|rewrite Hs3; exact H2]. cbn.
  apply for_loop_invariant; [rewrite Hs3; exact H2|].
  intros i nd Hi Hnd. destruct (negb _); [|exact Hnd].
  apply Halter; [rewrite Hs3 in Hi; lia| |exact Hnd].
  intros p. apply Hwriter.
Qed.

(** Induction principle for [SetTime_Step] as a whole: the writes are to
    owned points (the index is below [nPointDomain], or the point is flagged
    as owned by the geometry) and leave the flow state alone. *)
Lemma SetTime_Step_ind (Q : CVariable -> Prop) (iMesh Iteration : nat) :
  Q (nodes s) ->
  (forall i f nd,
     (i < nPointDomain s)%nat \/ GetDomain geometry i = true ->
     (forall p, same_flow_state p (f p)) ->
     Q nd -> Q (alter f i nd)) ->
  Q (nodes (ts_solver (SetTime_Step geometry s config iMesh Iteration))).
Proof.
  intros Hs Halter. unfold SetTime_Step. cbv zeta.
  apply SetTime_Step_steps_ind.
  - unfold SetTime_Step_accumulate. cbv zeta. cbn [ts_solver nodes set_nodes].
    apply SetTime_Step_spectral_radii_ind.
    + cbn [nPointDomain nodes set_Max_Delta_Time set_Min_Delta_Time].
      rewrite SetTime_Step_reset_pointwise.
      apply for_loop_invariant; [exact Hs|].
      intros i nd Hi Hnd. apply Halter; [left; exact Hi| |exact Hnd].
      intros p. repeat split.
    + intros i v nd Hi _ Hnd. apply Halter; [right; exact Hi| |exact Hnd].
      intros p. repeat split.
    + intros i v nd Hi Hnd. apply Halter; [right; exact Hi| |exact Hnd].
      intros p. repeat split.
  - intros i f nd Hi Hf Hnd. apply Halter; [left; exact Hi| |exact Hnd].
    intros p. apply same_spectral_radii_flow, Hf.
Qed.

(** X8.  [SetTime_Step] writes nothing but the time-step data: of the
    solver, only the points and the smallest and largest time step can
    differ afterwards; the number of points is the same, and every point has
    the pressure, velocity, temperature, density, artificial compressibility,
    viscosities, conductivity, specific heats, gradients, old solution and
    truncation error it had before. *)
Theorem SetTime_Step_writes_time_step_data (iMesh Iteration : nat) :
  let s' := ts_solver (SetTime_Step geometry s config iMesh Iteration) in
  s' = set_Max_Delta_Time (Max_Delta_Time s')
         (set_Min_Delta_Time (Min_Delta_Time s') (set_nodes (nodes s') s)) /\
  length (nodes s') = length (nodes s) /\
  Forall2 same_flow_state (nodes s) (nodes s').
Proof.
  intros s'.
  assert (Hflow : Forall2 same_flow_state (nodes s) (nodes s')).
  { subst s'. apply (SetTime_Step_ind (Forall2 same_flow_state (nodes s))).
    - apply Forall2_same_flow_state_refl.
    - intros i f nd _ Hf Hnd. apply alter_same_flow_state; assumption. }
  split; [apply SetTime_Step_solver_frame|].
  split; [symmetry; exact (Forall2_length _ _ _ Hflow)|exact Hflow].
Qed.

(** X9.  A point that is not owned by this partition (its index is not below
    [nPointDomain] and the geometry does not flag it as owned) is left as it
    was by [SetTime_Step]: no spectral radius is accumulated for it and no
    time step is stored. *)
Theorem SetTime_Step_halo_point_untouched (iMesh Iteration iPoint : nat) :
  (nPointDomain s <= iPoint)%nat ->
  GetDomain geometry iPoint = false ->
  nodes (ts_solver (SetTime_Step geometry s config iMesh Iteration)) !! iPoint
  = nodes s !! iPoint.
Proof.
  intros Hhalo Hdom.
  apply (SetTime_Step_ind (fun nd => nd !! iPoint = nodes s !! iPoint));
    [reflexivity|].
  intros i f nd Hi _ Hnd. rewrite list_lookup_alter_ne; [exact Hnd|].
  intros ->. destruct Hi as [Hi|Hi]; [lia|congruence].
Qed.

(** X10.  After [SetTime_Step] the inviscid spectral radius of every owned
    point is non-negative, whatever it was before: it is reset and then only
    sums of an absolute value and a square root are added. *)
Theorem SetTime_Step_inviscid_radius_nonneg (iMesh Iteration iPoint : nat) :
  (iPoint < nPointDomain s)%nat ->
  0 <= GetMax_Lambda_Inv
         (nodes (ts_solver (SetTime_Step geometry s config iMesh Iteration))) iPoint.
Proof.
  intros Hdom. unfold SetTime_Step, GetMax_Lambda_Inv. cbv zeta.
  apply (SetTime_Step_steps_ind (fun nd => 0 <= Max_Lambda_Inv (nd !!! iPoint))).
  - unfold SetTime_Step_accumulate. cbv zeta. cbn [ts_solver nodes set_nodes].
    apply (SetTime_Step_spectral_radii_ind geometry config
             (fun nd => 0 <= Max_Lambda_Inv (nd !!! iPoint))).
    + cbn [nPointDomain nodes set_Max_Delta_Time set_Min_Delta_Time].
      rewrite SetTime_Step_reset_pointwise, list_lookup_total_alt,
        for_loop_pointwise.
      case_decide; [|lia]. destruct (nodes s !! iPoint); cbn; lra.
    + intros i v nd _ Hv Hnd. unfold AddMax_Lambda_Inv.
      rewrite list_lookup_total_alt.
      destruct (decide (i = iPoint)) as [->|Hne].
      * rewrite list_lookup_alter_eq. rewrite list_lookup_total_alt in Hnd.
        destruct (nd !! iPoint); cbn in *; lra.
      * rewrite list_lookup_alter_ne by exact Hne.
        rewrite <- list_lookup_total_alt. exact Hnd.
    + intros i v nd _ Hnd. unfold AddMax_Lambda_Visc.
      rewrite (alter_lookup_total_proj Max_Lambda_Inv); [exact Hnd|reflexivity].
  - intros i f nd _ Hf Hnd.
    rewrite (alter_lookup_total_proj Max_Lambda_Inv); [exact Hnd|].
    intros p. apply (Hf p).
Qed.

End SetTime_Step_frame.

(** The halo point of the second example mesh in a steady run. *)
Lemma SetTime_Step_halo_point_untouched_witness :
  nodes (ts_solver (SetTime_Step example_halo_geometry
                      (example_halo_solver example_steady_config)
                      example_steady_config 0 0)) !! 2%nat
  = nodes (example_halo_solver example_steady_config) !! 2%nat.
Proof.
  assert (Hhalo : (nPointDomain (example_halo_solver example_steady_config) <= 2)%nat)
    by (cbn; lia).
  assert (Hdom : GetDomain example_halo_geometry 2 = false) by reflexivity.
  exact (SetTime_Step_halo_point_untouched example_halo_geometry
           (example_halo_solver example_steady_config) example_steady_config
           0 0 2 Hhalo Hdom).
Defined.

(** The wall point of the example mesh. *)
Lemma SetTime_Step_inviscid_radius_nonneg_witness :
  0 <= GetMax_Lambda_Inv
         (nodes (ts_solver (SetTime_Step (example_geometry 1)
                              (example_solver 1 example_steady_config)
                              example_steady_config 0 0))) 0.
Proof.
  assert (Hdom : (0 < nPointDomain (example_solver 1 example_steady_config))%nat)
    by (cbn; lia).
  exact (SetTime_Step_inviscid_radius_nonneg (example_geometry 1)
           (example_solver 1 example_steady_config) example_steady_config
           0 0 0 Hdom).
Defined.

(** ** SetTime_Step: the global, smallest and largest time step *)

Section SetTime_Step_bounds.
Context {CSysMatrix : Type}.
Variables (geometry : CGeometry) (config : CConfig).

(** Lines 785-791 for one owned point: the three running extrema. *)
Lemma SetTime_Step_point_extrema (iPoint : nat) (st : TimeStep_state CSysMatrix) :
  let U := Unclipped_Delta_Time (GetVolume geometry iPoint)
             (nodes (ts_solver st) !!! iPoint) in
  let st' := SetTime_Step_point geometry config iPoint st in
  if decide (GetVolume geometry iPoint <> 0) then
    Global_Delta_Time st' = Rmin (Global_Delta_Time st) U /\
    Min_Delta_Time (ts_solver st') = Rmin (Min_Delta_Time (ts_solver st)) U /\
    Max_Delta_Time (ts_solver st') = Rmax (Max_Delta_Time (ts_solver st)) U
  else
    Global_Delta_Time st' = Global_Delta_Time st /\
    Min_Delta_Time (ts_solver st') = Min_Delta_Time (ts_solver st) /\
    Max_Delta_Time (ts_solver st') = Max_Delta_Time (ts_solver st).
Proof.
  unfold SetTime_Step_point, divide_by_radius, Unclipped_Delta_Time, GetLocalCFL,
    GetMax_Lambda_Inv, GetMax_Lambda_Visc. cbv zeta.
  destruct (decide (GetVolume geometry iPoint <> 0)); cbn; repeat split.
Qed.

(** The loop of lines 780-799: the global and the smallest step end below,
    the largest step above, the unclipped step of every owned point of
    non-zero volume. *)
Lemma SetTime_Step_local_extrema (st : TimeStep_state CSysMatrix) :
  let st' := SetTime_Step_local geometry config st in
  Global_Delta_Time st' <= Global_Delta_Time st /\
  Min_Delta_Time (ts_solver st') <= Min_Delta_Time (ts_solver st) /\
  Max_Delta_Time (ts_solver st) <= Max_Delta_Time (ts_solver st') /\
  forall iPoint, (iPoint < nPointDomain (ts_solver st))%nat ->
    GetVolume geometry iPoint <> 0 ->
    let U := Unclipped_Delta_Time (GetVolume geometry iPoint)
               (nodes (ts_solver st) !!! iPoint) in
    Global_Delta_Time st' <= U /\
    Min_Delta_Time (ts_solver st') <= U /\ U <= Max_Delta_Time (ts_solver st').
Proof.
  cbv zeta. unfold SetTime_Step_local.
  set (n := nPointDomain (ts_solver st)).
  pose (P := fun (k : nat) (st' : TimeStep_state CSysMatrix) =>
    (forall j vol, Unclipped_Delta_Time vol (nodes (ts_solver st') !!! j)
                   = Unclipped_Delta_Time vol (nodes (ts_solver st) !!! j)) /\
    Global_Delta_Time st' <= Global_Delta_Time st /\
    Min_Delta_Time (ts_solver st') <= Min_Delta_Time (ts_solver st) /\
    Max_Delta_Time (ts_solver st) <= Max_Delta_Time (ts_solver st') /\
    forall iPoint, (iPoint < k)%nat -> GetVolume geometry iPoint <> 0 ->
      Global_Delta_Time st'
      <= Unclipped_Delta_Time (GetVolume geometry iPoint)
           (nodes (ts_solver st) !!! iPoint) /\
      Min_Delta_Time (ts_solver st')
      <= Unclipped_Delta_Time (GetVolume geometry iPoint)
           (nodes (ts_solver st) !!! iPoint) /\
      Unclipped_Delta_Time (GetVolume geometry iPoint)
        (nodes (ts_solver st) !!! iPoint)
      <= Max_Delta_Time (ts_solver st')).
  assert (HP : P n (for_loop n (SetTime_Step_point geometry config) st)).
  { apply for_loop_invariant_indexed.
    - unfold P. repeat split; try lra. all: intros; lia.
    - intros i st' _ (Hnd & HG & Hmin & Hmax & Hall). unfold P.
      pose proof (SetTime_Step_point_extrema i st') as Hpt. cbv zeta in Hpt.
      rewrite Hnd in Hpt.
      split.
      { intros j vol. rewrite SetTime_Step_point_nodes, <- Hnd.
        apply (alter_lookup_total_proj (Unclipped_Delta_Time vol)).
        reflexivity. }
      destruct (decide (GetVolume geometry i <> 0)) as [Hv|Hv];
        destruct Hpt as (-> & -> & ->).
      + split; [eapply Rle_trans; [apply Rmin_l|exact HG]|].
        split; [eapply Rle_trans; [apply Rmin_l|exact Hmin]|].
        split; [eapply Rle_trans; [exact Hmax|apply Rmax_l]|].
        intros k Hk Hvk. destruct (decide (k = i)) as [->|Hne].
        * split; [apply Rmin_r|]. split; [apply Rmin_r|apply Rmax_r].
        * destruct (Hall k ltac:(lia) Hvk) as (H1 & H2 & H3).
          split; [eapply Rle_trans; [apply Rmin_l|exact H1]|].
          split; [eapply Rle_trans; [apply Rmin_l|exact H2]|].
          eapply Rle_trans; [exact H3|apply Rmax_l].
      + split; [exact HG|]. split; [exact Hmin|]. split; [exact Hmax|].
        intros k Hk Hvk. destruct (decide (k = i)) as [->|Hne]; [contradiction|].
        apply Hall; [lia|exact Hvk]. }
  destruct HP as (_ & HG & Hmin & Hmax & Hall).
  split; [exact HG|]. split; [exact Hmin|]. split; [exact Hmax|exact Hall].
Qed.

End SetTime_Step_bounds.

Section SetTime_Step_modes.
Context {CSysMatrix : Type}.
Variables (geometry : CGeometry) (s : CIncNSSolver CSysMatrix) (config : CConfig).

Lemma SetTime_Step_dual_time_clip_extrema (st : TimeStep_state CSysMatrix) :
  Min_Delta_Time (ts_solver (SetTime_Step_dual_time_clip st))
  = Min_Delta_Time (ts_solver st) /\
  Max_Delta_Time (ts_solver (SetTime_Step_dual_time_clip st))
  = Max_Delta_Time (ts_solver st) /\
  Global_Delta_Time (SetTime_Step_dual_time_clip st) = Global_Delta_Time st.
Proof.
  unfold SetTime_Step_dual_time_clip.
  destruct (dual_time_marching _); repeat split.
Qed.

Lemma SetTime_Step_unsteady_step_Global (iMesh Iteration : nat)
    (st : TimeStep_state CSysMatrix) :
  Global_Delta_Time (SetTime_Step_unsteady_step iMesh Iteration st)
  = Global_Delta_Time st.
Proof. unfold SetTime_Step_unsteady_step. destruct (_ && _); reflexivity. Qed.

(** Outside time-accurate stepping the solver and the global step leave
    [SetTime_Step] as the loop of lines 780-799 left them, up to the points. *)
Lemma SetTime_Step_extrema_local (iMesh Iteration : nat) :
  Time_Marching config <> TIME_STEPPING ->
  let local := SetTime_Step_local geometry config
                 (SetTime_Step_accumulate geometry s config) in
  let final := SetTime_Step geometry s config iMesh Iteration in
  Min_Delta_Time (ts_solver final) = Min_Delta_Time (ts_solver local) /\
  Max_Delta_Time (ts_solver final) = Max_Delta_Time (ts_solver local) /\
  Global_Delta_Time final = Global_Delta_Time local.
Proof.
  intros Hmarch local final. subst final. unfold SetTime_Step. cbv zeta.
  fold local.
  rewrite (SetTime_Step_time_stepping_skip local)
    by (subst local; rewrite SetTime_Step_local_accumulate_config; exact Hmarch).
  destruct (SetTime_Step_dual_time_clip_extrema
              (SetTime_Step_unsteady_step iMesh Iteration local)) as (-> & -> & ->).
  rewrite SetTime_Step_unsteady_step_Global.
  rewrite (proj1 (SetTime_Step_unsteady_step_solver iMesh Iteration local)).
  repeat split.
Qed.

(** X11.  Outside time-accurate stepping, the smallest and the largest time
    step that [SetTime_Step] leaves in the solver bracket the local step of
    every owned point of non-zero volume as it is before the clipping to the
    configured maximum; the smallest is at most 1e30 and the largest at least
    0, the values they are reset to. *)
Theorem SetTime_Step_smallest_largest_step (iMesh Iteration : nat) :
  Time_Marching config <> TIME_STEPPING ->
  let nd := nodes (ts_solver (SetTime_Step_accumulate geometry s config)) in
  let s' := ts_solver (SetTime_Step geometry s config iMesh Iteration) in
  Min_Delta_Time s' <= 1e30 /\ 0 <= Max_Delta_Time s' /\
  forall iPoint, (iPoint < nPointDomain s)%nat ->
    GetVolume geometry iPoint <> 0 ->
    Min_Delta_Time s'
    <= Unclipped_Delta_Time (GetVolume geometry iPoint) (nd !!! iPoint)
    <= Max_Delta_Time s'.
Proof.
  intros Hmarch nd s'.
  destruct (SetTime_Step_extrema_local iMesh Iteration Hmarch) as (Hmin & Hmax & _).
  cbv zeta in Hmin, Hmax. subst s'. rewrite Hmin, Hmax.
  destruct (SetTime_Step_local_extrema geometry config
              (SetTime_Step_accumulate geometry s config))
    as (_ & Hmin0 & Hmax0 & Hall).
  split; [exact Hmin0|]. split; [exact Hmax0|].
  intros iPoint Hdom Hvol. destruct (Hall iPoint Hdom Hvol) as (_ & H1 & H2).
  split; assumption.
Qed.

(** X12.  Outside time-accurate stepping, the time step that [SetTime_Step]
    leaves at an owned point does not exceed the configured maximum
    [Max_DeltaTime], provided the point has a non-zero volume or the maximum
    is not negative (a point of zero volume gets the step 0). *)
Theorem SetTime_Step_at_most_Max_DeltaTime (iMesh Iteration iPoint : nat) :
  Time_Marching config <> TIME_STEPPING ->
  (iPoint < nPointDomain s)%nat ->
  (iPoint < length (nodes s))%nat ->
  GetVolume geometry iPoint <> 0 \/ 0 <= Max_DeltaTime config ->
  GetDelta_Time (nodes (ts_solver (SetTime_Step geometry s config iMesh Iteration)))
    iPoint
  <= Max_DeltaTime config.
Proof.
  intros Hmarch Hdom Hlen Hmax.
  set (local := SetTime_Step_local geometry config
                  (SetTime_Step_accumulate geometry s config)).
  assert (Hlocal : GetDelta_Time (nodes (ts_solver local)) iPoint
                   <= Max_DeltaTime config).
  { subst local. rewrite SetTime_Step_local_Delta_Time.
    - destruct (decide (GetVolume geometry iPoint <> 0)) as [Hv|Hv].
      + rewrite Local_Delta_Time_value_min. apply Rmin_r.
      + destruct Hmax as [Hc|Hc]; [contradiction|exact Hc].
    - exact Hdom.
    - rewrite SetTime_Step_accumulate_length. exact Hlen. }
  unfold SetTime_Step. cbv zeta. fold local.
  rewrite (SetTime_Step_time_stepping_skip local)
    by (subst local; rewrite SetTime_Step_local_accumulate_config; exact Hmarch).
  destruct (SetTime_Step_unsteady_step_solver iMesh Iteration local)
    as (Hs & _ & Hd & Hi).
  set (st3 := SetTime_Step_unsteady_step iMesh Iteration local) in *.
  destruct (dual_time_marching (ts_config st3)) eqn:Hdual,
           (implicit_scheme (ts_config st3)) eqn:Himp.
  - rewrite SetTime_Step_dual_time_clip_skip by (intros _; exact Himp).
    rewrite Hs. exact Hlocal.
  - rewrite SetTime_Step_dual_time_clip_explicit.
    + eapply Rle_trans; [apply Rmin_r|]. rewrite Hs. exact Hlocal.
    + exact Hdual.
    + exact Himp.
    + rewrite Hs. subst local. rewrite SetTime_Step_local_nPointDomain. exact Hdom.
    + rewrite Hs. subst local.
      rewrite SetTime_Step_local_length, SetTime_Step_accumulate_length. exact Hlen.
  - rewrite SetTime_Step_dual_time_clip_skip by (intros _; exact Himp).
    rewrite Hs. exact Hlocal.
  - rewrite SetTime_Step_dual_time_clip_skip
      by (rewrite Hdual; intros Hc; discriminate Hc).
    rewrite Hs. exact Hlocal.
Qed.

(** In time-accurate stepping, lines 848-872 do nothing. *)
Lemma SetTime_Step_time_accurate (iMesh Iteration : nat) :
  Time_Marching config = TIME_STEPPING ->
  SetTime_Step geometry s config iMesh Iteration
  = SetTime_Step_time_stepping
      (SetTime_Step_local geometry config (SetTime_Step_accumulate geometry s config)).
Proof.
  intros Hmarch. unfold SetTime_Step. cbv zeta.
  set (st2 := SetTime_Step_time_stepping _).
  assert (Hdual : dual_time_marching (ts_config st2) = false).
  { subst st2. unfold SetTime_Step_time_stepping.
    rewrite SetTime_Step_local_accumulate_config.
    rewrite bool_decide_eq_true_2 by exact Hmarch.
    unfold dual_time_marching. cbn. rewrite Hmarch. reflexivity. }
  unfold SetTime_Step_dual_time_clip, SetTime_Step_unsteady_step.
  rewrite Hdual. cbn. rewrite Hdual. reflexivity.
Qed.

(** X13.  In time-accurate stepping ([TIME_STEPPING]) every owned point leaves
    [SetTime_Step] with the same time step, the one stored in the
    configuration as physical time step, and with the unsteady CFL number as
    local CFL number; nothing else of the configuration changes.  With an
    unsteady CFL number of 0 the step is the configured [Delta_UnstTime];
    otherwise it is at most 1e6 and at most the unclipped local step of every
    owned point of non-zero volume.  When there is an owned point, the
    smallest and the largest time step of the solver are this step as well. *)
Theorem SetTime_Step_time_accurate_global_step (iMesh Iteration : nat) :
  Time_Marching config = TIME_STEPPING ->
  let nd := nodes (ts_solver (SetTime_Step_accumulate geometry s config)) in
  let final := SetTime_Step geometry s config iMesh Iteration in
  let dt := Delta_UnstTimeND (ts_config final) in
  ts_config final = SetDelta_UnstTimeND dt config /\
  (Unst_CFL config = 0 -> dt = Delta_UnstTime config) /\
  (Unst_CFL config <> 0 ->
   dt <= 1e6 /\
   forall iPoint, (iPoint < nPointDomain s)%nat ->
     GetVolume geometry iPoint <> 0 ->
     dt <= Unclipped_Delta_Time (GetVolume geometry iPoint) (nd !!! iPoint)) /\
  (forall iPoint, (iPoint < nPointDomain s)%nat -> (iPoint < length (nodes s))%nat ->
     GetDelta_Time (nodes (ts_solver final)) iPoint = dt /\
     GetLocalCFL (nodes (ts_solver final)) iPoint = Unst_CFL config) /\
  ((0 < nPointDomain s)%nat ->
   Min_Delta_Time (ts_solver final) = dt /\ Max_Delta_Time (ts_solver final) = dt).
Proof.
  intros Hmarch nd final dt. subst dt final.
  rewrite SetTime_Step_time_accurate by exact Hmarch.
  set (local := SetTime_Step_local geometry config
                  (SetTime_Step_accumulate geometry s config)).
  assert (Hcfg : ts_config local = config)
    by apply SetTime_Step_local_accumulate_config.
  assert (Hn : nPointDomain (ts_solver local) = nPointDomain s)
    by apply SetTime_Step_local_nPointDomain.
  assert (Hlen : length (nodes (ts_solver local)) = length (nodes s)).
  { subst local. rewrite SetTime_Step_local_length.
    apply SetTime_Step_accumulate_length. }
  destruct (SetTime_Step_local_extrema geometry config
              (SetTime_Step_accumulate geometry s config))
    as (HG & _ & _ & Hall).
  fold local in HG, Hall.
  unfold SetTime_Step_time_stepping.
  rewrite Hcfg, bool_decide_eq_true_2 by exact Hmarch.
  cbn [ts_config ts_solver Delta_UnstTimeND SetDelta_UnstTimeND Unst_CFL].
  set (G := if decide (Unst_CFL config = 0) then Delta_UnstTime config
            else Global_Delta_Time local).
  split; [reflexivity|].
  split.
  { intros H0. subst G. rewrite decide_True by exact H0. reflexivity. }
  split.
  { intros H0. subst G. rewrite decide_False by exact H0.
    split; [exact HG|].
    intros iPoint Hdom Hvol. apply (Hall iPoint Hdom Hvol). }
  split.
  - intros iPoint Hdom Hlen'.
    rewrite (for_loop_project nodes _ _
               (fun iPoint nd =>
                  alter (fun p => set_Delta_Time G (set_LocalCFL (Unst_CFL config) p))
                        iPoint nd)).
    + unfold GetDelta_Time, GetLocalCFL.
      rewrite for_loop_pointwise_total by lia. split; reflexivity.
    + intros i s'. cbn. unfold SetDelta_Time, SetLocalCFL.
      apply list_alter_alter_eq.
  - intros Hpos. rewrite Hn.
    destruct (nPointDomain s) as [|n]; [lia|]. rewrite for_loop_S.
    split; reflexivity.
Qed.

(** X14.  [SetTime_Step] writes at most one entry of the configuration, the
    non-dimensional physical time step, and only in time-accurate stepping or
    on the first iteration of a dual-time run on the finest mesh with a
    non-zero unsteady CFL number; in every other case the configuration is
    returned as it was. *)
Theorem SetTime_Step_configuration (iMesh Iteration : nat) :
  let final := SetTime_Step geometry s config iMesh Iteration in
  ts_config final = SetDelta_UnstTimeND (Delta_UnstTimeND (ts_config final)) config /\
  (Time_Marching config <> TIME_STEPPING ->
   (dual_time_marching config = true ->
    Iteration <> 0%nat \/ Unst_CFL config = 0 \/ iMesh <> MESH_0) ->
   ts_config final = config).
Proof.
  intros final. subst final. unfold SetTime_Step. cbv zeta.
  rewrite SetTime_Step_dual_time_clip_config.
  set (local := SetTime_Step_local geometry config
                  (SetTime_Step_accumulate geometry s config)).
  assert (Hcfg : ts_config local = config)
    by apply SetTime_Step_local_accumulate_config.
  assert (Heta : forall c, SetDelta_UnstTimeND (Delta_UnstTimeND c) c = c).
  { intros c. destruct c. reflexivity. }
  assert (Hset : forall v w c,
             SetDelta_UnstTimeND v (SetDelta_UnstTimeND w c) = SetDelta_UnstTimeND v c).
  { intros v w c. reflexivity. }
  split.
  - unfold SetTime_Step_unsteady_step, SetTime_Step_time_stepping.
    rewrite Hcfg.
    destruct (bool_decide (Time_Marching config = TIME_STEPPING));
      cbn [ts_config];
      destruct (_ && _); cbn [ts_config Delta_UnstTimeND SetDelta_UnstTimeND];
      rewrite ?Hcfg; try reflexivity; symmetry; apply Heta.
  - intros Hmarch Hdual.
    rewrite (SetTime_Step_time_stepping_skip local) by (rewrite Hcfg; exact Hmarch).
    unfold SetTime_Step_unsteady_step. rewrite Hcfg.
    destruct (dual_time_marching config) eqn:Hd; [|exact Hcfg].
    destruct (Hdual eq_refl) as [H|[H|H]].
    + rewrite (bool_decide_eq_false_2 _ H). cbn. exact Hcfg.
    + rewrite (bool_decide_eq_false_2 (Unst_CFL config <> 0)) by (intros Hc; exact (Hc H)).
      rewrite andb_false_r. cbn. exact Hcfg.
    + rewrite (bool_decide_eq_false_2 _ H), andb_false_r. exact Hcfg.
Qed.

End SetTime_Step_modes.

(** The example mesh in a steady run: the largest step is not negative. *)
Lemma SetTime_Step_smallest_largest_step_witness :
  0 <= Max_Delta_Time
         (ts_solver (SetTime_Step (example_geometry 1)
                       (example_solver 1 example_steady_config)
                       example_steady_config 0 0)).
Proof.
  assert (Hmarch : Time_Marching example_steady_config <> TIME_STEPPING)
    by discriminate.
  exact (proj1 (proj2 (SetTime_Step_smallest_largest_step (example_geometry 1)
                         (example_solver 1 example_steady_config)
                         example_steady_config 0 0 Hmarch))).
Defined.

(** The wall point of the example mesh in a steady run; the configured
    maximum is 1. *)
Lemma SetTime_Step_at_most_Max_DeltaTime_witness :
  GetDelta_Time
    (nodes (ts_solver (SetTime_Step (example_geometry 1)
                         (example_solver 1 example_steady_config)
                         example_steady_config 0 0))) 0
  <= Max_DeltaTime example_steady_config.
Proof.
  assert (Hmarch : Time_Marching example_steady_config <> TIME_STEPPING)
    by discriminate.
  assert (Hdom : (0 < nPointDomain (example_solver 1 example_steady_config))%nat)
    by (cbn; lia).
  assert (Hlen : (0 < length (nodes (example_solver 1 example_steady_config)))%nat)
    by (cbn; lia).
  assert (Hvol : GetVolume (example_geometry 1) 0 <> 0 \/
                 0 <= Max_DeltaTime example_steady_config)
    by (left; cbn; lra).
  exact (SetTime_Step_at_most_Max_DeltaTime (example_geometry 1)
           (example_solver 1 example_steady_config) example_steady_config
           0 0 0 Hmarch Hdom Hlen Hvol).
Defined.

(** The example mesh in a time-accurate run with a prescribed step. *)
Lemma SetTime_Step_time_accurate_global_step_witness :
  let final := SetTime_Step (example_geometry 1)
                 (example_solver 1 example_time_accurate_config)
                 example_time_accurate_config 0 0 in
  Delta_UnstTimeND (ts_config final) = Delta_UnstTime example_time_accurate_config.
Proof.
  assert (Hmarch : Time_Marching example_time_accurate_config = TIME_STEPPING)
    by reflexivity.
  assert (Hcfl : Unst_CFL example_time_accurate_config = 0) by reflexivity.
  exact (proj1 (proj2 (SetTime_Step_time_accurate_global_step (example_geometry 1)
                         (example_solver 1 example_time_accurate_config)
                         example_time_accurate_config 0 0 Hmarch)) Hcfl).
Defined.

(** A steady run returns the configuration it was given. *)
Lemma SetTime_Step_configuration_witness :
  ts_config (SetTime_Step (example_geometry 1)
               (example_solver 1 example_steady_config) example_steady_config 0 0)
  = example_steady_config.
Proof.
  assert (Hmarch : Time_Marching example_steady_config <> TIME_STEPPING)
    by discriminate.
  assert (Hdual : dual_time_marching example_steady_config = true ->
                  0%nat <> 0%nat \/ Unst_CFL example_steady_config = 0 \/
                  0%nat <> MESH_0)
    by (intros Hc; discriminate Hc).
  exact (proj2 (SetTime_Step_configuration (example_geometry 1)
                  (example_solver 1 example_steady_config)
                  example_steady_config 0 0) Hmarch Hdual).
Defined.

(** ** Wall boundary conditions: what the routines keep *)

Lemma same_primitive_state_refl (p : CIncNSVariable) : same_primitive_state p p.
Proof. repeat split. Qed.

Lemma same_primitive_state_trans (p q r : CIncNSVariable) :
  same_primitive_state p q -> same_primitive_state q r -> same_primitive_state p r.
Proof.
  unfold same_primitive_state.
  intros (?&?&?&?&?&?&?&?&?&?&?&?&?&?&?&?&?) (?&?&?&?&?&?&?&?&?&?&?&?&?&?&?&?&?).
  repeat split; congruence.
Qed.

(** A relation between two lists that the writer of one element respects. *)
Lemma Forall2_alter_rel {A} (R : A -> A -> Prop) (f : A -> A) (i : nat)
    (l0 l : list A) :
  (forall x y, R x y -> R x (f y)) ->
  Forall2 R l0 l -> Forall2 R l0 (alter f i l).
Proof.
  intros Hf Hl. apply Forall2_alter_r; [exact Hl|].
  intros x y _ _ Hxy. apply Hf, Hxy.
Qed.

Lemma Forall2_refl_on {A} (R : A -> A -> Prop) (l : list A) :
  (forall x, R x x) -> Forall2 R l l.
Proof. intros HR. apply Forall_Forall2_diag, Forall_forall. intros x _. apply HR. Qed.

Lemma Forall2_lookup_total_rel `{!Inhabited A} (R : A -> A -> Prop)
    (l l' : list A) (k : nat) :
  R inhabitant inhabitant -> Forall2 R l l' -> R (l !!! k) (l' !!! k).
Proof.
  intros Hd Hl. rewrite !list_lookup_total_alt.
  destruct (l !! k) as [x|] eqn:Hx.
  - destruct (Forall2_lookup_l _ _ _ _ _ Hl Hx) as (y & -> & Hxy). exact Hxy.
  - apply lookup_ge_None in Hx. rewrite (Forall2_length _ _ _ Hl) in Hx.
    apply lookup_ge_None in Hx. rewrite Hx. exact Hd.
Qed.

Section Wall_frame.
Context {CSysMatrix : Type}.

Local Abbreviation solver := (CIncNSSolver CSysMatrix).

(** The members that the wall routines leave alone, one by one. *)
Lemma same_solver_but_wall_data_fields (s s' : solver) :
  same_solver_but_wall_data s s' <->
  nDim s' = nDim s /\ nVar s' = nVar s /\ nMarker s' = nMarker s /\
  nPoint s' = nPoint s /\ nPointDomain s' = nPointDomain s /\
  nVertex s' = nVertex s /\ dynamic_grid s' = dynamic_grid s /\
  HeatConjugateVar s' = HeatConjugateVar s /\
  Min_Delta_Time s' = Min_Delta_Time s /\ Max_Delta_Time s' = Max_Delta_Time s.
Proof.
  unfold same_solver_but_wall_data. split.
  - intros H. repeat split.
    + apply (f_equal nDim) in H. exact H.
    + apply (f_equal nVar) in H. exact H.
    + apply (f_equal nMarker) in H. exact H.
    + apply (f_equal nPoint) in H. exact H.
    + apply (f_equal nPointDomain) in H. exact H.
    + apply (f_equal nVertex) in H. exact H.
    + apply (f_equal dynamic_grid) in H. exact H.
    + apply (f_equal HeatConjugateVar) in H. exact H.
    + apply (f_equal Min_Delta_Time) in H. exact H.
    + apply (f_equal Max_Delta_Time) in H. exact H.
  - destruct s, s'. cbn. intros (?&?&?&?&?&?&?&?&?&?). subst. reflexivity.
Qed.

Lemma same_solver_but_wall_data_mesh (s s' : solver) :
  same_solver_but_wall_data s s' -> same_mesh_state s s'.
Proof.
  intros H. apply same_solver_but_wall_data_fields in H.
  destruct H as (?&?&?&?&?&?&?&?&?&?). repeat split; assumption.
Qed.

Lemma same_solver_but_wall_data_refl (s : solver) : same_solver_but_wall_data s s.
Proof. apply same_solver_but_wall_data_fields. repeat split. Qed.

Lemma same_solver_but_wall_data_trans (s1 s2 s3 : solver) :
  same_solver_but_wall_data s1 s2 -> same_solver_but_wall_data s2 s3 ->
  same_solver_but_wall_data s1 s3.
Proof.
  rewrite !same_solver_but_wall_data_fields.
  intros (?&?&?&?&?&?&?&?&?&?) (?&?&?&?&?&?&?&?&?&?). repeat split; congruence.
Qed.

Variable config : CConfig.

Lemma wall_frame_refl (touched : nat -> Prop) (s : solver) :
  wall_frame config touched s s.
Proof.
  split; [apply same_solver_but_wall_data_refl|].
  split; [reflexivity|]. split; [reflexivity|]. split; [reflexivity|].
  split; [apply Forall2_refl_on, same_primitive_state_refl|].
  split; [apply Forall2_refl_on; intros b; split; reflexivity|].
  intros k _. split; reflexivity.
Qed.

Lemma wall_frame_trans (T1 T2 T : nat -> Prop) (s1 s2 s3 : solver) :
  (forall k, T1 k -> T k) -> (forall k, T2 k -> T k) ->
  wall_frame config T1 s1 s2 -> wall_frame config T2 s2 s3 ->
  wall_frame config T s1 s3.
Proof.
  intros HT1 HT2 (Hs & Hv & Hr & Hj & Hn & Hl & Hk) (Hs' & Hv' & Hr' & Hj' & Hn' & Hl' & Hk').
  split; [exact (same_solver_but_wall_data_trans _ _ _ Hs Hs')|].
  split; [congruence|]. split; [congruence|].
  split; [intros He; rewrite (Hj' He); exact (Hj He)|].
  split.
  { eapply Forall2_trans; [|exact Hn|exact Hn'].
    intros p q r. apply same_primitive_state_trans. }
  split.
  { eapply Forall2_trans; [|exact Hl|exact Hl'].
    intros b1 b2 b3 [H1 H2] [H3 H4]. split; congruence. }
  intros k Hnk.
  destruct (Hk k) as [Ha Hb]; [intros Hc; exact (Hnk (HT1 k Hc))|].
  destruct (Hk' k) as [Ha' Hb']; [intros Hc; exact (Hnk (HT2 k Hc))|].
  split; congruence.
Qed.

Lemma wall_frame_weaken (T T' : nat -> Prop) (s s' : solver) :
  (forall k, T k -> T' k) -> wall_frame config T s s' -> wall_frame config T' s s'.
Proof.
  intros HT H. apply (wall_frame_trans T T T' s s s'); [exact HT|exact HT| |exact H].
  apply wall_frame_refl.
Qed.

End Wall_frame.

(** ** Wall boundary conditions: the strong velocity condition *)

(** A loop that rewrites the same element in every iteration rewrites it
    once, with the iterations composed. *)
Lemma for_loop_alter_same {A} (f : nat -> A -> A) (n k : nat) (l : list A) :
  for_loop n (fun i l => alter (f i) k l) l = alter (fun x => for_loop n f x) k l.
Proof.
  induction n as [|n IH].
  - rewrite for_loop_0. symmetry. apply list_alter_id. reflexivity.
  - rewrite for_loop_S, IH, list_alter_alter_eq.
    apply list_alter_ext; [|reflexivity]. intros x _.
    rewrite for_loop_S. reflexivity.
Qed.

(** [for (i = 0; i < n; i++) a[i+shift] = w(i)] *)
Lemma length_for_loop_insert {A} (w : nat -> A) (shift n : nat) (a : list A) :
  length (for_loop n (fun i a => <[(i + shift)%nat := w i]> a) a) = length a.
Proof.
  apply (for_loop_invariant (fun a' => length a' = length a)); [reflexivity|].
  intros i a' _ Ha'. rewrite length_insert. exact Ha'.
Qed.

Lemma for_loop_insert_lookup `{!Inhabited A} (w : nat -> A) (shift n : nat)
    (a : list A) (j : nat) :
  for_loop n (fun i a => <[(i + shift)%nat := w i]> a) a !!! j
  = if decide ((shift <= j < n + shift)%nat /\ (j < length a)%nat)
    then w (j - shift)%nat else a !!! j.
Proof.
  induction n as [|n IH].
  - rewrite for_loop_0. case_decide; [lia|reflexivity].
  - rewrite for_loop_S, list_lookup_total_insert, length_for_loop_insert, IH.
    repeat case_decide; try lia; try reflexivity.
    replace (j - shift)%nat with n by lia. reflexivity.
Qed.

Lemma for_loop_insert_0 {A} (w : nat -> A) (n : nat) (a : list A) :
  for_loop n (fun i a => <[i := w i]> a) a
  = for_loop n (fun i a => <[(i + 0)%nat := w i]> a) a.
Proof. apply for_loop_ext. intros i a' _. rewrite Nat.add_0_r. reflexivity. Qed.

Lemma SetVelocity_Old_alter (nDim iPoint : nat) (val_vel : list su2double)
    (nd : CVariable) :
  SetVelocity_Old nDim iPoint val_vel nd
  = alter (fun p => set_Solution_Old
             (for_loop nDim
                (fun iDim a => <[(iDim + 1)%nat := val_vel !!! iDim]> a)
                (Solution_Old p)) p)
          iPoint nd.
Proof.
  unfold SetVelocity_Old, SetSolution_Old.
  etransitivity.
  { apply (for_loop_alter_same
             (fun iDim p => set_Solution_Old
                (<[(iDim + 1)%nat := val_vel !!! iDim]> (Solution_Old p)) p)). }
  apply list_alter_ext; [|reflexivity]. intros p _.
  induction nDim as [|n IH]; [destruct p; reflexivity|].
  rewrite !for_loop_S, IH. reflexivity.
Qed.

Lemma SetBlock_Zero_velocity_alter (nDim iPoint : nat) (v : CSysVector) :
  for_loop nDim (fun iDim v => SetBlock_Zero_var iPoint (iDim + 1) v) v
  = alter (fun b => for_loop nDim (fun iDim b => <[(iDim + 1)%nat := 0]> b) b)
          iPoint v.
Proof.
  unfold SetBlock_Zero_var.
  apply (for_loop_alter_same (fun iDim b => <[(iDim + 1)%nat := 0]> b)).
Qed.

Section Wall_velocity.
Context {CSysMatrix : Type} `{!CSysMatrix_interface CSysMatrix}.
Variables (geometry : CGeometry) (config : CConfig).

Local Abbreviation solver := (CIncNSSolver CSysMatrix).

(** A step that leaves the points and the residual vector alone. *)
Lemma wall_frame_scratch (touched : nat -> Prop) (s s' : solver) :
  same_solver_but_wall_data s s' ->
  length (Vector s') = length (Vector s) ->
  length (Res_Visc s') = length (Res_Visc s) ->
  (implicit_scheme config = false -> Jacobian s' = Jacobian s) ->
  nodes s' = nodes s -> LinSysRes s' = LinSysRes s ->
  wall_frame config touched s s'.
Proof.
  intros Hs Hv Hr Hj Hn Hl.
  split; [exact Hs|]. split; [exact Hv|]. split; [exact Hr|]. split; [exact Hj|].
  rewrite Hn, Hl.
  split; [apply Forall2_refl_on, same_primitive_state_refl|].
  split; [apply Forall2_refl_on; intros b; split; reflexivity|].
  intros k _. split; reflexivity.
Qed.

(** A step that rewrites the point [iPoint] and its residual block. *)
Lemma wall_frame_point (iPoint : nat) (s s' : solver)
    (F : CIncNSVariable -> CIncNSVariable)
    (G : list su2double -> list su2double) :
  same_solver_but_wall_data s s' ->
  length (Vector s') = length (Vector s) ->
  length (Res_Visc s') = length (Res_Visc s) ->
  (implicit_scheme config = false -> Jacobian s' = Jacobian s) ->
  nodes s' = alter F iPoint (nodes s) ->
  (forall p, same_primitive_state p (F p)) ->
  LinSysRes s' = alter G iPoint (LinSysRes s) ->
  (forall b, length (G b) = length b /\ G b !!! 0%nat = b !!! 0%nat) ->
  wall_frame config (eq iPoint) s s'.
Proof.
  intros Hs Hv Hr Hj Hn HF Hl HG.
  split; [exact Hs|]. split; [exact Hv|]. split; [exact Hr|]. split; [exact Hj|].
  rewrite Hn, Hl. split.
  { apply Forall2_alter_rel; [|apply Forall2_refl_on, same_primitive_state_refl].
    intros x y Hxy. apply (same_primitive_state_trans x y); [exact Hxy|apply HF]. }
  split.
  { apply Forall2_alter_rel; [|apply Forall2_refl_on; intros b; split; reflexivity].
    intros x y [H1 H2]. destruct (HG y) as [H3 H4]. split; congruence. }
  intros k Hk. rewrite !list_lookup_alter_ne by exact Hk. split; reflexivity.
Qed.

Lemma BC_wall_zero_scratch_summary (s : solver) :
  let s' := BC_wall_zero_scratch config s in
  same_solver_but_wall_data s s' /\ Vector s' = Vector s /\
  Jacobian s' = Jacobian s /\ nodes s' = nodes s /\ LinSysRes s' = LinSysRes s /\
  Res_Visc s' = array_fill (nVar s) 0 (Res_Visc s).
Proof.
  cbv zeta. split; [|split; [|split; [|split; [|split]]]].
  - unfold BC_wall_zero_scratch.
    apply (for_loop_invariant (same_solver_but_wall_data s));
      [apply same_solver_but_wall_data_refl|].
    intros i s' _ Hs'. apply same_solver_but_wall_data_fields in Hs'.
    apply same_solver_but_wall_data_fields.
    destruct (implicit_scheme config); exact Hs'.
  - apply BC_wall_zero_scratch_frame.
  - unfold BC_wall_zero_scratch.
    apply (for_loop_invariant (fun s' => Jacobian s' = Jacobian s)); [reflexivity|].
    intros i s' _ Hs'. destruct (implicit_scheme config); exact Hs'.
  - apply BC_wall_zero_scratch_frame.
  - apply BC_wall_zero_scratch_frame.
  - apply BC_wall_zero_scratch_Res_Visc.
Qed.

(** Lines 986-1001 in closed form. *)
Lemma BC_wall_velocity_summary (iPoint : nat) (s : solver) :
  let s' := BC_wall_velocity geometry iPoint s in
  same_solver_but_wall_data s s' /\
  length (Vector s') = length (Vector s) /\
  Res_Visc s' = Res_Visc s /\ Jacobian s' = Jacobian s /\
  (forall iDim, (iDim < nDim s)%nat -> (iDim < length (Vector s))%nat ->
     Vector s' !!! iDim = wall_velocity geometry (dynamic_grid s) iPoint iDim) /\
  nodes s'
  = SetVel_ResTruncError_Zero (nDim s) iPoint
      (SetVelocity_Old (nDim s) iPoint (Vector s') (nodes s)) /\
  LinSysRes s'
  = for_loop (nDim s) (fun iDim v => SetBlock_Zero_var iPoint (iDim + 1) v)
      (LinSysRes s).
Proof.
  cbv zeta. unfold BC_wall_velocity.
  set (s1 := if dynamic_grid s then _ else _).
  assert (H1 : same_solver_but_wall_data s s1 /\
               length (Vector s1) = length (Vector s) /\
               Res_Visc s1 = Res_Visc s /\ Jacobian s1 = Jacobian s /\
               (forall iDim, (iDim < nDim s)%nat -> (iDim < length (Vector s))%nat ->
                  Vector s1 !!! iDim
                  = wall_velocity geometry (dynamic_grid s) iPoint iDim) /\
               nodes s1 = nodes s /\ LinSysRes s1 = LinSysRes s).
  { subst s1. unfold wall_velocity. destruct (dynamic_grid s).
    - split; [apply same_solver_but_wall_data_fields; repeat split|].
      cbn [set_Vector Vector Res_Visc Jacobian nodes LinSysRes].
      rewrite (for_loop_insert_0 (fun iDim => GetGridVel geometry iPoint !!! iDim)).
      split; [apply length_for_loop_insert|]. repeat split.
      intros iDim Hd Hl. rewrite for_loop_insert_lookup.
      rewrite decide_True by lia. rewrite Nat.sub_0_r. reflexivity.
    - split; [apply same_solver_but_wall_data_fields; repeat split|].
      cbn [set_Vector Vector Res_Visc Jacobian nodes LinSysRes].
      split; [apply length_array_fill|]. repeat split.
      intros iDim Hd Hl. apply list_lookup_total_correct.
      rewrite array_fill_lookup. rewrite decide_True by exact Hd.
      destruct (lookup_lt_is_Some_2 (Vector s) iDim Hl) as [x ->]. reflexivity. }
  clearbody s1. destruct H1 as (Hs1 & Hv1 & Hr1 & Hj1 & Hw1 & Hn1 & Hl1).
  pose proof (proj1 (same_solver_but_wall_data_fields s s1) Hs1) as Hf1.
  destruct Hf1 as (Hd1 & _).
  set (s2 := set_nodes (SetVelocity_Old (nDim s1) iPoint (Vector s1) (nodes s1)) s1).
  set (s3 := for_loop (nDim s2) _ s2).
  assert (H3 : same_solver_but_wall_data s2 s3 /\ Vector s3 = Vector s2 /\
               Res_Visc s3 = Res_Visc s2 /\ Jacobian s3 = Jacobian s2 /\
               nodes s3 = nodes s2 /\
               LinSysRes s3
               = for_loop (nDim s2)
                   (fun iDim v => SetBlock_Zero_var iPoint (iDim + 1) v)
                   (LinSysRes s2)).
  { subst s3. split; [|split; [|split; [|split; [|split]]]].
    - apply (for_loop_invariant (same_solver_but_wall_data s2));
        [apply same_solver_but_wall_data_refl|].
      intros i s' _ Hs'. apply same_solver_but_wall_data_fields in Hs'.
      apply same_solver_but_wall_data_fields. exact Hs'.
    - apply (for_loop_invariant (fun s' => Vector s' = Vector s2)); [reflexivity|].
      intros i s' _ Hs'. exact Hs'.
    - apply (for_loop_invariant (fun s' => Res_Visc s' = Res_Visc s2)); [reflexivity|].
      intros i s' _ Hs'. exact Hs'.
    - apply (for_loop_invariant (fun s' => Jacobian s' = Jacobian s2)); [reflexivity|].
      intros i s' _ Hs'. exact Hs'.
    - apply (for_loop_invariant (fun s' => nodes s' = nodes s2)); [reflexivity|].
      intros i s' _ Hs'. exact Hs'.
    - apply (for_loop_project LinSysRes). intros i s'. reflexivity. }
  clearbody s3. destruct H3 as (Hs3 & Hv3 & Hr3 & Hj3 & Hn3 & Hl3).
  pose proof (proj1 (same_solver_but_wall_data_fields s2 s3) Hs3) as Hf3.
  destruct Hf3 as (Hd3 & _).
  assert (Hs2 : same_solver_but_wall_data s1 s2).
  { subst s2. apply same_solver_but_wall_data_fields. repeat split. }
  subst s2.
  cbn [set_nodes nDim Vector Res_Visc Jacobian nodes LinSysRes] in *.
  split.
  { apply (same_solver_but_wall_data_trans s s1); [exact Hs1|].
    apply (same_solver_but_wall_data_trans s1 _ _ Hs2).
    apply (same_solver_but_wall_data_trans _ s3); [exact Hs3|].
    apply same_solver_but_wall_data_fields. repeat split. }
  split; [congruence|]. split; [congruence|]. split; [congruence|].
  split; [intros iDim Hd Hl; rewrite Hv3; apply Hw1; assumption|].
  split.
  - rewrite Hn3, Hd3, Hd1, Hv3, Hn1. reflexivity.
  - rewrite Hl3, Hd1, Hl1. reflexivity.
Qed.

Lemma BC_wall_delete_velocity_rows_summary (iPoint : nat) (s : solver) :
  let s' := BC_wall_delete_velocity_rows iPoint s in
  same_solver_but_wall_data s s' /\ Vector s' = Vector s /\
  Res_Visc s' = Res_Visc s /\ nodes s' = nodes s /\ LinSysRes s' = LinSysRes s.
Proof.
  cbv zeta. unfold BC_wall_delete_velocity_rows.
  generalize (seq 1 (nDim s)). intros l. revert s.
  induction l as [|iVar l IH]; intros s; cbn [foldl].
  - split; [apply same_solver_but_wall_data_refl|]. repeat split.
  - destruct (IH (set_Jacobian
                    (DeleteValsRowi (iPoint * nVar s + iVar) (Jacobian s)) s))
      as (Hs & Hv & Hr & Hn & Hl).
    split; [|repeat split; assumption].
    apply same_solver_but_wall_data_fields in Hs.
    apply same_solver_but_wall_data_fields. exact Hs.
Qed.

End Wall_velocity.

(** Reading past the end of an array gives the default element. *)
Lemma list_lookup_total_ge_default `{!Inhabited A} (l : list A) (j : nat) :
  (length l <= j)%nat -> l !!! j = inhabitant.
Proof.
  intros Hj. rewrite list_lookup_total_alt.
  rewrite (proj2 (lookup_ge_None l j) Hj). reflexivity.
Qed.

(** [for iDim: b[iDim+1] = 0.0] leaves zeros in the momentum entries. *)
Lemma zero_velocity_entries (n : nat) (b : list su2double) (iDim : nat) :
  (iDim < n)%nat ->
  for_loop n (fun iDim b => <[(iDim + 1)%nat := 0]> b) b !!! (iDim + 1)%nat = 0.
Proof.
  intros Hi. rewrite (for_loop_insert_lookup (fun _ => 0) 1 n b).
  case_decide as Hc; [reflexivity|].
  rewrite list_lookup_total_ge_default by lia. reflexivity.
Qed.

Lemma array_fill_zero_lookup (n : nat) (a : list su2double) (j : nat) :
  (j < n)%nat -> array_fill n 0 a !!! j = 0.
Proof.
  intros Hj. rewrite list_lookup_total_alt, array_fill_lookup.
  rewrite decide_True by exact Hj. destruct (a !! j); reflexivity.
Qed.

(** Two states with the same point and the same residual block at [iPoint]
    satisfy the no-slip condition there together. *)
Lemma wall_no_slip_lookup {CSysMatrix} (n : nat) (vel : nat -> su2double)
    (iPoint : nat) (s s' : CIncNSSolver CSysMatrix) :
  nodes s' !! iPoint = nodes s !! iPoint ->
  LinSysRes s' !! iPoint = LinSysRes s !! iPoint ->
  wall_no_slip n vel iPoint s -> wall_no_slip n vel iPoint s'.
Proof.
  intros Hn Hl H iDim Hi. unfold wall_no_slip in H.
  rewrite (list_lookup_total_alt (LinSysRes s')), (list_lookup_total_alt (nodes s')).
  rewrite Hn, Hl.
  rewrite <- (list_lookup_total_alt (LinSysRes s)), <- (list_lookup_total_alt (nodes s)).
  apply H, Hi.
Qed.

(** A later write to the same point that leaves the momentum entries alone
    keeps the no-slip condition. *)
Lemma wall_no_slip_alter {CSysMatrix} (n : nat) (vel : nat -> su2double)
    (iPoint : nat) (s s' : CIncNSSolver CSysMatrix)
    (F : CIncNSVariable -> CIncNSVariable)
    (G : list su2double -> list su2double) :
  nodes s' = alter F iPoint (nodes s) ->
  (forall p, length (Solution_Old (F p)) = length (Solution_Old p) /\
     forall j, (1 <= j <= n)%nat ->
       Solution_Old (F p) !!! j = Solution_Old p !!! j /\
       Res_TruncError (F p) !!! j = Res_TruncError p !!! j) ->
  LinSysRes s' = alter G iPoint (LinSysRes s) ->
  (forall b j, (1 <= j <= n)%nat -> G b !!! j = b !!! j) ->
  wall_no_slip n vel iPoint s -> wall_no_slip n vel iPoint s'.
Proof.
  intros Hn HF Hl HG H iDim Hi. destruct (H iDim Hi) as (H1 & H2 & H3).
  rewrite Hn, Hl, !list_lookup_total_alter.
  split; [|split].
  - case_decide; [|exact H1]. rewrite HG by lia. exact H1.
  - case_decide; [|exact H2]. destruct (HF (nodes s !!! iPoint)) as [_ HF2].
    rewrite (proj2 (HF2 (iDim + 1)%nat ltac:(lia))). exact H2.
  - case_decide; [|exact H3]. destruct (HF (nodes s !!! iPoint)) as [HF1 HF2].
    rewrite HF1, (proj1 (HF2 (iDim + 1)%nat ltac:(lia))). exact H3.
Qed.

Section Wall_prefix.
Context {CSysMatrix : Type} `{!CSysMatrix_interface CSysMatrix}.
Variables (geometry : CGeometry) (config : CConfig).

Local Abbreviation solver := (CIncNSSolver CSysMatrix).

(** The statements common to the three wall routines (lines 974-1001): the
    scratch arrays are zeroed and the wall velocity is imposed. *)
Lemma BC_wall_prefix (iPoint : nat) (s : solver) :
  let s' := BC_wall_velocity geometry iPoint (BC_wall_zero_scratch config s) in
  wall_frame config (eq iPoint) s s' /\
  Jacobian s' = Jacobian s /\
  Res_Visc s' = array_fill (nVar s) 0 (Res_Visc s) /\
  ((nDim s <= length (Vector s))%nat ->
   wall_no_slip (nDim s) (wall_velocity geometry (dynamic_grid s) iPoint) iPoint s') /\
  (forall b, LinSysRes s !! iPoint = Some b ->
     exists b', LinSysRes s' !! iPoint = Some b' /\ length b' = length b /\
       forall j, (nDim s < j)%nat -> b' !!! j = b !!! j).
Proof.
  cbv zeta.
  destruct (BC_wall_zero_scratch_summary config s) as (Hs1 & Hv1 & Hj1 & Hn1 & Hl1 & Hr1).
  set (s1 := BC_wall_zero_scratch config s) in *.
  destruct (BC_wall_velocity_summary geometry iPoint s1)
    as (Hs2 & Hv2 & Hr2 & Hj2 & Hw2 & Hn2 & Hl2).
  set (s2 := BC_wall_velocity geometry iPoint s1) in *.
  pose proof (proj1 (same_solver_but_wall_data_fields s s1) Hs1) as Hf1.
  destruct Hf1 as (Hd1 & _ & _ & _ & _ & _ & Hg1 & _).
  rewrite Hd1, Hn1 in Hn2. rewrite Hd1, Hl1 in Hl2.
  rewrite Hd1, Hv1, Hg1 in Hw2. rewrite Hv1 in Hv2.
  rewrite SetVelocity_Old_alter in Hn2. unfold SetVel_ResTruncError_Zero in Hn2.
  rewrite list_alter_alter_eq in Hn2.
  rewrite SetBlock_Zero_velocity_alter in Hl2.
  split; [|split; [|split; [|split]]].
  - eapply wall_frame_point.
    + exact (same_solver_but_wall_data_trans _ _ _ Hs1 Hs2).
    + exact Hv2.
    + rewrite Hr2, Hr1. apply length_array_fill.
    + intros _. congruence.
    + exact Hn2.
    + intros p. unfold compose. repeat split; cbn.
      * apply (length_for_loop_insert (fun iDim => Vector s2 !!! iDim) 1).
      * apply (length_for_loop_insert (fun _ => 0) 1).
    + exact Hl2.
    + intros b. split; [apply (length_for_loop_insert (fun _ => 0) 1)|].
      rewrite (for_loop_insert_lookup (fun _ => 0) 1).
      rewrite decide_False by lia. reflexivity.
  - congruence.
  - congruence.
  - intros HV iDim Hi. rewrite Hn2, Hl2, !list_lookup_total_alter.
    split; [|split].
    + case_decide; [apply zero_velocity_entries, Hi|].
      rewrite (list_lookup_total_ge_default (LinSysRes s)) by lia. reflexivity.
    + case_decide; [unfold compose; cbn; apply zero_velocity_entries, Hi|].
      rewrite (list_lookup_total_ge_default (nodes s)) by lia. reflexivity.
    + case_decide as Hc.
      * unfold compose. cbn.
        rewrite (length_for_loop_insert (fun iDim => Vector s2 !!! iDim) 1).
        intros Hlen.
        rewrite (for_loop_insert_lookup (fun iDim => Vector s2 !!! iDim) 1).
        rewrite decide_True by lia.
        replace (iDim + 1 - 1)%nat with iDim by lia.
        apply Hw2; lia.
      * rewrite (list_lookup_total_ge_default (nodes s)) by lia. cbn. lia.
  - intros b Hb. rewrite Hl2, list_lookup_alter_eq, Hb. cbn.
    eexists. split; [reflexivity|].
    split; [apply (length_for_loop_insert (fun _ => 0) 1)|].
    intros j Hj. rewrite (for_loop_insert_lookup (fun _ => 0) 1).
    rewrite decide_False by lia. reflexivity.
Qed.

End Wall_prefix.

(** ** Wall boundary conditions: one vertex *)

Section Wall_vertex.
Context {CSysMatrix : Type} `{!CSysMatrix_interface CSysMatrix}.
Variables (geometry : CGeometry) (config : CConfig).

Local Abbreviation solver := (CIncNSSolver CSysMatrix).

(** A flux whose continuity and momentum entries are zero is subtracted from
    the block of the point (lines 1012, 1159). *)
Lemma wall_flux_step (iPoint : nat) (RV : list su2double) (s2 s3 : solver) :
  same_solver_but_wall_data s2 s3 ->
  Vector s3 = Vector s2 ->
  length (Res_Visc s3) = length (Res_Visc s2) ->
  (implicit_scheme config = false -> Jacobian s3 = Jacobian s2) ->
  nodes s3 = nodes s2 ->
  LinSysRes s3 = SubtractBlock iPoint RV (LinSysRes s2) ->
  (forall j, (j <= nDim s2)%nat -> RV !!! j = 0) ->
  wall_frame config (eq iPoint) s2 s3 /\
  forall vel, wall_no_slip (nDim s2) vel iPoint s2 ->
              wall_no_slip (nDim s2) vel iPoint s3.
Proof.
  intros Hs Hv Hr Hj Hn Hl HRV.
  assert (HG : forall b j, (j <= nDim s2)%nat -> Block_minus RV b !!! j = b !!! j).
  { intros b j Hjn. rewrite Block_minus_lookup. unfold flux_entry.
    case_decide; rewrite ?HRV by exact Hjn; apply Rminus_0_r. }
  assert (Hn' : nodes s3 = alter (fun p => p) iPoint (nodes s2))
    by (rewrite list_alter_id by reflexivity; exact Hn).
  split.
  - eapply wall_frame_point; [exact Hs|congruence|exact Hr|exact Hj|exact Hn'| |exact Hl|].
    + intros p. apply same_primitive_state_refl.
    + intros b. split; [apply length_Block_minus|apply HG; lia].
  - intros vel Hns.
    apply (wall_no_slip_alter _ _ _ s2 s3 (fun p => p) (Block_minus RV));
      [exact Hn'| |exact Hl| |exact Hns].
    + intros p. split; [reflexivity|]. intros j _. split; reflexivity.
    + intros b j Hjn. apply HG. lia.
Qed.

(** Lines 1019-1024: the deletion of matrix rows. *)
Lemma wall_rows_step (iPoint : nat) (s3 s' : solver) :
  same_solver_but_wall_data s3 s' -> Vector s' = Vector s3 ->
  Res_Visc s' = Res_Visc s3 -> nodes s' = nodes s3 -> LinSysRes s' = LinSysRes s3 ->
  (implicit_scheme config = false -> Jacobian s' = Jacobian s3) ->
  wall_frame config (eq iPoint) s3 s' /\
  forall n vel, wall_no_slip n vel iPoint s3 -> wall_no_slip n vel iPoint s'.
Proof.
  intros Hs Hv Hr Hn Hl Hj. split.
  - apply wall_frame_scratch; try assumption; congruence.
  - intros n vel. apply wall_no_slip_lookup; congruence.
Qed.

(** The treatment of a vertex is the common opening followed by a step on
    the energy equation and a step on the matrix. *)
Lemma wall_vertex_compose (iPoint : nat) (s s3 s' : solver) :
  let s2 := BC_wall_velocity geometry iPoint (BC_wall_zero_scratch config s) in
  (wall_frame config (eq iPoint) s2 s3 /\
   forall vel, wall_no_slip (nDim s2) vel iPoint s2 ->
               wall_no_slip (nDim s2) vel iPoint s3) ->
  (wall_frame config (eq iPoint) s3 s' /\
   forall n vel, wall_no_slip n vel iPoint s3 -> wall_no_slip n vel iPoint s') ->
  wall_frame config (eq iPoint) s s' /\
  ((nDim s <= length (Vector s))%nat ->
   wall_no_slip (nDim s) (wall_velocity geometry (dynamic_grid s) iPoint) iPoint s').
Proof.
  intros s2 [Hf3 Hn3] [Hf' Hn'].
  destruct (BC_wall_prefix geometry config iPoint s) as (Hf2 & _ & _ & Hn2 & _).
  fold s2 in Hf2, Hn2.
  assert (Hd : nDim s2 = nDim s).
  { destruct Hf2 as (Hs & _).
    apply same_solver_but_wall_data_fields in Hs. apply Hs. }
  split.
  - apply (wall_frame_trans config (eq iPoint) (eq iPoint) _ s s2 s'); auto.
    apply (wall_frame_trans config (eq iPoint) (eq iPoint) _ s2 s3 s'); auto.
  - intros HV. apply Hn'. rewrite <- Hd. apply Hn3. rewrite Hd. apply Hn2, HV.
Qed.

Lemma wall_matrix_step (iPoint : nat) (s3 : solver) :
  let s' := if implicit_scheme config then BC_wall_delete_velocity_rows iPoint s3
            else s3 in
  wall_frame config (eq iPoint) s3 s' /\
  forall n vel, wall_no_slip n vel iPoint s3 -> wall_no_slip n vel iPoint s'.
Proof.
  cbv zeta. destruct (implicit_scheme config) eqn:Himp.
  - destruct (BC_wall_delete_velocity_rows_summary iPoint s3) as (Hs & Hv & Hr & Hn & Hl).
    apply wall_rows_step; try assumption. intros Hc. congruence.
  - split; [apply wall_frame_refl|]. intros n vel H. exact H.
Qed.

Lemma BC_HeatFlux_Wall_vertex_step (val_marker : nat) (Wall_HeatFlux : su2double)
    (iVertex : nat) (s : solver) :
  (nDim s < nVar s)%nat ->
  wall_vertex_step geometry config
    (vertex_Node (GetVertex geometry val_marker iVertex)) s
    (BC_HeatFlux_Wall_vertex geometry config val_marker Wall_HeatFlux iVertex s).
Proof.
  intros Hvar. unfold wall_vertex_step, BC_HeatFlux_Wall_vertex. cbv zeta.
  set (iPoint := vertex_Node (GetVertex geometry val_marker iVertex)).
  destruct (GetDomain geometry iPoint); [|reflexivity].
  destruct (BC_wall_prefix geometry config iPoint s) as (Hf2 & _ & Hr2 & _ & _).
  set (s2 := BC_wall_velocity geometry iPoint (BC_wall_zero_scratch config s)) in *.
  assert (Hd : nDim s2 = nDim s).
  { destruct Hf2 as (Hs & _).
    apply same_solver_but_wall_data_fields in Hs. apply Hs. }
  set (s3 := if Energy_Equation config then _ else s2).
  apply (wall_vertex_compose iPoint s s3); [|apply wall_matrix_step].
  fold s2. subst s3. destruct (Energy_Equation config).
  - apply (wall_flux_step iPoint
             (<[(nDim s2 + 1)%nat :=
                  Wall_HeatFlux
                  * Normal_Area (nDim s)
                      (vertex_Normal (GetVertex geometry val_marker iVertex))]>
                (Res_Visc s2))).
    + apply same_solver_but_wall_data_fields. repeat split.
    + reflexivity.
    + cbn [set_LinSysRes set_Res_Visc Res_Visc]. apply length_insert.
    + intros _. reflexivity.
    + reflexivity.
    + reflexivity.
    + intros j Hj. rewrite list_lookup_total_insert_ne by lia.
      rewrite Hr2. apply array_fill_zero_lookup. lia.
  - split; [apply wall_frame_refl|]. intros vel H. exact H.
Qed.

Lemma BC_Isothermal_Wall_energy_summary (val_marker iVertex iPoint : nat)
    (Twall : su2double) (s : solver) :
  let s' := BC_Isothermal_Wall_energy geometry config val_marker iVertex iPoint
              Twall s in
  same_solver_but_wall_data s s' /\ Vector s' = Vector s /\ nodes s' = nodes s /\
  (implicit_scheme config = false -> Jacobian s' = Jacobian s).
Proof.
  cbv zeta. unfold BC_Isothermal_Wall_energy. cbv zeta.
  destruct (implicit_scheme config).
  - split; [apply same_solver_but_wall_data_fields; repeat split|].
    repeat split. intros Hc. discriminate Hc.
  - split; [apply same_solver_but_wall_data_fields; repeat split|].
    repeat split.
Qed.

Lemma BC_Isothermal_Wall_vertex_step (val_marker : nat) (Twall : su2double)
    (iVertex : nat) (s : solver) :
  (nDim s < nVar s)%nat ->
  wall_vertex_step geometry config
    (vertex_Node (GetVertex geometry val_marker iVertex)) s
    (BC_Isothermal_Wall_vertex geometry config val_marker Twall iVertex s).
Proof.
  intros Hvar. unfold wall_vertex_step, BC_Isothermal_Wall_vertex. cbv zeta.
  set (iPoint := vertex_Node (GetVertex geometry val_marker iVertex)).
  destruct (GetDomain geometry iPoint); [|reflexivity].
  destruct (BC_wall_prefix geometry config iPoint s) as (Hf2 & _ & Hr2 & _ & _).
  set (s2 := BC_wall_velocity geometry iPoint (BC_wall_zero_scratch config s)) in *.
  assert (Hd : nDim s2 = nDim s).
  { destruct Hf2 as (Hs & _).
    apply same_solver_but_wall_data_fields in Hs. apply Hs. }
  set (s3 := if Energy_Equation config then _ else s2).
  apply (wall_vertex_compose iPoint s s3); [|apply wall_matrix_step].
  fold s2. subst s3. destruct (Energy_Equation config).
  - destruct (BC_Isothermal_Wall_energy_summary val_marker iVertex iPoint Twall s2)
      as (Hs3 & Hv3 & Hn3 & Hj3).
    destruct (BC_Isothermal_Wall_energy_residual geometry config val_marker iVertex
                iPoint Twall s2) as (Hr3 & Hl3).
    cbv zeta in Hr3, Hl3.
    eapply (wall_flux_step iPoint); [exact Hs3|exact Hv3| |exact Hj3|exact Hn3|exact Hl3|].
    + rewrite Hr3. apply length_insert.
    + intros j Hj. rewrite Hr3. rewrite list_lookup_total_insert_ne by lia.
      rewrite Hr2. apply array_fill_zero_lookup. lia.
  - split; [apply wall_frame_refl|]. intros vel H. exact H.
Qed.

End Wall_vertex.

Section Wall_vertex_CHT.
Context {CSysMatrix : Type} `{!CSysMatrix_interface CSysMatrix}.
Variables (geometry : CGeometry) (config : CConfig).

Local Abbreviation solver := (CIncNSSolver CSysMatrix).

(** The wall temperature of the coupling reads the dimensions, the
    conjugate-heat table and the primitive state only. *)
Lemma CHT_wall_temperature_frame (touched : nat -> Prop) (val_marker iVertex iPoint : nat)
    (s s' : solver) :
  wall_frame config touched s s' ->
  CHT_wall_temperature geometry config val_marker iVertex iPoint s'
  = CHT_wall_temperature geometry config val_marker iVertex iPoint s.
Proof.
  intros (Hs & _ & _ & _ & Hn & _).
  apply same_solver_but_wall_data_fields in Hs.
  destruct Hs as (Hd & _ & _ & _ & _ & _ & _ & Hh & _).
  unfold CHT_wall_temperature, GetThermalConductivity, GetTemperature. cbv zeta.
  rewrite Hh, Hd.
  assert (Hk : forall k, same_primitive_state (nodes s !!! k) (nodes s' !!! k)).
  { intros k. apply Forall2_lookup_total_rel; [apply same_primitive_state_refl|exact Hn]. }
  destruct (Hk iPoint) as (_ & _ & _ & _ & _ & _ & _ & -> & _).
  destruct (Hk (vertex_Normal_Neighbor (GetVertex geometry val_marker iVertex)))
    as (_ & _ & -> & _).
  reflexivity.
Qed.

(** Lines 1281-1286: the wall temperature is imposed strongly. *)
Lemma CHT_strong_temperature_step (iPoint : nat) (Twall : su2double) (s2 : solver) :
  let sa := set_LinSysRes
              (SetBlock_Zero_var iPoint (nDim s2 + 1) (LinSysRes s2)) s2 in
  let sb := set_nodes (SetSolution_Old iPoint (nDim sa + 1) Twall (nodes sa)) sa in
  let s3 := set_nodes (SetEnergy_ResTruncError_Zero (nDim sb) iPoint (nodes sb)) sb in
  (wall_frame config (eq iPoint) s2 s3 /\
   forall vel, wall_no_slip (nDim s2) vel iPoint s2 ->
               wall_no_slip (nDim s2) vel iPoint s3) /\
  (LinSysRes s3 !!! iPoint) !!! (nDim s2 + 1)%nat = 0 /\
  Res_TruncError (nodes s3 !!! iPoint) !!! (nDim s2 + 1)%nat = 0 /\
  ((nDim s2 + 1 < length (Solution_Old (nodes s3 !!! iPoint)))%nat ->
   Solution_Old (nodes s3 !!! iPoint) !!! (nDim s2 + 1)%nat = Twall).
Proof.
  intros sa sb s3.
  pose (F := fun p : CIncNSVariable =>
               set_Res_TruncError (<[(nDim s2 + 1)%nat := 0]> (Res_TruncError p))
                 (set_Solution_Old (<[(nDim s2 + 1)%nat := Twall]> (Solution_Old p)) p)).
  assert (Hn : nodes s3 = alter F iPoint (nodes s2)).
  { subst s3 sb sa F. cbn [set_nodes set_LinSysRes nodes nDim].
    unfold SetEnergy_ResTruncError_Zero, SetSolution_Old.
    rewrite list_alter_alter_eq. reflexivity. }
  assert (Hl : LinSysRes s3 = alter (<[(nDim s2 + 1)%nat := 0]>) iPoint (LinSysRes s2))
    by reflexivity.
  split; [split|split; [|split]].
  - apply (wall_frame_point config iPoint s2 s3 F (<[(nDim s2 + 1)%nat := 0]>)).
    + apply same_solver_but_wall_data_fields. repeat split.
    + reflexivity.
    + reflexivity.
    + intros _. reflexivity.
    + exact Hn.
    + intros p. subst F. repeat split; cbn; apply length_insert.
    + exact Hl.
    + intros b. split; [apply length_insert|].
      apply list_lookup_total_insert_ne. lia.
  - intros vel. apply (wall_no_slip_alter _ _ _ s2 s3 F (<[(nDim s2 + 1)%nat := 0]>));
      [exact Hn| |exact Hl|].
    + intros p. subst F. cbn. split; [apply length_insert|].
      intros j Hj. split; apply list_lookup_total_insert_ne; lia.
    + intros b j Hj. apply list_lookup_total_insert_ne. lia.
  - rewrite Hl, list_lookup_total_alter. case_decide.
    + rewrite list_lookup_total_insert. case_decide; [reflexivity|].
      rewrite list_lookup_total_ge_default by lia. reflexivity.
    + rewrite (list_lookup_total_ge_default (LinSysRes s2)) by lia. reflexivity.
  - rewrite Hn, list_lookup_total_alter. case_decide.
    + subst F. cbn. rewrite list_lookup_total_insert. case_decide; [reflexivity|].
      rewrite list_lookup_total_ge_default by lia. reflexivity.
    + rewrite (list_lookup_total_ge_default (nodes s2)) by lia. reflexivity.
  - rewrite Hn, list_lookup_total_alter. case_decide.
    + subst F. cbn. rewrite length_insert. intros Hlen.
      apply list_lookup_total_insert_eq. exact Hlen.
    + rewrite (list_lookup_total_ge_default (nodes s2)) by lia. cbn. lia.
Qed.

(** Lines 1291-1300: the rows of the velocity and, with the energy equation,
    of the temperature are deleted from the matrix. *)
Lemma CHT_matrix_step (iPoint : nat) (s3 : solver) :
  let s' :=
    if implicit_scheme config then
      let s := BC_wall_delete_velocity_rows iPoint s3 in
      if Energy_Equation config then
        let total_index := (iPoint * nVar s + nDim s + 1)%nat in
        set_Jacobian (DeleteValsRowi total_index (Jacobian s)) s
      else s
    else s3 in
  (wall_frame config (eq iPoint) s3 s' /\
   forall n vel, wall_no_slip n vel iPoint s3 -> wall_no_slip n vel iPoint s') /\
  nodes s' = nodes s3 /\ LinSysRes s' = LinSysRes s3.
Proof.
  cbv zeta. destruct (implicit_scheme config) eqn:Himp.
  - destruct (BC_wall_delete_velocity_rows_summary iPoint s3) as (Hs & Hv & Hr & Hn & Hl).
    set (s4 := BC_wall_delete_velocity_rows iPoint s3) in *.
    destruct (Energy_Equation config).
    + split; [|split; [exact Hn|exact Hl]].
      apply wall_rows_step; try assumption; [|intros Hc; congruence].
      apply same_solver_but_wall_data_fields in Hs.
      apply same_solver_but_wall_data_fields. exact Hs.
    + split; [|split; [exact Hn|exact Hl]].
      apply wall_rows_step; try assumption. intros Hc. congruence.
  - split; [|split; reflexivity].
    split; [apply wall_frame_refl|]. intros n vel H. exact H.
Qed.

(** One vertex of the conjugate-heat interface, when it does not abort. *)
Lemma BC_ConjugateHeat_Interface_vertex_inv (val_marker iVertex : nat)
    (s s' : solver) :
  let iPoint := vertex_Node (GetVertex geometry val_marker iVertex) in
  let s2 := BC_wall_velocity geometry iPoint (BC_wall_zero_scratch config s) in
  BC_ConjugateHeat_Interface_vertex geometry config val_marker iVertex s = Ok s' ->
  GetDomain geometry iPoint = true ->
  exists s3,
    (wall_frame config (eq iPoint) s2 s3 /\
     forall vel, wall_no_slip (nDim s2) vel iPoint s2 ->
                 wall_no_slip (nDim s2) vel iPoint s3) /\
    (wall_frame config (eq iPoint) s3 s' /\
     forall n vel, wall_no_slip n vel iPoint s3 -> wall_no_slip n vel iPoint s') /\
    nodes s' = nodes s3 /\ LinSysRes s' = LinSysRes s3 /\
    (Energy_Equation config = true ->
     exists Twall,
       CHT_wall_temperature geometry config val_marker iVertex iPoint s = Ok Twall /\
       (LinSysRes s3 !!! iPoint) !!! (nDim s + 1)%nat = 0 /\
       Res_TruncError (nodes s3 !!! iPoint) !!! (nDim s + 1)%nat = 0 /\
       ((nDim s + 1 < length (Solution_Old (nodes s3 !!! iPoint)))%nat ->
        Solution_Old (nodes s3 !!! iPoint) !!! (nDim s + 1)%nat = Twall)).
Proof.
  intros iPoint s2 Hok Hdom. unfold BC_ConjugateHeat_Interface_vertex in Hok.
  cbv zeta in Hok. fold iPoint in Hok. rewrite Hdom in Hok. fold s2 in Hok.
  destruct (BC_wall_prefix geometry config iPoint s) as (Hf2 & _ & _ & _ & _).
  fold s2 in Hf2.
  assert (Hd : nDim s2 = nDim s).
  { destruct Hf2 as (Hs & _).
    apply same_solver_but_wall_data_fields in Hs. apply Hs. }
  destruct (Energy_Equation config) eqn:Henergy.
  - destruct (CHT_wall_temperature geometry config val_marker iVertex iPoint s2)
      as [Twall|msg func] eqn:HT; [|discriminate Hok].
    cbn [mbind result_bind] in Hok. injection Hok as <-.
    destruct (CHT_strong_temperature_step iPoint Twall s2) as (Hstep & H1 & H2 & H3).
    cbv zeta in Hstep, H1, H2, H3.
    eexists. split; [exact Hstep|].
    destruct (CHT_matrix_step iPoint
                (set_nodes
                   (SetEnergy_ResTruncError_Zero (nDim s2) iPoint
                      (SetSolution_Old iPoint (nDim s2 + 1) Twall (nodes s2)))
                   (set_nodes (SetSolution_Old iPoint (nDim s2 + 1) Twall (nodes s2))
                      (set_LinSysRes
                         (SetBlock_Zero_var iPoint (nDim s2 + 1) (LinSysRes s2)) s2))))
      as (Hm & Hn & Hl).
    cbv zeta in Hm, Hn, Hl. rewrite Henergy in Hm, Hn, Hl.
    split; [exact Hm|]. split; [exact Hn|]. split; [exact Hl|].
    intros _. exists Twall.
    rewrite <- (CHT_wall_temperature_frame (eq iPoint) val_marker iVertex iPoint s s2 Hf2).
    rewrite <- Hd. split; [exact HT|]. split; [exact H1|]. split; [exact H2|exact H3].
  - cbn [mbind result_bind] in Hok. injection Hok as <-.
    exists s2. split; [split; [apply wall_frame_refl|intros vel H; exact H]|].
    destruct (CHT_matrix_step iPoint s2) as (Hm & Hn & Hl).
    cbv zeta in Hm, Hn, Hl. rewrite Henergy in Hm, Hn, Hl.
    split; [exact Hm|]. split; [exact Hn|]. split; [exact Hl|].
    intros Hc. discriminate Hc.
Qed.

Lemma BC_ConjugateHeat_Interface_vertex_step (val_marker iVertex : nat)
    (s s' : solver) :
  BC_ConjugateHeat_Interface_vertex geometry config val_marker iVertex s = Ok s' ->
  wall_vertex_step geometry config
    (vertex_Node (GetVertex geometry val_marker iVertex)) s s'.
Proof.
  intros Hok. unfold wall_vertex_step.
  destruct (GetDomain geometry (vertex_Node (GetVertex geometry val_marker iVertex)))
    eqn:Hdom.
  - destruct (BC_ConjugateHeat_Interface_vertex_inv val_marker iVertex s s' Hok Hdom)
      as (s3 & H3 & H' & _).
    apply (wall_vertex_compose geometry config _ s s3 s'); assumption.
  - unfold BC_ConjugateHeat_Interface_vertex in Hok. cbv zeta in Hok.
    rewrite Hdom in Hok. injection Hok as <-. reflexivity.
Qed.

End Wall_vertex_CHT.

(** ** Wall boundary conditions: the loop over the vertices *)

Lemma for_each_total {S} (f : nat -> S -> S) (idx : list nat) (s : S) :
  for_each (fun i s => Ok (f i s)) idx s = Ok (foldl (fun acc i => f i acc) s idx).
Proof.
  revert s. induction idx as [|i idx IH]; intros s; [reflexivity|].
  cbn. apply IH.
Qed.

Lemma for_each_app {S} (body : nat -> S -> result S) (l1 l2 : list nat) (s s' : S) :
  for_each body (l1 ++ l2) s = Ok s' ->
  exists s1, for_each body l1 s = Ok s1 /\ for_each body l2 s1 = Ok s'.
Proof.
  revert s. induction l1 as [|i l1 IH]; intros s H.
  - exists s. split; [reflexivity|exact H].
  - cbn in H. destruct (body i s) as [s1|msg func] eqn:Hb; [|discriminate H].
    cbn in H. destruct (IH s1 H) as (s2 & H1 & H2).
    exists s2. split; [|exact H2]. cbn. rewrite Hb. exact H1.
Qed.

Section Wall_marker.
Context {CSysMatrix : Type} `{!CSysMatrix_interface CSysMatrix}.
Variables (geometry : CGeometry) (config : CConfig) (val_marker : nat).

Local Abbreviation solver := (CIncNSSolver CSysMatrix).
Local Abbreviation node := (fun iVertex => vertex_Node (GetVertex geometry val_marker iVertex)).

Lemma wall_vertex_step_frame (iPoint : nat) (s s' : solver) :
  wall_vertex_step geometry config iPoint s s' ->
  wall_frame config (fun k => GetDomain geometry iPoint = true /\ iPoint = k) s s'.
Proof.
  unfold wall_vertex_step. destruct (GetDomain geometry iPoint).
  - intros [H _]. apply (wall_frame_weaken config (eq iPoint)); [|exact H].
    intros k <-. split; reflexivity.
  - intros ->. apply wall_frame_refl.
Qed.

Lemma wall_frame_fields (touched : nat -> Prop) (s s' : solver) :
  wall_frame config touched s s' ->
  nDim s' = nDim s /\ nVar s' = nVar s /\ dynamic_grid s' = dynamic_grid s /\
  length (Vector s') = length (Vector s).
Proof.
  intros (Hs & Hv & _). apply same_solver_but_wall_data_fields in Hs.
  destruct Hs as (Hd & Hn & _ & _ & _ & _ & Hg & _). repeat split; assumption.
Qed.

Variable body : nat -> solver -> result solver.
Hypothesis Hbody : forall iVertex s s',
  (nDim s < nVar s)%nat -> body iVertex s = Ok s' ->
  wall_vertex_step geometry config (node iVertex) s s'.

(** The loop over the vertices of the marker changes the treated points only,
    and leaves the no-slip condition satisfied at each of them. *)
Lemma for_each_wall_marker (idx : list nat) (s s' : solver) :
  (nDim s < nVar s)%nat ->
  for_each body idx s = Ok s' ->
  wall_frame config (wall_marker_points geometry val_marker idx) s s' /\
  ((nDim s <= length (Vector s))%nat ->
   forall iVertex, iVertex ∈ idx -> GetDomain geometry (node iVertex) = true ->
     wall_no_slip (nDim s) (wall_velocity geometry (dynamic_grid s) (node iVertex))
       (node iVertex) s').
Proof.
  revert s. induction idx as [|i idx IH]; intros s Hvar Hok.
  - cbn in Hok. injection Hok as <-. split; [apply wall_frame_refl|].
    intros _ j Hj. apply elem_of_nil in Hj. contradiction.
  - cbn in Hok. destruct (body i s) as [s1|msg func] eqn:Hb; [|discriminate Hok].
    cbn in Hok. pose proof (Hbody i s s1 Hvar Hb) as Hstep.
    pose proof (wall_vertex_step_frame _ _ _ Hstep) as Hf1.
    destruct (wall_frame_fields _ _ _ Hf1) as (Hd1 & Hn1 & Hg1 & Hv1).
    destruct (IH s1 ltac:(lia) Hok) as (Hf' & Hns').
    split.
    + eapply wall_frame_trans; [| |exact Hf1|exact Hf'].
      * intros k [Hown <-]. exists i. split; [apply elem_of_cons; left; reflexivity|].
        split; [exact Hown|reflexivity].
      * intros k (j & Hj & Hown & Hk). exists j.
        split; [apply elem_of_cons; right; exact Hj|]. split; assumption.
    + intros HV j Hj Hown. apply elem_of_cons in Hj.
      rewrite Hd1, Hg1, Hv1 in Hns'.
      destruct Hj as [->|Hj]; [|apply Hns'; assumption].
      destruct (decide (Exists (fun j' => GetDomain geometry (node j') = true /\
                                          node j' = node i) idx)) as [He|He].
      * apply Exists_exists in He. destruct He as (j' & Hj' & Hown' & Hnode).
        rewrite <- Hnode. apply Hns'; assumption.
      * unfold wall_vertex_step in Hstep. rewrite Hown in Hstep.
        destruct Hstep as [_ Hns1].
        destruct Hf' as (_ & _ & _ & _ & _ & _ & Hk).
        destruct (Hk (node i)) as [Hkn Hkl].
        { intros (j' & Hj' & Hown' & Hnode). apply He, Exists_exists.
          exists j'. split; [exact Hj'|]. split; assumption. }
        apply (wall_no_slip_lookup _ _ _ s1 s' Hkn Hkl). apply Hns1, HV.
Qed.

End Wall_marker.

Section Wall_routines.
Context {CSysMatrix : Type} `{!CSysMatrix_interface CSysMatrix}.
Variables (geometry : CGeometry) (config : CConfig).

Local Abbreviation solver := (CIncNSSolver CSysMatrix).

(** Each of the three wall routines, when it returns, has run a loop over
    the vertices of the marker whose body treats one vertex. *)
Lemma wall_routine_for_each (routine : nat -> solver -> result solver)
    (val_marker : nat) (s s' : solver) :
  routine = BC_HeatFlux_Wall geometry config \/
  routine = BC_Isothermal_Wall geometry config \/
  routine = BC_ConjugateHeat_Interface geometry config ->
  routine val_marker s = Ok s' ->
  exists body : nat -> solver -> result solver,
    (forall iVertex s s', (nDim s < nVar s)%nat -> body iVertex s = Ok s' ->
       wall_vertex_step geometry config
         (vertex_Node (GetVertex geometry val_marker iVertex)) s s') /\
    for_each body (seq 0 (GetnVertex geometry val_marker)) s = Ok s'.
Proof.
  intros [-> | [-> | ->]] Hok.
  - eexists (fun i s => Ok (BC_HeatFlux_Wall_vertex geometry config val_marker _ i s)).
    split.
    + intros iVertex s1 s2 Hvar Hb. injection Hb as <-.
      apply BC_HeatFlux_Wall_vertex_step, Hvar.
    + rewrite for_each_total. exact Hok.
  - unfold BC_Isothermal_Wall in Hok. cbv zeta in Hok.
    destruct (decide (WallFunction_Treatment config
                        (GetMarker_All_TagBound config val_marker)
                      <> NO_WALL_FUNCTION)); [discriminate Hok|].
    eexists (fun i s => Ok (BC_Isothermal_Wall_vertex geometry config val_marker _ i s)).
    split.
    + intros iVertex s1 s2 Hvar Hb. injection Hb as <-.
      apply BC_Isothermal_Wall_vertex_step, Hvar.
    + rewrite for_each_total. exact Hok.
  - unfold BC_ConjugateHeat_Interface in Hok. cbv zeta in Hok.
    destruct (decide (WallFunction_Treatment config
                        (GetMarker_All_TagBound config val_marker)
                      <> NO_WALL_FUNCTION)); [discriminate Hok|].
    exists (BC_ConjugateHeat_Interface_vertex geometry config val_marker).
    split; [|exact Hok].
    intros iVertex s1 s2 _ Hb.
    apply BC_ConjugateHeat_Interface_vertex_step, Hb.
Qed.

(** X15.  A wall routine ([BC_HeatFlux_Wall], [BC_Isothermal_Wall] or
    [BC_ConjugateHeat_Interface]) that returns has written nothing of the
    solver but the points, the residual vector, the Jacobian matrix and the
    scratch arrays, and with an explicit scheme not the matrix either.  Every
    point keeps its primitive state (only the old solution and the truncation
    error are written), every residual block keeps its size and its first
    entry, the residual of the pressure equation, and a point that is not an
    owned node of a vertex of the marker keeps its state and its residual
    block. *)
Theorem wall_BC_writes_marker_points_only (routine : nat -> solver -> result solver)
    (val_marker : nat) (s s' : solver) :
  routine = BC_HeatFlux_Wall geometry config \/
  routine = BC_Isothermal_Wall geometry config \/
  routine = BC_ConjugateHeat_Interface geometry config ->
  nVar s = (nDim s + 2)%nat ->
  routine val_marker s = Ok s' ->
  same_solver_but_wall_data s s' /\
  (implicit_scheme config = false -> Jacobian s' = Jacobian s) /\
  Forall2 same_primitive_state (nodes s) (nodes s') /\
  Forall2 (fun b b' : list su2double =>
             length b' = length b /\ b' !!! 0%nat = b !!! 0%nat)
          (LinSysRes s) (LinSysRes s') /\
  forall k,
    (forall iVertex, (iVertex < GetnVertex geometry val_marker)%nat ->
       GetDomain geometry (vertex_Node (GetVertex geometry val_marker iVertex)) = true ->
       vertex_Node (GetVertex geometry val_marker iVertex) <> k) ->
    nodes s' !! k = nodes s !! k /\ LinSysRes s' !! k = LinSysRes s !! k.
Proof.
  intros Hroutine Hvar Hok.
  destruct (wall_routine_for_each routine val_marker s s' Hroutine Hok)
    as (body & Hbody & Hloop).
  destruct (for_each_wall_marker geometry config val_marker body Hbody _ s s'
              ltac:(lia) Hloop) as ((Hs & _ & _ & Hj & Hn & Hl & Hk) & _).
  split; [exact Hs|]. split; [exact Hj|]. split; [exact Hn|]. split; [exact Hl|].
  intros k Hnot. apply Hk. intros (iVertex & Hi & Hown & Hnode).
  apply elem_of_seq in Hi. apply (Hnot iVertex); [lia|exact Hown|exact Hnode].
Qed.

(** X16.  When a wall routine returns, the no-slip condition holds at every
    owned node of a vertex of the marker: the momentum entries of its
    residual block and of its truncation error are zero, and the momentum
    entries of its old solution hold the velocity of the wall, zero or, on a
    moving grid, the grid velocity of the point. *)
Theorem wall_BC_no_slip (routine : nat -> solver -> result solver)
    (val_marker iVertex : nat) (s s' : solver) :
  routine = BC_HeatFlux_Wall geometry config \/
  routine = BC_Isothermal_Wall geometry config \/
  routine = BC_ConjugateHeat_Interface geometry config ->
  nVar s = (nDim s + 2)%nat ->
  (nDim s <= length (Vector s))%nat ->
  routine val_marker s = Ok s' ->
  (iVertex < GetnVertex geometry val_marker)%nat ->
  let iPoint := vertex_Node (GetVertex geometry val_marker iVertex) in
  GetDomain geometry iPoint = true ->
  forall iDim, (iDim < nDim s)%nat ->
    (LinSysRes s' !!! iPoint) !!! (iDim + 1)%nat = 0 /\
    Res_TruncError (nodes s' !!! iPoint) !!! (iDim + 1)%nat = 0 /\
    ((iDim + 1 < length (Solution_Old (nodes s' !!! iPoint)))%nat ->
     Solution_Old (nodes s' !!! iPoint) !!! (iDim + 1)%nat
     = wall_velocity geometry (dynamic_grid s) iPoint iDim).
Proof.
  intros Hroutine Hvar HV Hok Hi iPoint Hown.
  destruct (wall_routine_for_each routine val_marker s s' Hroutine Hok)
    as (body & Hbody & Hloop).
  destruct (for_each_wall_marker geometry config val_marker body Hbody _ s s'
              ltac:(lia) Hloop) as (_ & Hns).
  apply (Hns HV iVertex); [|exact Hown]. apply elem_of_seq. lia.
Qed.

End Wall_routines.

(** The heat-flux wall of the example mesh: the neighbour of the wall point
    is not a node of the marker. *)
Lemma wall_BC_writes_marker_points_only_witness :
  let s := example_solver 1 example_steady_config in
  let s' :=
    for_loop (GetnVertex (example_geometry 1) 0)
      (@BC_HeatFlux_Wall_vertex unit no_matrix (example_geometry 1)
         example_steady_config 0
         (Wall_HeatFlux example_steady_config
            (GetMarker_All_TagBound example_steady_config 0)
          / Heat_Flux_Ref example_steady_config)) s in
  nodes s' !! 1%nat = nodes s !! 1%nat /\ LinSysRes s' !! 1%nat = LinSysRes s !! 1%nat.
Proof.
  intros s s'.
  assert (Hroutine :
    @BC_HeatFlux_Wall unit no_matrix (example_geometry 1) example_steady_config
    = @BC_HeatFlux_Wall unit no_matrix (example_geometry 1) example_steady_config \/
    @BC_HeatFlux_Wall unit no_matrix (example_geometry 1) example_steady_config
    = @BC_Isothermal_Wall unit no_matrix (example_geometry 1) example_steady_config \/
    @BC_HeatFlux_Wall unit no_matrix (example_geometry 1) example_steady_config
    = @BC_ConjugateHeat_Interface unit no_matrix (example_geometry 1) example_steady_config)
    by (left; reflexivity).
  assert (Hvar : nVar s = (nDim s + 2)%nat) by reflexivity.
  assert (Hok : @BC_HeatFlux_Wall unit no_matrix (example_geometry 1)
                  example_steady_config 0 s = Ok s') by reflexivity.
  apply (@wall_BC_writes_marker_points_only unit no_matrix (example_geometry 1) example_steady_config
           _ 0 s s' Hroutine Hvar Hok).
  intros iVertex Hi _. cbn in Hi.
  replace iVertex with 0%nat by lia. cbn. lia.
Defined.

(** The wall point of the example mesh after the heat-flux wall: the
    residual of the first momentum equation is zero. *)
Lemma wall_BC_no_slip_witness :
  let s := example_solver 1 example_steady_config in
  let s' :=
    for_loop (GetnVertex (example_geometry 1) 0)
      (@BC_HeatFlux_Wall_vertex unit no_matrix (example_geometry 1)
         example_steady_config 0
         (Wall_HeatFlux example_steady_config
            (GetMarker_All_TagBound example_steady_config 0)
          / Heat_Flux_Ref example_steady_config)) s in
  (LinSysRes s' !!! 0%nat) !!! 1%nat = 0.
Proof.
  intros s s'.
  assert (Hroutine :
    @BC_HeatFlux_Wall unit no_matrix (example_geometry 1) example_steady_config
    = @BC_HeatFlux_Wall unit no_matrix (example_geometry 1) example_steady_config \/
    @BC_HeatFlux_Wall unit no_matrix (example_geometry 1) example_steady_config
    = @BC_Isothermal_Wall unit no_matrix (example_geometry 1) example_steady_config \/
    @BC_HeatFlux_Wall unit no_matrix (example_geometry 1) example_steady_config
    = @BC_ConjugateHeat_Interface unit no_matrix (example_geometry 1) example_steady_config)
    by (left; reflexivity).
  assert (Hvar : nVar s = (nDim s + 2)%nat) by reflexivity.
  assert (HV : (nDim s <= length (Vector s))%nat) by (cbn; lia).
  assert (Hok : @BC_HeatFlux_Wall unit no_matrix (example_geometry 1)
                  example_steady_config 0 s = Ok s') by reflexivity.
  assert (Hi : (0 < GetnVertex (example_geometry 1) 0)%nat) by (cbn; lia).
  assert (Hown : GetDomain (example_geometry 1)
                   (vertex_Node (GetVertex (example_geometry 1) 0 0)) = true)
    by reflexivity.
  assert (Hd : (0 < nDim s)%nat) by (cbn; lia).
  exact (proj1 (@wall_BC_no_slip unit no_matrix (example_geometry 1) example_steady_config
                  _ 0 0 s s' Hroutine Hvar HV Hok Hi Hown 0%nat Hd)).
Defined.

(** ** Wall boundary conditions: the energy equation at one vertex *)

Section Wall_marker_vertex.
Context {CSysMatrix : Type} `{!CSysMatrix_interface CSysMatrix}.
Variables (geometry : CGeometry) (config : CConfig) (val_marker : nat).

Local Abbreviation solver := (CIncNSSolver CSysMatrix).
Local Abbreviation node := (fun iVertex => vertex_Node (GetVertex geometry val_marker iVertex)).

Variable body : nat -> solver -> result solver.
Hypothesis Hbody : forall iVertex s s',
  (nDim s < nVar s)%nat -> body iVertex s = Ok s' ->
  wall_vertex_step geometry config (node iVertex) s s'.

(** When no other vertex of the marker has the node of [iVertex] as an owned
    node, the loop over the vertices treats that point once: the vertices
    before and after leave it alone. *)
Lemma for_each_wall_marker_vertex (n iVertex : nat) (s s' : solver) :
  (nDim s < nVar s)%nat ->
  for_each body (seq 0 n) s = Ok s' ->
  (iVertex < n)%nat ->
  (forall j, (j < n)%nat -> j <> iVertex ->
     GetDomain geometry (node j) = true -> node j <> node iVertex) ->
  exists s1 s2,
    wall_frame config (fun k => k <> node iVertex) s s1 /\
    body iVertex s1 = Ok s2 /\
    wall_frame config (fun k => k <> node iVertex) s2 s'.
Proof.
  intros Hvar Hok Hi Huniq.
  replace n with (iVertex + (1 + (n - S iVertex)))%nat in Hok by lia.
  rewrite !seq_app in Hok.
  apply for_each_app in Hok. destruct Hok as (s1 & Hok1 & Hok).
  apply for_each_app in Hok. destruct Hok as (s2 & Hok2 & Hok3).
  cbn [seq for_each] in Hok2.
  destruct (body (0 + iVertex)%nat s1) as [s2'|msg func] eqn:Hb; [|discriminate Hok2].
  cbn in Hok2. injection Hok2 as ->. cbn [Nat.add] in Hb.
  destruct (for_each_wall_marker geometry config val_marker body Hbody _ s s1 Hvar Hok1)
    as (Hf1 & _).
  destruct (wall_frame_fields config _ _ _ Hf1) as (Hd1 & Hn1 & _).
  pose proof (wall_vertex_step_frame geometry config _ _ _
                (Hbody iVertex s1 s2 ltac:(lia) Hb)) as Hf2.
  destruct (wall_frame_fields config _ _ _ Hf2) as (Hd2 & Hn2 & _).
  destruct (for_each_wall_marker geometry config val_marker body Hbody _ s2 s'
              ltac:(lia) Hok3) as (Hf3 & _).
  exists s1, s2. split; [|split; [exact Hb|]].
  - apply (wall_frame_weaken config _ _ _ _ ) with (2 := Hf1).
    intros k (j & Hj & Hown & <-). apply elem_of_seq in Hj.
    apply Huniq; [lia|lia|exact Hown].
  - apply (wall_frame_weaken config _ _ _ _ ) with (2 := Hf3).
    intros k (j & Hj & Hown & <-). apply elem_of_seq in Hj.
    apply Huniq; [lia|lia|exact Hown].
Qed.

End Wall_marker_vertex.

Section Wall_energy.
Context {CSysMatrix : Type} `{!CSysMatrix_interface CSysMatrix}.
Variables (geometry : CGeometry) (config : CConfig).

Local Abbreviation solver := (CIncNSSolver CSysMatrix).

(** A frame that leaves the point [iPoint] alone. *)
Lemma wall_frame_untouched (iPoint : nat) (s s' : solver) :
  wall_frame config (fun k => k <> iPoint) s s' ->
  nodes s' !!! iPoint = nodes s !!! iPoint /\
  LinSysRes s' !!! iPoint = LinSysRes s !!! iPoint /\
  length (LinSysRes s') = length (LinSysRes s).
Proof.
  intros (_ & _ & _ & _ & _ & Hl & Hk).
  destruct (Hk iPoint) as [Hkn Hkl]; [intros Hc; apply Hc; reflexivity|].
  rewrite !list_lookup_total_alt, Hkn, Hkl.
  split; [reflexivity|]. split; [reflexivity|].
  symmetry. exact (Forall2_length _ _ _ Hl).
Qed.

(** The flux of one vertex subtracted from the energy residual of its
    point, after the common opening of the wall routines. *)
Lemma wall_flux_energy_entry (iPoint : nat) (flux : su2double) (s s3 : solver) :
  let s2 := BC_wall_velocity geometry iPoint (BC_wall_zero_scratch config s) in
  nVar s = (nDim s + 2)%nat ->
  length (Res_Visc s) = nVar s ->
  (iPoint < length (LinSysRes s))%nat ->
  length (LinSysRes s !!! iPoint) = nVar s ->
  LinSysRes s3
  = SubtractBlock iPoint (<[(nDim s + 1)%nat := flux]> (Res_Visc s2)) (LinSysRes s2) ->
  (LinSysRes s3 !!! iPoint) !!! (nDim s + 1)%nat
  = (LinSysRes s !!! iPoint) !!! (nDim s + 1)%nat - flux.
Proof.
  intros s2 Hvar HRes Hi Hblock Hl3.
  destruct (BC_wall_prefix geometry config iPoint s) as (_ & _ & Hr2 & _ & Hb2).
  fold s2 in Hr2, Hb2.
  destruct (lookup_lt_is_Some_2 (LinSysRes s) iPoint Hi) as [b Hb].
  destruct (Hb2 b Hb) as (b' & Hb' & Hlen' & Hent').
  rewrite (list_lookup_total_correct _ _ _ Hb) in Hblock |- *.
  rewrite Hl3. unfold SubtractBlock.
  rewrite (list_lookup_total_correct _ iPoint (Block_minus
             (<[(nDim s + 1)%nat := flux]> (Res_Visc s2)) b'))
    by (rewrite list_lookup_alter_eq, Hb'; reflexivity).
  rewrite Block_minus_lookup, Hent' by lia. unfold flux_entry.
  rewrite decide_True by lia.
  rewrite list_lookup_total_insert_eq
    by (rewrite Hr2, length_array_fill; lia).
  reflexivity.
Qed.

Lemma BC_HeatFlux_Wall_vertex_energy (val_marker iVertex : nat)
    (Wall_HeatFlux : su2double) (s : solver) :
  let v := GetVertex geometry val_marker iVertex in
  let iPoint := vertex_Node v in
  let s' := BC_HeatFlux_Wall_vertex geometry config val_marker Wall_HeatFlux iVertex s in
  GetDomain geometry iPoint = true ->
  nVar s = (nDim s + 2)%nat ->
  length (Res_Visc s) = nVar s ->
  (iPoint < length (LinSysRes s))%nat ->
  length (LinSysRes s !!! iPoint) = nVar s ->
  (LinSysRes s' !!! iPoint) !!! (nDim s + 1)%nat
  = (LinSysRes s !!! iPoint) !!! (nDim s + 1)%nat
    - (if Energy_Equation config
       then Wall_HeatFlux * Normal_Area (nDim s) (vertex_Normal v) else 0).
Proof.
  intros v iPoint s' Hown Hvar HRes Hi Hblock. subst s'.
  unfold BC_HeatFlux_Wall_vertex. cbv zeta. fold v. fold iPoint. rewrite Hown.
  destruct (BC_wall_prefix geometry config iPoint s) as (Hf2 & _ & _ & _ & Hb2).
  set (s2 := BC_wall_velocity geometry iPoint (BC_wall_zero_scratch config s)) in *.
  destruct (wall_frame_fields config _ _ _ Hf2) as (Hd2 & _).
  set (s3 := if Energy_Equation config then _ else s2).
  assert (H3 : (LinSysRes s3 !!! iPoint) !!! (nDim s + 1)%nat
               = (LinSysRes s !!! iPoint) !!! (nDim s + 1)%nat
                 - (if Energy_Equation config
                    then Wall_HeatFlux * Normal_Area (nDim s) (vertex_Normal v)
                    else 0)).
  { subst s3. destruct (Energy_Equation config).
    - apply (wall_flux_energy_entry iPoint); try assumption.
      cbn [set_LinSysRes set_Res_Visc LinSysRes Res_Visc nDim]. rewrite Hd2.
      reflexivity.
    - destruct (lookup_lt_is_Some_2 (LinSysRes s) iPoint Hi) as [b Hb].
      destruct (Hb2 b Hb) as (b' & Hb' & _ & Hent').
      rewrite (list_lookup_total_correct _ _ _ Hb),
        (list_lookup_total_correct _ _ _ Hb'), Hent' by lia.
      symmetry. apply Rminus_0_r. }
  destruct (implicit_scheme config); [|exact H3].
  destruct (BC_wall_delete_velocity_rows_summary iPoint s3) as (_ & _ & _ & _ & Hl).
  rewrite Hl. exact H3.
Qed.

(** X17.  [BC_HeatFlux_Wall] at an owned vertex whose point is the node of no
    other owned vertex of the marker: the prescribed heat flux, divided by
    the reference heat flux and multiplied by the area of the vertex normal,
    is subtracted from the energy residual of the point; without the energy
    equation the energy residual is not changed. *)
Theorem BC_HeatFlux_Wall_energy_residual (val_marker iVertex : nat)
    (s s' : solver) :
  let v := GetVertex geometry val_marker iVertex in
  let iPoint := vertex_Node v in
  let Wall_HeatFlux :=
    Wall_HeatFlux config (GetMarker_All_TagBound config val_marker)
    / Heat_Flux_Ref config in
  BC_HeatFlux_Wall geometry config val_marker s = Ok s' ->
  nVar s = (nDim s + 2)%nat ->
  length (Res_Visc s) = nVar s ->
  (iPoint < length (LinSysRes s))%nat ->
  length (LinSysRes s !!! iPoint) = nVar s ->
  (iVertex < GetnVertex geometry val_marker)%nat ->
  GetDomain geometry iPoint = true ->
  (forall j, (j < GetnVertex geometry val_marker)%nat -> j <> iVertex ->
     GetDomain geometry (vertex_Node (GetVertex geometry val_marker j)) = true ->
     vertex_Node (GetVertex geometry val_marker j) <> iPoint) ->
  (Energy_Equation config = true ->
   (LinSysRes s' !!! iPoint) !!! (nDim s + 1)%nat
   = (LinSysRes s !!! iPoint) !!! (nDim s + 1)%nat
     - Wall_HeatFlux * Normal_Area (nDim s) (vertex_Normal v)) /\
  (Energy_Equation config = false ->
   (LinSysRes s' !!! iPoint) !!! (nDim s + 1)%nat
   = (LinSysRes s !!! iPoint) !!! (nDim s + 1)%nat).
Proof.
  intros v iPoint q Hok Hvar HRes Hi Hblock HiV Hown Huniq.
  unfold BC_HeatFlux_Wall, for_loop in Hok. cbv zeta in Hok. fold q in Hok.
  rewrite <- (for_each_total
                (BC_HeatFlux_Wall_vertex geometry config val_marker q)) in Hok.
  destruct (for_each_wall_marker_vertex geometry config val_marker
              (fun i s => Ok (BC_HeatFlux_Wall_vertex geometry config val_marker q i s)))
    with (n := GetnVertex geometry val_marker) (iVertex := iVertex) (s := s) (s' := s')
    as (s1 & s2 & Hf1 & Hb & Hf2); try assumption; try lia.
  { intros j s0 s0' Hv0 H0. injection H0 as <-.
    apply BC_HeatFlux_Wall_vertex_step, Hv0. }
  injection Hb as <-.
  destruct (wall_frame_fields config _ _ _ Hf1) as (Hd1 & Hn1 & _).
  destruct Hf1 as (Hs1 & Hv1 & Hr1 & Hf1').
  destruct (wall_frame_untouched iPoint s s1
              (conj Hs1 (conj Hv1 (conj Hr1 Hf1')))) as (_ & Hl1 & Hlen1).
  destruct (wall_frame_untouched iPoint _ s' Hf2) as (_ & Hl2 & _).
  pose proof (BC_HeatFlux_Wall_vertex_energy val_marker iVertex q s1) as He.
  cbv zeta in He. fold v in He. fold iPoint in He.
  rewrite Hd1, Hn1, Hr1, Hl1, Hlen1 in He.
  specialize (He Hown Hvar HRes Hi Hblock).
  rewrite Hl2, He.
  split; intros ->; [reflexivity|apply Rminus_0_r].
Qed.

End Wall_energy.

Section Wall_energy_more.
Context {CSysMatrix : Type} `{!CSysMatrix_interface CSysMatrix}.
Variables (geometry : CGeometry) (config : CConfig).

Local Abbreviation solver := (CIncNSSolver CSysMatrix).

(** The wall routines leave the temperature and the conductivity of every
    point alone. *)
Lemma wall_frame_thermal (touched : nat -> Prop) (s s' : solver) (k : nat) :
  wall_frame config touched s s' ->
  GetTemperature (nodes s') k = GetTemperature (nodes s) k /\
  GetThermalConductivity (nodes s') k = GetThermalConductivity (nodes s) k.
Proof.
  intros (_ & _ & _ & _ & Hn & _).
  assert (Hk : same_primitive_state (nodes s !!! k) (nodes s' !!! k)).
  { apply Forall2_lookup_total_rel; [apply same_primitive_state_refl|exact Hn]. }
  destruct Hk as (_ & _ & Ht & _ & _ & _ & _ & Hc & _).
  unfold GetTemperature, GetThermalConductivity. split; assumption.
Qed.

Lemma BC_Isothermal_Wall_vertex_energy (val_marker iVertex : nat)
    (Twall : su2double) (s : solver) :
  let v := GetVertex geometry val_marker iVertex in
  let iPoint := vertex_Node v in
  let Point_Normal := vertex_Normal_Neighbor v in
  let dist_ij :=
    Coord_distance (nDim s) (GetCoord geometry iPoint) (GetCoord geometry Point_Normal) in
  let s' := BC_Isothermal_Wall_vertex geometry config val_marker Twall iVertex s in
  GetDomain geometry iPoint = true ->
  Energy_Equation config = true ->
  nVar s = (nDim s + 2)%nat ->
  length (Res_Visc s) = nVar s ->
  (iPoint < length (LinSysRes s))%nat ->
  length (LinSysRes s !!! iPoint) = nVar s ->
  (LinSysRes s' !!! iPoint) !!! (nDim s + 1)%nat
  = (LinSysRes s !!! iPoint) !!! (nDim s + 1)%nat
    - GetThermalConductivity (nodes s) iPoint
      * Isothermal_dTdn (nodes s) Point_Normal Twall dist_ij
      * Normal_Area (nDim s) (vertex_Normal v).
Proof.
  intros v iPoint Point_Normal dist_ij s' Hown Henergy Hvar HRes Hi Hblock. subst s'.
  unfold BC_Isothermal_Wall_vertex. cbv zeta. fold v. fold iPoint.
  rewrite Hown, Henergy.
  destruct (BC_wall_prefix geometry config iPoint s) as (Hf2 & _ & _ & _ & _).
  set (s2 := BC_wall_velocity geometry iPoint (BC_wall_zero_scratch config s)) in *.
  destruct (wall_frame_fields config _ _ _ Hf2) as (Hd2 & _).
  destruct (BC_Isothermal_Wall_energy_residual geometry config val_marker iVertex
              iPoint Twall s2) as (Hr3 & Hl3).
  cbv zeta in Hr3, Hl3. fold v in Hr3. fold Point_Normal in Hr3.
  set (s3 := BC_Isothermal_Wall_energy geometry config val_marker iVertex iPoint
               Twall s2) in *.
  assert (H3 : (LinSysRes s3 !!! iPoint) !!! (nDim s + 1)%nat
               = (LinSysRes s !!! iPoint) !!! (nDim s + 1)%nat
                 - GetThermalConductivity (nodes s) iPoint
                   * Isothermal_dTdn (nodes s) Point_Normal Twall dist_ij
                   * Normal_Area (nDim s) (vertex_Normal v)).
  { apply (wall_flux_energy_entry geometry config iPoint); try assumption.
    fold s2. rewrite Hl3, Hr3, Hd2. unfold Isothermal_dTdn.
    destruct (wall_frame_thermal _ _ _ iPoint Hf2) as [_ ->].
    destruct (wall_frame_thermal _ _ _ Point_Normal Hf2) as [-> _].
    reflexivity. }
  destruct (implicit_scheme config); [|exact H3].
  destruct (BC_wall_delete_velocity_rows_summary iPoint s3) as (_ & _ & _ & _ & Hl).
  rewrite Hl. exact H3.
Qed.

(** X18.  [BC_Isothermal_Wall] with the energy equation, at an owned vertex
    whose point is the node of no other owned vertex of the marker: the heat
    flux [k * dTdn * Area] is subtracted from the energy residual of the
    point, with the conductivity [k] of the point, the normal gradient
    [dTdn = -(T_neighbour - Twall)/dist] to the normal neighbour and the area
    of the vertex normal.  With a non-negative conductivity, a positive
    distance and a wall at least as hot as the neighbour, the energy residual
    does not grow. *)
Theorem BC_Isothermal_Wall_heat_flux (val_marker iVertex : nat) (s s' : solver) :
  let v := GetVertex geometry val_marker iVertex in
  let iPoint := vertex_Node v in
  let Point_Normal := vertex_Normal_Neighbor v in
  let Twall :=
    Isothermal_Temperature config (GetMarker_All_TagBound config val_marker)
    / Temperature_Ref config in
  let dist_ij :=
    Coord_distance (nDim s) (GetCoord geometry iPoint) (GetCoord geometry Point_Normal) in
  let k := GetThermalConductivity (nodes s) iPoint in
  let dTdn := - (GetTemperature (nodes s) Point_Normal - Twall) / dist_ij in
  let Area := Normal_Area (nDim s) (vertex_Normal v) in
  BC_Isothermal_Wall geometry config val_marker s = Ok s' ->
  Energy_Equation config = true ->
  nVar s = (nDim s + 2)%nat ->
  length (Res_Visc s) = nVar s ->
  (iPoint < length (LinSysRes s))%nat ->
  length (LinSysRes s !!! iPoint) = nVar s ->
  (iVertex < GetnVertex geometry val_marker)%nat ->
  GetDomain geometry iPoint = true ->
  (forall j, (j < GetnVertex geometry val_marker)%nat -> j <> iVertex ->
     GetDomain geometry (vertex_Node (GetVertex geometry val_marker j)) = true ->
     vertex_Node (GetVertex geometry val_marker j) <> iPoint) ->
  (LinSysRes s' !!! iPoint) !!! (nDim s + 1)%nat
  = (LinSysRes s !!! iPoint) !!! (nDim s + 1)%nat - k * dTdn * Area /\
  (0 <= k -> 0 < dist_ij -> GetTemperature (nodes s) Point_Normal <= Twall ->
   (LinSysRes s' !!! iPoint) !!! (nDim s + 1)%nat
   <= (LinSysRes s !!! iPoint) !!! (nDim s + 1)%nat).
Proof.
  intros v iPoint Point_Normal Twall dist_ij k dTdn Area
    Hok Henergy Hvar HRes Hi Hblock HiV Hown Huniq.
  unfold BC_Isothermal_Wall, for_loop in Hok. cbv zeta in Hok. fold Twall in Hok.
  destruct (decide (WallFunction_Treatment config
                      (GetMarker_All_TagBound config val_marker)
                    <> NO_WALL_FUNCTION)) as [Hwf|Hwf]; [discriminate Hok|].
  cbn [mbind result_bind] in Hok.
  rewrite <- (for_each_total
                (BC_Isothermal_Wall_vertex geometry config val_marker Twall)) in Hok.
  destruct (for_each_wall_marker_vertex geometry config val_marker
              (fun i s => Ok (BC_Isothermal_Wall_vertex geometry config val_marker
                                Twall i s)))
    with (n := GetnVertex geometry val_marker) (iVertex := iVertex) (s := s) (s' := s')
    as (s1 & s2 & Hf1 & Hb & Hf2); try assumption; try lia.
  { intros j s0 s0' Hv0 H0. injection H0 as <-.
    apply BC_Isothermal_Wall_vertex_step, Hv0. }
  injection Hb as <-.
  destruct (wall_frame_fields config _ _ _ Hf1) as (Hd1 & Hn1 & _).
  destruct (wall_frame_thermal _ _ _ iPoint Hf1) as [_ Hk1].
  destruct (wall_frame_thermal _ _ _ Point_Normal Hf1) as [Ht1 _].
  destruct (wall_frame_untouched config iPoint s s1 Hf1) as (_ & Hl1 & Hlen1).
  destruct (wall_frame_untouched config iPoint _ s' Hf2) as (_ & Hl2 & _).
  destruct Hf1 as (_ & _ & Hr1 & _).
  pose proof (BC_Isothermal_Wall_vertex_energy val_marker iVertex Twall s1) as He.
  cbv zeta in He. fold v in He. fold iPoint in He. fold Point_Normal in He.
  unfold Isothermal_dTdn in He.
  rewrite Hd1, Hn1, Hr1, Hl1, Hlen1, Hk1, Ht1 in He.
  specialize (He Hown Henergy Hvar HRes Hi Hblock).
  fold dist_ij k dTdn Area in He.
  assert (Heq : (LinSysRes s' !!! iPoint) !!! (nDim s + 1)%nat
                = (LinSysRes s !!! iPoint) !!! (nDim s + 1)%nat - k * dTdn * Area)
    by (rewrite Hl2; exact He).
  split; [exact Heq|].
  intros Hk Hdist HT. rewrite Heq.
  assert (HArea : 0 <= Area) by apply sqrt_pos.
  assert (HdTdn : 0 <= dTdn).
  { subst dTdn. unfold Rdiv. apply Rmult_le_pos; [lra|].
    left. apply Rinv_0_lt_compat. exact Hdist. }
  pose proof (Rmult_le_pos _ _ (Rmult_le_pos _ _ Hk HdTdn) HArea) as Hflux.
  lra.
Qed.

(** X19.  [BC_ConjugateHeat_Interface] with the energy equation, at an owned
    vertex whose point is the node of no other owned vertex of the marker,
    imposes the wall temperature strongly: the temperature of the coupling
    is computed for the vertex, the energy entries of the residual block and
    of the truncation error of the point are zero, and the energy entry of
    the old solution holds that temperature.  With a direct coupling it is
    the first conjugate variable of the vertex divided by the reference
    temperature. *)
Theorem BC_ConjugateHeat_Interface_strong_temperature (val_marker iVertex : nat)
    (s s' : solver) :
  let iPoint := vertex_Node (GetVertex geometry val_marker iVertex) in
  BC_ConjugateHeat_Interface geometry config val_marker s = Ok s' ->
  Energy_Equation config = true ->
  nVar s = (nDim s + 2)%nat ->
  (iVertex < GetnVertex geometry val_marker)%nat ->
  GetDomain geometry iPoint = true ->
  (forall j, (j < GetnVertex geometry val_marker)%nat -> j <> iVertex ->
     GetDomain geometry (vertex_Node (GetVertex geometry val_marker j)) = true ->
     vertex_Node (GetVertex geometry val_marker j) <> iPoint) ->
  exists Twall,
    CHT_wall_temperature geometry config val_marker iVertex iPoint s = Ok Twall /\
    (LinSysRes s' !!! iPoint) !!! (nDim s + 1)%nat = 0 /\
    Res_TruncError (nodes s' !!! iPoint) !!! (nDim s + 1)%nat = 0 /\
    ((nDim s + 1 < length (Solution_Old (nodes s' !!! iPoint)))%nat ->
     Solution_Old (nodes s' !!! iPoint) !!! (nDim s + 1)%nat = Twall) /\
    (Kind_CHT_Coupling config = DIRECT_TEMPERATURE_NEUMANN_HEATFLUX \/
     Kind_CHT_Coupling config = DIRECT_TEMPERATURE_ROBIN_HEATFLUX ->
     Twall = GetConjugateHeatVariable (HeatConjugateVar s) val_marker iVertex 0
             / Temperature_Ref config).
Proof.
  intros iPoint Hok Henergy Hvar HiV Hown Huniq.
  unfold BC_ConjugateHeat_Interface in Hok. cbv zeta in Hok.
  destruct (decide (WallFunction_Treatment config
                      (GetMarker_All_TagBound config val_marker)
                    <> NO_WALL_FUNCTION)) as [Hwf|Hwf]; [discriminate Hok|].
  cbn [mbind result_bind] in Hok.
  destruct (for_each_wall_marker_vertex geometry config val_marker
              (BC_ConjugateHeat_Interface_vertex geometry config val_marker))
    with (n := GetnVertex geometry val_marker) (iVertex := iVertex) (s := s) (s' := s')
    as (s1 & s2 & Hf1 & Hb & Hf2); try assumption; try lia.
  { intros j s0 s0' _ H0. apply BC_ConjugateHeat_Interface_vertex_step, H0. }
  destruct (BC_ConjugateHeat_Interface_vertex_inv geometry config val_marker iVertex
              s1 s2 Hb Hown) as (s3 & _ & _ & Hn3 & Hl3 & He).
  destruct (He Henergy) as (Twall & HT & H1 & H2 & H3).
  fold iPoint in HT, H1, H2, H3.
  destruct (wall_frame_fields config _ _ _ Hf1) as (Hd1 & _).
  destruct (wall_frame_untouched config iPoint _ s' Hf2) as (Hn2 & Hl2 & _).
  rewrite (CHT_wall_temperature_frame geometry config _ val_marker iVertex iPoint
             s s1 Hf1) in HT.
  rewrite Hd1, <- Hl3, <- Hn3 in *.
  exists Twall. rewrite Hn2, Hl2.
  split; [exact HT|]. split; [exact H1|]. split; [exact H2|]. split; [exact H3|].
  intros Hkind. unfold CHT_wall_temperature in HT. cbv zeta in HT.
  destruct Hkind as [Hkind|Hkind]; rewrite Hkind in HT; cbn in HT;
    injection HT as <-; reflexivity.
Qed.

End Wall_energy_more.

(** ** Wall boundary conditions: when the routines return *)

Lemma for_each_ok_in {S} (body : nat -> S -> result S) (idx : list nat) (s : S) :
  (forall i s, i ∈ idx -> exists s', body i s = Ok s') ->
  exists s', for_each body idx s = Ok s'.
Proof.
  revert s. induction idx as [|j idx IH]; intros s Hbody.
  - exists s. reflexivity.
  - cbn. destruct (Hbody j s) as [s1 ->]; [apply elem_of_cons; left; reflexivity|].
    cbn. apply IH. intros i s0 Hi. apply Hbody. apply elem_of_cons. right. exact Hi.
Qed.

Lemma for_each_ext {S} (body body' : nat -> S -> result S) (idx : list nat) (s : S) :
  (forall i s, body i s = body' i s) ->
  for_each body idx s = for_each body' idx s.
Proof.
  intros Hbody. revert s. induction idx as [|j idx IH]; intros s; [reflexivity|].
  cbn. rewrite Hbody. destruct (body' j s); [cbn; apply IH|reflexivity].
Qed.

Section Wall_returns.
Context {CSysMatrix : Type} `{!CSysMatrix_interface CSysMatrix}.
Variables (geometry : CGeometry) (config : CConfig).

Local Abbreviation solver := (CIncNSSolver CSysMatrix).

Lemma BC_ConjugateHeat_Interface_vertex_ok (val_marker iVertex : nat) (s : solver) :
  GetDomain geometry (vertex_Node (GetVertex geometry val_marker iVertex)) = false \/
  Energy_Equation config = false \/
  ~ unrecognised_CHT_coupling (Kind_CHT_Coupling config) ->
  exists s', BC_ConjugateHeat_Interface_vertex geometry config val_marker iVertex s
             = Ok s'.
Proof.
  intros Hcase. unfold BC_ConjugateHeat_Interface_vertex. cbv zeta.
  destruct (GetDomain geometry _); [|eexists; reflexivity].
  destruct (Energy_Equation config); [|eexists; reflexivity].
  destruct Hcase as [Hc|[Hc|Hkind]]; [discriminate Hc|discriminate Hc|].
  unfold CHT_wall_temperature. cbv zeta.
  destruct (Kind_CHT_Coupling config) eqn:Hk;
    try (eexists; reflexivity).
  exfalso. apply Hkind. eexists. reflexivity.
Qed.

Lemma BC_ConjugateHeat_Interface_ok (val_marker : nat) (s : solver) :
  WallFunction_Treatment config (GetMarker_All_TagBound config val_marker)
  = NO_WALL_FUNCTION ->
  Energy_Equation config = false \/
  ~ unrecognised_CHT_coupling (Kind_CHT_Coupling config) \/
  (forall iVertex, (iVertex < GetnVertex geometry val_marker)%nat ->
     GetDomain geometry (vertex_Node (GetVertex geometry val_marker iVertex)) = false) ->
  exists s', BC_ConjugateHeat_Interface geometry config val_marker s = Ok s'.
Proof.
  intros Hwf Hcase. unfold BC_ConjugateHeat_Interface. cbv zeta.
  rewrite decide_False by (intros Hc; exact (Hc Hwf)).
  cbn [mbind result_bind]. apply for_each_ok_in. intros i s0 Hi.
  apply elem_of_seq in Hi. apply BC_ConjugateHeat_Interface_vertex_ok.
  destruct Hcase as [Hc|[Hc|Hc]]; [right; left; exact Hc|right; right; exact Hc|].
  left. apply Hc. lia.
Qed.

(** X20.  [BC_ConjugateHeat_Interface] returns exactly when the marker has no
    wall-function treatment and either the energy equation is off, or the
    coupling kind is one of the four kinds of the routine, or no vertex of
    the marker has an owned node; in every other case it aborts. *)
Theorem BC_ConjugateHeat_Interface_returns (val_marker : nat) (s : solver) :
  (exists s', BC_ConjugateHeat_Interface geometry config val_marker s = Ok s') <->
  WallFunction_Treatment config (GetMarker_All_TagBound config val_marker)
  = NO_WALL_FUNCTION /\
  (Energy_Equation config = false \/
   ~ unrecognised_CHT_coupling (Kind_CHT_Coupling config) \/
   forall iVertex, (iVertex < GetnVertex geometry val_marker)%nat ->
     GetDomain geometry (vertex_Node (GetVertex geometry val_marker iVertex)) = false).
Proof.
  split.
  - intros [s' Hok].
    assert (Hwf : WallFunction_Treatment config
                    (GetMarker_All_TagBound config val_marker) = NO_WALL_FUNCTION).
    { destruct (decide (WallFunction_Treatment config
                          (GetMarker_All_TagBound config val_marker)
                        = NO_WALL_FUNCTION)) as [H|H]; [exact H|].
      unfold BC_ConjugateHeat_Interface in Hok. cbv zeta in Hok.
      rewrite decide_True in Hok by exact H. discriminate Hok. }
    split; [exact Hwf|].
    destruct (Energy_Equation config) eqn:Henergy; [|left; reflexivity]. right.
    destruct (Kind_CHT_Coupling config) eqn:Hkind;
      try (left; intros [code Hc]; discriminate Hc).
    right. intros iVertex Hi.
    destruct (GetDomain geometry (vertex_Node (GetVertex geometry val_marker iVertex)))
      eqn:Hown; [|reflexivity].
    exfalso. unfold BC_ConjugateHeat_Interface in Hok. cbv zeta in Hok.
    rewrite decide_False in Hok by (intros Hc; exact (Hc Hwf)).
    cbn [mbind result_bind] in Hok.
    rewrite (for_each_fatal _
               (fun iVertex =>
                  GetDomain geometry
                    (vertex_Node (GetVertex geometry val_marker iVertex)))
               "Unknown CHT coupling method."
               "CIncNSSolver::BC_ConjugateHeat_Interface") in Hok.
    + discriminate Hok.
    + intros i s0. apply BC_ConjugateHeat_Interface_vertex_unrecognised;
        [exact Henergy|]. rewrite Hkind. eexists. reflexivity.
    + exists iVertex. split; [apply elem_of_seq; lia|exact Hown].
  - intros [Hwf Hcase]. apply BC_ConjugateHeat_Interface_ok; assumption.
Qed.

(** X21.  Without the energy equation the three wall routines coincide on a
    marker without wall-function treatment: each imposes the no-slip
    condition and nothing else, and the wall heat flux, the wall temperature
    and the coupling kind are not used. *)
Theorem wall_BC_without_energy_equation (val_marker : nat) (s : solver) :
  Energy_Equation config = false ->
  WallFunction_Treatment config (GetMarker_All_TagBound config val_marker)
  = NO_WALL_FUNCTION ->
  BC_Isothermal_Wall geometry config val_marker s
  = BC_HeatFlux_Wall geometry config val_marker s /\
  BC_ConjugateHeat_Interface geometry config val_marker s
  = BC_HeatFlux_Wall geometry config val_marker s.
Proof.
  intros Henergy Hwf.
  unfold BC_Isothermal_Wall, BC_ConjugateHeat_Interface, BC_HeatFlux_Wall. cbv zeta.
  rewrite !decide_False by (intros Hc; exact (Hc Hwf)).
  cbn [mbind result_bind]. split.
  - f_equal. apply for_loop_ext. intros i s0 _.
    unfold BC_Isothermal_Wall_vertex, BC_HeatFlux_Wall_vertex. cbv zeta.
    rewrite Henergy. reflexivity.
  - unfold for_loop.
    rewrite <- (for_each_total
                  (BC_HeatFlux_Wall_vertex geometry config val_marker
                     (Wall_HeatFlux config (GetMarker_All_TagBound config val_marker)
                      / Heat_Flux_Ref config))).
    apply for_each_ext. intros i s0.
    unfold BC_ConjugateHeat_Interface_vertex, BC_HeatFlux_Wall_vertex. cbv zeta.
    rewrite Henergy. destruct (GetDomain geometry _); reflexivity.
Qed.

End Wall_returns.

(** X22.  The wall temperature of the flux-weighted coupling (line 1267) is a
    weighted mean: for non-negative conductance factors that are not both
    zero it lies between the temperature of the normal neighbour and the
    conjugate temperature. *)
Theorem CHT_averaged_Twall_between
    (There Tconjugate HF_FactorHere HF_FactorConjugate : su2double) :
  0 <= HF_FactorHere -> 0 <= HF_FactorConjugate ->
  0 < HF_FactorHere + HF_FactorConjugate ->
  Rmin There Tconjugate
  <= CHT_averaged_Twall There Tconjugate HF_FactorHere HF_FactorConjugate
  <= Rmax There Tconjugate.
Proof.
  intros Hh Hc Hsum. unfold CHT_averaged_Twall.
  set (d := HF_FactorHere + HF_FactorConjugate) in *.
  pose proof (Rmin_l There Tconjugate) as Hm1.
  pose proof (Rmin_r There Tconjugate) as Hm2.
  pose proof (Rmax_l There Tconjugate) as HM1.
  pose proof (Rmax_r There Tconjugate) as HM2.
  set (m := Rmin There Tconjugate) in *. set (M := Rmax There Tconjugate) in *.
  assert (Hinv : 0 < / d) by (apply Rinv_0_lt_compat; exact Hsum).
  assert (Hlo : (There * HF_FactorHere + Tconjugate * HF_FactorConjugate) / d - m
                = ((There - m) * HF_FactorHere + (Tconjugate - m) * HF_FactorConjugate)
                  * / d).
  { subst d. field. lra. }
  assert (Hhi : M - (There * HF_FactorHere + Tconjugate * HF_FactorConjugate) / d
                = ((M - There) * HF_FactorHere + (M - Tconjugate) * HF_FactorConjugate)
                  * / d).
  { subst d. field. lra. }
  assert (H1 : 0 <= (There - m) * HF_FactorHere) by (apply Rmult_le_pos; lra).
  assert (H2 : 0 <= (Tconjugate - m) * HF_FactorConjugate) by (apply Rmult_le_pos; lra).
  assert (H3 : 0 <= (M - There) * HF_FactorHere) by (apply Rmult_le_pos; lra).
  assert (H4 : 0 <= (M - Tconjugate) * HF_FactorConjugate) by (apply Rmult_le_pos; lra).
  assert (Hlo' : 0 <= (There * HF_FactorHere + Tconjugate * HF_FactorConjugate) / d - m)
    by (rewrite Hlo; apply Rmult_le_pos; lra).
  assert (Hhi' : 0 <= M - (There * HF_FactorHere + Tconjugate * HF_FactorConjugate) / d)
    by (rewrite Hhi; apply Rmult_le_pos; lra).
  split; lra.
Qed.

(** The wall vertex of the example mesh under the heat-flux wall. *)
Lemma BC_HeatFlux_Wall_energy_residual_witness :
  let s := example_solver 1 example_steady_config in
  let s' :=
    for_loop (GetnVertex (example_geometry 1) 0)
      (@BC_HeatFlux_Wall_vertex unit no_matrix (example_geometry 1)
         example_steady_config 0
         (Wall_HeatFlux example_steady_config
            (GetMarker_All_TagBound example_steady_config 0)
          / Heat_Flux_Ref example_steady_config)) s in
  let v := GetVertex (example_geometry 1) 0 0 in
  (LinSysRes s' !!! vertex_Node v) !!! (nDim s + 1)%nat
  = (LinSysRes s !!! vertex_Node v) !!! (nDim s + 1)%nat
    - Wall_HeatFlux example_steady_config
        (GetMarker_All_TagBound example_steady_config 0)
      / Heat_Flux_Ref example_steady_config
      * Normal_Area (nDim s) (vertex_Normal v).
Proof.
  intros s s' v.
  assert (Hok : @BC_HeatFlux_Wall unit no_matrix (example_geometry 1)
                  example_steady_config 0 s = Ok s') by reflexivity.
  assert (Hvar : nVar s = (nDim s + 2)%nat) by reflexivity.
  assert (HRes : length (Res_Visc s) = nVar s) by reflexivity.
  assert (Hi : (vertex_Node v < length (LinSysRes s))%nat) by (cbn; lia).
  assert (Hblock : length (LinSysRes s !!! vertex_Node v) = nVar s) by reflexivity.
  assert (HiV : (0 < GetnVertex (example_geometry 1) 0)%nat) by (cbn; lia).
  assert (Hown : GetDomain (example_geometry 1) (vertex_Node v) = true) by reflexivity.
  assert (Huniq : forall j, (j < GetnVertex (example_geometry 1) 0)%nat -> j <> 0%nat ->
            GetDomain (example_geometry 1)
              (vertex_Node (GetVertex (example_geometry 1) 0 j)) = true ->
            vertex_Node (GetVertex (example_geometry 1) 0 j) <> vertex_Node v).
  { intros j Hj Hne. cbn in Hj. lia. }
  assert (Henergy : Energy_Equation example_steady_config = true) by reflexivity.
  exact (proj1 (@BC_HeatFlux_Wall_energy_residual unit no_matrix (example_geometry 1)
                  example_steady_config 0 0 s s' Hok Hvar HRes Hi Hblock HiV Hown
                  Huniq) Henergy).
Defined.

(** The wall vertex of the example mesh under the isothermal wall. *)
Lemma BC_Isothermal_Wall_heat_flux_witness :
  let s := example_solver 1 example_steady_config in
  let Twall :=
    Isothermal_Temperature example_steady_config
      (GetMarker_All_TagBound example_steady_config 0)
    / Temperature_Ref example_steady_config in
  let s' :=
    for_loop (GetnVertex (example_geometry 1) 0)
      (@BC_Isothermal_Wall_vertex unit no_matrix (example_geometry 1)
         example_steady_config 0 Twall) s in
  let v := GetVertex (example_geometry 1) 0 0 in
  let iPoint := vertex_Node v in
  let Point_Normal := vertex_Normal_Neighbor v in
  let dist_ij :=
    Coord_distance (nDim s) (GetCoord (example_geometry 1) iPoint)
      (GetCoord (example_geometry 1) Point_Normal) in
  (LinSysRes s' !!! iPoint) !!! (nDim s + 1)%nat
  = (LinSysRes s !!! iPoint) !!! (nDim s + 1)%nat
    - GetThermalConductivity (nodes s) iPoint
      * (- (GetTemperature (nodes s) Point_Normal - Twall) / dist_ij)
      * Normal_Area (nDim s) (vertex_Normal v).
Proof.
  intros s Twall s' v iPoint Point_Normal dist_ij.
  assert (Hok : @BC_Isothermal_Wall unit no_matrix (example_geometry 1)
                  example_steady_config 0 s = Ok s').
  { unfold BC_Isothermal_Wall. cbv zeta.
    rewrite decide_False by (intros Hc; apply Hc; reflexivity). reflexivity. }
  assert (Henergy : Energy_Equation example_steady_config = true) by reflexivity.
  assert (Hvar : nVar s = (nDim s + 2)%nat) by reflexivity.
  assert (HRes : length (Res_Visc s) = nVar s) by reflexivity.
  assert (Hi : (iPoint < length (LinSysRes s))%nat) by (cbn; lia).
  assert (Hblock : length (LinSysRes s !!! iPoint) = nVar s) by reflexivity.
  assert (HiV : (0 < GetnVertex (example_geometry 1) 0)%nat) by (cbn; lia).
  assert (Hown : GetDomain (example_geometry 1) iPoint = true) by reflexivity.
  assert (Huniq : forall j, (j < GetnVertex (example_geometry 1) 0)%nat -> j <> 0%nat ->
            GetDomain (example_geometry 1)
              (vertex_Node (GetVertex (example_geometry 1) 0 j)) = true ->
            vertex_Node (GetVertex (example_geometry 1) 0 j) <> iPoint).
  { intros j Hj Hne. cbn in Hj. lia. }
  exact (proj1 (@BC_Isothermal_Wall_heat_flux unit no_matrix (example_geometry 1)
                  example_steady_config 0 0 s s' Hok Henergy Hvar HRes Hi Hblock HiV
                  Hown Huniq)).
Defined.

(** The wall vertex of the example mesh as a conjugate-heat interface with a
    direct coupling: the routine returns and the energy residual of the wall
    point is zero. *)
Lemma BC_ConjugateHeat_Interface_strong_temperature_witness :
  let s := example_solver 1 example_steady_config in
  exists s',
    @BC_ConjugateHeat_Interface unit no_matrix (example_geometry 1)
      example_steady_config 0 s = Ok s' /\
    (LinSysRes s' !!! 0%nat) !!! 3%nat = 0.
Proof.
  intros s.
  assert (Hwf : WallFunction_Treatment example_steady_config
                  (GetMarker_All_TagBound example_steady_config 0)
                = NO_WALL_FUNCTION) by reflexivity.
  assert (Hkind : Energy_Equation example_steady_config = false \/
            ~ unrecognised_CHT_coupling (Kind_CHT_Coupling example_steady_config) \/
            (forall iVertex, (iVertex < GetnVertex (example_geometry 1) 0)%nat ->
               GetDomain (example_geometry 1)
                 (vertex_Node (GetVertex (example_geometry 1) 0 iVertex)) = false)).
  { right. left. intros [code Hc]. discriminate Hc. }
  destruct (@BC_ConjugateHeat_Interface_ok unit no_matrix (example_geometry 1)
              example_steady_config 0 s Hwf Hkind) as [s' Hok].
  exists s'. split; [exact Hok|].
  assert (Henergy : Energy_Equation example_steady_config = true) by reflexivity.
  assert (Hvar : nVar s = (nDim s + 2)%nat) by reflexivity.
  assert (HiV : (0 < GetnVertex (example_geometry 1) 0)%nat) by (cbn; lia).
  assert (Hown : GetDomain (example_geometry 1)
                   (vertex_Node (GetVertex (example_geometry 1) 0 0)) = true)
    by reflexivity.
  assert (Huniq : forall j, (j < GetnVertex (example_geometry 1) 0)%nat -> j <> 0%nat ->
            GetDomain (example_geometry 1)
              (vertex_Node (GetVertex (example_geometry 1) 0 j)) = true ->
            vertex_Node (GetVertex (example_geometry 1) 0 j)
            <> vertex_Node (GetVertex (example_geometry 1) 0 0)).
  { intros j Hj Hne. cbn in Hj. lia. }
  destruct (@BC_ConjugateHeat_Interface_strong_temperature unit no_matrix
              (example_geometry 1) example_steady_config 0 0 s s' Hok Henergy Hvar
              HiV Hown Huniq) as (Twall & _ & Hres & _).
  exact Hres.
Defined.

(** The example marker with a direct coupling and no wall function. *)
Lemma BC_ConjugateHeat_Interface_returns_witness :
  exists s',
    @BC_ConjugateHeat_Interface unit no_matrix (example_geometry 1)
      example_steady_config 0 (example_solver 1 example_steady_config) = Ok s'.
Proof.
  apply (proj2 (@BC_ConjugateHeat_Interface_returns unit no_matrix (example_geometry 1)
                  example_steady_config 0 (example_solver 1 example_steady_config))).
  split; [reflexivity|]. right. left. intros [code Hc]. discriminate Hc.
Defined.

(** The example marker without the energy equation. *)
Lemma wall_BC_without_energy_equation_witness :
  let s := example_solver 1 example_no_energy_config in
  @BC_Isothermal_Wall unit no_matrix (example_geometry 1) example_no_energy_config 0 s
  = @BC_HeatFlux_Wall unit no_matrix (example_geometry 1) example_no_energy_config 0 s.
Proof.
  intros s.
  assert (Henergy : Energy_Equation example_no_energy_config = false) by reflexivity.
  assert (Hwf : WallFunction_Treatment example_no_energy_config
                  (GetMarker_All_TagBound example_no_energy_config 0)
                = NO_WALL_FUNCTION) by reflexivity.
  exact (proj1 (@wall_BC_without_energy_equation unit no_matrix (example_geometry 1)
                  example_no_energy_config 0 s Henergy Hwf)).
Defined.

(** A neighbour at 350, a conjugate temperature of 300, factors 1 and 3. *)
Lemma CHT_averaged_Twall_between_witness :
  Rmin 350 300 <= CHT_averaged_Twall 350 300 1 3 <= Rmax 350 300.
Proof. apply CHT_averaged_Twall_between; lra. Defined.

(** ** SetPrimitive_Variables *)

Lemma Residual_total_zero_blocks (v : CSysVector) (iVar : nat) :
  Residual_total (fmap (M := list) (fun _ : su2double => 0) <$> v) iVar = 0.
Proof.
  unfold Residual_total. induction v as [|b v IH]; [reflexivity|].
  cbn [fmap list_fmap foldr]. cbn in IH. rewrite IH.
  rewrite list_lookup_total_alt, list_lookup_fmap.
  destruct (b !! iVar); cbn; lra.
Qed.

Section SetPrimitive_Variables_properties.
Context {CSysMatrix CFluidModel : Type} `{!CIncNSVariable_interface CFluidModel}.
Variables (config : CConfig) (TURB_SOL : option CTurbVariable).
Variables (hybrid_RANS_LES Output : bool).

Local Abbreviation point_step :=
  (SetPrimitive_Variables_point (CSysMatrix := CSysMatrix)
     config TURB_SOL hybrid_RANS_LES Output).

(** One point: what is written of the solver, and the counter. *)
Lemma SetPrimitive_Variables_point_summary (iPoint : nat)
    (st : PrimVar_state CSysMatrix CFluidModel) :
  let st' := point_step iPoint st in
  pv_solver st'
  = set_LinSysRes (LinSysRes (pv_solver st'))
      (set_nodes (nodes (pv_solver st')) (pv_solver st)) /\
  LinSysRes (pv_solver st')
  = (if Output then LinSysRes (pv_solver st)
     else alter (fmap (fun _ => 0)) iPoint (LinSysRes (pv_solver st))) /\
  (nonPhysicalPoints st <= nonPhysicalPoints st' <= S (nonPhysicalPoints st))%nat /\
  ((forall i ev ke fm nd, fst (fst (SetPrimVar i ev ke fm nd)) = true) ->
   nonPhysicalPoints st' = nonPhysicalPoints st).
Proof.
  cbv zeta. unfold SetPrimitive_Variables_point. cbv zeta.
  destruct (match TURB_SOL with Some _ => _ | None => _ end) as [[ev ke] des].
  destruct (SetPrimVar iPoint ev ke (pv_FluidModel st) (nodes (pv_solver st)))
    as [[physical nd] fm] eqn:Hprim.
  cbn [pv_solver nonPhysicalPoints].
  split; [destruct (pv_solver st), Output; reflexivity|].
  split; [destruct Output; reflexivity|].
  split; [destruct physical; lia|].
  intros Hphys. specialize (Hphys iPoint ev ke (pv_FluidModel st) (nodes (pv_solver st))).
  rewrite Hprim in Hphys. cbn in Hphys. rewrite Hphys. reflexivity.
Qed.

Lemma SetPrimitive_Variables_loop (n : nat)
    (st : PrimVar_state CSysMatrix CFluidModel) :
  let st' := for_loop n point_step st in
  pv_solver st'
  = set_LinSysRes (LinSysRes (pv_solver st'))
      (set_nodes (nodes (pv_solver st')) (pv_solver st)) /\
  LinSysRes (pv_solver st')
  = (if Output then LinSysRes (pv_solver st)
     else for_loop n (fun iPoint v => alter (fmap (fun _ => 0)) iPoint v)
            (LinSysRes (pv_solver st))) /\
  (nonPhysicalPoints st <= nonPhysicalPoints st' <= nonPhysicalPoints st + n)%nat /\
  ((forall i ev ke fm nd, fst (fst (SetPrimVar i ev ke fm nd)) = true) ->
   nonPhysicalPoints st' = nonPhysicalPoints st).
Proof.
  cbv zeta. induction n as [|n IH].
  - rewrite !for_loop_0. split; [destruct (pv_solver st); reflexivity|].
    split; [destruct Output; reflexivity|]. split; [lia|reflexivity].
  - rewrite !for_loop_S. destruct IH as (Hs & Hl & Hc & Hp).
    destruct (SetPrimitive_Variables_point_summary n (for_loop n point_step st))
      as (Hs' & Hl' & Hc' & Hp').
    cbv zeta in Hs', Hl', Hc', Hp'.
    set (st1 := for_loop n point_step st) in *.
    set (st2 := point_step n st1) in *.
    split; [|split; [|split]].
    + rewrite Hs' at 1. rewrite Hs at 1. destruct (pv_solver st). reflexivity.
    + rewrite Hl', Hl. destruct Output; reflexivity.
    + lia.
    + intros Hphys. rewrite (Hp' Hphys). apply Hp, Hphys.
Qed.

(** Not called for output, the routine zeroes the block of every point. *)
Lemma SetPrimitive_Variables_zero_residual (s : CIncNSSolver CSysMatrix)
    (FluidModel : CFluidModel) :
  Output = false ->
  let s' := pv_solver (SetPrimitive_Variables config TURB_SOL hybrid_RANS_LES Output
                         s FluidModel) in
  nPoint s' = nPoint s /\ nVar s' = nVar s /\
  forall iPoint,
    LinSysRes s' !! iPoint
    = if decide (iPoint < nPoint s)%nat
      then fmap (M := list) (fun _ : su2double => 0) <$> LinSysRes s !! iPoint
      else LinSysRes s !! iPoint.
Proof.
  intros HO s'. subst s'. unfold SetPrimitive_Variables.
  destruct (SetPrimitive_Variables_loop (nPoint s) (mkPrimVar_state s FluidModel 0 0 0 0))
    as (Hs & Hl & _).
  cbv zeta in Hs, Hl. cbn [pv_solver] in Hs, Hl.
  split; [rewrite Hs; reflexivity|]. split; [rewrite Hs; reflexivity|].
  intros iPoint. rewrite Hl, HO.
  apply (for_loop_pointwise (fun _ => fmap (fun _ => 0))).
Qed.

(** X23.  [SetPrimitive_Variables] writes the points and the residual vector
    of the solver and nothing else.  Unless it is called for output, it
    zeroes the residual block of every point below [nPoint] and keeps the
    size of every block; called for output it leaves the residual vector
    alone.  The number it returns, the count of the points whose state was
    reported as not physical, is at most [nPoint], and it is 0 when every
    state is reported as physical. *)
Theorem SetPrimitive_Variables_residual_and_count (s : CIncNSSolver CSysMatrix)
    (FluidModel : CFluidModel) :
  let st := SetPrimitive_Variables config TURB_SOL hybrid_RANS_LES Output s FluidModel in
  let s' := pv_solver st in
  s' = set_LinSysRes (LinSysRes s') (set_nodes (nodes s') s) /\
  (Output = true -> LinSysRes s' = LinSysRes s) /\
  (Output = false ->
   length (LinSysRes s') = length (LinSysRes s) /\
   forall iPoint,
     LinSysRes s' !! iPoint
     = if decide (iPoint < nPoint s)%nat
       then fmap (M := list) (fun _ : su2double => 0) <$> LinSysRes s !! iPoint
       else LinSysRes s !! iPoint) /\
  (nonPhysicalPoints st <= nPoint s)%nat /\
  ((forall i ev ke fm nd, fst (fst (SetPrimVar i ev ke fm nd)) = true) ->
   nonPhysicalPoints st = 0%nat).
Proof.
  intros st s'. subst s' st. unfold SetPrimitive_Variables.
  destruct (SetPrimitive_Variables_loop (nPoint s) (mkPrimVar_state s FluidModel 0 0 0 0))
    as (Hs & Hl & Hc & Hp).
  cbv zeta in Hs, Hl, Hc, Hp. cbn [pv_solver nonPhysicalPoints] in Hs, Hl, Hc, Hp.
  split; [exact Hs|].
  split; [intros HO; rewrite Hl, HO; reflexivity|].
  split.
  { intros HO. rewrite Hl, HO.
    split; [apply (length_for_loop_pointwise (fun _ => fmap (fun _ => 0)))|].
    intros iPoint. apply (for_loop_pointwise (fun _ => fmap (fun _ => 0))). }
  split; [lia|exact Hp].
Qed.

End SetPrimitive_Variables_properties.

Section Preprocessing_then_viscous.
Context {CSysMatrix : Type} `{!CSysMatrix_interface CSysMatrix}.
Context {CFluidModel : Type} `{!CIncNSVariable_interface CFluidModel}.
Context {CNumerics : Type} `{!CNumerics_interface CNumerics}.
Variables (geometry : CGeometry) (config : CConfig).
Variables (TURB_SOL : option CTurbVariable) (hybrid_RANS_LES : bool).
Variable TURB_SOL_Solution : list (list su2double).

(** X24.  [SetPrimitive_Variables], not called for output, followed by
    [Viscous_Residual]: whatever the residual vector held before, every
    component of the residual sums to zero over the points afterwards, on a
    mesh whose edges join points of the mesh and for a residual vector with
    one block of [nVar] entries per point. *)
Theorem SetPrimitive_Variables_Viscous_Residual_total
    (s : CIncNSSolver CSysMatrix) (FluidModel : CFluidModel)
    (numerics : CNumerics) (iVar : nat) :
  edges_in_mesh geometry (nPoint s) ->
  LinSysRes_allocated s ->
  let s1 := pv_solver (SetPrimitive_Variables config TURB_SOL hybrid_RANS_LES false
                         s FluidModel) in
  let s2 := fst (Viscous_Residual geometry config TURB_SOL_Solution s1 numerics) in
  LinSysRes_allocated s2 /\ Residual_total (LinSysRes s2) iVar = 0.
Proof.
  intros Hmesh [Hlen Hblocks] s1 s2.
  destruct (SetPrimitive_Variables_zero_residual config TURB_SOL
              hybrid_RANS_LES false s FluidModel eq_refl) as (HnP & HnV & Hl1).
  fold s1 in HnP, HnV, Hl1.
  assert (Hzero : LinSysRes s1 = fmap (M := list) (fun _ : su2double => 0) <$> LinSysRes s).
  { apply list_eq. intros i. rewrite Hl1, list_lookup_fmap.
    case_decide as Hi; [reflexivity|].
    rewrite (proj2 (lookup_ge_None (LinSysRes s) i)) by lia. reflexivity. }
  assert (Halloc1 : LinSysRes_allocated s1).
  { split.
    - rewrite Hzero, length_fmap, HnP. exact Hlen.
    - rewrite Hzero, HnV. apply Forall_fmap.
      eapply Forall_impl; [exact Hblocks|]. intros b Hb. cbn.
      rewrite length_fmap. exact Hb. }
  destruct (Viscous_Residual_Residual_total geometry config TURB_SOL_Solution
              s1 numerics iVar) as [Halloc2 Htot]; [rewrite HnP; exact Hmesh|exact Halloc1|].
  split; [exact Halloc2|]. subst s2. rewrite Htot, Hzero.
  apply Residual_total_zero_blocks.
Qed.

End Preprocessing_then_viscous.

(** The example solver, with a fluid that reports the points of odd index as
    not physical: the residual vector keeps its size. *)
Lemma SetPrimitive_Variables_residual_and_count_witness :
  let s := example_solver 1 example_steady_config in
  let st := @SetPrimitive_Variables unit unit example_variable_interface
              example_steady_config None false false s tt in
  length (LinSysRes (pv_solver st)) = length (LinSysRes s).
Proof.
  intros s st.
  exact (proj1 (proj1 (proj2 (proj2
           (@SetPrimitive_Variables_residual_and_count unit unit
              example_variable_interface example_steady_config None false false s tt)))
           eq_refl)).
Defined.

(** The example mesh and flux functor. *)
Lemma SetPrimitive_Variables_Viscous_Residual_total_witness :
  let s := example_solver 1 example_steady_config in
  let s1 := pv_solver (@SetPrimitive_Variables unit unit example_variable_interface
                         example_steady_config None false false s tt) in
  let s2 := fst (@Viscous_Residual unit no_matrix _ example_numerics
                   (example_geometry 1) example_steady_config [] s1 ([], [])) in
  Residual_total (LinSysRes s2) 1 = 0.
Proof.
  intros s s1 s2.
  assert (Hmesh : edges_in_mesh (example_geometry 1) (nPoint s)).
  { unfold edges_in_mesh. cbn. repeat constructor; lia. }
  assert (Halloc : LinSysRes_allocated s).
  { apply (@new_CIncNSSolver_LinSysRes_allocated unit no_matrix). }
  exact (proj2 (@SetPrimitive_Variables_Viscous_Residual_total unit no_matrix unit
                  example_variable_interface _ example_numerics (example_geometry 1)
                  example_steady_config None false [] s tt ([], []) 1 Hmesh Halloc)).
Defined.

(** ** SetTime_Step: the physical time step of a dual-time run *)

(** [acc = min(acc, q(i))] over a loop ends below the start value and below
    every [q(i)]. *)
Lemma for_loop_Rmin_le (q : nat -> su2double) (n : nat) (a : su2double) :
  for_loop n (fun i acc => Rmin acc (q i)) a <= a /\
  forall i, (i < n)%nat -> for_loop n (fun i acc => Rmin acc (q i)) a <= q i.
Proof.
  induction n as [|n [IH1 IH2]].
  - rewrite for_loop_0. split; [lra|]. intros i Hi. lia.
  - rewrite for_loop_S. split.
    + eapply Rle_trans; [apply Rmin_l|exact IH1].
    + intros i Hi. destruct (decide (i = n)) as [->|Hne]; [apply Rmin_r|].
      eapply Rle_trans; [apply Rmin_l|]. apply IH2. lia.
Qed.

Section SetTime_Step_dual_time.
Context {CSysMatrix : Type}.
Variables (geometry : CGeometry) (s : CIncNSSolver CSysMatrix) (config : CConfig).

(** Lines 661-799 leave the local CFL number of every point alone. *)
Lemma SetTime_Step_local_accumulate_LocalCFL (iPoint : nat) :
  GetLocalCFL
    (nodes (ts_solver (SetTime_Step_local geometry config
                         (SetTime_Step_accumulate geometry s config)))) iPoint
  = GetLocalCFL (nodes s) iPoint.
Proof.
  unfold GetLocalCFL. rewrite SetTime_Step_local_nodes.
  apply (for_loop_invariant
           (fun nd => LocalCFL (nd !!! iPoint) = LocalCFL (nodes s !!! iPoint))).
  - unfold SetTime_Step_accumulate. cbv zeta. cbn [ts_solver nodes set_nodes].
    apply (SetTime_Step_spectral_radii_ind geometry config
             (fun nd => LocalCFL (nd !!! iPoint) = LocalCFL (nodes s !!! iPoint))).
    + cbn [nPointDomain nodes set_Max_Delta_Time set_Min_Delta_Time].
      rewrite SetTime_Step_reset_pointwise.
      apply (for_loop_invariant
               (fun nd => LocalCFL (nd !!! iPoint) = LocalCFL (nodes s !!! iPoint)));
        [reflexivity|].
      intros i nd _ Hnd.
      rewrite (alter_lookup_total_proj LocalCFL); [exact Hnd|reflexivity].
    + intros i v nd _ _ Hnd. unfold AddMax_Lambda_Inv.
      rewrite (alter_lookup_total_proj LocalCFL); [exact Hnd|reflexivity].
    + intros i v nd _ Hnd. unfold AddMax_Lambda_Visc.
      rewrite (alter_lookup_total_proj LocalCFL); [exact Hnd|reflexivity].
  - intros i nd _ Hnd.
    rewrite (alter_lookup_total_proj LocalCFL); [exact Hnd|reflexivity].
Qed.

(** X25.  On the first iteration of a dual-time run on the finest mesh with a
    non-zero unsteady CFL number, [SetTime_Step] stores a physical time step
    that is at most 1e30 and, for every owned point, at most the unsteady
    CFL number times the global pseudo time step divided by the local CFL
    number of the point. *)
Theorem SetTime_Step_dual_time_physical_step (iMesh Iteration : nat) :
  dual_time_marching config = true ->
  Iteration = 0%nat -> Unst_CFL config <> 0 -> iMesh = MESH_0 ->
  let final := SetTime_Step geometry s config iMesh Iteration in
  let physical := Delta_UnstTimeND (ts_config final) in
  physical <= 1e30 /\
  forall iPoint, (iPoint < nPointDomain s)%nat ->
    physical
    <= Unst_CFL config * Global_Delta_Time final / GetLocalCFL (nodes s) iPoint.
Proof.
  intros Hdual HIter HCFL HMesh final physical.
  assert (Hmarch : Time_Marching config <> TIME_STEPPING).
  { unfold dual_time_marching in Hdual. intros Hts. rewrite Hts in Hdual.
    discriminate Hdual. }
  destruct (SetTime_Step_extrema_local geometry s config iMesh Iteration Hmarch)
    as (_ & _ & HG).
  cbv zeta in HG. fold final in HG.
  set (local := SetTime_Step_local geometry config
                  (SetTime_Step_accumulate geometry s config)) in *.
  assert (Hcfg : ts_config local = config)
    by apply SetTime_Step_local_accumulate_config.
  assert (Hphys :
    physical
    = for_loop (nPointDomain s)
        (fun iPoint acc =>
           Rmin acc (Unst_CFL config * Global_Delta_Time final
                     / GetLocalCFL (nodes s) iPoint))
        1e30).
  { subst physical final. unfold SetTime_Step in *. cbv zeta in *. fold local in HG |- *.
    rewrite SetTime_Step_dual_time_clip_config.
    rewrite (SetTime_Step_time_stepping_skip local) in HG |- *
      by (rewrite Hcfg; exact Hmarch).
    rewrite HG. unfold SetTime_Step_unsteady_step. rewrite Hcfg, Hdual.
    rewrite !bool_decide_eq_true_2 by assumption.
    cbn [andb ts_config Delta_UnstTimeND SetDelta_UnstTimeND].
    subst local. rewrite SetTime_Step_local_nPointDomain,
      SetTime_Step_accumulate_nPointDomain.
    apply for_loop_ext. intros i acc _.
    rewrite SetTime_Step_local_accumulate_LocalCFL. reflexivity. }
  rewrite Hphys. apply for_loop_Rmin_le.
Qed.

End SetTime_Step_dual_time.

(** The example mesh, dual-time run with an unsteady CFL number of 5. *)
Lemma SetTime_Step_dual_time_physical_step_witness :
  Delta_UnstTimeND
    (ts_config (SetTime_Step (example_geometry 1)
                  (example_solver 1 example_unsteady_CFL_config)
                  example_unsteady_CFL_config 0 0))
  <= 1e30.
Proof.
  assert (Hdual : dual_time_marching example_unsteady_CFL_config = true) by reflexivity.
  assert (HCFL : Unst_CFL example_unsteady_CFL_config <> 0) by (cbn; lra).
  exact (proj1 (SetTime_Step_dual_time_physical_step (example_geometry 1)
                  (example_solver 1 example_unsteady_CFL_config)
                  example_unsteady_CFL_config 0 0 Hdual eq_refl HCFL eq_refl)).
Defined.

(** ** SetTime_Step: the time-step data found on entry is not used *)

(** Two loops with the same body keep a relation that the body keeps. *)
Lemma for_loop_rel {S} (R : nat -> S -> S -> Prop) (n : nat)
    (body : nat -> S -> S) (a b : S) :
  R 0%nat a b ->
  (forall i a b, (i < n)%nat -> R i a b -> R (Datatypes.S i) (body i a) (body i b)) ->
  R n (for_loop n body a) (for_loop n body b).
Proof.
  intros Hab Hbody. induction n as [|n IH]; [exact Hab|].
  rewrite !for_loop_S. apply Hbody; [lia|]. apply IH.
  intros i a' b' Hi. apply Hbody. lia.
Qed.

Lemma same_but_Delta_Time_refl (p : CIncNSVariable) : same_but_Delta_Time p p.
Proof. reflexivity. Qed.

Lemma same_but_Delta_Time_fields (p q : CIncNSVariable) :
  same_but_Delta_Time p q ->
  Velocity q = Velocity p /\ BetaInc2 q = BetaInc2 p /\
  LaminarViscosity q = LaminarViscosity p /\ EddyViscosity q = EddyViscosity p /\
  Density q = Density p /\ ThermalConductivity q = ThermalConductivity p /\
  SpecificHeatCv q = SpecificHeatCv p /\ LocalCFL q = LocalCFL p /\
  Max_Lambda_Inv q = Max_Lambda_Inv p /\ Max_Lambda_Visc q = Max_Lambda_Visc p.
Proof.
  unfold same_but_Delta_Time. destruct p, q. cbn. intros H. injection H.
  intros. subst. repeat split.
Qed.

Lemma same_but_Delta_Time_set (v : su2double) (p q : CIncNSVariable) :
  same_but_Delta_Time p q -> set_Delta_Time v q = set_Delta_Time v p.
Proof.
  unfold same_but_Delta_Time. destruct p, q. cbn. intros H. injection H.
  intros. subst. reflexivity.
Qed.

Lemma same_but_Delta_Time_radii (f g : su2double -> su2double) (p q : CIncNSVariable) :
  same_but_Delta_Time p q ->
  same_but_Delta_Time
    (set_Max_Lambda_Visc (g (Max_Lambda_Visc p))
       (set_Max_Lambda_Inv (f (Max_Lambda_Inv p)) p))
    (set_Max_Lambda_Visc (g (Max_Lambda_Visc q))
       (set_Max_Lambda_Inv (f (Max_Lambda_Inv q)) q)).
Proof.
  unfold same_but_Delta_Time. destruct p, q. cbn. intros H. injection H.
  intros. subst. reflexivity.
Qed.

Lemma same_but_Delta_Times_alter (n i : nat)
    (f : CIncNSVariable -> CIncNSVariable) (nd nd2 : CVariable) :
  (i < n)%nat ->
  (forall p q, same_but_Delta_Time p q -> same_but_Delta_Time (f p) (f q)) ->
  same_but_Delta_Times n nd nd2 ->
  same_but_Delta_Times n (alter f i nd) (alter f i nd2).
Proof.
  intros Hi Hf [HF Hhalo]. split.
  - apply Forall2_alter; [exact HF|]. intros x y _ _. apply Hf.
  - intros k Hk. rewrite !list_lookup_alter_ne by lia. apply Hhalo, Hk.
Qed.

Lemma same_but_Delta_Times_lookup (n : nat) (nd nd2 : CVariable) (k : nat) :
  same_but_Delta_Times n nd nd2 ->
  same_but_Delta_Time (nd !!! k) (nd2 !!! k).
Proof.
  intros [HF _]. apply Forall2_lookup_total_rel; [reflexivity|exact HF].
Qed.

(** The quantities that [SetTime_Step] reads agree on such containers. *)
Lemma same_but_Delta_Times_getters (n nDim : nat) (nd nd2 : CVariable) (k : nat)
    (val_vector : list su2double) :
  same_but_Delta_Times n nd nd2 ->
  GetProjVel nDim nd2 k val_vector = GetProjVel nDim nd k val_vector /\
  GetBetaInc2 nd2 k = GetBetaInc2 nd k /\
  GetLaminarViscosity nd2 k = GetLaminarViscosity nd k /\
  GetEddyViscosity nd2 k = GetEddyViscosity nd k /\
  GetDensity nd2 k = GetDensity nd k /\
  GetThermalConductivity nd2 k = GetThermalConductivity nd k /\
  GetSpecificHeatCv nd2 k = GetSpecificHeatCv nd k /\
  GetLocalCFL nd2 k = GetLocalCFL nd k /\
  GetMax_Lambda_Inv nd2 k = GetMax_Lambda_Inv nd k /\
  GetMax_Lambda_Visc nd2 k = GetMax_Lambda_Visc nd k.
Proof.
  intros H.
  destruct (same_but_Delta_Time_fields _ _ (same_but_Delta_Times_lookup n nd nd2 k H))
    as (H1 & H2 & H3 & H4 & H5 & H6 & H7 & H8 & H9 & H10).
  unfold GetProjVel, GetBetaInc2, GetLaminarViscosity, GetEddyViscosity, GetDensity,
    GetThermalConductivity, GetSpecificHeatCv, GetLocalCFL, GetMax_Lambda_Inv,
    GetMax_Lambda_Visc.
  rewrite H1, H2, H3, H4, H5, H6, H7, H8, H9, H10. repeat split.
Qed.

Section SetTime_Step_stale.
Variables (geometry : CGeometry) (config : CConfig) (n : nat).
Hypothesis Hown : forall i, GetDomain geometry i = true -> (i < n)%nat.

Lemma same_but_Delta_Times_Add_Inv (i : nat) (v : su2double) (nd nd2 : CVariable) :
  same_but_Delta_Times n nd nd2 ->
  same_but_Delta_Times n
    (if GetDomain geometry i then AddMax_Lambda_Inv i v nd else nd)
    (if GetDomain geometry i then AddMax_Lambda_Inv i v nd2 else nd2).
Proof.
  intros H. destruct (GetDomain geometry i) eqn:Hi; [|exact H].
  apply same_but_Delta_Times_alter; [apply Hown, Hi| |exact H].
  intros p q Hpq.
  apply (same_but_Delta_Time_radii (fun x => x + v) (fun x => x) p q) in Hpq.
  destruct p, q. exact Hpq.
Qed.

Lemma same_but_Delta_Times_Add_Visc (i : nat) (v : su2double) (nd nd2 : CVariable) :
  same_but_Delta_Times n nd nd2 ->
  same_but_Delta_Times n
    (if GetDomain geometry i then AddMax_Lambda_Visc i v nd else nd)
    (if GetDomain geometry i then AddMax_Lambda_Visc i v nd2 else nd2).
Proof.
  intros H. destruct (GetDomain geometry i) eqn:Hi; [|exact H].
  apply same_but_Delta_Times_alter; [apply Hown, Hi| |exact H].
  intros p q Hpq.
  apply (same_but_Delta_Time_radii (fun x => x) (fun x => x + v) p q) in Hpq.
  destruct p, q. exact Hpq.
Qed.

Lemma SetTime_Step_edge_rel (nDim : nat) (dynamic_grid : bool) (iEdge : nat)
    (nd nd2 : CVariable) :
  same_but_Delta_Times n nd nd2 ->
  same_but_Delta_Times n
    (SetTime_Step_edge geometry config nDim dynamic_grid iEdge nd)
    (SetTime_Step_edge geometry config nDim dynamic_grid iEdge nd2).
Proof.
  intros H. unfold SetTime_Step_edge. cbv zeta.
  set (iPoint := edge_Node_0 (GetEdge geometry iEdge)).
  set (jPoint := edge_Node_1 (GetEdge geometry iEdge)).
  set (Normal := edge_Normal (GetEdge geometry iEdge)).
  destruct (same_but_Delta_Times_getters n nDim nd nd2 iPoint Normal H)
    as (Hi1 & Hi2 & _).
  destruct (same_but_Delta_Times_getters n nDim nd nd2 jPoint Normal H)
    as (Hj1 & Hj2 & _).
  rewrite Hi1, Hi2, Hj1, Hj2.
  set (Lambda := Rabs _ + sqrt _).
  pose proof (same_but_Delta_Times_Add_Inv jPoint Lambda _ _
                (same_but_Delta_Times_Add_Inv iPoint Lambda _ _ H)) as Hb.
  set (ndb := if GetDomain geometry jPoint then _ else _) in Hb at 1.
  set (ndb2 := if GetDomain geometry jPoint then _ else _) in Hb.
  fold ndb. fold ndb2.
  destruct (same_but_Delta_Times_getters n nDim ndb ndb2 iPoint Normal Hb)
    as (_ & _ & Hi3 & Hi4 & Hi5 & Hi6 & Hi7 & _).
  destruct (same_but_Delta_Times_getters n nDim ndb ndb2 jPoint Normal Hb)
    as (_ & _ & Hj3 & Hj4 & Hj5 & Hj6 & Hj7 & _).
  rewrite Hi3, Hi4, Hi5, Hi6, Hi7, Hj3, Hj4, Hj5, Hj6, Hj7.
  clearbody ndb ndb2.
  apply same_but_Delta_Times_Add_Visc, same_but_Delta_Times_Add_Visc, Hb.
Qed.

Lemma SetTime_Step_vertex_rel (nDim : nat) (dynamic_grid : bool)
    (iMarker iVertex : nat) (nd nd2 : CVariable) :
  same_but_Delta_Times n nd nd2 ->
  same_but_Delta_Times n
    (SetTime_Step_vertex geometry config nDim dynamic_grid iMarker iVertex nd)
    (SetTime_Step_vertex geometry config nDim dynamic_grid iMarker iVertex nd2).
Proof.
  intros H. unfold SetTime_Step_vertex. cbv zeta.
  set (iPoint := vertex_Node (GetVertex geometry iMarker iVertex)).
  set (Normal := vertex_Normal (GetVertex geometry iMarker iVertex)).
  destruct (same_but_Delta_Times_getters n nDim nd nd2 iPoint Normal H)
    as (Hi1 & Hi2 & _).
  rewrite Hi1, Hi2.
  set (Lambda := Rabs _ + sqrt _).
  pose proof (same_but_Delta_Times_Add_Inv iPoint Lambda _ _ H) as Hb.
  set (ndb := if GetDomain geometry iPoint then _ else _) in Hb at 1.
  set (ndb2 := if GetDomain geometry iPoint then _ else _) in Hb.
  fold ndb. fold ndb2.
  destruct (same_but_Delta_Times_getters n nDim ndb ndb2 iPoint Normal Hb)
    as (_ & _ & Hi3 & Hi4 & Hi5 & Hi6 & Hi7 & _).
  rewrite Hi3, Hi4, Hi5, Hi6, Hi7.
  clearbody ndb ndb2.
  apply same_but_Delta_Times_Add_Visc, Hb.
Qed.

End SetTime_Step_stale.

Lemma same_time_step_input_reset (p q : CIncNSVariable) :
  same_time_step_input p q ->
  same_but_Delta_Time (set_Max_Lambda_Visc 0 (set_Max_Lambda_Inv 0 p))
                      (set_Max_Lambda_Visc 0 (set_Max_Lambda_Inv 0 q)).
Proof.
  unfold same_time_step_input, same_flow_state, same_but_Delta_Time.
  destruct p, q. cbn. intros ((?&?&?&?&?&?&?&?&?&?&?&?&?)&?). subst. reflexivity.
Qed.

(** Writes of the points and of the extreme time steps keep two solvers in
    agreement outside the points. *)
Lemma same_but_nodes_step {CSysMatrix} (t2 t : CIncNSSolver CSysMatrix)
    (nd2 nd : CVariable) (a b : su2double) :
  t2 = set_nodes (nodes t2) t ->
  set_nodes nd2 (set_Max_Delta_Time a (set_Min_Delta_Time b t2))
  = set_nodes nd2 (set_nodes nd (set_Max_Delta_Time a (set_Min_Delta_Time b t))) /\
  set_nodes nd2 t2 = set_nodes nd2 (set_nodes nd t).
Proof. intros ->. destruct t. split; reflexivity. Qed.

Section SetTime_Step_stale_solver.
Context {CSysMatrix : Type}.
Variables (geometry : CGeometry) (config : CConfig).
Variables (s s2 : CIncNSSolver CSysMatrix).
Hypothesis Hown : forall i, GetDomain geometry i = true -> (i < nPointDomain s)%nat.
Hypothesis Hsolver : same_solver_but_time_steps s s2.
Hypothesis Hinput : Forall2 same_time_step_input (nodes s) (nodes s2).
Hypothesis Hhalo : forall i, (nPointDomain s <= i)%nat -> nodes s2 !! i = nodes s !! i.

Lemma SetTime_Step_stale_fields :
  nDim s2 = nDim s /\ dynamic_grid s2 = dynamic_grid s /\
  nPointDomain s2 = nPointDomain s /\
  set_Max_Delta_Time 0 (set_Min_Delta_Time 1e30 s2)
  = set_nodes (nodes s2) (set_Max_Delta_Time 0 (set_Min_Delta_Time 1e30 s)).
Proof.
  unfold same_solver_but_time_steps in Hsolver.
  split; [rewrite Hsolver; reflexivity|].
  split; [rewrite Hsolver; reflexivity|].
  split; [rewrite Hsolver; reflexivity|].
  rewrite Hsolver at 1. destruct s. reflexivity.
Qed.

Lemma SetTime_Step_reset_rel :
  same_but_Delta_Times (nPointDomain s)
    (SetTime_Step_reset (nPointDomain s) (nodes s))
    (SetTime_Step_reset (nPointDomain s) (nodes s2)).
Proof.
  rewrite !SetTime_Step_reset_pointwise. split.
  - apply Forall2_same_length_lookup. split.
    + rewrite !(length_for_loop_pointwise
                  (fun _ p => set_Max_Lambda_Visc 0 (set_Max_Lambda_Inv 0 p))).
      exact (Forall2_length _ _ _ Hinput).
    + intros i x y.
      rewrite !(for_loop_pointwise
                  (fun _ p => set_Max_Lambda_Visc 0 (set_Max_Lambda_Inv 0 p))).
      case_decide as Hi.
      * destruct (nodes s !! i) as [p|] eqn:Hp; [|discriminate].
        destruct (nodes s2 !! i) as [q|] eqn:Hq; [|discriminate].
        cbn. intros [= <-] [= <-]. apply same_time_step_input_reset.
        exact (Forall2_lookup_lr _ _ _ _ _ _ Hinput Hp Hq).
      * rewrite Hhalo by lia. intros -> [= <-]. reflexivity.
  - intros i Hi.
    rewrite !(for_loop_pointwise
                (fun _ p => set_Max_Lambda_Visc 0 (set_Max_Lambda_Inv 0 p))).
    rewrite !decide_False by lia. apply Hhalo, Hi.
Qed.

Lemma SetTime_Step_spectral_radii_rel :
  same_but_Delta_Times (nPointDomain s)
    (SetTime_Step_spectral_radii geometry config
       (set_Max_Delta_Time 0 (set_Min_Delta_Time 1e30 s)))
    (SetTime_Step_spectral_radii geometry config
       (set_Max_Delta_Time 0 (set_Min_Delta_Time 1e30 s2))).
Proof.
  destruct SetTime_Step_stale_fields as (Hd & Hg & Hn & _).
  unfold SetTime_Step_spectral_radii. cbv zeta.
  cbn [nPointDomain nodes nDim dynamic_grid set_Max_Delta_Time set_Min_Delta_Time].
  rewrite Hd, Hg, Hn.
  apply (for_loop_rel (fun _ => same_but_Delta_Times (nPointDomain s))).
  - apply (for_loop_rel (fun _ => same_but_Delta_Times (nPointDomain s)));
      [apply SetTime_Step_reset_rel|].
    intros i a b _ Hab. apply SetTime_Step_edge_rel; assumption.
  - intros iMarker a b _ Hab. destruct (_ && _); [|exact Hab].
    apply (for_loop_rel (fun _ => same_but_Delta_Times (nPointDomain s)));
      [exact Hab|].
    intros i a' b' _ Hab'. apply SetTime_Step_vertex_rel; assumption.
Qed.

(** The loop of lines 780-799 on two states that differ in local time steps
    only ends in the same state. *)
Lemma SetTime_Step_local_rel :
  SetTime_Step_local geometry config (SetTime_Step_accumulate geometry s2 config)
  = SetTime_Step_local geometry config (SetTime_Step_accumulate geometry s config).
Proof.
  destruct SetTime_Step_stale_fields as (Hd & Hg & Hn & Hs0).
  pose proof SetTime_Step_spectral_radii_rel as Hsr.
  unfold SetTime_Step_local, SetTime_Step_accumulate. cbv zeta.
  cbn [ts_solver nPointDomain set_nodes set_Max_Delta_Time set_Min_Delta_Time].
  rewrite Hn.
  set (n := nPointDomain s) in *.
  pose (R := fun (k : nat) (st2 st : TimeStep_state CSysMatrix) =>
    ts_config st2 = ts_config st /\ Global_Delta_Time st2 = Global_Delta_Time st /\
    divisions st2 = divisions st /\
    ts_solver st2 = set_nodes (nodes (ts_solver st2)) (ts_solver st) /\
    same_but_Delta_Times n (nodes (ts_solver st)) (nodes (ts_solver st2)) /\
    forall i, (i < k)%nat -> nodes (ts_solver st2) !! i = nodes (ts_solver st) !! i).
  match goal with
  | |- for_loop n ?body ?a = for_loop n ?body ?b =>
      assert (HR : R n (for_loop n body a) (for_loop n body b))
  end.
  { apply (for_loop_rel R).
    - unfold R. cbn [ts_config Global_Delta_Time divisions ts_solver nodes set_nodes].
      split; [reflexivity|]. split; [reflexivity|]. split; [reflexivity|].
      split; [rewrite Hs0; destruct s; reflexivity|].
      split; [exact Hsr|]. intros i Hi. lia.
    - intros i st2 st Hi (Hc & HG & Hdv & Hs & Hnd & Heq). unfold R.
      assert (HMin : Min_Delta_Time (ts_solver st2) = Min_Delta_Time (ts_solver st))
        by (rewrite Hs; reflexivity).
      assert (HMax : Max_Delta_Time (ts_solver st2) = Max_Delta_Time (ts_solver st))
        by (rewrite Hs; reflexivity).
      destruct (same_but_Delta_Times_getters n 0 _ _ i [] Hnd)
        as (_ & _ & _ & _ & _ & _ & _ & HCFL & HI & HV).
      unfold SetTime_Step_point, divide_by_radius. cbv zeta.
      rewrite HCFL, HI, HV, HG, Hdv, Hc, HMin, HMax.
      assert (Hstep : forall v,
        same_but_Delta_Times n
          (SetDelta_Time i v (nodes (ts_solver st)))
          (SetDelta_Time i v (nodes (ts_solver st2))) /\
        forall k, (k < Datatypes.S i)%nat ->
          SetDelta_Time i v (nodes (ts_solver st2)) !! k
          = SetDelta_Time i v (nodes (ts_solver st)) !! k).
      { intros v. unfold SetDelta_Time. split.
        - apply same_but_Delta_Times_alter; [exact Hi| |exact Hnd].
          intros p q Hpq. unfold same_but_Delta_Time.
          rewrite (same_but_Delta_Time_set v p q Hpq). reflexivity.
        - intros k Hk. destruct (decide (i = k)) as [<-|Hne].
          + rewrite !list_lookup_alter_eq. destruct Hnd as [HF _].
            destruct (nodes (ts_solver st) !! i) as [p|] eqn:Hp.
            * destruct (Forall2_lookup_l _ _ _ _ _ HF Hp) as (q & -> & Hpq).
              cbn. f_equal. apply same_but_Delta_Time_set, Hpq.
            * apply lookup_ge_None in Hp. rewrite (Forall2_length _ _ _ HF) in Hp.
              apply lookup_ge_None in Hp. rewrite Hp. reflexivity.
          + rewrite !list_lookup_alter_ne by exact Hne. apply Heq. lia. }
      destruct (decide (GetVolume geometry i <> 0));
        cbn [ts_config Global_Delta_Time divisions ts_solver];
        (split; [reflexivity|]); (split; [reflexivity|]); (split; [reflexivity|]);
        (split; [|cbn [nodes set_nodes]; apply Hstep]).
      + exact (proj1 (same_but_nodes_step _ _ _ _ _ _ Hs)).
      + exact (proj2 (same_but_nodes_step _ _ _ _ 0 0 Hs)). }
  destruct HR as (Hc & HG & Hdv & Hs & [HF Hh] & Heq).
  match goal with
  | |- ?a = ?b => set (st2 := a) in *; set (st := b) in *
  end.
  assert (Hnodes : nodes (ts_solver st2) = nodes (ts_solver st)).
  { apply list_eq. intros i. destruct (decide (i < n)%nat) as [Hi|Hi];
      [apply Heq, Hi|apply Hh; lia]. }
  assert (Hsolver' : ts_solver st2 = ts_solver st).
  { rewrite Hs, Hnodes. destruct (ts_solver st). reflexivity. }
  clearbody st2 st. destruct st2, st. cbn in *. subst. reflexivity.
Qed.

End SetTime_Step_stale_solver.

Section SetTime_Step_stale_theorem.
Context {CSysMatrix : Type}.
Variables (geometry : CGeometry) (config : CConfig).

(** X26.  [SetTime_Step] does not use the time-step data it finds: on a mesh
    whose owned points are those below [nPointDomain], two solvers that
    agree in everything but the spectral radii and the time steps of the
    owned points and the smallest and largest time step leave [SetTime_Step]
    in the same state, with the same configuration and global step. *)
Theorem SetTime_Step_ignores_old_time_steps (s s2 : CIncNSSolver CSysMatrix)
    (iMesh Iteration : nat) :
  (forall i, GetDomain geometry i = true -> (i < nPointDomain s)%nat) ->
  s2 = set_Max_Delta_Time (Max_Delta_Time s2)
         (set_Min_Delta_Time (Min_Delta_Time s2) (set_nodes (nodes s2) s)) ->
  Forall2 same_time_step_input (nodes s) (nodes s2) ->
  (forall i, (nPointDomain s <= i)%nat -> nodes s2 !! i = nodes s !! i) ->
  SetTime_Step geometry s2 config iMesh Iteration
  = SetTime_Step geometry s config iMesh Iteration.
Proof.
  intros Hown Hsolver Hinput Hhalo. unfold SetTime_Step. cbv zeta.
  rewrite (SetTime_Step_local_rel geometry config s s2 Hown Hsolver Hinput Hhalo).
  reflexivity.
Qed.

End SetTime_Step_stale_theorem.

(** The example solver and a copy whose wall point carries a time step of 99
    and spectral radii of 5 and 6 from an earlier iteration. *)
Lemma SetTime_Step_ignores_old_time_steps_witness :
  let s := example_solver 1 example_steady_config in
  let s2 := set_nodes
              (alter (fun p => set_Delta_Time 99
                                 (set_Max_Lambda_Visc 6 (set_Max_Lambda_Inv 5 p)))
                     0%nat (nodes s)) s in
  SetTime_Step (example_geometry 1) s2 example_steady_config 0 0
  = SetTime_Step (example_geometry 1) s example_steady_config 0 0.
Proof.
  intros s s2.
  assert (Hown : forall i, GetDomain (example_geometry 1) i = true ->
                           (i < nPointDomain s)%nat).
  { intros [|[|i]] Hi; [cbn; lia|cbn; lia|discriminate Hi]. }
  assert (Hsolver : s2 = set_Max_Delta_Time (Max_Delta_Time s2)
                           (set_Min_Delta_Time (Min_Delta_Time s2)
                              (set_nodes (nodes s2) s))) by reflexivity.
  assert (Hinput : Forall2 same_time_step_input (nodes s) (nodes s2)).
  { repeat constructor. }
  assert (Hhalo : forall i, (nPointDomain s <= i)%nat -> nodes s2 !! i = nodes s !! i).
  { intros i Hi. cbn in Hi. destruct i as [|[|i]]; [lia|lia|reflexivity]. }
  exact (SetTime_Step_ignores_old_time_steps (example_geometry 1) example_steady_config
           s s2 0 0 Hown Hsolver Hinput Hhalo).
Defined.
